(* ===== verification/_CoqProject ===== *)
-Q . S2P
Prelude.v
GoStrings.v
Json.v
JsonText.v
Errors.v
Handler.v
Status.v
BinaryFrame.v
Route.v
Layer.v
Registry.v
Reconcile.v
Bind.v
Wrap.v
App.v
Pipeline.v
Frames.v
Client.v
Loop.v
Serve.v
Serverless.v
Encoding.v
Lambda.v
Values.v
Store.v
Matching.v
Memory.v
Paging.v
DynamoKeys.v
DynamoStore.v
Agreement.v
Config.v
ConfigBind.v
Resources.v
RedisSlots.v
RedisCache.v
AwsService.v
Batch.v
Bucket.v
S3.v
ConfigStores.v
LocalSession.v
Manifest.v
GoSyntax.v
References.v
Gathering.v
Reaching.v
Generate.v
Contracts.v
Traced.v
Recording.v
Doubles.v
SqlDatabase.v
CacheTokens.v
Driving.v
Pushing.v
Playground.v
Logging.v
Extraction.v
Command.v
SqlConn.v
Running.v
AwsProvider.v
Dialling.v
Otel.v
AwsTracing.v
DevSession.v
Handles.v
