(* ===== verification/Prelude.v ===== *)
(** * celerity-go-sdk: a verification library

    The Celerity SDK for Go lets an application register handlers for HTTP requests,
    WebSocket messages, queues, schedules and direct invocations, and serves them either
    to the Celerity runtime, over one long-lived stream, or to a serverless platform, one
    invocation at a time; and it gives handlers the application's configuration and the
    resources a deployment created for it: data stores, caches, buckets, queues, topics and
    SQL databases.  This library models what lies between an event's arrival and its answer,
    configuration, the resources with their spans and their doubles for tests, a test's own
    dispatches, and the command that reads an application's source and generates its imports,
    as executable definitions, and proves what makes them correct.

    ** The program, and which file models what

    - Values.  [GoStrings] is what the code uses of package strings, strconv and fmt's
      [%q]; [Json] is encoding/json of the values the SDK encodes itself; [Errors] is the
      error values of [handler/status.go] and [handler/validation.go], with the chain
      [errors.As] walks; [Handler] is the vocabulary of [handler/handler.go] and
      [handler/websocket_sender.go]: requests, messages, batches, events, results.
    - Answers.  [Status] is [handler/status.go] and [handler/validation.go]: the errors an
      application makes and the response each becomes.
    - Wire formats.  [BinaryFrame] is [handler/binary_frame.go], with the client's reader
      as the specification it is proved against; [Route] is [handler/route.go] and the
      route matching of [celeritytest/route.go].
    - The pipeline.  [Layer] is [layer/layer.go], the context and the tracing seam
      ([telemetry/tracer.go], [celerity/context.go]); [Otel] is which tracer is installed and
      [telemetry/otel]; [Registry] is
      [celerity/registry.go] and [celerity/tags.go], with registrations in a heap since
      reconciliation writes through the pointers others hold; [Reconcile] is
      [celerity/reconcile.go]; [Bind] is [celerity/bind.go]; [Wrap] is [celerity/wrap.go]
      and [celerity/validate.go]; [App] is [celerity/app.go], [celerity/register.go] and
      [celerity/host.go]; [Pipeline] is [celerity/pipeline.go] and the modes and resolvers of
      [celerity/run.go], whose running and shutting down is [Running].
    - The runtime's stream.  [Frames] is [internal/ipc/frames.go] and
      [internal/ipc/convert.go] against the generated messages; [Client] is
      [internal/ipc/client.go] and [internal/ipc/dial.go]: handshake, one dispatch, and
      the framing of sends; [Loop] is [internal/ipc/loop.go] and the waiting half of
      [internal/ipc/websocket.go], as a transition system; [Dialling] is
      [internal/ipc/grpc.go], the stream's opening and closing; [Serve] joins [Client] to
      [App], as [celerity/runtime.go] does.
    - Serverless.  [Serverless] is [serverless/serve.go], [serverless/event.go] and
      [serverless/registry.go]: resolution, mapping, receipts and answers; [Lambda] is
      the adapter of [serverless/aws], an instance of its interfaces, over the base64,
      UTF-8 and query strings of [Encoding]; [Pushing] is its sender.

    - Values a store holds.  [JsonText] is the reading of JSON text, proved against the
      writing of [Json]; [Values] is Go's values behind [any], with float64 as IEEE 754, and
      the conversions encoding/json and fmt make of them.
    - Data stores.  [Store] is the contract of [resources/datastore]: conditions, updates,
      options, revisions, and the ranges over a listing; [Matching] is how the double reads
      conditions ([celeritytest/condition.go]) and [Memory] is the double itself
      ([celeritytest/datastore.go]), whose items share nested maps through a heap, with each
      other and with callers that gave them; [Paging] reads its listings through, the body of
      the range and the store being of one world.  [DynamoKeys] and [DynamoStore] are
      [resources/aws/datastore]: schemas, keys, cursors, expressions, batches and
      transactions as DynamoDB is sent them.  [Agreement] sets the two side by side.
    - Configuration.  [Config] is config/ but for [config/bind.go], which is [ConfigBind]:
      backends, namespaces and their caches, the service, links, scopes and discovery; and
      binding into a struct.  [ConfigStores] is the backends themselves, [config/aws] and
      [config/local].
    - Resources.  [Resources] is [resources/*.go]: references, what a deployment recorded,
      providers and handles.  [RedisSlots] and [RedisCache] are [resources/redis] and the
      options of [resources/cache].  [AwsService] is [resources/aws/internal/service], and
      [AwsProvider] the provider over it, and [AwsTracing] the
      middleware it puts on every client: one session, one client for a region, credentials, and work cut into requests.  [Batch] is
      queues and topics, their contracts, SQS and SNS clients and doubles; [Bucket] is the
      bucket's contract and double; [S3] is [resources/aws/bucket].  [SqlDatabase] and
      [SqlConn] are [resources/aws/sqldb] and what it uses of [resources/sqldb]: settings,
      connection strings, pools, and the adapters over database/sql; [CacheTokens] is
      [resources/aws/cache]; [LocalSession] is [resources/local], whose
      provider [DevSession] sets beside the platform's.
    - Spans and doubles.  [Contracts] is the operations of each kind of resource, as types
      indexed by what they answer; [Traced] is the wrappers of [resources/traced*.go], one
      instance of an interface for each contract, and [Handles] what [resources/handles.go]
      makes of them; [Recording] is the tracer a test records
      spans with; [Doubles] is the cache's stub, the database that refuses, and what hands
      doubles out beside live resources ([celeritytest/provider.go], [live.go]).
    - Tests.  [Driving] is the harness of [celeritytest]: every helper that makes an event of
      what a test says and dispatches it through the application's own pipeline.
      [Playground] is the adapter over a validation library, [Logging] the handler a
      development session's records are written by.
    - The command.  [Manifest] is the document an application describes itself with.
      [GoSyntax] is as much of Go's syntax, with what names refer to, as the command reads;
      [References] what it learns from it, [Gathering] the passes that collect it and why
      they end, [Reaching] the walk from a handler to the resources it reaches; [Generate]
      the imports a blueprint asks for; [Command] what running it changes in a tree;
      [Extraction] the order in which an application is built, run, read and described.

    An event takes this path.  From the stream, [Frames.fromRuntimeMessage] makes it an
    [Event], [Loop.recv_dispatch] admits a worker for it, and [Client.run_dispatch] runs
    what [Pipeline.resolvePipeline] finds under its tag.  From a platform,
    [Serverless.invoke] maps the payload with the adapter's mapper and runs what the
    [Resolver] finds.  In both, [Pipeline.Pipeline] puts context, span and logger, then
    guards ([Pipeline.guardLayer]), then layers ([Layer.Chain]) around a wrapper of
    [Wrap], which decodes ([Bind.bindRequest]), validates, runs and encodes.  The answer
    goes back through [Frames.resultTo] with one credit, or [Serverless.fromResult].  A
    resource is taken by name ([Resources.resolve]) and reached by what [Resources.ID] reads
    of the configuration, on the first call a handler makes.

    ** How the code is represented

    - A function answering a value and an error is a function into [result]; where both
      halves can be meaningful at once, and where it can panic, into [Layer.outcome].  A
      nil pointer is [None]; a definition that dereferences one answers an outer [None].
    - What the SDK does to the outside (spans, an application's own handlers, a platform's
      senders) is a function on a world [W] it is given and gives back.  Interfaces of the
      code are classes or records here: [Layer.Tracer], [Serverless.EventMapper],
      [Serverless.Adapter], [Serverless.Resolver], with their laws where a theorem uses
      them; [Layer.noopTracer] and [Serverless.app_resolver] are implementations.
    - What is not under src/ is a parameter: json.Unmarshal, json.Marshal and
      strconv.ParseFloat in [Bind] and [Wrap], the reading of JSON into Lambda's payload
      types in [Lambda], the tracer, the flusher, a platform's push of one message.
    - Integers are [Z] with their width written out: [Bind.ParseInt], [Frames.to_uint32],
      [Frames.to_int64], [BinaryFrame.byte_of].
    - Maps are [gmap]; where Go ranges over one and then sorts, the model sorts its keys
      ([sort_strings]).  Strings and byte slices are both [string]: bytes.
    - Goroutines exist in [Loop], as labels, and in [Pushing], as the order the pushes of one
      send take, of which every one is quantified over.  In [Loop] a label is one thing one of
      them does, the sender's taking of a frame and its sending being two; a run is a list of
      labels, each enabled where it stands, and invariants are proved by rule induction over
      runs ([Loop.reachable_ind]).  The credit the runtime holds is part of
      the state, and the runtime is assumed only to dispatch while it has some.
    - A service outside (DynamoDB, Redis, SQS, SNS, S3, a configuration store) is a record of
      the requests the code makes of it, functions of the world; a theorem that needs one to
      behave says so in a hypothesis, and its witness has one that does.  A call over it is a
      function of a small state: what the code keeps (a schema, a connection, the clients
      built, a namespace's cell) with the world.
    - Recursion is on lists, strings, types and the error chain.  Fuel is used where it is
      not: [Memory] reads an item out of its heap with the size of the heap, which is enough
      for every store the operations make ([Values.reify_total]); [JsonText.parse] with twice
      the length of its text ([JsonText.parse_json_text]); a range over a listing with
      pages, of which one more than there are items is enough ([Paging.Items_terminates],
      [Bucket.Objects_complete], [S3.Objects_lists_the_bucket]); [Prelude.chunks_of] with the
      length of its list ([Prelude.chunks_of_spec]); [Gathering] with one pass more than there
      are facts to learn ([Gathering.collecting_ends]); the walk of [Reaching] with the
      declarations left to visit ([Reaching.walk_reports]); [SqlDatabase.closePool] with the
      waits it takes ([SqlDatabase.closing_ends]); [Dialling.open_stream] with one attempt for
      each of the shortest waits there is time for, and two ([Dialling.dialling_ends]); and
      [RedisCache.walk] with the rounds of a scan, which are the server's to end.

    ** What the theorems show

    - Stream: the credit window is conserved, every dispatch is answered at most once and,
      by the time the loop has closed, answered or lost with the stream; a finished
      handler can always be answered; an acknowledgement reaches the send it is for; and
      a drain strands a send that is never acknowledged ([Loop]).  What a dispatch is
      answered with is settled in every case, panics included, with its own id and one credit
      but where a pipeline returns neither result nor error, which cannot be sent
      ([Client.run_dispatch_answers]).  Nothing is declared before the tags are settled,
      and what is declared is exactly what then resolves ([Client.handshake_spec],
      [Serve.serveRuntime_declares]).  Dialling a runtime that is not there ends, and no
      sooner than it was given ([Dialling.dialling_ends]).
    - Pipeline: guards decide before anything inside runs; layers nest in order; a wrapped
      handler answers its event or an error; a handler sees its own event, deadline,
      sender and logger; input that does not bind or validate is answered 400 and reaches
      no handler.
    - Registry: a tag is registered once; reconciliation puts every handler under the tag
      the blueprint gives it, and what it does where two are given one.
    - Formats: binary frames, routes, dispatches and results are read back as they were
      written, and exactly the representable ones are accepted.
    - Serverless: resolution happens once and in the documented precedence; a batch or a
      trigger that reaches no handler fails; a receipt is acknowledged before the handler
      runs; a function told a tag runs the very pipeline the stream's dispatcher runs.
    - Lambda: a request and a response keep the client's and the handler's very bytes,
      query values and path segments; headers are divided only where that is safe; a
      batch has one record to a message, and what becomes of a bucket notification with
      several; a client that asks for a receipt gets exactly one.

    - Data stores: a write conditional on a revision never overwrites what it did not read; an
      atomic write is made whole or not at all; what is stored is a finite document, where
      callers give each map once; a listing read through by a body that leaves the store alone
      ends, and gives every item once; the condition DynamoDB is sent holds exactly where the
      double makes the write, for tests with an operand of the attribute's own type; a cursor
      and a key read back; a batch is asked for whole, and brings back exactly what DynamoDB
      did not process ([Memory], [Paging], [Agreement],
      [DynamoKeys], [DynamoStore]).
    - Configuration: a read answers what its own store held, narrowed to its prefix and no
      older than an interval allows, and goes to the store at most once an interval;
      discovery does not depend on the order of the environment; binding a struct reads its
      fields as a flat list of keys, where its shape is bound as documented ([Config],
      [ConfigBind]); every page of parameters is
      collected ([ConfigStores.parameters_are_read_whole]).
    - Caches: the checksum of a key is the remainder CRC-16/XMODEM names; a batch read
      answers what the cache holds, one shard or several; a transaction never spans shards
      ([RedisSlots], [RedisCache]).
    - Queues, topics and buckets: every entry of a batch, and every object of a delete of
      many, comes back in exactly one list, whichever request fails ([Batch.Accounts], which
      the doubles keep too); versions are merged newest first; a bucket is listed whole; a
      deletion can be undone ([Batch], [S3], [Bucket]).  A send to many clients reports
      exactly those it did not reach, in whatever order they were tried ([Pushing]).
    - Databases: a connection string is read back, as net/url reads one, as what it was made
      of, for a host that has a name; an endpoint has one pool, or one failure, for good ([SqlDatabase]); no spent token is handed out
      ([CacheTokens]).
    - Spans and doubles: a handle answers and changes what its client does, and leaves one
      span that is ended whatever happens, but for the walk of a cache's keys
      ([Recording.traced_records]); everything handed out
      for one name is one thing ([Doubles.one_thing_per_name]).  A call to AWS leaves one span
      for each attempt ([AwsTracing.a_span_per_attempt]); a tracer's provider, propagators and
      flusher are installed together or not at all ([Otel.installed_together]).
    - Providers: an application takes the same handles developed and deployed, a queue and a
      topic from the session's backend in the one and everything from the platform in the
      other, whichever order they are linked in ([DevSession.developed_and_deployed]).
    - Tests: a helper's dispatch is the runtime's dispatch of the event it makes, for handlers
      that make no use of the WebSocket sender a test has none of, and the test goes on exactly
      where the runtime would be told of what it is shown ([Driving.a_test_is_a_dispatch]); the
      rows of a record are the values of its JSON ([Logging]);
      every rule an input breaks is one issue ([Playground]).
    - The command: gathering ends, and has then lost nothing it was meant to keep, in a source
      that gives no variable two functions; the walk lists what a handler reaches through the
      calls it follows ([Reaching]); the generated file links what the blueprint asks for and
      nothing else ([Generate]), the same in every package that calls Live, and nothing is
      written before it is known what ([Command]).

    Lemmas beside them show what the code does where it does less than its comments say: two
    handlers reconciled to one tag, a send stranded by a drain, a refused atomic write whose
    nested changes stay, errors kept for the life of a process, versions skipped between two
    pages, a range over a listing that cannot be repeated, a caller's map inside itself, a
    variable of two functions, a comparison across types.

    ** What is not modelled

    Signals and exit codes, gRPC itself, clocks and timeouts (a deadline is a value, its
    passing a label or a parameter), locks (each registry or store operation is one step), logging
    except for what is bound into a logger and the handler of [Logging], and reflection
    beyond the shapes [Bind] and [ConfigBind] give a type.  Of the resources: the
    instrumentation modules of Redis and of database/sql, which are calls of OpenTelemetry's
    own, as exporting spans is; and where the integration tests find what they run against.  Of the command: loading and type-checking
    packages, which give the syntax the model starts from, and the compiler and the binary
    it runs.  The generated messages, and the applications the repository tests itself
    with. *)

From stdpp Require Export base tactics gmap strings list fin_maps sorting pretty.
From stdpp Require Import options.
From Stdlib Require Export Ascii.

(** ** Fallible code

    A Go function returning [(T, error)] is a function into [result]: exactly
    one of the two halves is meaningful at every call site that is modelled. *)

Inductive result (E A : Type) : Type :=
  | Ok (a : A)
  | Err (e : E).
Arguments Ok {E A} a.
Arguments Err {E A} e.

Declare Scope go_scope.
Delimit Scope go_scope with go.
Open Scope go_scope.

Notation "'let!' x ':=' c 'in' k" :=
  (match c with Ok x => k | Err err => Err err end)
  (at level 10, x pattern, c at level 100, k at level 200) : go_scope.

Definition is_ok {E A} (r : result E A) : bool :=
  match r with Ok _ => true | Err _ => false end.

(** [if v, ok := ...; ok] on an option, as a boolean. *)
Definition is_some {A} (o : option A) : bool :=
  match o with Some _ => true | None => false end.

Lemma is_some_true {A} (o : option A) : is_some o = true ↔ is_Some o.
Proof. destruct o; split; intros H; try done; eauto; by destruct H. Qed.

Lemma is_some_false {A} (o : option A) : is_some o = false ↔ o = None.
Proof. destruct o; naive_solver. Qed.

(** The loop [for _, x := range xs { y, err := f(x); if err != nil { return err } ... }]. *)
Fixpoint try_map {E A B} (f : A → result E B) (xs : list A) : result E (list B) :=
  match xs with
  | [] => Ok []
  | x :: xs => let! y := f x in let! ys := try_map f xs in Ok (y :: ys)
  end.

(** ** Tactics *)

(** Case analysis on every [match] scrutinee and boolean test of the goal,
    closing the branches that contradict what is known. *)
Ltac cases := repeat (case_match; simplify_eq/=; try done).

(** Splits [andb], [orb] and [bool_decide] hypotheses into propositions. *)
Ltac bools :=
  repeat match goal with
  | H : _ && _ = true |- _ => apply andb_prop in H as [? ?]
  | H : _ && _ = false |- _ => apply andb_false_iff in H
  | H : _ || _ = false |- _ => apply orb_false_iff in H as [? ?]
  | H : negb _ = true |- _ => apply negb_true_iff in H
  | H : negb _ = false |- _ => apply negb_false_iff in H
  | H : bool_decide _ = true |- _ => apply bool_decide_eq_true in H
  | H : bool_decide _ = false |- _ => apply bool_decide_eq_false in H
  | H : is_some _ = true |- _ => apply is_some_true in H
  | H : is_some _ = false |- _ => apply is_some_false in H
  end.

Create HintDb go discriminated.

(** ** Lists *)

Section lists.
Context {A : Type}.
Implicit Types (l : list A).

(** Go's [xs[start:end]] for in-range bounds. *)
Definition slice (start stop : nat) l : list A := take (stop - start) (drop start l).

Lemma slice_full l : slice 0 (length l) l = l.
Proof. unfold slice. by rewrite drop_0, Nat.sub_0_r, firstn_all. Qed.

Lemma length_slice a b l : b ≤ length l → length (slice a b l) = b - a.
Proof. intros. unfold slice. rewrite length_take, length_drop. lia. Qed.

Lemma slice_app a b c l :
  a ≤ b → b ≤ c → slice a b l ++ slice b c l = slice a c l.
Proof.
  intros Hab Hbc. unfold slice.
  replace (c - a) with ((b - a) + (c - b)) by lia.
  rewrite <- (take_drop (b - a) (drop a l)) at 2.
  rewrite take_app, length_take, drop_drop.
  replace (a + (b - a)) with b by lia.
  destruct (decide (b - a ≤ length (drop a l))).
  - rewrite (take_ge (take (b - a) (drop a l)) (b - a + (c - b))).
    2:{ rewrite length_take. lia. }
    do 2 f_equal. lia.
  - rewrite (drop_ge l b).
    2:{ rewrite length_drop in *. lia. }
    rewrite !take_nil, !app_nil_r. symmetry. apply take_ge.
    rewrite length_take. lia.
Qed.

Lemma take_drop_slice n l : take n l = slice 0 n l.
Proof. unfold slice. by rewrite drop_0, Nat.sub_0_r. Qed.

(** Go's append in place of the element at the first match, used by the loops
    that break on the first hit. *)
Fixpoint replace_first `{EqDecision A} (from to : A) l : list A :=
  match l with
  | [] => []
  | x :: l => if decide (x = from) then to :: l else x :: replace_first from to l
  end.

Lemma replace_first_notin `{EqDecision A} from to l :
  from ∉ l → replace_first from to l = l.
Proof.
  induction l as [|y l IH]; simpl; intros Hn; [done|].
  apply not_elem_of_cons in Hn as [? ?].
  case_decide; [congruence | f_equal; auto].
Qed.

Lemma length_replace_first `{EqDecision A} from to l :
  length (replace_first from to l) = length l.
Proof. induction l; simpl; [done|]. case_decide; simpl; congruence. Qed.

Lemma elem_of_replace_first `{EqDecision A} from to l x :
  NoDup l → from ∈ l →
  x ∈ replace_first from to l ↔ x = to ∨ (x ∈ l ∧ x ≠ from).
Proof.
  induction 1 as [|y l Hy Hl IH]; simpl; [set_solver|].
  intros Hin. case_decide; subst.
  - rewrite !elem_of_cons. split; [|naive_solver].
    intros [->|Hx]; [by left|]. right. split; [by right|]. by intros ->.
  - assert (from ∈ l) by set_solver. rewrite !elem_of_cons, IH by done. naive_solver.
Qed.

Lemma NoDup_replace_first `{EqDecision A} from to l :
  NoDup l → to ∉ l → NoDup (replace_first from to l).
Proof.
  induction 1 as [|y l Hy Hl IH]; simpl; intros Hto; [constructor|].
  apply not_elem_of_cons in Hto as [Hne Hto].
  case_decide; constructor; auto.
  intros Hin. destruct (decide (from ∈ l)).
  - apply elem_of_replace_first in Hin; naive_solver.
  - by rewrite replace_first_notin in Hin.
Qed.
End lists.

(** A fold that may stop with an error keeps whatever invariant each of its
    steps keeps. *)
Lemma foldl_ind {A B} (P : A → Prop) (f : A → B → A) xs a :
  P a → (∀ a x, x ∈ xs → P a → P (f a x)) → P (foldl f a xs).
Proof.
  revert a. induction xs as [|x xs IH]; simpl; intros a Ha Hf; [done|].
  apply IH; [apply Hf; [left|done] |]. intros. apply Hf; [by right|done].
Qed.

(** ** Sorting, as [sort.Strings] does *)

Definition sort_strings (l : list string) : list string := merge_sort String.le l.

Lemma sort_strings_sorted l : StronglySorted String.le (sort_strings l).
Proof. apply StronglySorted_merge_sort; apply _. Qed.

Lemma sort_strings_perm l : sort_strings l ≡ₚ l.
Proof. apply merge_sort_Permutation. Qed.

Lemma elem_of_sort_strings x l : x ∈ sort_strings l ↔ x ∈ l.
Proof. by rewrite sort_strings_perm. Qed.

Lemma sort_strings_unique l1 l2 : l1 ≡ₚ l2 → sort_strings l1 = sort_strings l2.
Proof.
  intros Hp. apply (StronglySorted_unique String.le); try apply sort_strings_sorted.
  by rewrite !sort_strings_perm.
Qed.

Lemma sort_strings_id l : StronglySorted String.le l → sort_strings l = l.
Proof.
  intros Hl. apply (StronglySorted_unique String.le); auto using sort_strings_sorted.
  apply sort_strings_perm.
Qed.

Lemma sort_strings_NoDup l : NoDup l → NoDup (sort_strings l).
Proof. intros H. by rewrite sort_strings_perm. Qed.

#[export] Instance sort_strings_proper : Proper ((≡ₚ) ==> (=)) sort_strings.
Proof. intros ???. by apply sort_strings_unique. Qed.

#[export] Hint Resolve sort_strings_sorted sort_strings_perm sort_strings_NoDup : go.

(** The keys of a Go map, which the code always sorts before it shows them. *)
Definition keys {V} (m : gmap string V) : list string := (map_to_list m).*1.

Lemma elem_of_keys {V} (m : gmap string V) k : k ∈ keys m ↔ is_Some (m !! k).
Proof.
  unfold keys. rewrite list_elem_of_fmap. split.
  - intros ([k' v] & -> & Hin%elem_of_map_to_list). eauto.
  - intros [v Hv]. exists (k, v). split; [done|]. by apply elem_of_map_to_list.
Qed.

Lemma NoDup_keys {V} (m : gmap string V) : NoDup (keys m).
Proof. apply NoDup_fst_map_to_list. Qed.

Lemma length_keys {V} (m : gmap string V) : length (keys m) = size m.
Proof. unfold keys. rewrite length_fmap. apply length_map_to_list. Qed.

#[export] Hint Resolve NoDup_keys : go.

Lemma omap_ext_in {A B} (f g : A → option B) (l : list A) :
  (∀ x, x ∈ l → f x = g x) → omap f l = omap g l.
Proof.
  induction l as [|x l IH]; intros H; [done|].
  assert (omap f l = omap g l) as Hl by (apply IH; intros; apply H; by right).
  simpl. rewrite (H x) by left. destruct (g x); [f_equal|]; exact Hl.
Qed.

(** Looking up what every element names and reading the name back. *)
Lemma fmap_omap_key {A B} (f : A → option B) (g : B → A) (l : list A) :
  Forall (λ x, ∃ y, f x = Some y ∧ g y = x) l → g <$> omap f l = l.
Proof.
  induction 1 as [|x l (y & Hy & Hg) _ IH]; [done|].
  assert (omap f (x :: l) = y :: omap f l) as -> by (simpl; by rewrite Hy).
  by rewrite fmap_cons, Hg, IH.
Qed.

(** ** Chunks *)

(** [slices.Chunk]; the length of the list is fuel enough for any size above none. *)
Fixpoint chunks_of {A} (fuel n : nat) (l : list A) : list (list A) :=
  match fuel with
  | O => []
  | S fuel =>
      match l with
      | [] => []
      | _ => take n l :: chunks_of fuel n (drop n l)
      end
  end.
Definition chunks {A} (n : nat) (l : list A) : list (list A) := chunks_of (length l) n l.

Lemma chunks_of_spec {A} fuel n (l : list A) :
  0 < n → length l ≤ fuel →
  mjoin (chunks_of fuel n l) = l ∧ Forall (λ c, c ≠ [] ∧ length c ≤ n) (chunks_of fuel n l).
Proof.
  intros Hn. revert l. induction fuel as [|fuel IH]; intros l Hl.
  { destruct l; [done|simpl in Hl; lia]. }
  cbn [chunks_of]. destruct l as [|a l]; [done|].
  destruct (IH (drop n (a :: l))) as [H1 H2]; [rewrite length_drop; simpl in *; lia|].
  split.
  - change (mjoin (take n (a :: l) :: chunks_of fuel n (drop n (a :: l)))) with
      (take n (a :: l) ++ mjoin (chunks_of fuel n (drop n (a :: l)))).
    by rewrite H1, take_drop.
  - constructor; [|done]. rewrite length_take. split; [|lia]. by destruct n; [lia|].
Qed.

Lemma chunks_spec {A} n (l : list A) :
  0 < n → mjoin (chunks n l) = l ∧ Forall (λ c, c ≠ [] ∧ length c ≤ n) (chunks n l).
Proof. intros Hn. by apply chunks_of_spec. Qed.
