(* ===== verification/GoStrings.v ===== *)
(** * Go's [strings] and [strconv] functions, as the modelled code uses them

    A Go [string] and a Go [[]byte] are both sequences of bytes and are both
    modelled as [string]; [len] is [String.length].  Case mapping is ASCII, which
    is what the code maps: HTTP methods, header names and environment values. *)

From S2P Require Import Prelude.
From stdpp Require Import options.

(** The line separator. *)
Definition newline : string := String (ascii_of_nat 10) "".
Definition tab : string := String (ascii_of_nat 9) "".

(** A Go byte slice. *)
Notation bytes := string (only parsing).

Notation len := String.length (only parsing).

(** ** Concatenation *)

Lemma append_nil_r s : s +:+ "" = s.
Proof. induction s as [|c s IH]; [done|]. change (String c (s +:+ "") = String c s). by rewrite IH. Qed.

Lemma append_cons c s t : String c s +:+ t = String c (s +:+ t).
Proof. done. Qed.

Lemma append_nil_l s : "" +:+ s = s.
Proof. done. Qed.

Lemma append_assoc a b c : (a +:+ b) +:+ c = a +:+ (b +:+ c).
Proof. induction a as [|x a IH]; [done|]. by rewrite !append_cons, IH. Qed.

Lemma len_append a b : len (a +:+ b) = len a + len b.
Proof. induction a as [|x a IH]; [done|]. rewrite append_cons. simpl. by rewrite IH. Qed.

#[export] Instance append_inj s : Inj (=) (=) (String.append s).
Proof.
  induction s as [|c s IH]; intros a b; rewrite ?append_nil_l, ?append_cons; [done|].
  intros [=]. by apply IH.
Qed.

Lemma append_inj_len a b c d :
  len a = len c → a +:+ b = c +:+ d → a = c ∧ b = d.
Proof.
  revert c. induction a as [|x a IH]; intros [|y c] Hlen; simpl in *; try done.
  rewrite !append_cons. intros [= -> Heq].
  destruct (IH c) as [-> ->]; [lia | done | done].
Qed.

Lemma append_cancel_r a b c : a +:+ c = b +:+ c → a = b.
Proof.
  intros H. apply (append_inj_len a c b c); [|done].
  apply (f_equal len) in H. rewrite !len_append in H. lia.
Qed.

(** ** Prefixes and suffixes *)

(** [strings.CutPrefix]. *)
Fixpoint cut_prefix (p s : string) : option string :=
  match p with
  | EmptyString => Some s
  | String a p =>
      match s with
      | String b s => if Ascii.eqb a b then cut_prefix p s else None
      | EmptyString => None
      end
  end.

(** [strings.HasPrefix]. *)
Definition has_prefix (s p : string) : bool := is_some (cut_prefix p s).

(** [strings.TrimPrefix]. *)
Definition trim_prefix (s p : string) : string := default s (cut_prefix p s).

Lemma cut_prefix_Some p s r : cut_prefix p s = Some r ↔ s = p +:+ r.
Proof.
  revert s. induction p as [|a p IH]; intros s; simpl.
  - rewrite append_nil_l. naive_solver.
  - rewrite append_cons. destruct s as [|b s]; [naive_solver|].
    destruct (Ascii.eqb_spec a b) as [->|Hne].
    + rewrite IH. naive_solver.
    + naive_solver.
Qed.

Lemma has_prefix_spec s p : has_prefix s p = true ↔ ∃ r, s = p +:+ r.
Proof.
  unfold has_prefix. rewrite is_some_true. unfold is_Some.
  by setoid_rewrite cut_prefix_Some.
Qed.

Lemma cut_prefix_app p r : cut_prefix p (p +:+ r) = Some r.
Proof. by apply cut_prefix_Some. Qed.

Lemma has_prefix_app p r : has_prefix (p +:+ r) p = true.
Proof. unfold has_prefix. by rewrite cut_prefix_app. Qed.

#[export] Hint Rewrite cut_prefix_app has_prefix_app : go.

(** Reversal, to read a string from its end. *)
Fixpoint str_rev_app (s acc : string) : string :=
  match s with
  | EmptyString => acc
  | String c s => str_rev_app s (String c acc)
  end.
Definition str_rev (s : string) : string := str_rev_app s "".

(** [strings.CutSuffix] and [strings.HasSuffix], by taking the prefix of the
    reversal. *)
Definition cut_suffix (p s : string) : option string :=
  str_rev <$> cut_prefix (str_rev p) (str_rev s).
Definition has_suffix (s p : string) : bool := is_some (cut_suffix p s).

Lemma str_rev_app_spec s acc : str_rev_app s acc = str_rev s +:+ acc.
Proof.
  unfold str_rev. revert acc. induction s as [|c s IH]; intros acc; simpl; [done|].
  rewrite IH, (IH (String c "")), append_assoc. done.
Qed.

Lemma str_rev_cons c s : str_rev (String c s) = str_rev s +:+ String c "".
Proof. unfold str_rev at 1. simpl. apply str_rev_app_spec. Qed.

Lemma str_rev_append a b : str_rev (a +:+ b) = str_rev b +:+ str_rev a.
Proof.
  induction a as [|c a IH].
  - rewrite append_nil_l. change (str_rev "") with "". by rewrite append_nil_r.
  - by rewrite append_cons, !str_rev_cons, IH, append_assoc.
Qed.

Lemma str_rev_involutive s : str_rev (str_rev s) = s.
Proof.
  induction s as [|c s IH]; [done|].
  rewrite str_rev_cons, str_rev_append, IH. done.
Qed.

Lemma cut_suffix_Some p s r : cut_suffix p s = Some r ↔ s = r +:+ p.
Proof.
  unfold cut_suffix. rewrite fmap_Some. setoid_rewrite cut_prefix_Some. split.
  - intros (r' & Heq & ->). apply (f_equal str_rev) in Heq.
    by rewrite str_rev_append, !str_rev_involutive in Heq.
  - intros ->. exists (str_rev r). by rewrite str_rev_append, str_rev_involutive.
Qed.

(** ** Searching *)

(** [strings.Cut]: around the first instance of [sep]. *)
Fixpoint cut (sep s : string) : option (string * string) :=
  match cut_prefix sep s with
  | Some r => Some ("", r)
  | None =>
      match s with
      | EmptyString => None
      | String c s => '(a, b) ← cut sep s; Some (String c a, b)
      end
  end.

(** [strings.Contains]. *)
Definition contains (s sep : string) : bool := is_some (cut sep s).

Lemma cut_Some sep s a b : cut sep s = Some (a, b) → s = a +:+ sep +:+ b.
Proof.
  revert a. induction s as [|c s IH]; intros a; simpl.
  - destruct (cut_prefix sep "") eqn:E; [|done].
    apply cut_prefix_Some in E. intros [= <- ->]. by rewrite append_nil_l.
  - destruct (cut_prefix sep _) eqn:E.
    + apply cut_prefix_Some in E. intros [= <- ->]. by rewrite append_nil_l.
    + destruct (cut sep s) as [[a' b']|]; simpl; [|done].
      intros [= <- ->]. rewrite append_cons. f_equal. by apply IH.
Qed.

Lemma cut_None_app sep s a b : sep ≠ "" → cut sep s = None → s ≠ a +:+ sep +:+ b.
Proof.
  intros Hsep. revert a. induction s as [|c s IH]; intros a Hcut Heq; simpl in *.
  - destruct a, sep; done.
  - destruct (cut_prefix sep (String c s)) eqn:E; [done|].
    destruct (cut sep s) as [[]|] eqn:Ec; [done|].
    destruct a as [|x a].
    + rewrite append_nil_l in Heq. by rewrite Heq, cut_prefix_app in E.
    + rewrite append_cons in Heq. injection Heq as -> Heq. by apply (IH a).
Qed.

Lemma contains_spec s sep :
  sep ≠ "" → contains s sep = true ↔ ∃ a b, s = a +:+ sep +:+ b.
Proof.
  intros Hsep. unfold contains. rewrite is_some_true. split.
  - intros [[a b] H%cut_Some]. eauto.
  - intros (a & b & Heq). destruct (cut sep s) eqn:E; [eauto|].
    by eapply cut_None_app in E.
Qed.

(** A string holding no [sep] byte. *)
Fixpoint no_byte (sep : ascii) (s : string) : bool :=
  match s with
  | EmptyString => true
  | String c s => negb (Ascii.eqb c sep) && no_byte sep s
  end.

(** A head without the separator's first byte is cut off whole. *)
Lemma cut_app c sep a b :
  no_byte c a = true → cut (String c sep) (a +:+ String c sep +:+ b) = Some (a, b).
Proof.
  induction a as [|x a IH]; intros Hno.
  - rewrite append_nil_l, append_cons. cbn [cut]. rewrite <- append_cons.
    by rewrite cut_prefix_app.
  - simpl in Hno. bools. rewrite append_cons. cbn [cut cut_prefix].
    rewrite Ascii.eqb_sym. destruct (Ascii.eqb x c); [done|]. by rewrite IH.
Qed.

Lemma cut_no_byte c sep s : no_byte c s = true → cut (String c sep) s = None.
Proof.
  induction s as [|x s IH]; intros Hno; [done|].
  simpl in Hno. bools. cbn [cut cut_prefix].
  rewrite Ascii.eqb_sym. destruct (Ascii.eqb x c); [done|]. by rewrite IH.
Qed.

Lemma no_byte_append c a b : no_byte c (a +:+ b) = no_byte c a && no_byte c b.
Proof.
  induction a as [|x a IH]; [done|]. rewrite append_cons. simpl.
  by rewrite IH, andb_assoc.
Qed.

(** ** Splitting and joining *)

(** [strings.Split] at a one-byte separator: never empty. *)
Fixpoint split_on (sep : ascii) (s : string) : list string :=
  match s with
  | EmptyString => [""]
  | String c s =>
      if Ascii.eqb c sep then "" :: split_on sep s
      else match split_on sep s with
           | [] => [String c ""]
           | x :: xs => String c x :: xs
           end
  end.

(** [strings.Join]. *)
Definition join (xs : list string) (sep : string) : string := String.concat sep xs.

Lemma split_on_ne sep s : split_on sep s ≠ [].
Proof. destruct s; simpl; [done|]. repeat case_match; done. Qed.

Lemma join_cons x y ys sep : join (x :: y :: ys) sep = x +:+ sep +:+ join (y :: ys) sep.
Proof. done. Qed.

Lemma join_split sep s : join (split_on sep s) (String sep "") = s.
Proof.
  induction s as [|c s IH]; simpl; [done|].
  pose proof (split_on_ne sep s) as Hne.
  destruct (Ascii.eqb_spec c sep) as [->|].
  - destruct (split_on sep s) as [|y ys] eqn:E; [done|].
    by rewrite join_cons, IH.
  - destruct (split_on sep s) as [|y [|z zs]] eqn:E; [done| |].
    + unfold join in *. simpl in *. by rewrite <- IH.
    + rewrite join_cons, append_cons in *. by rewrite <- IH.
Qed.

Lemma split_on_no_byte sep s : Forall (λ x, no_byte sep x = true) (split_on sep s).
Proof.
  induction s as [|c s IH]; simpl; [by repeat constructor|].
  destruct (Ascii.eqb c sep) eqn:E; [by constructor|].
  destruct (split_on sep s) as [|x xs]; [by repeat constructor; rewrite ?E; simpl; rewrite E|].
  inversion IH; subst. constructor; [|done]. simpl. by rewrite E.
Qed.

Lemma split_on_single sep s : no_byte sep s = true → split_on sep s = [s].
Proof.
  induction s as [|c s IH]; simpl; [done|]. intros H. bools.
  rewrite H. by rewrite IH.
Qed.

Lemma split_on_app sep a b :
  no_byte sep a = true → split_on sep (a +:+ String sep b) = a :: split_on sep b.
Proof.
  induction a as [|c a IH]; intros H.
  - rewrite append_nil_l. simpl. by rewrite Ascii.eqb_refl.
  - simpl in H. bools. rewrite append_cons. simpl. by rewrite H, IH.
Qed.

Lemma split_on_app_gen sep a b :
  split_on sep (a +:+ String sep b) = split_on sep a ++ split_on sep b.
Proof.
  induction a as [|c a IH].
  - rewrite append_nil_l. simpl. by rewrite Ascii.eqb_refl.
  - rewrite append_cons. simpl. rewrite IH. pose proof (split_on_ne sep a).
    destruct (Ascii.eqb c sep); [done|]. by destruct (split_on sep a).
Qed.

Lemma split_join sep xs :
  xs ≠ [] → Forall (λ x, no_byte sep x = true) xs →
  split_on sep (join xs (String sep "")) = xs.
Proof.
  induction xs as [|x [|y ys] IH]; [done| |]; intros _ Hall; inversion Hall; subst.
  - by apply split_on_single.
  - rewrite join_cons. rewrite append_cons, append_nil_l, split_on_app by done.
    by rewrite IH.
Qed.

(** What follows the last [sep] byte: [full[strings.LastIndex(full, sep)+1:]],
    which is the whole string where there is none. *)
Definition after_last (sep : ascii) (s : string) : string :=
  default s (last (split_on sep s)).

(** ** Case *)

Definition upper_ascii (c : ascii) : ascii :=
  let n := nat_of_ascii c in
  if (97 <=? n) && (n <=? 122) then ascii_of_nat (n - 32) else c.
Definition lower_ascii (c : ascii) : ascii :=
  let n := nat_of_ascii c in
  if (65 <=? n) && (n <=? 90) then ascii_of_nat (n + 32) else c.

Fixpoint str_map (f : ascii → ascii) (s : string) : string :=
  match s with
  | EmptyString => ""
  | String c s => String (f c) (str_map f s)
  end.

Definition to_upper : string → string := str_map upper_ascii.
Definition to_lower : string → string := str_map lower_ascii.

Lemma str_map_append f a b : str_map f (a +:+ b) = str_map f a +:+ str_map f b.
Proof. induction a as [|c a IH]; [done|]. rewrite !append_cons. simpl. by rewrite IH. Qed.

Lemma upper_ascii_idemp c : upper_ascii (upper_ascii c) = upper_ascii c.
Proof. destruct c as [[] [] [] [] [] [] [] []]; vm_compute; done. Qed.

Lemma to_upper_idemp s : to_upper (to_upper s) = to_upper s.
Proof.
  unfold to_upper. induction s as [|c s IH]; simpl; [done|].
  by rewrite upper_ascii_idemp, IH.
Qed.

(** ** Space around text *)

(** [strings.TrimSpace], of ASCII space. *)
Definition space_byte (c : ascii) : bool :=
  let n := nat_of_ascii c in (9 <=? n) && (n <=? 13) || (n =? 32).

Fixpoint trim_left_by (p : ascii → bool) (s : string) : string :=
  match s with
  | String c s' => if p c then trim_left_by p s' else s
  | "" => ""
  end.
Definition TrimSpace (s : string) : string :=
  str_rev (trim_left_by space_byte (str_rev (trim_left_by space_byte s))).

(** ** Numbers as text *)

(** [strconv.Itoa], [strconv.FormatUint(_, 10)] and the [%d] verb. *)
Definition itoa (n : Z) : string := pretty n.

(** [fmt.Sprintf]'s [%q] verb, for the printable text the code quotes. *)

