(* ===== verification/Json.v ===== *)
(** * JSON text, as [encoding/json] writes it

    A document is a tree whose numbers are kept as the decimal text they are
    written with.  [json_text] is [json.Marshal]: object members in the order
    given, strings escaped as the encoder escapes them by default, HTML
    characters included.  Bytes of 0x80 and above are taken to be valid UTF-8
    and are copied, and U+2028 and U+2029 are not singled out. *)

From S2P Require Import Prelude GoStrings.
From stdpp Require Import options.

Inductive json : Type :=
  | JNull
  | JBool (b : bool)
  | JNum (literal : string)
  | JStr (s : string)
  | JArr (items : list json)
  | JObj (members : list (string * json)).

Section json_ind.
Context (P : json → Prop).
Context (Pnull : P JNull) (Pbool : ∀ b, P (JBool b)) (Pnum : ∀ s, P (JNum s))
  (Pstr : ∀ s, P (JStr s)) (Parr : ∀ l, Forall P l → P (JArr l))
  (Pobj : ∀ ms, Forall (λ kv, P kv.2) ms → P (JObj ms)).

Fixpoint json_ind' (j : json) : P j :=
  match j with
  | JNull => Pnull
  | JBool b => Pbool b
  | JNum s => Pnum s
  | JStr s => Pstr s
  | JArr l => Parr l ((fix go l : Forall P l := match l with
                       | [] => Forall_nil_2 P
                       | j :: l => Forall_cons_2 P j l (json_ind' j) (go l)
                       end) l)
  | JObj ms => Pobj ms ((fix go ms : Forall (λ kv, P kv.2) ms := match ms with
                         | [] => Forall_nil_2 _
                         | kv :: ms => Forall_cons_2 _ kv ms (json_ind' kv.2) (go ms)
                         end) ms)
  end.
End json_ind.

Definition hex_digit (n : nat) : ascii :=
  if n <? 10 then ascii_of_nat (48 + n) else ascii_of_nat (87 + n).

(** [\u00XX] and [\xXX]. *)
Definition hex2 (c : ascii) : string :=
  let n := nat_of_ascii c in String (hex_digit (n / 16)) (String (hex_digit (n mod 16)) "").

Definition backslash : ascii := ascii_of_nat 92.
Definition dquote : ascii := ascii_of_nat 34.

Definition escape (c : string) : string := String backslash c.

(** One byte of a JSON string. *)
Definition json_byte (c : ascii) : string :=
  let n := nat_of_ascii c in
  if Ascii.eqb c dquote || Ascii.eqb c backslash then escape (String c "")
  else if n =? 8 then escape "b"
  else if n =? 9 then escape "t"
  else if n =? 10 then escape "n"
  else if n =? 12 then escape "f"
  else if n =? 13 then escape "r"
  else if (n <? 32) || (n =? 38) || (n =? 60) || (n =? 62) then escape "u00" +:+ hex2 c
  else String c "".

(** One byte of a Go string literal, as the [%q] verb writes it. *)
Definition go_byte (c : ascii) : string :=
  let n := nat_of_ascii c in
  if Ascii.eqb c dquote || Ascii.eqb c backslash then escape (String c "")
  else if n =? 7 then escape "a"
  else if n =? 8 then escape "b"
  else if n =? 9 then escape "t"
  else if n =? 10 then escape "n"
  else if n =? 11 then escape "v"
  else if n =? 12 then escape "f"
  else if n =? 13 then escape "r"
  else if (n <? 32) || (n =? 127) then escape "x" +:+ hex2 c
  else String c "".

Fixpoint concat_bytes (f : ascii → string) (s : string) : string :=
  match s with
  | EmptyString => ""
  | String c s => f c +:+ concat_bytes f s
  end.

Definition in_quotes (s : string) : string := String dquote s +:+ String dquote "".

Definition json_string (s : string) : string := in_quotes (concat_bytes json_byte s).

(** [fmt]'s [%q] verb and [strconv.Quote]. *)
Definition go_quote (s : string) : string := in_quotes (concat_bytes go_byte s).

Fixpoint json_text (j : json) : string :=
  match j with
  | JNull => "null"
  | JBool true => "true"
  | JBool false => "false"
  | JNum literal => literal
  | JStr s => json_string s
  | JArr items => "[" +:+ join (json_text <$> items) "," +:+ "]"
  | JObj members =>
      "{" +:+ join ((λ '(k, v), json_string k +:+ ":" +:+ json_text v) <$> members) ","
          +:+ "}"
  end.

(** Escaping leaves no control byte behind. *)
Fixpoint all_bytes (p : ascii → bool) (s : string) : bool :=
  match s with
  | EmptyString => true
  | String c s => p c && all_bytes p s
  end.

Lemma all_bytes_append p a b : all_bytes p (a +:+ b) = all_bytes p a && all_bytes p b.
Proof.
  induction a as [|c a IH]; [done|]. rewrite append_cons. simpl.
  by rewrite IH, andb_assoc.
Qed.

Definition printable (c : ascii) : bool := 32 <=? nat_of_ascii c.

Lemma json_byte_printable c : all_bytes printable (json_byte c) = true.
Proof. destruct c as [[] [] [] [] [] [] [] []]; vm_compute; done. Qed.

Lemma json_string_printable s : all_bytes printable (json_string s) = true.
Proof.
  unfold json_string, in_quotes. rewrite append_cons. simpl.
  rewrite all_bytes_append. simpl.
  rewrite !andb_true_r.
  induction s as [|c s IH]; simpl; [done|].
  by rewrite all_bytes_append, json_byte_printable.
Qed.
