(* ===== verification/JsonText.v ===== *)
(** * JSON text read back

    [encoding/json]'s reader, as far as the shape of a document: [parse] is a document's
    tree, numbers kept as their text.  What [Json.json_text] writes is read back as it
    was ([parse_json_text]).  Bytes of 0x80 and above are taken to be valid UTF-8, as
    [Json] takes them. *)

From S2P Require Import Prelude GoStrings Json.
From stdpp Require Import options.

(** ** The reader *)

Definition is_space (c : ascii) : bool :=
  let n := nat_of_ascii c in (n =? 32) || (n =? 9) || (n =? 10) || (n =? 13).

Fixpoint skip_ws (s : string) : string :=
  match s with
  | String c rest => if is_space c then skip_ws rest else s
  | "" => ""
  end.

Definition hex_val (c : ascii) : option nat :=
  let n := nat_of_ascii c in
  if (48 <=? n) && (n <=? 57) then Some (n - 48)
  else if (97 <=? n) && (n <=? 102) then Some (n - 87)
  else if (65 <=? n) && (n <=? 70) then Some (n - 55)
  else None.

Definition hex4 (a b c d : ascii) : option nat :=
  a ← hex_val a; b ← hex_val b; c ← hex_val c; d ← hex_val d;
  Some (a * 4096 + b * 256 + c * 16 + d).

(** A code point as UTF-8. *)
Definition utf8 (n : nat) : string :=
  if n <? 128 then String (ascii_of_nat n) ""
  else if n <? 2048 then
    String (ascii_of_nat (192 + n / 64)) (String (ascii_of_nat (128 + n mod 64)) "")
  else if n <? 65536 then
    String (ascii_of_nat (224 + n / 4096))
      (String (ascii_of_nat (128 + n / 64 mod 64)) (String (ascii_of_nat (128 + n mod 64)) ""))
  else
    String (ascii_of_nat (240 + n / 262144))
      (String (ascii_of_nat (128 + n / 4096 mod 64))
        (String (ascii_of_nat (128 + n / 64 mod 64)) (String (ascii_of_nat (128 + n mod 64)) ""))).

Definition replacement : nat := 65533.
Definition high_surrogate (n : nat) : bool := (55296 <=? n) && (n <? 56320).
Definition low_surrogate (n : nat) : bool := (56320 <=? n) && (n <? 57344).

(** The byte a one-letter escape stands for. *)
Definition short_escape (c : ascii) : option ascii :=
  let n := nat_of_ascii c in
  if (n =? 34) || (n =? 92) || (n =? 47) then Some c
  else if n =? 98 then Some (ascii_of_nat 8)
  else if n =? 102 then Some (ascii_of_nat 12)
  else if n =? 110 then Some (ascii_of_nat 10)
  else if n =? 114 then Some (ascii_of_nat 13)
  else if n =? 116 then Some (ascii_of_nat 9)
  else None.

(** The rest of a string, after its opening quote, and what follows the closing one. *)
Fixpoint parse_string (s : string) : option (string * string) :=
  match s with
  | "" => None
  | String c s =>
      if Ascii.eqb c dquote then Some ("", s)
      else if Ascii.eqb c backslash then
        match s with
        | "" => None
        | String e s1 =>
            if Ascii.eqb e "u" then
              match s1 with
              | String a (String b (String c (String d s2))) =>
                  n ← hex4 a b c d;
                  if high_surrogate n then
                    match s2 with
                    | String e1 (String e2 (String a2 (String b2 (String c2 (String d2 s3))))) =>
                        if Ascii.eqb e1 backslash && Ascii.eqb e2 "u" then
                          m ← hex4 a2 b2 c2 d2;
                          if low_surrogate m then
                            '(t, r) ← parse_string s3;
                            Some (utf8 (65536 + (n - 55296) * 1024 + (m - 56320)) +:+ t, r)
                          else '(t, r) ← parse_string s2; Some (utf8 replacement +:+ t, r)
                        else '(t, r) ← parse_string s2; Some (utf8 replacement +:+ t, r)
                    | _ => '(t, r) ← parse_string s2; Some (utf8 replacement +:+ t, r)
                    end
                  else
                    '(t, r) ← parse_string s2;
                    Some (utf8 (if low_surrogate n then replacement else n) +:+ t, r)
              | _ => None
              end
            else
              e ← short_escape e;
              '(t, r) ← parse_string s1; Some (String e t, r)
        end
      else if nat_of_ascii c <? 32 then None
      else '(t, r) ← parse_string s; Some (String c t, r)
  end.

(** *** Numbers *)

Definition is_digit (c : ascii) : bool :=
  let n := nat_of_ascii c in (48 <=? n) && (n <=? 57).

Fixpoint digits (s : string) : string * string :=
  match s with
  | String c rest =>
      if is_digit c then let '(ds, r) := digits rest in (String c ds, r) else ("", s)
  | "" => ("", "")
  end.

Definition some_digits (s : string) : option (string * string) :=
  let '(ds, r) := digits s in if bool_decide (ds = "") then None else Some (ds, r).

Definition parse_sign (s : string) : string * string :=
  match s with String "-" r => ("-", r) | _ => ("", s) end.

Definition parse_int (s : string) : option (string * string) :=
  match s with
  | String "0" r => Some ("0", r)
  | _ => some_digits s
  end.

Definition parse_frac (s : string) : option (string * string) :=
  match s with
  | String "." r => '(ds, r) ← some_digits r; Some (String "." ds, r)
  | _ => Some ("", s)
  end.

Definition parse_exp (s : string) : option (string * string) :=
  match s with
  | String c r =>
      if Ascii.eqb c "e" || Ascii.eqb c "E" then
        let '(sign, r) := match r with
          | String "+" r => ("+", r) | String "-" r => ("-", r) | _ => ("", r)
          end in
        '(ds, r) ← some_digits r; Some (String c (sign +:+ ds), r)
      else Some ("", s)
  | "" => Some ("", "")
  end.

Definition parse_number (s : string) : option (string * string) :=
  let '(sign, r) := parse_sign s in
  '(int, r) ← parse_int r;
  '(frac, r) ← parse_frac r;
  '(exp, r) ← parse_exp r;
  Some (sign +:+ int +:+ frac +:+ exp, r).

Definition closed_by (close : ascii) (s : string) : option string :=
  match s with
  | String c r => if Ascii.eqb c close then Some r else None
  | "" => None
  end.

(** *** Values

    Each value, element and member takes one unit of fuel. *)
Fixpoint parse_value (fuel : nat) (s : string) : option (json * string) :=
  match fuel with
  | O => None
  | S fuel =>
      match skip_ws s with
      | "" => None
      | String c rest =>
          if Ascii.eqb c dquote then '(t, r) ← parse_string rest; Some (JStr t, r)
          else if Ascii.eqb c "[" then
            match closed_by "]" (skip_ws rest) with
            | Some r => Some (JArr [], r)
            | None => '(js, r) ← parse_items fuel rest; Some (JArr js, r)
            end
          else if Ascii.eqb c "{" then
            match closed_by "}" (skip_ws rest) with
            | Some r => Some (JObj [], r)
            | None => '(ms, r) ← parse_members fuel rest; Some (JObj ms, r)
            end
          else if Ascii.eqb c "n" then (λ r, (JNull, r)) <$> cut_prefix "ull" rest
          else if Ascii.eqb c "t" then (λ r, (JBool true, r)) <$> cut_prefix "rue" rest
          else if Ascii.eqb c "f" then (λ r, (JBool false, r)) <$> cut_prefix "alse" rest
          else '(n, r) ← parse_number (String c rest); Some (JNum n, r)
      end
  end
with parse_items (fuel : nat) (s : string) : option (list json * string) :=
  match fuel with
  | O => None
  | S fuel =>
      '(j, r) ← parse_value fuel s;
      match skip_ws r with
      | String "," r => '(js, r) ← parse_items fuel r; Some (j :: js, r)
      | String "]" r => Some ([j], r)
      | _ => None
      end
  end
with parse_members (fuel : nat) (s : string) : option (list (string * json) * string) :=
  match fuel with
  | O => None
  | S fuel =>
      match skip_ws s with
      | String c r =>
          if Ascii.eqb c dquote then
            '(k, r) ← parse_string r;
            match skip_ws r with
            | String ":" r =>
                '(j, r) ← parse_value fuel r;
                match skip_ws r with
                | String "," r => '(ms, r) ← parse_members fuel r; Some ((k, j) :: ms, r)
                | String "}" r => Some ([(k, j)], r)
                | _ => None
                end
            | _ => None
            end
          else None
      | "" => None
      end
  end.

(** A whole document, with nothing but blanks after it.  A value of the text takes at
    least one of its bytes, and an element or a member another. *)
Definition parse (s : string) : option json :=
  '(j, r) ← parse_value (2 * String.length s) s;
  if bool_decide (skip_ws r = "") then Some j else None.

(** ** What is written is read back *)

(** A number's text as the reader takes it, whole. *)
Definition numeral (s : string) : bool := bool_decide (parse_number s = Some (s, "")).

Fixpoint numerals (j : json) : Prop :=
  match j with
  | JNum s => numeral s = true
  | JArr l => (fix go l := match l with [] => True | j :: l => numerals j ∧ go l end) l
  | JObj ms => (fix go ms := match ms with
                | [] => True
                | (_, j) :: ms => numerals j ∧ go ms
                end) ms
  | _ => True
  end.

(** *** Strings *)

Lemma parse_json_byte c s :
  parse_string (json_byte c +:+ s) = ('(t, r) ← parse_string s; Some (String c t, r)).
Proof. by destruct c as [[] [] [] [] [] [] [] []]. Qed.

Lemma parse_string_text s rest :
  parse_string (concat_bytes json_byte s +:+ String dquote rest) = Some (s, rest).
Proof.
  induction s as [|c s IH]; [done|]. cbn [concat_bytes].
  rewrite append_assoc, parse_json_byte, IH. done.
Qed.

Lemma json_string_cons s rest :
  json_string s +:+ rest = String dquote (concat_bytes json_byte s +:+ String dquote rest).
Proof. unfold json_string, in_quotes. by rewrite !append_cons, append_assoc. Qed.

(** *** Numbers *)

(** What may follow a number without being taken for part of it. *)
Definition ends_number (s : string) : Prop :=
  match s with
  | "" => True
  | String c _ => is_digit c = false ∧ c ≠ "."%char ∧ c ≠ "e"%char ∧ c ≠ "E"%char
  end.

Lemma digits_app s t ds :
  ends_number t → digits s = (ds, "") → digits (s +:+ t) = (ds, t).
Proof.
  intros Ht. revert ds. induction s as [|c s IH]; intros ds.
  - intros [= <-]. rewrite append_nil_l. destruct t as [|c t]; [done|].
    destruct Ht as (Hc & _). simpl. by rewrite Hc.
  - rewrite append_cons. simpl. destruct (is_digit c); [|done].
    destruct (digits s) as [ds' r'] eqn:E. intros [= <- ->]. by rewrite (IH ds').
Qed.

Lemma digits_app_rest s t ds c r :
  digits s = (ds, String c r) → digits (s +:+ t) = (ds, String c r +:+ t).
Proof.
  revert ds. induction s as [|b s IH]; intros ds; [done|].
  rewrite append_cons. simpl. destruct (is_digit b).
  - destruct (digits s) as [ds' r'] eqn:E. intros [= <- ->]. by rewrite (IH ds').
  - intros [= <- <- <-]. done.
Qed.

(** A reader of part of a number goes on as it would on the text alone. *)
Definition follows (f : string → option (string * string)) : Prop :=
  ∀ s t a r, ends_number t → f s = Some (a, r) → f (s +:+ t) = Some (a, r +:+ t).

Lemma digits_follows s t ds r : ends_number t → digits s = (ds, r) → digits (s +:+ t) = (ds, r +:+ t).
Proof.
  intros Ht Hd. destruct r as [|c r]; [by apply digits_app|by apply digits_app_rest].
Qed.

Lemma some_digits_follows : follows some_digits.
Proof.
  intros s t a r Ht. unfold some_digits. destruct (digits s) as [ds r'] eqn:E.
  rewrite (digits_follows _ _ _ _ Ht E). case_bool_decide; [done|]. by intros [= <- <-].
Qed.

Lemma parse_int_follows : follows parse_int.
Proof.
  intros s t a r Ht. unfold parse_int. destruct s as [|c s]; [done|].
  destruct (decide (c = "0"%char)) as [->|Hc].
  - intros [= <- <-]. done.
  - assert (∀ s' (f : string → option (string * string)),
      match String c s' with String "0" r => Some ("0", r) | _ => f (String c s') end =
      f (String c s')) as Hm.
    { intros s' f. by destruct c as [[] [] [] [] [] [] [] []]. }
    rewrite append_cons. rewrite !Hm, <- append_cons. by apply some_digits_follows.
Qed.

Lemma not_char {A} (c d : ascii) (s : string) (x y : A) :
  c ≠ d → (if Ascii.eqb c d then x else y) = y.
Proof. intros Hc. by rewrite (proj2 (Ascii.eqb_neq c d)). Qed.

Lemma parse_frac_eq c s :
  parse_frac (String c s) =
  if Ascii.eqb c "." then '(ds, r) ← some_digits s; Some (String "." ds, r)
  else Some ("", String c s).
Proof. by destruct c as [[] [] [] [] [] [] [] []]. Qed.

Lemma parse_frac_follows : follows parse_frac.
Proof.
  intros s t a r Ht. destruct s as [|c s].
  - intros [= <- <-]. rewrite append_nil_l. destruct t as [|c t]; [done|].
    destruct Ht as (_ & Hdot & _). rewrite parse_frac_eq, not_char by done. done.
  - rewrite append_cons, !parse_frac_eq. destruct (Ascii.eqb c "."); [|by intros [= <- <-]].
    destruct (some_digits s) as [[ds r']|] eqn:E; [|done]. intros [= <- <-].
    by rewrite (some_digits_follows _ _ _ _ Ht E).
Qed.

Definition exp_sign (s : string) : string * string :=
  match s with String "+" r => ("+", r) | String "-" r => ("-", r) | _ => ("", s) end.

Lemma exp_sign_eq c s :
  exp_sign (String c s) =
  if Ascii.eqb c "+" then ("+", s) else if Ascii.eqb c "-" then ("-", s) else ("", String c s).
Proof. by destruct c as [[] [] [] [] [] [] [] []]. Qed.

Lemma parse_exp_eq c s :
  parse_exp (String c s) =
  if Ascii.eqb c "e" || Ascii.eqb c "E" then
    let '(sign, r) := exp_sign s in
    '(ds, r) ← some_digits r; Some (String c (sign +:+ ds), r)
  else Some ("", String c s).
Proof. done. Qed.

Lemma parse_exp_follows : follows parse_exp.
Proof.
  intros s t a r Ht. destruct s as [|c s].
  - intros [= <- <-]. rewrite append_nil_l. destruct t as [|c t]; [done|].
    destruct Ht as (_ & _ & He & HE). by rewrite parse_exp_eq, !(proj2 (Ascii.eqb_neq _ _)).
  - rewrite append_cons, !parse_exp_eq. destruct (_ || _); [|by intros [= <- <-]].
    destruct s as [|d s].
    { simpl. done. }
    rewrite append_cons, !exp_sign_eq, <- append_cons.
    destruct (Ascii.eqb d "+"); [|destruct (Ascii.eqb d "-")];
      (destruct (some_digits _) as [[ds r']|] eqn:E; [|done]); intros [= <- <-];
      by rewrite (some_digits_follows _ _ _ _ Ht E).
Qed.

Lemma parse_sign_eq c s :
  parse_sign (String c s) = if Ascii.eqb c "-" then ("-", s) else ("", String c s).
Proof. by destruct c as [[] [] [] [] [] [] [] []]. Qed.

Lemma parse_number_follows : follows parse_number.
Proof.
  intros s t a r Ht. unfold parse_number.
  destruct s as [|c s]; [done|]. rewrite append_cons, !parse_sign_eq, <- append_cons.
  assert (∀ sign s0,
    ('(int, r1) ← parse_int s0; '(frac, r2) ← parse_frac r1; '(exp, r3) ← parse_exp r2;
     Some (sign +:+ int +:+ frac +:+ exp, r3)) = Some (a, r) →
    ('(int, r1) ← parse_int (s0 +:+ t); '(frac, r2) ← parse_frac r1; '(exp, r3) ← parse_exp r2;
     Some (sign +:+ int +:+ frac +:+ exp, r3)) = Some (a, r +:+ t)) as Hgo.
  { intros sign s0. destruct (parse_int s0) as [[int r1]|] eqn:E1; [|done].
    rewrite (parse_int_follows _ _ _ _ Ht E1). cbn.
    destruct (parse_frac r1) as [[frac r2]|] eqn:E2; [|done].
    rewrite (parse_frac_follows _ _ _ _ Ht E2). cbn.
    destruct (parse_exp r2) as [[exp r3]|] eqn:E3; [|done].
    rewrite (parse_exp_follows _ _ _ _ Ht E3). cbn. by intros [= <- <-]. }
  destruct (Ascii.eqb c "-"); apply Hgo.
Qed.

Lemma numeral_read s t : numeral s = true → ends_number t → parse_number (s +:+ t) = Some (s, t).
Proof.
  intros Hs%bool_decide_eq_true Ht. rewrite (parse_number_follows _ _ _ _ Ht Hs).
  by rewrite append_nil_l.
Qed.

(** The first byte of a number. *)
Lemma numeral_first s :
  numeral s = true → ∃ c r, s = String c r ∧ (c = "-"%char ∨ is_digit c = true).
Proof.
  intros Hs%bool_decide_eq_true. destruct s as [|c r]; [done|]. exists c, r. split; [done|].
  unfold parse_number in Hs. rewrite parse_sign_eq in Hs.
  destruct (Ascii.eqb_spec c "-"); [by left|right].
  destruct (parse_int (String c r)) as [[int r1]|] eqn:E; [|done]. unfold parse_int in E.
  destruct (is_digit c) eqn:Ed; [done|]. exfalso. revert E.
  destruct c as [[] [] [] [] [] [] [] []]; try discriminate Ed;
    unfold some_digits; simpl; try rewrite Ed; done.
Qed.

(** *** Documents *)


(** A byte that can start a value. *)
Definition starts_value (c : ascii) : bool :=
  negb (is_space c) && negb (Ascii.eqb c "]") && negb (Ascii.eqb c "}").

Lemma digit_starts c : c = "-"%char ∨ is_digit c = true →
  starts_value c = true ∧ Ascii.eqb c dquote = false ∧ Ascii.eqb c "[" = false ∧
  Ascii.eqb c "{" = false ∧ Ascii.eqb c "n" = false ∧ Ascii.eqb c "t" = false ∧
  Ascii.eqb c "f" = false.
Proof.
  intros [->|Hc]; [done|].
  destruct c as [[] [] [] [] [] [] [] []]; try discriminate Hc; done.
Qed.

Lemma text_starts j :
  numerals j → ∃ c r, json_text j = String c r ∧ starts_value c = true.
Proof.
  intros Hn. destruct j as [|[]|s|s|l|ms]; try (by do 2 eexists).
  simpl in *. destruct (numeral_first s Hn) as (c & r & -> & Hc).
  exists c, r. split; [done|]. by apply digit_starts.
Qed.

Lemma skip_ws_value c r : starts_value c = true → skip_ws (String c r) = String c r.
Proof. unfold starts_value. intros H. simpl. by destruct (is_space c). Qed.

Lemma not_closing c r :
  starts_value c = true →
  closed_by "]" (String c r) = None ∧ closed_by "}" (String c r) = None.
Proof.
  unfold starts_value, closed_by. intros [[_ H1%negb_true_iff]%andb_prop H2%negb_true_iff]%andb_prop.
  by rewrite H1, H2.
Qed.

Fixpoint cost (j : json) : nat :=
  match j with
  | JArr l => 1 + (fix go l := match l with [] => 0 | j :: l => 1 + cost j + go l end) l
  | JObj ms =>
      1 + (fix go ms := match ms with [] => 0 | (_, j) :: ms => 1 + cost j + go ms end) ms
  | _ => 1
  end.

Lemma cost_arr j l : cost (JArr (j :: l)) = 1 + cost j + cost (JArr l).
Proof. simpl. lia. Qed.
Lemma cost_obj k j ms : cost (JObj ((k, j) :: ms)) = 1 + cost j + cost (JObj ms).
Proof. simpl. lia. Qed.

Lemma cost_pos j : 1 ≤ cost j.
Proof. destruct j; simpl; lia. Qed.

Definition reads (j : json) : Prop :=
  ∀ rest fuel, numerals j → ends_number rest → cost j ≤ fuel →
    parse_value fuel (json_text j +:+ rest) = Some (j, rest).

Lemma join_one x sep : join [x] sep = x.
Proof. done. Qed.

Definition items_text (l : list json) : string := join (json_text <$> l) ",".

Lemma items_text_cons j j' l :
  items_text (j :: j' :: l) = json_text j +:+ String "," (items_text (j' :: l)).
Proof. apply join_cons. Qed.

Lemma parse_items_read l rest fuel :
  Forall reads l → l ≠ [] → numerals (JArr l) → cost (JArr l) ≤ S fuel →
  parse_items fuel (items_text l +:+ String "]" rest) = Some (l, rest).
Proof.
  intros Hr. revert fuel. induction Hr as [|j l Hj Hl IH]; intros fuel Hne Hn Hf; [done|].
  rewrite cost_arr in Hf. destruct Hn as [Hnj Hnl].
  pose proof (cost_pos j). pose proof (cost_pos (JArr l)). destruct fuel as [|fuel]; [lia|].
  cbn [parse_items]. destruct l as [|j' l].
  - unfold items_text. rewrite fmap_cons. simpl (json_text <$> []). rewrite join_one.
    change (cost (JArr [])) with 1 in Hf. rewrite Hj; [done|done|done|lia].
  - rewrite items_text_cons, append_assoc, append_cons, Hj; [|done|done|lia].
    cbn [mbind option_bind skip_ws]. change (is_space ",") with false. cbn iota.
    rewrite IH; [done|done|done|lia].
Qed.

Definition member_text (kj : string * json) : string :=
  json_string kj.1 +:+ ":" +:+ json_text kj.2.
Definition members_text (ms : list (string * json)) : string := join (member_text <$> ms) ",".

Lemma members_text_cons m m' ms :
  members_text (m :: m' :: ms) = member_text m +:+ String "," (members_text (m' :: ms)).
Proof. apply join_cons. Qed.

Lemma json_text_obj ms : json_text (JObj ms) = "{" +:+ members_text ms +:+ "}".
Proof.
  cbn [json_text]. unfold members_text. do 3 f_equal.
  apply list_fmap_ext. by intros _ [k j] _.
Qed.

Lemma parse_members_read ms rest fuel :
  Forall (λ kj, reads kj.2) ms → ms ≠ [] → numerals (JObj ms) → cost (JObj ms) ≤ S fuel →
  parse_members fuel (members_text ms +:+ String "}" rest) = Some (ms, rest).
Proof.
  intros Hr. revert fuel. induction Hr as [|[k j] ms Hj Hms IH]; intros fuel Hne Hn Hf; [done|].
  rewrite cost_obj in Hf. destruct Hn as [Hnj Hnms].
  pose proof (cost_pos j). pose proof (cost_pos (JObj ms)). destruct fuel as [|fuel]; [lia|].
  simpl in Hj. cbn [parse_members].
  assert (∀ t, member_text (k, j) +:+ t =
    String dquote (concat_bytes json_byte k +:+ String dquote (String ":" (json_text j +:+ t)))) as Ht.
  { intros t. unfold member_text. by rewrite append_assoc, json_string_cons. }
  destruct ms as [|m ms].
  - unfold members_text. rewrite fmap_cons. simpl (member_text <$> []). rewrite join_one, Ht.
    cbn [skip_ws]. change (is_space dquote) with false. cbn iota.
    rewrite Ascii.eqb_refl, parse_string_text. cbn [mbind option_bind skip_ws].
    change (is_space ":") with false. cbn iota. change (cost (JObj [])) with 1 in Hf. rewrite Hj; [done|done|done|lia].
  - rewrite members_text_cons, append_assoc, append_cons, Ht. cbn [skip_ws].
    change (is_space dquote) with false. cbn iota. rewrite Ascii.eqb_refl, parse_string_text.
    cbn [mbind option_bind skip_ws]. change (is_space ":") with false. cbn iota.
    rewrite Hj; [|done|done|lia].
    cbn [mbind option_bind skip_ws]. change (is_space ",") with false. cbn iota.
    rewrite IH; [done|done|done|lia].
Qed.

Lemma text_read j : reads j.
Proof.
  induction j as [|b|s|s|l IHl|ms IHms] using json_ind'; intros rest fuel Hn Hr Hf;
    (destruct fuel as [|fuel]; [pose proof (cost_pos JNull); simpl in Hf; lia|]).
  - done.
  - by destruct b.
  - simpl in Hn. destruct (numeral_first s Hn) as (c & r & Hs & Hc).
    destruct (digit_starts c Hc) as (Hst & Hq & Hb & Hcb & H1 & H2 & H3).
    cbn [json_text]. rewrite Hs, append_cons. cbn [parse_value].
    rewrite (skip_ws_value _ _ Hst), Hq, Hb, Hcb, H1, H2, H3.
    rewrite <- append_cons, <- Hs, numeral_read by done. done.
  - cbn [json_text parse_value]. rewrite json_string_cons. cbn [skip_ws].
    change (is_space dquote) with false. cbn iota. by rewrite Ascii.eqb_refl, parse_string_text.
  - destruct l as [|j l]; [done|].
    assert (json_text (JArr (j :: l)) +:+ rest =
            String "[" (items_text (j :: l) +:+ String "]" rest)) as ->.
    { cbn [json_text]. fold (items_text (j :: l)). by rewrite !append_assoc. }
    assert (∃ c r, items_text (j :: l) +:+ String "]" rest = String c r ∧
                   starts_value c = true) as (c & r & Hcr & Hst).
    { destruct (text_starts j) as (c & r & Hj & Hst); [by destruct Hn|].
      destruct l as [|j' l].
      - exists c. eexists. split; [|done]. unfold items_text. rewrite fmap_cons.
        simpl (json_text <$> []). by rewrite join_one, Hj, append_cons.
      - exists c. eexists. split; [|done]. by rewrite items_text_cons, Hj, !append_assoc, append_cons. }
    cbn [parse_value skip_ws]. change (is_space "[") with false. cbn iota.
    change (Ascii.eqb "[" dquote) with false. rewrite Ascii.eqb_refl. cbn iota.
    rewrite Hcr, (skip_ws_value _ _ Hst), (proj1 (not_closing c r Hst)), <- Hcr.
    by rewrite parse_items_read.
  - destruct ms as [|[k j] ms]; [done|].
    rewrite json_text_obj, !append_assoc.
    assert (∃ r, members_text ((k, j) :: ms) +:+ "}" +:+ rest = String dquote r) as (r & Hr').
    { destruct ms as [|m ms].
      - unfold members_text. rewrite fmap_cons. simpl (member_text <$> []). rewrite join_one.
        unfold member_text. rewrite append_assoc, json_string_cons. eauto.
      - rewrite members_text_cons. unfold member_text at 1.
        rewrite !append_assoc, json_string_cons. eauto. }
    rewrite append_cons, append_nil_l. cbn [parse_value skip_ws].
    change (is_space "{") with false. cbn iota.
    change (Ascii.eqb "{" dquote) with false. change (Ascii.eqb "{" "[") with false.
    rewrite Ascii.eqb_refl, Hr'. cbn [skip_ws]. change (is_space dquote) with false. cbn iota.
    change (closed_by "}" (String dquote r)) with (@None string). cbn iota.
    rewrite <- Hr', append_cons, append_nil_l. by rewrite parse_members_read.
Qed.

(** The fuel [parse] gives is enough: a value costs less than twice its text. *)
Definition bounded (j : json) : Prop :=
  numerals j → cost j + 1 ≤ 2 * String.length (json_text j).

Lemma items_bounded l :
  Forall bounded l → numerals (JArr l) → l ≠ [] →
  cost (JArr l) ≤ 1 + 2 * String.length (items_text l).
Proof.
  induction 1 as [|j l Hj Hl IH]; intros Hn Hne; [done|].
  destruct Hn as [Hnj Hnl]. specialize (Hj Hnj). rewrite cost_arr. destruct l as [|j' l].
  - unfold items_text. rewrite fmap_cons. simpl (json_text <$> []). rewrite join_one.
    change (cost (JArr [])) with 1. lia.
  - specialize (IH Hnl ltac:(done)). rewrite items_text_cons, len_append. cbn [String.length]. lia.
Qed.

Lemma members_bounded ms :
  Forall (λ kj, bounded kj.2) ms → numerals (JObj ms) → ms ≠ [] →
  cost (JObj ms) ≤ 1 + 2 * String.length (members_text ms).
Proof.
  induction 1 as [|[k j] ms Hj Hms IH]; intros Hn Hne; [done|].
  destruct Hn as [Hnj Hnms]. specialize (Hj Hnj). simpl in Hj. rewrite cost_obj.
  assert (String.length (json_text j) ≤ String.length (member_text (k, j))) as Hm.
  { unfold member_text. cbn [fst snd]. rewrite !len_append. lia. }
  destruct ms as [|m ms].
  - unfold members_text. rewrite fmap_cons. simpl (member_text <$> []). rewrite join_one.
    change (cost (JObj [])) with 1. lia.
  - specialize (IH Hnms ltac:(done)). rewrite members_text_cons, len_append. cbn [String.length].
    lia.
Qed.

Lemma text_bounded j : bounded j.
Proof.
  induction j as [|b|s|s|l IHl|ms IHms] using json_ind'; intros Hn.
  - simpl. lia.
  - destruct b; simpl; lia.
  - simpl in Hn. destruct (numeral_first s Hn) as (c & r & -> & _). simpl. lia.
  - simpl. unfold json_string, in_quotes. rewrite len_append. simpl. lia.
  - destruct l as [|j l]; [simpl; lia|].
    pose proof (items_bounded _ IHl Hn ltac:(done)) as Hc.
    change (json_text (JArr (j :: l))) with ("[" +:+ items_text (j :: l) +:+ "]").
    rewrite !len_append. cbn [String.length] in *. lia.
  - destruct ms as [|m ms]; [simpl; lia|].
    pose proof (members_bounded _ IHms Hn ltac:(done)) as Hc.
    rewrite json_text_obj, !len_append. cbn [String.length]. lia.
Qed.

(** A document is read back from its text as it was. *)
Lemma parse_json_text j : numerals j → parse (json_text j) = Some j.
Proof.
  intros Hn. unfold parse. pose proof (text_bounded j Hn) as Hb.
  rewrite <- (append_nil_r (json_text j)) at 2.
  rewrite text_read; [done|done|done|lia].
Qed.
