(* ===== verification/Errors.v ===== *)
(** * Errors and what they are answered with

    Models [handler/status.go] and [handler/validation.go].  A Go error is a
    value of one of the dynamic types the SDK builds or inspects; an application's
    own error type is [EApp], with the optional methods the SDK looks for.  A
    slice is an option, so that a nil slice, which JSON writes as [null], is kept
    apart from an empty one. *)

From S2P Require Import Prelude GoStrings Json.
From stdpp Require Import options.

(** ** Validation issues *)

Definition slice_of (A : Type) : Type := option (list A).
Definition elems {A} (s : slice_of A) : list A := default [] s.

Record ValidationIssue : Type := MkIssue {
  Code : string;
  Path : slice_of string;
  IssueMessage : string;
}.

Definition CodeInvalid : string := "invalid".
Definition CodeInvalidType : string := "invalid_type".
Definition CodeMalformed : string := "malformed".

Definition slice_json {A} (f : A → json) (s : slice_of A) : json :=
  match s with None => JNull | Some l => JArr (f <$> l) end.

Definition issue_json (i : ValidationIssue) : json :=
  JObj [("code", JStr i.(Code)); ("path", slice_json JStr i.(Path));
        ("message", JStr i.(IssueMessage))].

(** Structured detail: what [json.Marshal] can encode, or something it cannot. *)
Inductive detail : Type :=
  | Encodable (j : json)
  | Unencodable.

(** ** Error values *)

(** The methods an application's own error type may have. *)
Record app_error : Type := MkApp {
  app_message : string;
  app_type : string;                                (* the [%T] verb *)
  app_status : option Z;                            (* StatusCode *)
  app_error_type : option string;                   (* ErrorType *)
  app_details : option (option detail);             (* Details *)
  app_issues : option (slice_of ValidationIssue);   (* ValidationIssues *)
}.

Inductive error : Type :=
  | EString (msg : string)
  | EWrap (msg : string) (cause : error)
  | EWraps (msg : string) (causes : list error)
  | EJoin (errs : list error)
  | EStatus (status : Z) (message : string) (detl : option detail) (cause : option error)
  | EValidation (message : string) (issues : slice_of ValidationIssue) (cause : option error)
  | EHandler (message type_ stack : string)
  | EJSONType (msg field goType : string)
  | EJSONSyntax (msg : string)
  | EApp (a : app_error) (cause : option error).

(** [ValidationError.Error]: the message and its issues, never the cause. *)
Definition issue_text (i : ValidationIssue) : string :=
  "; " +:+ (match elems i.(Path) with
            | [] => ""
            | path => join path "." +:+ ": "
            end) +:+ i.(IssueMessage).

Definition validation_text (message : string) (issues : slice_of ValidationIssue) : string :=
  message +:+ join (issue_text <$> elems issues) "".

(** The [Error] method. *)
Fixpoint error_text (e : error) : string :=
  match e with
  | EString msg | EWrap msg _ | EWraps msg _ => msg
  | EJoin errs => join (error_text <$> errs) (String (ascii_of_nat 10) "")
  | EStatus status message _ (Some cause) =>
      itoa status +:+ " " +:+ message +:+ ": " +:+ error_text cause
  | EStatus status message _ None => itoa status +:+ " " +:+ message
  | EValidation message issues _ => validation_text message issues
  | EHandler message _ _ => message
  | EJSONType msg _ _ => msg
  | EJSONSyntax msg => msg
  | EApp a _ => a.(app_message)
  end.

(** The [%T] verb on an error. *)
Definition error_go_type (e : error) : string :=
  match e with
  | EString _ => "*errors.errorString"
  | EWrap _ _ => "*fmt.wrapError"
  | EWraps _ _ => "*fmt.wrapErrors"
  | EJoin _ => "*errors.joinError"
  | EStatus _ _ _ _ => "*handler.StatusError"
  | EValidation _ _ _ => "*handler.ValidationError"
  | EHandler _ _ _ => "*handler.Error"
  | EJSONType _ _ _ => "*json.UnmarshalTypeError"
  | EJSONSyntax _ => "*json.SyntaxError"
  | EApp a _ => a.(app_type)
  end.

(** [Unwrap], in either of its two forms. *)
Definition unwrap (e : error) : list error :=
  match e with
  | EWrap _ cause => [cause]
  | EWraps _ causes => causes
  | EJoin errs => errs
  | EStatus _ _ _ cause | EValidation _ _ cause | EApp _ cause => option_list cause
  | _ => []
  end.

(** ** [errors.As] and [errors.Is]

    The chain is walked depth first, an error before what it wraps. *)
Section errors_as.
Context {A : Type} (f : error → option A).

Fixpoint errors_as (e : error) : option A :=
  let fix first (es : list error) : option A :=
    match es with
    | [] => None
    | e :: es => match errors_as e with Some a => Some a | None => first es end
    end in
  match f e with
  | Some a => Some a
  | None =>
      match e with
      | EWrap _ cause => errors_as cause
      | EWraps _ causes => first causes
      | EJoin errs => first errs
      | EStatus _ _ _ (Some cause) => errors_as cause
      | EValidation _ _ (Some cause) => errors_as cause
      | EApp _ (Some cause) => errors_as cause
      | _ => None
      end
  end.

Fixpoint first_as (es : list error) : option A :=
  match es with
  | [] => None
  | e :: es => match errors_as e with Some a => Some a | None => first_as es end
  end.

Lemma errors_as_eq e :
  errors_as e = match f e with Some a => Some a | None => first_as (unwrap e) end.
Proof.
  assert (∀ es, (fix first (es : list error) : option A :=
    match es with
    | [] => None
    | e :: es => match errors_as e with Some a => Some a | None => first es end
    end) es = first_as es) as Hfirst.
  { induction es as [|e' es IH]; simpl; [done|]. by rewrite IH. }
  destruct e as [| m c | m cs | cs | s m d [c|] | m i [c|] | | | | a [c|]];
    simpl; destruct (f _); try done; try (by rewrite Hfirst); by destruct (errors_as c).
Qed.

Lemma errors_as_here e a : f e = Some a → errors_as e = Some a.
Proof. intros H. by rewrite errors_as_eq, H. Qed.
End errors_as.

(** The errors of a chain, in the order [errors.As] meets them. *)
Fixpoint chain (e : error) : list error :=
  e :: match e with
       | EWrap _ cause => chain cause
       | EWraps _ causes => mjoin (chain <$> causes)
       | EJoin errs => mjoin (chain <$> errs)
       | EStatus _ _ _ (Some cause) => chain cause
       | EValidation _ _ (Some cause) => chain cause
       | EApp _ (Some cause) => chain cause
       | _ => []
       end.

Lemma chain_eq e : chain e = e :: mjoin (chain <$> unwrap e).
Proof.
  destruct e as [| m c | m cs | cs | s m d [c|] | m i [c|] | | | | a [c|]];
    simpl; by rewrite ?app_nil_r.
Qed.

(** An induction principle that reaches the errors a list wraps. *)
Lemma error_ind' (P : error → Prop) :
  (∀ e, Forall P (unwrap e) → P e) → ∀ e, P e.
Proof.
  intros Hstep. fix IH 1. intros e. apply Hstep.
  destruct e as [| m c | m cs | cs | s m d [c|] | m i [c|] | | | | a [c|]];
    simpl; try (by constructor); try (constructor; [apply IH | constructor]).
  - induction cs; constructor; [apply IH | done].
  - induction cs; constructor; [apply IH | done].
Qed.

(** [errors.As] finds the first error of the chain the target accepts, and fails
    only where none is. *)
Lemma errors_as_chain {A} (f : error → option A) e :
  errors_as f e = head (omap f (chain e)).
Proof.
  induction e as [e IH] using error_ind'.
  rewrite errors_as_eq, chain_eq. simpl.
  destruct (f e); [done|].
  induction IH as [|e' es He' _ IHes]; [done|].
  cbn [first_as]. rewrite fmap_cons. cbn [mjoin list_join]. rewrite omap_app, He', IHes.
  destruct (omap f (chain e')); done.
Qed.

Lemma errors_as_None {A} (f : error → option A) e :
  errors_as f e = None ↔ ∀ e', e' ∈ chain e → f e' = None.
Proof.
  rewrite errors_as_chain. split.
  - intros Hhd e' Hin. destruct (f e') as [a|] eqn:Hf; [|done].
    assert (a ∈ omap f (chain e)) as Ha by (apply list_elem_of_omap; eauto).
    destruct (omap f (chain e)); [by apply elem_of_nil in Ha | done].
  - intros Hall. destruct (omap f (chain e)) as [|a l] eqn:Ho; [done|].
    assert (a ∈ omap f (chain e)) as (e' & Hin & Hf)%list_elem_of_omap by (rewrite Ho; left).
    by rewrite Hall in Hf.
Qed.

(** [errors.Is] against a sentinel made by [errors.New], told by its text: the
    SDK's sentinels all differ in theirs. *)
Definition errors_is (sentinel : string) (e : error) : bool :=
  is_some (errors_as (λ e, match e with
                           | EString msg => if decide (msg = sentinel) then Some () else None
                           | _ => None
                           end) e).
