(* ===== verification/Handler.v ===== *)
(** * The event vocabulary: what a handler receives and what it answers

    Models [handler/handler.go] and [handler/websocket_sender.go].  A Go pointer
    that may be nil is an option; [Event] keeps one optional field per source and
    [Result] one per outcome, as the structs do, so that a value carrying none or
    several of them is a value of the model too. *)

From S2P Require Import Prelude GoStrings Errors.
From stdpp Require Import options.

(** ** Kinds *)

(** [Kind] is a string type: the empty kind and an unknown one are values. *)
Definition Kind : Type := string.
Definition KindHTTP : Kind := "http".
Definition KindWebSocket : Kind := "websocket".
Definition KindConsumer : Kind := "consumer".
Definition KindSchedule : Kind := "schedule".
Definition KindCustom : Kind := "custom".

(** ** Parameters and headers *)

Definition Values : Type := list string.

(** [Values.First]. *)
Definition First (v : Values) : string := default "" (head v).

Abbreviation Params := (gmap string Values).

Module Params.
(** [p[name]], where an absent name reads as no values. *)
Definition values (p : Params) (name : string) : Values := default [] (p !! name).
Definition Get (p : Params) (name : string) : string := First (values p name).
Definition Add (p : Params) (name value : string) : Params :=
  <[name := values p name ++ [value]]> p.
Definition Set_ (p : Params) (name value : string) : Params := <[name := [value]]> p.

Lemma values_Add p name value name' :
  values (Add p name value) name' =
    if decide (name = name') then values p name ++ [value] else values p name'.
Proof. unfold values, Add. rewrite lookup_insert. by case_decide. Qed.

Lemma Get_Set p name value : Get (Set_ p name value) name = value.
Proof. unfold Get, Set_, values. by rewrite lookup_insert_eq. Qed.

(** The first value added under a name is the one [Get] answers from then on. *)
Lemma Get_Add p name value :
  Get (Add p name value) name =
    match values p name with [] => value | v :: _ => v end.
Proof.
  unfold Get. rewrite values_Add, decide_True by done. by destruct (values p name).
Qed.
End Params.

(** ** Events *)

Record Request : Type := MkRequest {
  Method : string;
  RequestPath : string;
  RequestRoute : string;
  PathParams : Params;
  QueryParams : Params;
  RequestHeaders : Params;
  RequestSourceIP : string;
  RequestRequestID : string;
  RequestBody : bytes;
}.

Record WebSocketMessage : Type := MkWebSocketMessage {
  WSRoute : string;
  WSConnectionID : string;
  WSSourceIP : string;
  WSRequestID : string;
  WSMessage : bytes;
  WSIsBinary : bool;
  WSMessageID : string;
}.

Record ConsumerRecord : Type := MkConsumerRecord {
  RecordMessageID : string;
  RecordBody : bytes;
  RecordSource : string;
  RecordEventType : string;
  RecordAttributes : bytes;
  RecordVendor : bytes;
}.

Record ConsumerBatch : Type := MkConsumerBatch {
  Records : list ConsumerRecord;
  BatchSourceID : string;
  BatchSourceType : string;
  BatchVendor : bytes;
}.

Record ScheduleTrigger : Type := MkScheduleTrigger {
  ScheduleID : string;
  ScheduleMessageID : string;
  ScheduleExpr : string;
  ScheduleInput : bytes;
  ScheduleVendor : bytes;
}.

Record CustomInvoke : Type := MkCustomInvoke {
  CustomHandlerName : string;
  CustomInput : bytes;
}.

(** [Timestamp] and [Deadline] are milliseconds; the zero [time.Time] is [None]. *)
Record Event : Type := MkEvent {
  EventID : string;
  EventTag : string;
  EventKind : Kind;
  Timestamp : option Z;
  Deadline : option Z;
  EventTraceContext : gmap string string;
  EventHTTP : option Request;
  EventWebSocket : option WebSocketMessage;
  EventConsumer : option ConsumerBatch;
  EventSchedule : option ScheduleTrigger;
  EventCustom : option CustomInvoke;
}.

(** ** Results *)

Record Response : Type := MkResponse {
  Status : Z;
  ResponseHeaders : Params;
  ResponseBody : bytes;
}.

Record RecordFailure : Type := MkRecordFailure {
  FailedMessageID : string;
  FailedError : string;
}.

Record BatchResult : Type := MkBatchResult { Failures : list RecordFailure }.

(** [BatchResult.Failed] and [BatchResult.Fail]. *)
Definition Failed (r : BatchResult) : bool := negb (bool_decide (r.(Failures) = [])).

Definition Fail (r : BatchResult) (messageID : string) (err : option error) : BatchResult :=
  let msg := match err with Some e => error_text e | None => "" end in
  MkBatchResult (r.(Failures) ++ [MkRecordFailure messageID msg]).

Record CustomInvokeResult : Type := MkCustomInvokeResult { CustomOutput : bytes }.

Record Ack : Type := MkAck { AckSuccess : bool; AckError : string }.

Record HandlerError : Type := MkHandlerError {
  ErrorMessage : string;
  ErrorType : string;
  ErrorStack : string;
}.

Record Result : Type := MkResult {
  ResultID : string;
  ResultHTTP : option Response;
  ResultWebSocket : option Ack;
  ResultConsumer : option BatchResult;
  ResultSchedule : option Ack;
  ResultCustom : option CustomInvokeResult;
  ResultError : option HandlerError;
}.

(** [&handler.Result{ID: id}] and the struct literals that set one more field. *)
Definition EmptyResult (id : string) : Result := MkResult id None None None None None None.
Definition HTTPResult (id : string) (r : option Response) : Result :=
  MkResult id r None None None None None.
Definition WebSocketResult (id : string) (a : Ack) : Result :=
  MkResult id None (Some a) None None None None.
Definition ConsumerResult (id : string) (b : BatchResult) : Result :=
  MkResult id None None (Some b) None None None.
Definition ScheduleResult (id : string) (a : Ack) : Result :=
  MkResult id None None None (Some a) None None.
Definition CustomResult (id : string) (c : CustomInvokeResult) : Result :=
  MkResult id None None None None (Some c) None.
Definition ErrorResult (id : string) (e : HandlerError) : Result :=
  MkResult id None None None None None (Some e).

Lemma Failed_Fail r id err : Failed (Fail r id err) = true.
Proof. unfold Failed, Fail. simpl. by destruct (Failures r). Qed.

Lemma Fail_records r id err :
  FailedMessageID <$> Failures (Fail r id err) = (FailedMessageID <$> Failures r) ++ [id].
Proof. unfold Fail. simpl. by rewrite fmap_app. Qed.

(** ** WebSocket sends *)

Record OutboundMessage : Type := MkOutboundMessage {
  OutConnectionID : string;
  OutMessage : bytes;
  OutInformClientsOnLoss : list string;
  OutMessageID : string;
  OutCaller : string;
  OutWaitForAck : bool;
}.

Record OutboundBinaryMessage : Type := MkOutboundBinaryMessage {
  BinConnectionID : string;
  BinRoute : string;
  BinFrameMessageID : string;
  BinRequireAck : bool;
  BinMessage : bytes;
  BinInformClientsOnLoss : list string;
  BinMessageID : string;
  BinCaller : string;
  BinWaitForAck : bool;
}.

Record SendFailure : Type := MkSendFailure {
  FailIndex : Z;
  FailConnectionID : string;
  FailError : string;
}.

(** [SendError.Error]. *)
Definition send_error_text (failures : list SendFailure) : string :=
  match failures with
  | [f] => "celerity: websocket send failed for 1 message: " +:+ f.(FailError)
  | _ => "celerity: websocket send failed for " +:+ itoa (Z.of_nat (length failures)) +:+ " messages"
  end.

(** [SendError.Failed]. *)
Fixpoint SendFailed (failures : list SendFailure) (index : Z) : bool :=
  match failures with
  | [] => false
  | f :: fs => if (f.(FailIndex) =? index)%Z then true else SendFailed fs index
  end.

Lemma SendFailed_spec failures index :
  SendFailed failures index = true ↔ ∃ f, f ∈ failures ∧ f.(FailIndex) = index.
Proof.
  induction failures as [|f fs IH]; simpl.
  - split; [done|]. intros (f & Hf & _). by apply elem_of_nil in Hf.
  - destruct (Z.eqb_spec f.(FailIndex) index) as [Heq|Hne].
    + split; [|done]. intros _. exists f. by split; [left|].
    + rewrite IH. setoid_rewrite elem_of_cons. naive_solver.
Qed.
