(* ===== verification/Status.v ===== *)
(** * Answering an error

    Models [handler/status.go] and [handler/validation.go]: which status, message
    and detail a handler's error is answered with, and the issues a failed input
    is described by. *)

From S2P Require Import Prelude GoStrings Json Errors Handler.
From stdpp Require Import options.

(** ** The interfaces an error may satisfy *)

(** [StatusCoder]: what [StatusCode] and [Error] answer. *)
Definition status_coder (e : error) : option (Z * string) :=
  match e with
  | EStatus status _ _ _ => Some (status, error_text e)
  | EValidation _ _ _ => Some (400%Z, error_text e)
  | EApp a _ => (λ code, (code, a.(app_message))) <$> a.(app_status)
  | _ => None
  end.

(** [TypedError]: what [ErrorType] answers. *)
Definition typed_error (e : error) : option string :=
  match e with
  | EStatus _ _ _ _ => Some "StatusError"
  | EValidation _ _ _ => Some "ValidationError"
  | EApp a _ => a.(app_error_type)
  | _ => None
  end.

(** [DetailCarrier]: what [Details] answers, the issues of a validation error. *)
Definition issues_detail (issues : slice_of ValidationIssue) : option detail :=
  Some (Encodable (slice_json issue_json issues)).

Definition detail_carrier (e : error) : option (option detail) :=
  match e with
  | EStatus _ _ d _ => Some d
  | EValidation _ issues _ => Some (issues_detail issues)
  | EApp a _ => a.(app_details)
  | _ => None
  end.

(** [IssueReporter]: what [ValidationIssues] answers. *)
Definition issue_reporter (e : error) : option (slice_of ValidationIssue) :=
  match e with
  | EValidation _ issues _ => Some issues
  | EApp a _ => a.(app_issues)
  | _ => None
  end.

(** [errors.AsType[*StatusError]] and [errors.AsType[*ValidationError]], read for
    the message. *)
Definition as_status_error (e : error) : option string :=
  match e with EStatus _ message _ _ => Some message | _ => None end.

Definition as_validation_error (e : error) : option string :=
  match e with EValidation message _ _ => Some message | _ => None end.

(** ** Constructors *)

(** [http.StatusText]. *)
Definition StatusText (code : Z) : string :=
  match code with
  | 100 => "Continue" | 101 => "Switching Protocols" | 102 => "Processing"
  | 103 => "Early Hints"
  | 200 => "OK" | 201 => "Created" | 202 => "Accepted"
  | 203 => "Non-Authoritative Information" | 204 => "No Content"
  | 205 => "Reset Content" | 206 => "Partial Content" | 207 => "Multi-Status"
  | 208 => "Already Reported" | 226 => "IM Used"
  | 300 => "Multiple Choices" | 301 => "Moved Permanently" | 302 => "Found"
  | 303 => "See Other" | 304 => "Not Modified" | 305 => "Use Proxy"
  | 307 => "Temporary Redirect" | 308 => "Permanent Redirect"
  | 400 => "Bad Request" | 401 => "Unauthorized" | 402 => "Payment Required"
  | 403 => "Forbidden" | 404 => "Not Found" | 405 => "Method Not Allowed"
  | 406 => "Not Acceptable" | 407 => "Proxy Authentication Required"
  | 408 => "Request Timeout" | 409 => "Conflict" | 410 => "Gone"
  | 411 => "Length Required" | 412 => "Precondition Failed"
  | 413 => "Request Entity Too Large" | 414 => "Request URI Too Long"
  | 415 => "Unsupported Media Type" | 416 => "Requested Range Not Satisfiable"
  | 417 => "Expectation Failed" | 418 => "I'm a teapot"
  | 421 => "Misdirected Request" | 422 => "Unprocessable Entity" | 423 => "Locked"
  | 424 => "Failed Dependency" | 425 => "Too Early" | 426 => "Upgrade Required"
  | 428 => "Precondition Required" | 429 => "Too Many Requests"
  | 431 => "Request Header Fields Too Large"
  | 451 => "Unavailable For Legal Reasons"
  | 500 => "Internal Server Error" | 501 => "Not Implemented" | 502 => "Bad Gateway"
  | 503 => "Service Unavailable" | 504 => "Gateway Timeout"
  | 505 => "HTTP Version Not Supported" | 506 => "Variant Also Negotiates"
  | 507 => "Insufficient Storage" | 508 => "Loop Detected" | 510 => "Not Extended"
  | 511 => "Network Authentication Required"
  | _ => ""
  end%Z.

(** [Status], [Wrap] and [StatusError.WithDetail]; [Status] is named [NewStatus]
    since the response's own field has that name. *)
Definition status_message (status : Z) (message : string) : string :=
  if decide (message = "") then StatusText status else message.

Definition NewStatus (status : Z) (message : string) : error :=
  EStatus status (status_message status message) None None.

Definition Wrap (status : Z) (message : string) (cause : option error) : error :=
  EStatus status (status_message status message) None cause.

Definition WithDetail (e : error) (d : option detail) : error :=
  match e with
  | EStatus status message _ cause => EStatus status message d cause
  | _ => e
  end.

Definition BadRequest := NewStatus 400.
Definition Unauthorized := NewStatus 401.
Definition Forbidden := NewStatus 403.
Definition NotFound := NewStatus 404.
Definition Conflict := NewStatus 409.
Definition Gone := NewStatus 410.
Definition UnprocessableEntity := NewStatus 422.
Definition TooManyRequests := NewStatus 429.
Definition NotImplemented := NewStatus 501.
Definition ServiceUnavailable := NewStatus 503.

(** [Invalid] and [Issue]. *)
Definition Invalid (message : string) (issues : slice_of ValidationIssue) : error :=
  EValidation (if decide (message = "") then "the request is not valid" else message)
    issues None.

Definition Issue (code message : string) (path : slice_of string) : ValidationIssue :=
  MkIssue code path message.

(** ** The answer *)

Definition content_type_json : Params := {[ "content-type" := ["application/json"] ]}.

(** The body of [JSONAnswer]: [omitempty] drops a nil detail, and a detail that
    cannot be encoded falls back to the message alone, quoted as Go quotes. *)
Definition answer_body (message : string) (d : option detail) : bytes :=
  match d with
  | None => json_text (JObj [("message", JStr message)])
  | Some (Encodable j) => json_text (JObj [("message", JStr message); ("details", j)])
  | Some Unencodable => "{" +:+ json_string "message" +:+ ":" +:+ go_quote message +:+ "}"
  end.

Definition JSONAnswer (status : Z) (message : string) (d : option detail) : Response :=
  MkResponse status content_type_json (answer_body message d).

Definition JSONMessage (status : Z) (message : string) : Response :=
  JSONAnswer status message None.

(** What [ResponseForError] tells the caller, before it is encoded. *)
Definition answer_message (coder_text : string) (err : error) : string :=
  let message := default coder_text (errors_as as_status_error err) in
  default message (errors_as as_validation_error err).

Definition answer_detail (err : error) : option detail :=
  mjoin (errors_as detail_carrier err).

Definition ResponseForError (err : error) : option Response :=
  match errors_as status_coder err with
  | None => None
  | Some (status, text) =>
      if (status <? 100)%Z || (999 <? status)%Z then None
      else Some (JSONAnswer status (answer_message text err) (answer_detail err))
  end.

(** ** Issues *)

Definition IssuesFrom (err : error) : slice_of ValidationIssue :=
  match errors_as issue_reporter err with
  | Some issues => issues
  | None => Some [MkIssue CodeInvalid (Some []) "the value is not valid"]
  end.

Definition fieldPath (field : string) : slice_of string :=
  if decide (field = "") then Some [] else Some (split_on "." field).

Definition number_types : list string :=
  ["int"; "int8"; "int16"; "int32"; "int64"; "uint"; "uint8"; "uint16"; "uint32";
   "uint64"; "float32"; "float64"; "json.Number"].

Definition describeJSONType (goType : string) : string :=
  if has_prefix goType "[]" then "an array"
  else if has_prefix goType "map[" || has_prefix goType "struct" then "an object"
  else if decide (goType = "string") then "a string"
  else if decide (goType = "bool") then "a boolean"
  else if decide (goType ∈ number_types) then "a number"
  else "a different value".

Definition as_type_error (e : error) : option (string * string) :=
  match e with EJSONType _ field goType => Some (field, goType) | _ => None end.
Definition as_syntax_error (e : error) : option unit :=
  match e with EJSONSyntax _ => Some () | _ => None end.

Definition IssuesFromDecode (err : error) : slice_of ValidationIssue :=
  match errors_as as_type_error err with
  | Some (field, goType) =>
      Some [MkIssue CodeInvalidType (fieldPath field)
              ("expected " +:+ describeJSONType goType)]
  | None =>
      match errors_as as_syntax_error err with
      | Some _ => Some [MkIssue CodeMalformed (Some []) "the body is not valid JSON"]
      | None => Some [MkIssue CodeMalformed (Some []) "the body could not be read"]
      end
  end.

(** ** What the caller is told *)

(** The statuses HTTP can express. *)
Definition expressible (status : Z) : bool := (100 <=? status)%Z && (status <=? 999)%Z.

Lemma ResponseForError_eq err :
  ResponseForError err =
    match errors_as status_coder err with
    | Some (status, text) =>
        if expressible status
        then Some (JSONAnswer status (answer_message text err) (answer_detail err))
        else None
    | None => None
    end.
Proof.
  unfold ResponseForError, expressible.
  destruct (errors_as status_coder err) as [[status text]|]; [|done].
  destruct (Z.ltb_spec status 100), (Z.leb_spec 100 status), (Z.ltb_spec 999 status),
    (Z.leb_spec status 999); try done; lia.
Qed.

(** A wrapper the SDK knows nothing of changes nothing about the answer. *)
Lemma ResponseForError_EWrap msg err :
  ResponseForError (EWrap msg err) = ResponseForError err.
Proof. done. Qed.

(** An error is answered exactly when the first status coder of its chain has an
    expressible status, and then with that status. *)
Lemma ResponseForError_Some err r :
  ResponseForError err = Some r →
  ∃ e status text, e ∈ chain err ∧ status_coder e = Some (status, text) ∧
    r.(Status) = status ∧ (100 ≤ status ≤ 999)%Z.
Proof.
  rewrite ResponseForError_eq.
  destruct (errors_as status_coder err) as [[status text]|] eqn:Hc; [|done].
  rewrite errors_as_chain in Hc.
  assert ((status, text) ∈ omap status_coder (chain err)) as Hin.
  { destruct (omap status_coder (chain err)); simplify_eq/=. left. }
  apply list_elem_of_omap in Hin as (e & He & Hs).
  unfold expressible. destruct (_ && _) eqn:Hb; [|done]. bools. intros [= <-].
  exists e, status, text. simpl. split_and!; eauto; lia.
Qed.

(** An error built by [Status], [Wrap] or [WithDetail] is answered with its
    own status, message and detail, and of its cause the answer shows nothing but
    the message of a validation error the cause's chain holds. *)
Lemma ResponseForError_status_error status message d cause :
  expressible status = true →
  ResponseForError (EStatus status message d cause) =
    Some (JSONAnswer status
            (default message (cause ≫= errors_as as_validation_error)) d).
Proof.
  intros Hs. rewrite ResponseForError_eq. cbn. rewrite Hs.
  unfold answer_message, answer_detail. destruct d, cause; done.
Qed.

Lemma ResponseForError_status_error_witness :
  ResponseForError
    (Wrap 404 "no such order" (Some (EWrap "query: timeout" (EString "timeout")))) =
    Some (JSONAnswer 404 "no such order" None).
Proof. exact (ResponseForError_status_error 404 "no such order" None _ eq_refl). Defined.

(** A validation error is answered as a 400 with its message and its issues,
    whatever it wraps, and an error of no known status, such as a plain one
    wrapped any number of times, is left to be reported as a fault. *)
Lemma ResponseForError_validation message issues cause msgs text :
  ResponseForError (foldr EWrap (EValidation message issues cause) msgs) =
    Some (JSONAnswer 400 message (issues_detail issues)) ∧
  ResponseForError (foldr EWrap (EString text) msgs) = None.
Proof.
  induction msgs as [|msg msgs [IH1 IH2]]; simpl.
  - split; [|done]. rewrite ResponseForError_eq. by destruct cause.
  - by rewrite !ResponseForError_EWrap.
Qed.
