(* ===== verification/BinaryFrame.v ===== *)
(** * The Celerity Binary Message Format

    Models [handler/binary_frame.go].  A frame is
    [<routeLength><route><requireAck><messageIdLength><messageId><message>] with
    every length one byte; [read_frame] is the reading a client makes of it, the
    specification the encoder is held to. *)

From S2P Require Import Prelude GoStrings Errors.
From stdpp Require Import options.

Definition ErrRouteRequired : string :=
  "celerity: a binary message must name the route it is for".
Definition ErrRouteTooLong : string :=
  "celerity: a binary message route must be at most 255 bytes".
Definition ErrMessageIDTooLong : string :=
  "celerity: a binary message id must be at most 255 bytes".
Definition ErrRouteReserved : string :=
  "celerity: a binary message route must not begin with a reserved byte".
Definition ErrAckWithoutID : string :=
  "celerity: a binary message asking to be acknowledged needs an id".

(** [reservedRouteBytes], an array of six booleans indexed by the byte. *)
Definition reservedRouteBytes : list bool := [false; true; true; true; true; true].

Definition reserved_first (route : string) : bool :=
  match route with
  | String c _ =>
      let first := nat_of_ascii c in
      (first <? length reservedRouteBytes) && nth first reservedRouteBytes false
  | "" => false
  end.

(** [byte(n)], which keeps the low eight bits. *)
Definition byte_of (n : nat) : ascii := ascii_of_nat (n mod 256).

Definition ack_byte (requireAck : bool) : ascii :=
  if requireAck then ascii_of_nat 1 else ascii_of_nat 0.

Definition FrameBinaryMessage (route messageID : string) (requireAck : bool)
    (message : bytes) : result error bytes :=
  if len route =? 0 then Err (EString ErrRouteRequired)
  else if 255 <? len route then Err (EString ErrRouteTooLong)
  else if reserved_first route then Err (EString ErrRouteReserved)
  else if 255 <? len messageID then Err (EString ErrMessageIDTooLong)
  else if requireAck && bool_decide (messageID = "") then Err (EString ErrAckWithoutID)
  else
    let framed := String (byte_of (len route)) route in
    let framed := framed +:+ String (ack_byte requireAck)
                               (String (byte_of (len messageID)) "") in
    let framed := framed +:+ messageID in
    Ok (framed +:+ message).

(** ** Reading a frame *)

Fixpoint str_take (n : nat) (s : string) : option (string * string) :=
  match n, s with
  | 0, _ => Some ("", s)
  | S n, String c s => (λ '(a, b), (String c a, b)) <$> str_take n s
  | S _, "" => None
  end.

Record frame : Type := MkFrame {
  frame_route : string;
  frame_ack : bool;
  frame_id : string;
  frame_message : bytes;
}.

(** [<length><field>]. *)
Definition read_field (s : bytes) : option (string * bytes) :=
  match s with String n s => str_take (nat_of_ascii n) s | "" => None end.

Definition read_frame (s : bytes) : option frame :=
  '(route, s) ← read_field s;
  match s with
  | String a s =>
      '(id, message) ← read_field s;
      match nat_of_ascii a with
      | 0 => Some (MkFrame route false id message)
      | 1 => Some (MkFrame route true id message)
      | _ => None
      end
  | "" => None
  end.

(** What a client reads as one of the protocol's own messages: the route it finds
    begins with a byte from 1 to 5. *)
Definition reads_as_own (s : bytes) : bool :=
  match s with
  | String _ (String c _) => let b := nat_of_ascii c in (1 <=? b) && (b <=? 5)
  | _ => false
  end.

(** ** The encoder writes what the reader reads *)

Lemma str_take_append a b : str_take (len a) (a +:+ b) = Some (a, b).
Proof. induction a as [|c a IH]; [done|]. rewrite append_cons. simpl. by rewrite IH. Qed.

Lemma nat_of_byte_of n : n ≤ 255 → nat_of_ascii (byte_of n) = n.
Proof.
  intros. unfold byte_of. rewrite Nat.mod_small by lia. apply nat_ascii_embedding. lia.
Qed.

Lemma read_field_append a b :
  len a ≤ 255 → read_field (String (byte_of (len a)) (a +:+ b)) = Some (a, b).
Proof. intros. simpl. rewrite nat_of_byte_of by done. apply str_take_append. Qed.

Lemma read_frame_fields route id message (ack : bool) :
  len route ≤ 255 → len id ≤ 255 →
  read_frame (String (byte_of (len route)) route +:+
    String (ack_byte ack) (String (byte_of (len id)) (id +:+ message))) =
  Some (MkFrame route ack id message).
Proof.
  intros. unfold read_frame. rewrite append_cons, read_field_append by done.
  cbn [mbind option_bind]. rewrite read_field_append by done. by destruct ack.
Qed.

(** Which inputs are framed. *)
Definition frameable (route messageID : string) (requireAck : bool) : Prop :=
  1 ≤ len route ≤ 255 ∧ reserved_first route = false ∧ len messageID ≤ 255 ∧
  (requireAck = true → messageID ≠ "").

Lemma FrameBinaryMessage_Ok_inv route id ack message s :
  FrameBinaryMessage route id ack message = Ok s →
  frameable route id ack ∧
  s = String (byte_of (len route)) route +:+
      String (ack_byte ack) (String (byte_of (len id)) (id +:+ message)).
Proof.
  unfold FrameBinaryMessage, frameable.
  destruct (Nat.eqb_spec (len route) 0); [done|].
  destruct (Nat.ltb_spec 255 (len route)); [done|].
  destruct (reserved_first route); [done|].
  destruct (Nat.ltb_spec 255 (len id)); [done|].
  destruct (ack && _) eqn:Ha; [done|]. intros [= <-]. split.
  - split_and!; try done; try lia. intros ->. simpl in Ha. by bools.
  - by rewrite !append_assoc, !append_cons.
Qed.

Lemma FrameBinaryMessage_frameable route id ack message :
  frameable route id ack → is_ok (FrameBinaryMessage route id ack message) = true.
Proof.
  intros ([? ?] & Hr & ? & Ha). unfold FrameBinaryMessage.
  destruct (Nat.eqb_spec (len route) 0); [lia|].
  destruct (Nat.ltb_spec 255 (len route)); [lia|]. rewrite Hr.
  destruct (Nat.ltb_spec 255 (len id)); [lia|].
  destruct ack; simpl; [|done]. by rewrite bool_decide_eq_false_2 by auto.
Qed.

Lemma reserved_first_spec c s :
  reserved_first (String c s) = (1 <=? nat_of_ascii c) && (nat_of_ascii c <=? 5).
Proof.
  unfold reserved_first. simpl length.
  destruct (nat_of_ascii c) as [|[|[|[|[|[|n]]]]]]; done.
Qed.

(** C16: round trip.  Whatever is framed is read back as exactly the route, the
    acknowledgement flag, the id and the message that were given; it is never read
    as one of the protocol's own messages, and it is three bytes longer than its
    fields. *)
Theorem FrameBinaryMessage_roundtrip route id ack message s :
  FrameBinaryMessage route id ack message = Ok s →
  read_frame s = Some (MkFrame route ack id message) ∧
  reads_as_own s = false ∧
  len s = 3 + len route + len id + len message.
Proof.
  intros [([Hr ?] & Hres & ? & ?) ->]%FrameBinaryMessage_Ok_inv. split_and!.
  - by apply read_frame_fields.
  - destruct route as [|c route]; [simpl in Hr; lia|].
    rewrite reserved_first_spec in Hres. by rewrite !append_cons.
  - rewrite len_append. simpl. rewrite len_append. lia.
Qed.

Lemma FrameBinaryMessage_roundtrip_witness :
  ∃ s, FrameBinaryMessage "chat" "m1" true "hello" = Ok s ∧
    read_frame s = Some (MkFrame "chat" true "m1" "hello").
Proof.
  eexists. split; [reflexivity|].
  eapply (proj1 (FrameBinaryMessage_roundtrip "chat" "m1" true "hello" _ _)).
  Unshelve. reflexivity.
Defined.

(** A message is framed exactly when the format can represent it: a route of 1
    to 255 bytes that does not begin with a reserved byte, an id of at most 255
    bytes, and an id wherever an acknowledgement is asked for.  What cannot be
    represented is refused rather than truncated. *)
Lemma FrameBinaryMessage_complete route id ack message :
  is_ok (FrameBinaryMessage route id ack message) = true ↔
  1 ≤ len route ≤ 255 ∧ reserved_first route = false ∧ len id ≤ 255 ∧
  (ack = true → id ≠ "").
Proof.
  split; [|apply FrameBinaryMessage_frameable].
  destruct (FrameBinaryMessage route id ack message) as [s|] eqn:Hf; [|done].
  intros _. by apply FrameBinaryMessage_Ok_inv in Hf as [? _].
Qed.
