(* ===== verification/Route.v ===== *)
(** * Routes: the two spellings of a catch-all, and matching a path

    Models [handler/route.go], whose two regular expressions match a name (a
    letter or underscore, then letters, digits and underscores) inside an opening
    brace and a plus and closing brace, or inside a brace and star and a closing
    brace; and [celeritytest/route.go], the matching of a concrete path against a
    route. *)

From S2P Require Import Prelude GoStrings Handler.
From stdpp Require Import options.

Definition byte_in (lo hi c : ascii) : bool :=
  (nat_of_ascii lo <=? nat_of_ascii c) && (nat_of_ascii c <=? nat_of_ascii hi).

Definition ident_start (c : ascii) : bool :=
  byte_in "A" "Z" c || byte_in "a" "z" c || Ascii.eqb c "_".
Definition ident_char (c : ascii) : bool := ident_start c || byte_in "0" "9" c.

(** The longest run of bytes satisfying [p], and the rest. *)
Fixpoint span (p : ascii → bool) (s : string) : string * string :=
  match s with
  | "" => ("", "")
  | String c s' =>
      if p c then let '(w, t) := span p s' in (String c w, t) else ("", s)
  end.

(** The name and then [close] at the start of the text.  No byte of
    [close] is a name byte, so the longest name is the only one that can match. *)
Definition name_at (close s : string) : option string :=
  match s with
  | String c s =>
      if ident_start c then
        let '(w, t) := span ident_char s in
        if has_prefix t close then Some (String c w) else None
      else None
  | "" => None
  end.

(** Either expression, at the start of the text. *)
Definition match_at (op close s : string) : option string :=
  s ← cut_prefix op s; name_at close s.

(** [FindStringSubmatch]: the leftmost match's group. *)
Fixpoint find_match (op close s : string) : option string :=
  match match_at op close s with
  | Some name => Some name
  | None => match s with String _ s => find_match op close s | "" => None end
  end.

Definition catchAllParam : string → option string := find_match "{" "+}".
Definition routerCatchAll : string → option string := find_match "{*" "}".

(** [ReplaceAllString(route, "{*$1}")]: [skip] counts the bytes of a match that
    was already replaced. *)
Fixpoint replace_catch_all (skip : nat) (s : string) : string :=
  match s with
  | "" => ""
  | String c s' =>
      match skip with
      | S skip => replace_catch_all skip s'
      | 0 =>
          match match_at "{" "+}" s with
          | Some name => "{*" +:+ name +:+ "}" +:+ replace_catch_all (len name + 2) s'
          | None => String c (replace_catch_all 0 s')
          end
      end
  end.

Arguments replace_catch_all : simpl never.

Definition NormaliseRoute (route : string) : string := replace_catch_all 0 route.

Definition CatchAllParam (route : string) : option string :=
  match catchAllParam route with
  | Some name => Some name
  | None => routerCatchAll route
  end.

(** ** The translation removes every blueprint catch-all *)

Lemma match_at_not_brace op close c s :
  c ≠ "{"%char → match_at (String "{" op) close (String c s) = None.
Proof.
  intros Hc. unfold match_at. cbn [cut_prefix].
  destruct (Ascii.eqb_spec "{" c) as [<-|]; done.
Qed.

Lemma find_match_eq op close s :
  find_match op close s =
    match match_at op close s with
    | Some name => Some name
    | None => match s with String _ s => find_match op close s | "" => None end
    end.
Proof. by destruct s. Qed.

Lemma find_match_skip op close w s :
  no_byte "{" w = true →
  find_match (String "{" op) close (w +:+ s) = find_match (String "{" op) close s.
Proof.
  induction w as [|c w IH]; [done|]. intros Hw. simpl in Hw. bools.
  rewrite append_cons, find_match_eq, match_at_not_brace; [by apply IH|].
  intros ->. done.
Qed.

Lemma ident_no_brace c : ident_char c = true → c ≠ "{"%char.
Proof. by intros Hc ->. Qed.

Lemma span_append p s w t : span p s = (w, t) → s = w +:+ t.
Proof.
  revert w. induction s as [|c s IH]; simpl; intros w; [by intros [= <- <-]|].
  destruct (p c); [|by intros [= <- <-]].
  destruct (span p s) as [w' t']. intros [= <- <-]. by rewrite append_cons, (IH w').
Qed.

Lemma span_no_brace s w t : span ident_char s = (w, t) → no_byte "{" w = true.
Proof.
  revert w t. induction s as [|c s IH]; simpl; intros w t; [by intros [= <- <-]|].
  destruct (ident_char c) eqn:Hc; [|by intros [= <- <-]].
  destruct (span ident_char s) as [w' t'] eqn:Hs. intros [= <- <-]. simpl.
  rewrite (IH w' t') by done. apply ident_no_brace in Hc.
  destruct (Ascii.eqb_spec c "{"); naive_solver.
Qed.

Lemma name_at_no_brace close s name : name_at close s = Some name → no_byte "{" name = true.
Proof.
  destruct s as [|c s]; [done|]. simpl. destruct (ident_start c) eqn:Hc; [|done].
  destruct (span ident_char s) as [w t] eqn:Hs. destruct (has_prefix t close); [|done].
  intros [= <-]. simpl. rewrite (span_no_brace s w t) by done.
  assert (ident_char c = true) as Hc'%ident_no_brace by (unfold ident_char; by rewrite Hc).
  destruct (Ascii.eqb_spec c "{"); naive_solver.
Qed.

Lemma replace_eq c s :
  replace_catch_all 0 (String c s) =
    match match_at "{" "+}" (String c s) with
    | Some name => "{*" +:+ name +:+ "}" +:+ replace_catch_all (len name + 2) s
    | None => String c (replace_catch_all 0 s)
    end.
Proof. done. Qed.

(** What is left of a text by the replacement begins as the text does, and keeps
    everything that holds no brace. *)
Lemma replace_cons c s :
  c ≠ "{"%char → replace_catch_all 0 (String c s) = String c (replace_catch_all 0 s).
Proof. intros Hc. by rewrite replace_eq, match_at_not_brace. Qed.

Lemma replace_brace s : ∃ t, replace_catch_all 0 (String "{" s) = String "{" t.
Proof.
  rewrite replace_eq. destruct (match_at _ _ _); by eexists.
Qed.

Lemma has_prefix_cons c p d s :
  has_prefix (String d s) (String c p) = Ascii.eqb c d && has_prefix s p.
Proof. unfold has_prefix. simpl. by destruct (Ascii.eqb c d). Qed.

Lemma has_prefix_replace close s :
  no_byte "{" close = true →
  has_prefix (replace_catch_all 0 s) close = has_prefix s close.
Proof.
  revert s. induction close as [|x close IH]; intros s Hc; [done|].
  simpl in Hc. bools. destruct s as [|c s]; [done|].
  destruct (Ascii.eqb_spec c "{") as [->|Hne].
  - destruct (replace_brace s) as [t ->]. rewrite !has_prefix_cons.
    destruct (Ascii.eqb_spec x "{"); naive_solver.
  - rewrite replace_cons, !has_prefix_cons by done. by rewrite IH.
Qed.

Lemma span_replace s w t :
  span ident_char s = (w, t) →
  span ident_char (replace_catch_all 0 s) = (w, replace_catch_all 0 t).
Proof.
  revert w. induction s as [|c s IH]; intros w; simpl span; [by intros [= <- <-]|].
  destruct (ident_char c) eqn:Hc.
  - destruct (span ident_char s) as [w' t'] eqn:Hs. intros [= <- <-].
    rewrite replace_cons by (by apply ident_no_brace). simpl. rewrite Hc.
    by rewrite (IH w').
  - intros [= <- <-]. destruct (Ascii.eqb_spec c "{") as [->|Hne].
    + destruct (replace_brace s) as [t ->]. done.
    + rewrite replace_cons by done. simpl. by rewrite Hc.
Qed.

Lemma name_at_replace close s :
  no_byte "{" close = true →
  name_at close (replace_catch_all 0 s) = name_at close s.
Proof.
  intros Hclose. destruct s as [|c s]; [done|].
  destruct (Ascii.eqb_spec c "{") as [->|Hne].
  { destruct (replace_brace s) as [t ->]. done. }
  rewrite replace_cons by done. cbn [name_at].
  destruct (ident_start c); [|done]. destruct (span ident_char s) as [w t] eqn:Hs.
  by rewrite (span_replace s w t), has_prefix_replace.
Qed.

Lemma match_at_replace op close s :
  no_byte "{" close = true → no_byte "{" op = true →
  match_at op close (replace_catch_all 0 s) = match_at op close s.
Proof.
  intros Hclose. revert s. induction op as [|x op IH]; intros s Hop.
  { unfold match_at. simpl. by apply name_at_replace. }
  simpl in Hop. bools. destruct s as [|c s]; [done|].
  destruct (Ascii.eqb_spec c "{") as [->|Hne].
  - destruct (replace_brace s) as [t ->]. unfold match_at. simpl.
    destruct (Ascii.eqb_spec x "{"); naive_solver.
  - rewrite replace_cons by done. unfold match_at. simpl.
    destruct (Ascii.eqb x c); [by apply IH|done].
Qed.

Lemma match_at_brace op close s :
  match_at (String "{" op) close (String "{" s) = match_at op close s.
Proof. done. Qed.

(** A name read once is read again whatever byte that is no name byte follows. *)
Lemma span_again p s w t c u :
  span p s = (w, t) → p c = false → span p (w +:+ String c u) = (w, String c u).
Proof.
  intros Hs Hc. revert w Hs. induction s as [|d s IH]; simpl; intros w.
  { intros [= <- <-]. simpl. by rewrite Hc. }
  destruct (p d) eqn:Hd.
  - destruct (span p s) as [w' t'] eqn:Hsp. intros [= <- <-].
    rewrite append_cons. simpl. by rewrite Hd, (IH w').
  - intros [= <- <-]. simpl. by rewrite Hc.
Qed.

Lemma name_at_again close s name :
  name_at close s = Some name → ∀ u, name_at "}" (name +:+ "}" +:+ u) = Some name.
Proof.
  destruct s as [|c s]; [done|]. simpl. destruct (ident_start c) eqn:Hc; [|done].
  destruct (span ident_char s) as [w t] eqn:Hs. destruct (has_prefix t close); [|done].
  intros [= <-] u. rewrite append_cons. simpl. rewrite Hc.
  rewrite (append_cons "}" ""), (span_again _ _ _ _ "}"%char _ Hs) by done. done.
Qed.

Lemma match_at_name op close s name :
  match_at op close s = Some name → ∃ s', name_at close s' = Some name.
Proof. unfold match_at. destruct (cut_prefix op s); [eauto|done]. Qed.

(** Nothing is left for the blueprint's expression to find. *)
Lemma catchAllParam_replace skip s : catchAllParam (replace_catch_all skip s) = None.
Proof.
  unfold catchAllParam. revert skip. induction s as [|c s IH]; intros skip; [done|].
  destruct skip as [|skip]; [|apply IH].
  destruct (match_at "{" "+}" (String c s)) as [name|] eqn:Hm.
  - rewrite replace_eq, Hm. apply match_at_name in Hm as [s' Hm%name_at_no_brace].
    assert (∀ x, find_match "{" "+}" ("{*" +:+ x) = find_match "{" "+}" ("*" +:+ x))
      as -> by done.
    rewrite <- !append_assoc, find_match_skip; [apply IH|].
    by rewrite !no_byte_append, Hm.
  - rewrite replace_eq, Hm, find_match_eq.
    destruct (Ascii.eqb_spec c "{") as [->|Hne]; [|by rewrite match_at_not_brace].
    unfold match_at in *. simpl in *. by rewrite name_at_replace, Hm.
Qed.

Lemma replace_id s : catchAllParam s = None → replace_catch_all 0 s = s.
Proof.
  unfold catchAllParam. induction s as [|c s IH]; [done|]. rewrite find_match_eq, replace_eq.
  destruct (match_at _ _ _); [done|]. intros H. by rewrite IH.
Qed.

(** The first blueprint catch-all becomes the first router one, unless the route
    already holds one. *)
Lemma routerCatchAll_replace s :
  routerCatchAll s = None → routerCatchAll (replace_catch_all 0 s) = catchAllParam s.
Proof.
  unfold catchAllParam, routerCatchAll. induction s as [|c s IH]; [done|].
  rewrite (find_match_eq "{*"), (find_match_eq "{" "+}"), replace_eq.
  destruct (match_at "{*" "}" (String c s)) eqn:Hr; [done|]. intros Hs.
  destruct (match_at "{" "+}" (String c s)) as [name|] eqn:Hm.
  - apply match_at_name in Hm as [s' Hm]. rewrite find_match_eq.
    assert (∀ x, match_at "{*" "}" ("{*" +:+ x) = name_at "}" x) as -> by done.
    by rewrite (name_at_again _ _ _ Hm).
  - rewrite find_match_eq, IH by done.
    destruct (Ascii.eqb_spec c "{") as [->|Hne]; [|by rewrite match_at_not_brace].
    rewrite match_at_brace, match_at_replace by done. by rewrite match_at_brace in Hr; rewrite Hr.
Qed.
(** A route in the router's form.  The translation leaves no catch-all in the
    blueprint's form, changes nothing the second time, changes nothing where there
    was none, and keeps the catch-all's name: what [CatchAllParam] answers of a
    blueprint route it answers of the translated one. *)
Lemma NormaliseRoute_normal r :
  catchAllParam (NormaliseRoute r) = None ∧
  NormaliseRoute (NormaliseRoute r) = NormaliseRoute r ∧
  (catchAllParam r = None → NormaliseRoute r = r) ∧
  (routerCatchAll r = None → CatchAllParam (NormaliseRoute r) = CatchAllParam r).
Proof.
  unfold NormaliseRoute. split_and!.
  - apply catchAllParam_replace.
  - apply replace_id, catchAllParam_replace.
  - apply replace_id.
  - intros Hr. unfold CatchAllParam. rewrite catchAllParam_replace, routerCatchAll_replace, Hr
      by done. by destruct (catchAllParam r).
Qed.

Lemma NormaliseRoute_normal_witness :
  routerCatchAll "/files/{path+}" = None ∧
  CatchAllParam (NormaliseRoute "/files/{path+}") = CatchAllParam "/files/{path+}".
Proof.
  split; [reflexivity|].
  apply (proj2 (proj2 (proj2 (NormaliseRoute_normal "/files/{path+}")))). reflexivity.
Defined.

Example NormaliseRoute_ex :
  NormaliseRoute "/files/{path+}/{x}/{{y_1+}" = "/files/{*path}/{x}/{{*y_1}".
Proof. reflexivity. Qed.

(** ** Matching a path *)

(** [url.PathUnescape]: [None] where a percent sign is not followed by two
    hexadecimal digits. *)
Definition unhex (c : ascii) : option nat :=
  let n := nat_of_ascii c in
  if byte_in "0" "9" c then Some (n - 48)
  else if byte_in "a" "f" c then Some (n - 87)
  else if byte_in "A" "F" c then Some (n - 55)
  else None.

Fixpoint PathUnescape (s : string) : option string :=
  match s with
  | "" => Some ""
  | String "%" (String a (String b s)) =>
      hi ← unhex a; lo ← unhex b; t ← PathUnescape s;
      Some (String (ascii_of_nat (16 * hi + lo)) t)
  | String "%" _ => None
  | String c s => String c <$> PathUnescape s
  end.

Definition decode (segment : string) : string := default segment (PathUnescape segment).

(** [strings.Trim(p, "/")]. *)
Fixpoint trim_left (c : ascii) (s : string) : string :=
  match s with
  | String d s' => if Ascii.eqb d c then trim_left c s' else s
  | "" => ""
  end.
Definition trim_byte (c : ascii) (s : string) : string :=
  str_rev (trim_left c (str_rev (trim_left c s))).

Definition split (p : string) : list string :=
  let trimmed := trim_byte "/" p in
  if bool_decide (trimmed = "") then [] else split_on "/" trimmed.

(** [part[1 : len(part)-1]] of a part in braces. *)
Definition inner (part : string) : string := String.substring 1 (len part - 2) part.

Definition parseSegment (part : string) : string * bool * bool :=
  if negb (has_prefix part "{") || negb (has_suffix part "}") then ("", false, false)
  else match cut_prefix "*" (inner part) with
       | Some after => (after, true, true)
       | None => (inner part, false, true)
       end.

(** The loop over a route's segments, the path's own from the same index on. *)
Fixpoint match_parts (routeParts pathParts : list string) (params : Params) : option Params :=
  match routeParts with
  | [] => match pathParts with [] => Some params | _ => None end
  | part :: routeParts =>
      let '(name, catchAll, isParam) := parseSegment part in
      if isParam && catchAll then
        Some (foldl (λ ps rest, Params.Add ps name (decode rest)) params pathParts)
      else
        match pathParts with
        | [] => None
        | p :: pathParts =>
            if isParam then match_parts routeParts pathParts (Params.Add params name (decode p))
            else if bool_decide (part = p) then match_parts routeParts pathParts params
            else None
        end
  end.

Definition matchRoute (route path : string) : option Params :=
  match_parts (split route) (split path) ∅.

Example matchRoute_ex :
  matchRoute "/orders/{id}/files/{*path}" "orders/a%2Fb/files/x/y%zz/" =
    Some {[ "id" := ["a/b"]; "path" := ["x"; "y%zz"] ]}.
Proof. vm_compute. reflexivity. Qed.

(** *** A path written from a route's own segments is matched with its values *)

Inductive slot : Type :=
  | Fixed (text : string)
  | Bound (name value : string).

Definition slot_route (s : slot) : string :=
  match s with Fixed t => t | Bound n _ => "{" +:+ n +:+ "}" end.
Definition slot_path (s : slot) : string :=
  match s with Fixed t => t | Bound _ v => v end.
Definition slot_binding (s : slot) : option (string * string) :=
  match s with Fixed _ => None | Bound n v => Some (n, v) end.

Definition catch_text (catch : option (string * list string)) : list string :=
  match catch with Some (n, _) => ["{*" +:+ n +:+ "}"] | None => [] end.
Definition catch_values (catch : option (string * list string)) : list string :=
  match catch with Some (_, vs) => vs | None => [] end.
Definition catch_bindings (catch : option (string * list string)) : list (string * string) :=
  match catch with Some (n, vs) => pair n <$> vs | None => [] end.

(** Text that is one segment of a path. *)
Definition segment_text (s : string) : Prop := s ≠ "" ∧ no_byte "/" s = true.

Definition slot_ok (s : slot) : Prop :=
  match s with
  | Fixed t => segment_text t ∧ has_prefix t "{" = false
  | Bound n v => no_byte "/" n = true ∧ has_prefix n "*" = false ∧ segment_text v
  end.

Definition catch_ok (catch : option (string * list string)) : Prop :=
  match catch with
  | Some (n, vs) => no_byte "/" n = true ∧ Forall segment_text vs
  | None => True
  end.

Definition rooted (segments : list string) : string := "/" +:+ join segments "/".

Definition bind_all (bs : list (string * string)) (ps : Params) : Params :=
  foldl (λ ps '(n, v), Params.Add ps n (decode v)) ps bs.

Lemma no_byte_str_rev c s : no_byte c (str_rev s) = no_byte c s.
Proof.
  induction s as [|d s IH]; [done|]. rewrite str_rev_cons, no_byte_append, IH. simpl.
  by rewrite andb_true_r, andb_comm.
Qed.

Lemma trim_left_id c x t : x ≠ "" → no_byte c x = true → trim_left c (x +:+ t) = x +:+ t.
Proof.
  destruct x as [|d x]; [done|]. intros _ Hx. simpl in Hx. bools.
  rewrite append_cons. simpl. by rewrite H.
Qed.

Lemma str_rev_nil s : str_rev s = "" → s = "".
Proof. intros H. by rewrite <- (str_rev_involutive s), H. Qed.

Lemma trim_byte_id c x mid mid' y :
  x ≠ "" → no_byte c x = true → y ≠ "" → no_byte c y = true →
  x +:+ mid = mid' +:+ y → trim_byte c (x +:+ mid) = x +:+ mid.
Proof.
  intros ???? Heq. unfold trim_byte. rewrite trim_left_id by done.
  rewrite Heq, str_rev_append, trim_left_id.
  - by rewrite <- str_rev_append, str_rev_involutive.
  - intros ?%str_rev_nil. done.
  - by rewrite no_byte_str_rev.
Qed.

Lemma join_last xs x y sep : ∃ mid, join (x :: xs ++ [y]) sep = mid +:+ y.
Proof.
  revert x. induction xs as [|z xs IH]; intros x.
  - exists (x +:+ sep). simpl app. rewrite join_cons. simpl. by rewrite append_assoc.
  - destruct (IH z) as [mid Hm]. exists (x +:+ sep +:+ mid). simpl app in *.
    by rewrite join_cons, Hm, !append_assoc.
Qed.

Lemma split_rooted xs : Forall segment_text xs → split (rooted xs) = xs.
Proof.
  intros Hxs. destruct xs as [|x xs]; [done|].
  assert (trim_byte "/" (rooted (x :: xs)) = join (x :: xs) "/") as Htrim.
  { transitivity (trim_byte "/" (join (x :: xs) "/")); [done|].
    inversion Hxs as [|?? [Hx1 Hx2] Hxs']; subst. destruct xs as [|y xs _] using rev_ind.
    - change (join [x] "/") with x. rewrite <- (append_nil_r x).
      by apply (trim_byte_id _ _ _ "" x); rewrite ?append_nil_r.
    - destruct (join_last xs x y "/") as [mid Hm]. apply Forall_app in Hxs' as [_ Hy].
      inversion Hy as [|?? [Hy1 Hy2] _]; subst.
      assert (∃ t, join (x :: xs ++ [y]) "/" = x +:+ t) as [t Ht].
      { destruct xs; simpl app; rewrite join_cons; eauto. }
      rewrite Ht. by apply (trim_byte_id _ _ _ mid y); rewrite <- ?Ht. }
  unfold split. rewrite Htrim, bool_decide_eq_false_2.
  - apply split_join; [done|]. eapply Forall_impl; [done|]. by intros ? [].
  - inversion Hxs as [|?? [Hx1 Hx2] _]; subst. destruct x as [|c x]; [done|]. by destruct xs.
Qed.

Lemma substring_take a b n : n = len a → String.substring 0 n (a +:+ b) = a.
Proof.
  intros ->. induction a as [|c a IH]; [by destruct b|]. rewrite append_cons. simpl. by rewrite IH.
Qed.

Lemma inner_braces n : inner ("{" +:+ n +:+ "}") = n.
Proof.
  unfold inner. rewrite append_cons, append_nil_l. simpl.
  apply substring_take. rewrite len_append. simpl. lia.
Qed.

Lemma parseSegment_braces n :
  parseSegment ("{" +:+ n +:+ "}") =
    match cut_prefix "*" n with
    | Some after => (after, true, true)
    | None => (n, false, true)
    end.
Proof.
  unfold parseSegment. rewrite inner_braces.
  assert (has_suffix ("{" +:+ n +:+ "}") "}" = true) as ->.
  { unfold has_suffix. apply is_some_true. exists ("{" +:+ n). apply cut_suffix_Some.
    by rewrite append_assoc. }
  done.
Qed.

Lemma parseSegment_fixed t : has_prefix t "{" = false → parseSegment t = ("", false, false).
Proof. intros H. unfold parseSegment. by rewrite H. Qed.

Lemma match_slots slots catch ps :
  Forall slot_ok slots → catch_ok catch →
  match_parts ((slot_route <$> slots) ++ catch_text catch)
    ((slot_path <$> slots) ++ catch_values catch) ps =
  Some (bind_all (omap slot_binding slots ++ catch_bindings catch) ps).
Proof.
  intros Hs Hc. revert ps. induction Hs as [|[t|n v] slots Hok _ IH]; intros ps.
  - destruct catch as [[n vs]|]; [|done].
    change (catch_text (Some (n, vs))) with ["{" +:+ ("*" +:+ n) +:+ "}"].
    simpl. rewrite parseSegment_braces. simpl. f_equal.
    clear Hc. revert ps. induction vs as [|v vs IH]; intros ps; [done|]. apply IH.
  - destruct Hok as [_ Hp]. simpl. rewrite parseSegment_fixed by done. simpl.
    rewrite bool_decide_eq_true_2 by done. apply IH.
  - destruct Hok as (_ & Hn & _). simpl.
    rewrite (parseSegment_braces n). unfold has_prefix in Hn. bools. rewrite Hn. simpl. apply IH.
Qed.

Lemma braces_segment n : no_byte "/" n = true → segment_text ("{" +:+ n +:+ "}").
Proof. intros Hn. split; [done|]. by rewrite !no_byte_append, Hn. Qed.

Lemma route_segments slots catch :
  Forall slot_ok slots → catch_ok catch →
  Forall segment_text ((slot_route <$> slots) ++ catch_text catch) ∧
  Forall segment_text ((slot_path <$> slots) ++ catch_values catch).
Proof.
  intros Hs Hc. split; apply Forall_app; split.
  - apply Forall_fmap. eapply Forall_impl; [done|].
    intros [t|n v]; simpl; [by intros [? _] | intros (? & _ & _)]. by apply braces_segment.
  - destruct catch as [[n vs]|]; [|constructor]. destruct Hc. constructor; [|constructor].
    by apply (braces_segment ("*" +:+ n)).
  - apply Forall_fmap. eapply Forall_impl; [done|]. intros [t|n v]; simpl; naive_solver.
  - destruct catch as [[n vs]|]; [|constructor]. by destruct Hc.
Qed.

(** Routing round trip.  A path written by putting one segment for each
    parameter of a route, and any number of segments, none included, for its
    catch-all, is matched by the route and binds each parameter, in order, to its
    own decoded segment, the catch-all to one value per segment. *)
Lemma matchRoute_roundtrip slots catch :
  Forall slot_ok slots → catch_ok catch →
  matchRoute (rooted ((slot_route <$> slots) ++ catch_text catch))
             (rooted ((slot_path <$> slots) ++ catch_values catch)) =
  Some (bind_all (omap slot_binding slots ++ catch_bindings catch) ∅).
Proof.
  intros Hs Hc. destruct (route_segments slots catch Hs Hc).
  unfold matchRoute. rewrite !split_rooted by done. by apply match_slots.
Qed.

Lemma matchRoute_roundtrip_witness :
  matchRoute "/orders/{id}/files/{*path}" "/orders/a%2Fb/files/x/y" =
    Some {[ "id" := ["a/b"]; "path" := ["x"; "y"] ]}.
Proof.
  etransitivity; [|vm_compute; reflexivity].
  apply (matchRoute_roundtrip [Fixed "orders"; Bound "id" "a%2Fb"; Fixed "files"]
           (Some ("path", ["x"; "y"]))).
  - repeat constructor; done.
  - repeat constructor; done.
Defined.

(** A path that gives fewer segments than the route's own, or more where it has no
    catch-all, is no match. *)
Lemma match_parts_length routeParts pathParts ps ps' :
  Forall (λ p, (parseSegment p).1.2 = false) routeParts →
  match_parts routeParts pathParts ps = Some ps' → length pathParts = length routeParts.
Proof.
  intros Hall. revert pathParts ps. induction Hall as [|p rs Hp _ IH]; intros pps ps; simpl.
  { by destruct pps. }
  destruct (parseSegment p) as [[name ca] isp]. simpl in Hp. rewrite Hp, andb_false_r.
  destruct pps as [|q pps]; [done|].
  destruct isp; [|case_bool_decide; [|done]]; intros ?%IH; simpl; lia.
Qed.
