(* ===== verification/Layer.v ===== *)
(** * Contexts, spans and layers

    Models [layer/layer.go], [telemetry/tracer.go], [telemetry/telemetry.go],
    [celerity/context.go] and the context half of [guard/guard.go].

    A handler, and everything that wraps one, is a function of a context, an event
    and the world [W] outside the SDK, answering an outcome and the world it left.
    A Go call that panics is an outcome of its own.  What [context.WithValue] can
    carry is a record of optional fields, one per key the SDK defines. *)

From S2P Require Import Prelude GoStrings Json Errors Handler.
From stdpp Require Import options.

(** ** Outcomes *)

(** What a call panicked with: an error value, or anything else as [fmt.Sprint]
    writes it. *)
Inductive panic_value : Type :=
  | PanicError (e : error)
  | PanicText (text : string).

(** What a call answers: the pair Go returns, or what it panicked with. *)
Inductive outcome (A : Type) : Type :=
  | Returned (a : A) (err : option error)
  | Panicked (v : panic_value).
Arguments Returned {A} a err.
Arguments Panicked {A} v.

(** A handler answers a result, which may be nil, and an error, which may be nil. *)
Abbreviation handled := (outcome (option Result)).
Definition Answer (r : Result) : handled := Returned (Some r) None.
Definition Failure (e : error) : handled := Returned None (Some e).

(** ** Contexts *)

(** [guard.Decision].  What it identifies and claims is the application's own and
    is only carried; it is shown as the JSON it would encode to. *)
Record Decision : Type := MkDecision {
  Allowed : bool;
  Reason : string;
  Identity : option json;
  Claims : list (string * json);
}.

Definition Allow (identity : option json) : Decision := MkDecision true "" identity [].
Definition Deny (reason : string) : Decision := MkDecision false reason None [].

Definition TraceContext : Type := gmap string string.
Definition TraceParentHeader : string := "traceparent".
Definition TraceStateHeader : string := "tracestate".

(** The attributes bound into a logger, in the order they were bound. *)
Definition Logger : Type := list (string * string).

(** A WebSocket sender, known by a handle: what it does is its transport's. *)
Definition Sender : Type := nat.

Record Ctx : Type := MkCtx {
  ctxEvent : option Event;
  ctxIdentity : option Decision;
  ctxTrace : option TraceContext;
  ctxLogger : option Logger;
  ctxDeadline : option Z;
  ctxSpan : option (string * string);    (* what the tracer put there: a span, and its trace *)
  ctxSender : option Sender;
}.

Definition Background : Ctx := MkCtx None None None None None None None.

Definition WithEvent (c : Ctx) (ev : Event) : Ctx :=
  MkCtx (Some ev) c.(ctxIdentity) c.(ctxTrace) c.(ctxLogger) c.(ctxDeadline) c.(ctxSpan) c.(ctxSender).
Definition WithIdentity (c : Ctx) (d : Decision) : Ctx :=
  MkCtx c.(ctxEvent) (Some d) c.(ctxTrace) c.(ctxLogger) c.(ctxDeadline) c.(ctxSpan) c.(ctxSender).
Definition WithTraceContext (c : Ctx) (tc : TraceContext) : Ctx :=
  MkCtx c.(ctxEvent) c.(ctxIdentity) (Some tc) c.(ctxLogger) c.(ctxDeadline) c.(ctxSpan) c.(ctxSender).
Definition WithLogger (c : Ctx) (l : Logger) : Ctx :=
  MkCtx c.(ctxEvent) c.(ctxIdentity) c.(ctxTrace) (Some l) c.(ctxDeadline) c.(ctxSpan) c.(ctxSender).
Definition WithSpan (c : Ctx) (s : string * string) : Ctx :=
  MkCtx c.(ctxEvent) c.(ctxIdentity) c.(ctxTrace) c.(ctxLogger) c.(ctxDeadline) (Some s) c.(ctxSender).
(** [serverless.WithWebSocketSender]. *)
Definition WithWebSocketSender (c : Ctx) (s : Sender) : Ctx :=
  MkCtx c.(ctxEvent) c.(ctxIdentity) c.(ctxTrace) c.(ctxLogger) c.(ctxDeadline) c.(ctxSpan)
    (Some s).

Definition EventFrom (c : Ctx) : option Event := c.(ctxEvent).
Definition IdentityFrom (c : Ctx) : option Decision := c.(ctxIdentity).
Definition TraceContextFrom (c : Ctx) : option TraceContext := c.(ctxTrace).
Definition LoggerFrom (c : Ctx) : Logger := default [] c.(ctxLogger).

Definition WebSocketSenderFrom (c : Ctx) : option Sender := c.(ctxSender).

Definition WebSocketEventFrom (c : Ctx) : option WebSocketMessage :=
  ev ← EventFrom c; ev.(EventWebSocket).

Definition ConnectionID (c : Ctx) : string :=
  match WebSocketEventFrom c with Some ws => ws.(WSConnectionID) | None => "" end.

Definition RequestID (c : Ctx) : string :=
  match EventFrom c with
  | None => ""
  | Some ev =>
      match ev.(EventHTTP), ev.(EventWebSocket) with
      | Some r, _ => r.(RequestRequestID)
      | None, Some ws => ws.(WSRequestID)
      | None, None => ev.(EventID)
      end
  end.

(** ** Spans *)

Record SpanContext : Type := MkSpanContext { TraceID : string; SpanID : string }.

Definition Recorded (c : SpanContext) : bool := negb (bool_decide (c.(TraceID) = "")).

Definition TraceIDKey : string := "trace_id".
Definition SpanIDKey : string := "span_id".

Inductive attr_value : Type := AString (s : string) | AInt (n : Z) | ABool (b : bool).
Definition Attr : Type := string * attr_value.

(** [telemetry.Tracer] and [telemetry.Span]: the installed implementation is
    linked by the application, and is an interface here as it is there. *)
Class Tracer (W : Type) : Type := {
  Span : Type;
  Start : Ctx → string → list Attr → W → (Ctx * Span) * W;
  SetAttributes : Span → list Attr → W → W;
  RecordError : Span → error → W → W;
  End_ : Span → W → W;
  SpanOf : Span → SpanContext;
}.

(** What the SDK relies on: a span may be put in the context, and nothing an SDK
    key holds is changed. *)
Class TracerLaws (W : Type) `{Tracer W} : Prop := {
  Start_keeps : ∀ c name attrs w c' s w',
    Start c name attrs w = ((c', s), w') →
    c'.(ctxEvent) = c.(ctxEvent) ∧ c'.(ctxIdentity) = c.(ctxIdentity) ∧
    c'.(ctxTrace) = c.(ctxTrace) ∧ c'.(ctxLogger) = c.(ctxLogger) ∧
    c'.(ctxDeadline) = c.(ctxDeadline) ∧ c'.(ctxSender) = c.(ctxSender);
}.

(** What an application that linked no implementation traces with. *)
Definition noopTracer {W} : Tracer W := {|
  Span := unit;
  Start c _ _ w := ((c, ()), w);
  SetAttributes _ _ w := w;
  RecordError _ _ w := w;
  End_ _ w := w;
  SpanOf _ := MkSpanContext "" "";
|}.

Lemma noopTracer_laws {W} : @TracerLaws W noopTracer.
Proof. split. intros c name attrs w c' s w' H. by injection H as <- <- <-. Qed.

(** [Traced]: the span is ended whatever happens, a panic included; an error is
    recorded on it first. *)
Definition Traced {W A} `{Tracer W} (c : Ctx) (name : string) (attrs : list Attr)
    (fn : Ctx → Span → W → outcome A * W) (w : W) : outcome A * W :=
  let '((c, span), w) := Start c name attrs w in
  let '(o, w) := fn c span w in
  match o with
  | Panicked text => (Panicked text, End_ span w)
  | Returned a (Some e) => (Returned a (Some e), End_ span (RecordError span e w))
  | Returned a None => (Returned a None, End_ span w)
  end.

(** ** Layers *)

Section layers.
Context {W : Type}.

Definition Next : Type := Ctx → Event → W → handled * W.
Definition Func : Type := Next.
Definition Layer : Type := Next → Next.

(** [Chain]: the loop runs from the last layer to the first, and skips a nil one. *)
Definition Chain (layers : list (option Layer)) : Layer := λ next,
  foldr (λ l next, match l with Some l => l next | None => next end) next layers.

Definition Apply (h : Func) (layers : list (option Layer)) : Next := Chain layers h.

(** Scopes compose: chaining two lists is one list after the other. *)
Lemma Chain_app l1 l2 next : Chain (l1 ++ l2) next = Chain l1 (Chain l2 next).
Proof. apply foldr_app. Qed.

(** A layer that notes its name on the way in and on the way out. *)
Definition noting (note : bool → string → W → W) (name : string) : Layer :=
  λ next c ev w, let '(o, w) := next c ev (note true name w) in (o, note false name w).

Definition noting_layers (note : bool → string → W → W) (names : list (option string)) :
    list (option Layer) :=
  map (option_map (noting note)) names.

Lemma Chain_noting note names next c ev w :
  Chain (noting_layers note names) next c ev w =
    let '(o, w') := next c ev (foldl (λ w n, note true n w) w (omap id names)) in
    (o, foldl (λ w n, note false n w) w' (rev (omap id names))).
Proof.
  revert w. induction names as [|[n|] names IH]; intros w.
  - simpl. by destruct (next c ev w).
  - assert (Chain (noting_layers note (Some n :: names)) next =
      noting note n (Chain (noting_layers note names) next)) as -> by done.
    unfold noting at 1. rewrite IH. simpl.
    destruct (next c ev _) as [o w']. by rewrite foldl_app.
  - apply IH.
Qed.

(** The order layers run in.  Layers given left to right see an event in that
    order and its answer in the reverse order, nil layers being no layers; a layer
    that answers without calling next is the last thing reached, and the layers
    before it still see its answer on the way out. *)
Lemma Chain_order note names inner answer h c ev w :
  Apply h (noting_layers note names) c ev w =
    (let '(o, w') := h c ev (foldl (λ w n, note true n w) w (omap id names)) in
     (o, foldl (λ w n, note false n w) w' (rev (omap id names)))) ∧
  Apply h (noting_layers note names ++ Some (λ _, answer) :: inner) c ev w =
    (let '(o, w') := answer c ev (foldl (λ w n, note true n w) w (omap id names)) in
     (o, foldl (λ w n, note false n w) w' (rev (omap id names)))).
Proof. unfold Apply. split; [|rewrite Chain_app]; apply Chain_noting. Qed.

End layers.

Arguments Next : clear implicits.
Arguments Func : clear implicits.
Arguments Layer : clear implicits.
