(* ===== verification/Registry.v ===== *)
(** * The handler registry

    Models [celerity/tags.go] and [celerity/registry.go].  A [*Registration] is
    shared between the registry and the code that reconciles tags, which writes
    through it; it is an index into [heap] here, the registrations made so far.
    The locks guard against concurrent callers and are not modelled: each operation
    is one step. *)

From S2P Require Import Prelude GoStrings Json Errors Handler Route Layer.
From stdpp Require Import options.

(** ** Tags *)

Definition HTTPTag (method route : string) : string := to_upper method +:+ "::" +:+ route.
Definition DefaultWebSocketRouteKey : string := "event".
Definition WebSocketTag (routeKey route : string) : string := routeKey +:+ "::" +:+ route.
Definition SourceTag (sourceID handlerName : string) : string :=
  "source::" +:+ sourceID +:+ "::" +:+ handlerName.
Definition CustomTag (handlerName : string) : string := "custom::" +:+ handlerName.

(** ** Registrations *)

Record Registration (W : Type) : Type := MkRegistration {
  Tag : string;
  Name : string;
  PublishedName : string;
  RegKind : Kind;
  RegMethod : string;
  RegRoute : string;
  RouteKey : string;
  SourceID : string;
  SourceFile : string;
  SourceLine : Z;
  FuncPath : string;
  RegHandler : Func W;
  Layers : list (option (Layer W));
  Guards : list string;
  RegUses : list string;
  RegPublic : bool;
  RegMaxConcurrent : Z;
  FromBlueprint : bool;
}.
Arguments MkRegistration {W}.
Arguments Tag {W}. Arguments Name {W}. Arguments PublishedName {W}.
Arguments RegKind {W}. Arguments RegMethod {W}. Arguments RegRoute {W}.
Arguments RouteKey {W}. Arguments SourceID {W}. Arguments SourceFile {W}.
Arguments SourceLine {W}. Arguments FuncPath {W}. Arguments RegHandler {W}.
Arguments Layers {W}. Arguments Guards {W}. Arguments RegUses {W}.
Arguments RegPublic {W}. Arguments RegMaxConcurrent {W}. Arguments FromBlueprint {W}.

Section registration.
Context {W : Type}.
Implicit Types (r : Registration W).

(** The fields written through a pointer after registration. *)
Definition set_tag r (tag : string) : Registration W :=
  MkRegistration tag r.(Name) r.(PublishedName) r.(RegKind) r.(RegMethod) r.(RegRoute)
    r.(RouteKey) r.(SourceID) r.(SourceFile) r.(SourceLine) r.(FuncPath) r.(RegHandler)
    r.(Layers) r.(Guards) r.(RegUses) r.(RegPublic) r.(RegMaxConcurrent) r.(FromBlueprint).
Definition set_kind r (kind : Kind) : Registration W :=
  MkRegistration r.(Tag) r.(Name) r.(PublishedName) kind r.(RegMethod) r.(RegRoute)
    r.(RouteKey) r.(SourceID) r.(SourceFile) r.(SourceLine) r.(FuncPath) r.(RegHandler)
    r.(Layers) r.(Guards) r.(RegUses) r.(RegPublic) r.(RegMaxConcurrent) r.(FromBlueprint).
Definition set_route_key r (key : string) : Registration W :=
  MkRegistration r.(Tag) r.(Name) r.(PublishedName) r.(RegKind) r.(RegMethod) r.(RegRoute)
    key r.(SourceID) r.(SourceFile) r.(SourceLine) r.(FuncPath) r.(RegHandler)
    r.(Layers) r.(Guards) r.(RegUses) r.(RegPublic) r.(RegMaxConcurrent) r.(FromBlueprint).
Definition set_layers r (layers : list (option (Layer W))) : Registration W :=
  MkRegistration r.(Tag) r.(Name) r.(PublishedName) r.(RegKind) r.(RegMethod) r.(RegRoute)
    r.(RouteKey) r.(SourceID) r.(SourceFile) r.(SourceLine) r.(FuncPath) r.(RegHandler)
    layers r.(Guards) r.(RegUses) r.(RegPublic) r.(RegMaxConcurrent) r.(FromBlueprint).

End registration.

(** ** The registry *)

Record Registry (W : Type) : Type := MkRegistry {
  heap : list (Registration W);
  byTag : gmap string nat;
  order : list string;
}.
Arguments MkRegistry {W}. Arguments heap {W}. Arguments byTag {W}. Arguments order {W}.

Section registry.
Context {W : Type}.
Implicit Types (s : Registry W) (i : nat) (reg : Registration W).

Definition NewRegistry : Registry W := MkRegistry [] ∅ [].

(** A new [&Registration{...}]. *)
Definition alloc s reg : Registry W * nat :=
  (MkRegistry (s.(heap) ++ [reg]) s.(byTag) s.(order), length s.(heap)).

(** A write through a pointer. *)
Definition write s i (f : Registration W → Registration W) : Registry W :=
  MkRegistry (alter f i s.(heap)) s.(byTag) s.(order).

Definition registered_text (tag : string) (existing reg : Registration W) : string :=
  "handler " +:+ go_quote tag +:+ " is already registered at " +:+ existing.(SourceFile)
  +:+ ":" +:+ itoa existing.(SourceLine) +:+ ", and " +:+ reg.(SourceFile) +:+ ":"
  +:+ itoa reg.(SourceLine) +:+ " registers it again".

(** [Registry.Add], of the registration at [i].  [None] is a nil dereference. *)
Definition Add s i : option (result error (Registry W)) :=
  reg ← s.(heap) !! i;
  match s.(byTag) !! reg.(Tag) with
  | Some e =>
      existing ← s.(heap) !! e;
      Some (Err (EString (registered_text reg.(Tag) existing reg)))
  | None =>
      Some (Ok (MkRegistry s.(heap) (<[reg.(Tag) := i]> s.(byTag))
                  (s.(order) ++ [reg.(Tag)])))
  end.

(** [Registry.Retag]. *)
Definition Retag s (from to : string) : Registry W :=
  match s.(byTag) !! from with
  | None => s
  | Some i =>
      if bool_decide (from = to) then s
      else MkRegistry s.(heap) (<[to := i]> (delete from s.(byTag)))
             (replace_first from to s.(order))
  end.

Definition Get s (tag : string) : option nat := s.(byTag) !! tag.

(** [Registry.ByName].  The outer [None] is the nil dereference of a tag the order
    lists and the map does not hold. *)
Fixpoint by_name_in s (name : string) (tags : list string) : option (option nat) :=
  match tags with
  | [] => Some None
  | tag :: tags =>
      i ← s.(byTag) !! tag;
      reg ← s.(heap) !! i;
      if bool_decide (reg.(Name) = name) || bool_decide (reg.(PublishedName) = name)
      then Some (Some i) else by_name_in s name tags
  end.

Definition ByName s (name : string) : option (option nat) := by_name_in s name s.(order).

(** [Registry.All]: a tag the map does not hold reads as a nil pointer. *)
Definition All s : list (option nat) := (λ tag, s.(byTag) !! tag) <$> s.(order).

(** [Registry.OfKind]; [None] where it dereferences a nil pointer. *)
Fixpoint of_kind_in s (kind : Kind) (ptrs : list (option nat)) : option (list nat) :=
  match ptrs with
  | [] => Some []
  | p :: ptrs =>
      i ← p;
      reg ← s.(heap) !! i;
      rest ← of_kind_in s kind ptrs;
      Some (if bool_decide (reg.(RegKind) = kind) then i :: rest else rest)
  end.

Definition OfKind s (kind : Kind) : option (list nat) := of_kind_in s kind (All s).

(** [Registry.Tags] and [Registry.Len]. *)
Definition Tags s : list string := sort_strings (keys s.(byTag)).
Definition Len s : nat := size s.(byTag).

(** ** The invariant

    The order lists every tag once, and a tag leads to a registration carrying it. *)

Record registry_wf s : Prop := {
  wf_nodup : NoDup s.(order);
  wf_dom : ∀ tag, tag ∈ s.(order) ↔ is_Some (s.(byTag) !! tag);
  wf_tag : ∀ tag i, s.(byTag) !! tag = Some i →
    ∃ reg, s.(heap) !! i = Some reg ∧ reg.(Tag) = tag;
}.

Lemma NewRegistry_wf : registry_wf NewRegistry.
Proof.
  split; simpl; [by apply NoDup_nil | | done]. intros tag. rewrite lookup_empty.
  split; [by intros ?%elem_of_nil | by intros []].
Qed.

Lemma byTag_inj s t1 t2 i :
  registry_wf s → s.(byTag) !! t1 = Some i → s.(byTag) !! t2 = Some i → t1 = t2.
Proof.
  intros Hwf (? & ? & <-)%(wf_tag _ Hwf) (? & ? & <-)%(wf_tag _ Hwf). by simplify_eq.
Qed.

Lemma alloc_wf s reg : registry_wf s → registry_wf (alloc s reg).1.
Proof.
  intros [Hnd Hdom Htag]. split; simpl; [done..|].
  intros tag i (r & Hr & Ht)%Htag. exists r. split; [|done].
  by apply lookup_app_l_Some.
Qed.

(** The registrations in order, which is what [All] answers of a well-formed
    registry: no pointer of it is nil. *)
Definition listed s : list nat := omap (λ tag, s.(byTag) !! tag) s.(order).

Lemma All_wf s : registry_wf s → All s = Some <$> listed s.
Proof.
  intros [_ Hdom _]. unfold All, listed.
  assert (Forall (λ t, is_Some (s.(byTag) !! t)) s.(order)) as H.
  { apply Forall_forall. intros t Ht. by apply Hdom. }
  clear Hdom. induction H as [|t ts [i Hi] _ IH]; [done|].
  rewrite fmap_cons, IH. simpl. by rewrite Hi.
Qed.

Lemma elem_of_listed s i : i ∈ listed s ↔ ∃ tag, tag ∈ s.(order) ∧ s.(byTag) !! tag = Some i.
Proof. apply list_elem_of_omap. Qed.

Lemma listed_tags s :
  registry_wf s → omap (λ i, Tag <$> s.(heap) !! i) (listed s) = s.(order).
Proof.
  intros [_ Hdom Htag]. unfold listed.
  assert (Forall (λ t, ∃ i reg, s.(byTag) !! t = Some i ∧ s.(heap) !! i = Some reg ∧
    reg.(Tag) = t) s.(order)) as H.
  { apply Forall_forall. intros t [i Hi]%Hdom. destruct (Htag t i Hi) as (reg & ? & ?). eauto. }
  clear Hdom. induction H as [|t ts (i & reg & Hi & Hr & Ht) _ IH]; [done|].
  cbn. rewrite Hi. cbn. rewrite Hr. simpl. by rewrite Ht, IH.
Qed.

Lemma NoDup_listed s : registry_wf s → NoDup (listed s).
Proof.
  intros Hwf. apply (NoDup_fmap_1 (λ i, Tag <$> s.(heap) !! i)).
  assert ((λ i, Tag <$> s.(heap) !! i) <$> listed s = Some <$> s.(order)) as ->.
  { rewrite <- (listed_tags s Hwf).
    assert (Forall (λ i, is_Some (s.(heap) !! i)) (listed s)) as H.
    { apply Forall_forall. intros i (t & _ & Hi)%elem_of_listed.
      apply (wf_tag _ Hwf) in Hi as (? & ? & _). eauto. }
    induction H as [|i js [reg Hr] _ IH]; [done|]. cbn. rewrite Hr. cbn. by rewrite IH. }
  apply NoDup_fmap_2; [apply _|]. apply Hwf.
Qed.

(** ** What each operation does to a well-formed registry *)

Definition added s i (tag : string) : Registry W :=
  MkRegistry s.(heap) (<[tag := i]> s.(byTag)) (s.(order) ++ [tag]).

Lemma added_wf s i reg :
  registry_wf s → s.(heap) !! i = Some reg → s.(byTag) !! reg.(Tag) = None →
  registry_wf (added s i reg.(Tag)).
Proof.
  intros [Hnd Hdom Htag] Hr Hn. split; simpl.
  - apply NoDup_app. split_and!; [done| |apply NoDup_singleton].
    intros t [j Hj]%Hdom ->%list_elem_of_singleton. congruence.
  - intros t. rewrite elem_of_app, list_elem_of_singleton, Hdom, lookup_insert.
    case_decide; naive_solver.
  - intros t j. rewrite lookup_insert. case_decide; [naive_solver|apply Htag].
Qed.

Lemma added_listed s i tag :
  registry_wf s → s.(byTag) !! tag = None → listed (added s i tag) = listed s ++ [i].
Proof.
  intros [_ Hdom _] Hn. unfold listed. simpl. rewrite omap_app. simpl.
  rewrite lookup_insert_eq. f_equal. apply omap_ext_in. intros t [j Hj]%Hdom.
  rewrite lookup_insert_ne; [done|]. intros ->. congruence.
Qed.

(** [Retag] and the write of the new tag through the pointer, which [App.bind]
    does together. *)
Definition rebind s i (from to : string) : Registry W :=
  write (Retag s from to) i (λ reg, set_tag reg to).

Lemma Retag_Some s from to i :
  s.(byTag) !! from = Some i → from ≠ to →
  Retag s from to = MkRegistry s.(heap) (<[to := i]> (delete from s.(byTag)))
                      (replace_first from to s.(order)).
Proof. intros Hi Hne. unfold Retag. by rewrite Hi, bool_decide_eq_false_2. Qed.

Lemma rebind_wf s i from to :
  registry_wf s → s.(byTag) !! from = Some i → from ≠ to → s.(byTag) !! to = None →
  registry_wf (rebind s i from to).
Proof.
  intros Hwf Hi Hne Hto. destruct (Hwf) as [Hnd Hdom Htag].
  assert (from ∈ s.(order)) as Hin by (apply Hdom; eauto).
  assert (to ∉ s.(order)) as Hout by (rewrite Hdom, Hto; by intros []).
  unfold rebind. rewrite (Retag_Some _ _ _ _ Hi Hne). split; simpl.
  - by apply NoDup_replace_first.
  - intros t. rewrite elem_of_replace_first by done.
    destruct (decide (t = to)) as [->|Ht]; [rewrite lookup_insert_eq; split; eauto|].
    rewrite lookup_insert_ne by done. destruct (decide (t = from)) as [->|Hf].
    + rewrite lookup_delete_eq. split; [naive_solver | by intros []].
    + rewrite lookup_delete_ne by done. rewrite Hdom. naive_solver.
  - intros t j. rewrite lookup_insert. case_decide as Ht.
    + intros [= <-]. destruct (Htag _ _ Hi) as (reg & Hr & _).
      exists (set_tag reg to). rewrite list_lookup_alter_eq, Hr. by subst.
    + intros [Hf Hj]%lookup_delete_Some. destruct (Htag _ _ Hj) as (reg & Hr & Hrt).
      exists reg. split; [|done]. rewrite list_lookup_alter_ne; [done|].
      intros ->. apply Hf. by apply (byTag_inj s from t j Hwf).
Qed.

(** The registration keeps its place in the order. *)
Lemma rebind_listed s i from to :
  registry_wf s → s.(byTag) !! from = Some i → from ≠ to → s.(byTag) !! to = None →
  listed (rebind s i from to) = listed s.
Proof.
  intros [Hnd Hdom _] Hi Hne Hto. unfold rebind. rewrite (Retag_Some _ _ _ _ Hi Hne).
  unfold listed. simpl.
  assert (Hout : to ∉ s.(order)) by (rewrite Hdom, Hto; by intros []). clear Hdom.
  induction Hnd as [|t ts Ht Hnd IH]; [done|]. apply not_elem_of_cons in Hout as [? Hout].
  cbn [replace_first]. case_decide as Hf; subst.
  - cbn. rewrite lookup_insert_eq, Hi. f_equal. apply omap_ext_in. intros t' Ht'.
    rewrite lookup_insert_ne, lookup_delete_ne by set_solver. done.
  - cbn. rewrite lookup_insert_ne, lookup_delete_ne by done. by rewrite IH.
Qed.

Lemma rebind_heap s i from to j :
  (rebind s i from to).(heap) !! j =
    (if decide (i = j) then (λ reg, set_tag reg to) <$> s.(heap) !! j else s.(heap) !! j).
Proof.
  unfold rebind, Retag. simpl.
  assert (heap (match byTag s !! from with
    | Some i0 => if bool_decide (from = to) then s
        else MkRegistry (heap s) (<[to:=i0]> (delete from (byTag s)))
               (replace_first from to (order s))
    | None => s end) = heap s) as ->.
  { destruct (byTag s !! from); [|done]. by case_bool_decide. }
  case_decide; subst; [apply list_lookup_alter_eq | by apply list_lookup_alter_ne].
Qed.

Lemma rebind_byTag s i from to t :
  s.(byTag) !! from = Some i → from ≠ to →
  (rebind s i from to).(byTag) !! t =
    (if decide (to = t) then Some i else if decide (from = t) then None else s.(byTag) !! t).
Proof.
  intros Hi Hne. unfold rebind. rewrite (Retag_Some _ _ _ _ Hi Hne). simpl.
  rewrite lookup_insert. case_decide; [done|]. rewrite lookup_delete. done.
Qed.

(** A write that leaves tags alone changes nothing the invariant speaks of. *)
Lemma write_wf s i f :
  (∀ reg, (f reg).(Tag) = reg.(Tag)) → registry_wf s → registry_wf (write s i f).
Proof.
  intros Hf [Hnd Hdom Htag]. split; simpl; [done..|].
  intros t j (reg & Hr & Ht)%Htag. destruct (decide (i = j)) as [->|Hne].
  - exists (f reg). rewrite list_lookup_alter_eq, Hr, Hf. done.
  - exists reg. by rewrite list_lookup_alter_ne.
Qed.

(** ** Looking handlers up *)

Lemma Tags_spec s :
  registry_wf s → Tags s = sort_strings s.(order) ∧ Len s = length s.(order).
Proof.
  intros [Hnd Hdom _].
  assert (keys s.(byTag) ≡ₚ s.(order)) as Hp.
  { apply NoDup_Permutation; [apply NoDup_keys|done|]. intros t. by rewrite elem_of_keys, Hdom. }
  split; [by apply sort_strings_unique|]. unfold Len. by rewrite <- length_keys, Hp.
Qed.

Definition named (name : string) reg : bool :=
  bool_decide (reg.(Name) = name) || bool_decide (reg.(PublishedName) = name).

Definition named_at s (name : string) (i : nat) : bool :=
  match s.(heap) !! i with Some reg => named name reg | None => false end.

(** The first registration of that name, by order of registration; no pointer
    followed is nil. *)
Lemma ByName_wf s name :
  registry_wf s → ByName s name = Some (List.find (named_at s name) (listed s)).
Proof.
  intros [_ Hdom Htag]. unfold ByName, listed.
  assert (Forall (λ t, ∃ i reg, s.(byTag) !! t = Some i ∧ s.(heap) !! i = Some reg) s.(order)) as H.
  { apply Forall_forall. intros t [i Hi]%Hdom. destruct (Htag t i Hi) as (reg & ? & _). eauto. }
  clear Hdom Htag. induction H as [|t ts (i & reg & Hi & Hr) _ IH]; [done|].
  cbn [by_name_in omap list_omap]. rewrite Hi. simpl. rewrite Hr. simpl.
  unfold named_at at 1. rewrite Hr. unfold named.
  destruct (_ || _); [done|]. apply IH.
Qed.

Lemma OfKind_wf s kind :
  registry_wf s →
  OfKind s kind = Some (List.filter (λ i, match s.(heap) !! i with
    | Some reg => bool_decide (reg.(RegKind) = kind) | None => false end) (listed s)).
Proof.
  intros Hwf. unfold OfKind. rewrite All_wf by done.
  assert (Forall (λ i, is_Some (s.(heap) !! i)) (listed s)) as H.
  { apply Forall_forall. intros i (t & _ & Hi)%elem_of_listed.
    apply (wf_tag _ Hwf) in Hi as (? & ? & _). eauto. }
  induction H as [|i js [reg Hr] _ IH]; [done|].
  rewrite fmap_cons. cbn [of_kind_in mbind option_bind List.filter].
  rewrite Hr. cbn [mbind option_bind]. rewrite IH. cbn [mbind option_bind].
  by destruct (bool_decide _).
Qed.

(** Registering a handler.  A tag registered before is refused with an error
    that names both places, and the registry is as it was; a new tag is added last
    in the order and is found under its tag, every other tag keeps what it led to,
    and what is declared to the runtime is every tag once, sorted. *)
Lemma Add_spec s i reg :
  registry_wf s → s.(heap) !! i = Some reg →
  (∀ e existing, s.(byTag) !! reg.(Tag) = Some e → s.(heap) !! e = Some existing →
     Add s i = Some (Err (EString (registered_text reg.(Tag) existing reg)))) ∧
  (s.(byTag) !! reg.(Tag) = None →
     ∃ s', Add s i = Some (Ok s') ∧ registry_wf s' ∧
       All s' = All s ++ [Some i] ∧
       (∀ tag, Get s' tag = if decide (reg.(Tag) = tag) then Some i else Get s tag) ∧
       Tags s' = sort_strings (reg.(Tag) :: Tags s) ∧ Len s' = S (Len s)).
Proof.
  intros Hwf Hr. split.
  - intros e existing He Hex. unfold Add. rewrite Hr. simpl. rewrite He. simpl. by rewrite Hex.
  - intros Hn. exists (added s i reg.(Tag)).
    assert (registry_wf (added s i reg.(Tag))) as Hwf' by (by apply added_wf).
    destruct (Tags_spec _ Hwf) as [HT HL], (Tags_spec _ Hwf') as [HT' HL'].
    split_and!; [|done| | | |].
    + unfold Add. rewrite Hr. simpl. by rewrite Hn.
    + by rewrite !All_wf, added_listed, fmap_app by done.
    + intros t. unfold Get. simpl. by rewrite lookup_insert.
    + rewrite HT', HT. apply sort_strings_unique. simpl. rewrite sort_strings_perm.
      by rewrite Permutation_app_comm.
    + rewrite HL', HL. simpl. rewrite length_app. simpl. lia.
Qed.
End registry.

Arguments registry_wf {W}.

(** A registration of nothing but its names, for the examples. *)
Definition plain_registration {W} (tag name : string) (kind : Kind) (fromBlueprint : bool) :
    Registration W :=
  MkRegistration tag name "" kind "" "" "" "" "app.go" 1 ""
    (λ _ ev w, (Answer (EmptyResult ev.(EventID)), w)) [] [] [] false 0 fromBlueprint.

Lemma Add_spec_witness :
  let reg := plain_registration (W := unit) "GET::/orders" "orders" KindHTTP false in
  let s := (alloc NewRegistry reg).1 in
  ∃ s', Add s 0 = Some (Ok s') ∧ All s' = [Some 0].
Proof.
  intros reg s.
  destruct (proj2 (Add_spec s 0 reg (alloc_wf _ _ NewRegistry_wf) eq_refl) eq_refl)
    as (s' & H1 & _ & H2 & _).
  exists s'. split; [exact H1 | exact H2].
Defined.
