(* ===== verification/Reconcile.v ===== *)
(** * Reconciling tags with the blueprint

    Models [celerity/reconcile.go] and [celerity/runtime.go]'s [reconcileFrom]: the
    registry's tags are settled against the handlers the blueprint declares. *)

From S2P Require Import Prelude GoStrings Json Errors Handler Route Layer Registry.
From stdpp Require Import options.

Record BlueprintHandler : Type := MkBlueprintHandler {
  DeclName : string;
  DeclPublishedName : string;
  DeclTag : string;
}.

(** [UnresolvedHandlerError]. *)
Definition UnresolvedHandlerError (names declared : list string) : error :=
  EApp (MkApp
    ("these handlers take their wiring from the blueprint and are not declared in it: "
     +:+ join names ", " +:+ ". The blueprint declares: " +:+ join declared ", ")
    "*celerity.UnresolvedHandlerError" None None None None) None.

(** ** Reading a tag *)

(** [kindOfTag]. *)
Definition kindOfTag (tag : string) : Kind :=
  if has_prefix tag "custom::" then KindCustom
  else if has_prefix tag "source::" then KindConsumer
  else match cut "::" tag with
       | Some (_, route) => if has_prefix route "/" then KindHTTP else KindWebSocket
       | None => KindWebSocket
       end.

(** [routeKeyOf]: all of the tag where it has no separator. *)
Definition routeKeyOf (tag : string) : string :=
  match cut "::" tag with Some (key, _) => key | None => tag end.

(** The route half of a tag that can be a WebSocket one. *)
Definition webSocketRouteOf (tag : string) : option string :=
  match cut "::" tag with
  | Some (key, route) =>
      if bool_decide (key = "") || contains route "::" then None
      else if has_prefix route "/" then None
      else Some route
  | None => None
  end.

Definition webSocketTagsByRoute (blueprint : list BlueprintHandler) : gmap string string :=
  foldl (λ byRoute declared,
    match webSocketRouteOf declared.(DeclTag) with
    | Some route => <[route := declared.(DeclTag)]> byRoute
    | None => byRoute
    end) ∅ blueprint.

(** The map [ReconcileTags] builds: a resource name, then its published name. *)
Definition handlersByName (blueprint : list BlueprintHandler) : gmap string BlueprintHandler :=
  foldl (λ byName declared,
    let byName := <[declared.(DeclName) := declared]> byName in
    if bool_decide (declared.(DeclPublishedName) = "") then byName
    else <[declared.(DeclPublishedName) := declared]> byName) ∅ blueprint.

Definition namesOf (blueprint : list BlueprintHandler) : list string :=
  sort_strings (DeclName <$> blueprint).

(** ** Reconciliation *)

Section reconcile.
Context {W : Type}.
Implicit Types (s : Registry W) (i : nat) (reg : Registration W).

(** [App.bind], of the registration [reg] at [i]. *)
Definition bind s i reg (tag : string) : Registry W :=
  let s := if bool_decide (reg.(RegKind) = "")
           then write s i (λ reg, set_kind reg (kindOfTag tag)) else s in
  if bool_decide (tag = reg.(Tag)) then s else rebind s i reg.(Tag) tag.

(** One turn of [ReconcileTags]'s loop: the registry, and the names not found. *)
Definition reconcile_one (blueprint : list BlueprintHandler)
    (acc : Registry W * list string) i reg : Registry W * list string :=
  let '(s, unresolved) := acc in
  if reg.(FromBlueprint) then
    match handlersByName blueprint !! reg.(Name) with
    | None => (s, unresolved ++ [reg.(Name)])
    | Some declared => (bind s i reg declared.(DeclTag), unresolved)
    end
  else if bool_decide (reg.(RegKind) = KindWebSocket) then
    match webSocketTagsByRoute blueprint !! reg.(RegRoute) with
    | Some declared =>
        (write (bind s i reg declared) i (λ reg, set_route_key reg (routeKeyOf declared)),
         unresolved)
    | None => (s, unresolved)
    end
  else (s, unresolved).

(** The loop over the pointers read before it began; [None] where one is nil. *)
Fixpoint reconcile_loop (blueprint : list BlueprintHandler)
    (acc : Registry W * list string) (ptrs : list (option nat)) :
    option (Registry W * list string) :=
  match ptrs with
  | [] => Some acc
  | p :: ptrs =>
      i ← p;
      reg ← acc.1.(heap) !! i;
      reconcile_loop blueprint (reconcile_one blueprint acc i reg) ptrs
  end.

Definition ReconcileTags s (blueprint : list BlueprintHandler) :
    option (Registry W * result error (list string)) :=
  '(s, unresolved) ← reconcile_loop blueprint (s, []) (All s);
  Some (s, match unresolved with
           | [] => Ok (Tags s)
           | _ => Err (UnresolvedHandlerError (sort_strings unresolved) (namesOf blueprint))
           end).

(** ** What a registration is settled as *)

(** The tag the blueprint gives a registration; [None] where it must give one and
    does not. *)
Definition target (blueprint : list BlueprintHandler) reg : option string :=
  if reg.(FromBlueprint) then DeclTag <$> handlersByName blueprint !! reg.(Name)
  else if bool_decide (reg.(RegKind) = KindWebSocket)
  then Some (default reg.(Tag) (webSocketTagsByRoute blueprint !! reg.(RegRoute)))
  else Some reg.(Tag).

(** The whole registration after reconciliation. *)
Definition settle (blueprint : list BlueprintHandler) reg : Registration W :=
  let bound tag :=
    let reg' := if bool_decide (reg.(RegKind) = "") then set_kind reg (kindOfTag tag) else reg in
    set_tag reg' tag in
  if reg.(FromBlueprint) then
    match handlersByName blueprint !! reg.(Name) with
    | None => reg
    | Some declared => bound declared.(DeclTag)
    end
  else if bool_decide (reg.(RegKind) = KindWebSocket) then
    match webSocketTagsByRoute blueprint !! reg.(RegRoute) with
    | Some tag => set_route_key (bound tag) (routeKeyOf tag)
    | None => reg
    end
  else reg.

Lemma settle_tag blueprint reg :
  (settle blueprint reg).(Tag) = default reg.(Tag) (target blueprint reg).
Proof.
  unfold settle, target. destruct (FromBlueprint reg).
  - by destruct (_ !! _).
  - case_bool_decide; [|done]. by destruct (_ !! _).
Qed.

(** ** One registration *)

Lemma listed_write s i f : listed (write s i f) = listed s.
Proof. done. Qed.

Lemma write_lookup s i f j :
  (write s i f).(heap) !! j =
    (if decide (i = j) then f <$> s.(heap) !! j else s.(heap) !! j).
Proof. simpl. case_decide; subst; [apply list_lookup_alter_eq | by apply list_lookup_alter_ne]. Qed.

(** The effect on the registry of an operation that settles only what is at [i]. *)
Definition settles s s' i reg : Prop :=
  registry_wf s' ∧ listed s' = listed s ∧
  ∀ j, s'.(heap) !! j = if decide (i = j) then Some reg else s.(heap) !! j.

Lemma settles_id s i reg : registry_wf s → s.(heap) !! i = Some reg → settles s s i reg.
Proof. intros ??. split_and!; [done..|]. intros j. by case_decide; subst. Qed.

Lemma settles_write s s' i reg f :
  (∀ reg, (f reg).(Tag) = reg.(Tag)) → settles s s' i reg →
  settles s (write s' i f) i (f reg).
Proof.
  intros Hf (Hwf & Hl & Hh). split_and!; [by apply write_wf|done|].
  intros j. rewrite write_lookup, Hh. by case_decide.
Qed.

Lemma settles_rebind s s' i reg from to :
  settles s s' i reg → s'.(byTag) !! from = Some i → from ≠ to → s'.(byTag) !! to = None →
  settles s (rebind s' i from to) i (set_tag reg to).
Proof.
  intros (Hwf & Hl & Hh) Hi Hne Hto. split_and!.
  - by apply rebind_wf.
  - by rewrite rebind_listed.
  - intros j. rewrite rebind_heap, Hh. by case_decide.
Qed.

Lemma set_tag_id reg : set_tag reg reg.(Tag) = reg.
Proof. by destruct reg. Qed.

Lemma bind_settles s i reg to :
  registry_wf s → s.(heap) !! i = Some reg → s.(byTag) !! reg.(Tag) = Some i →
  (to = reg.(Tag) ∨ s.(byTag) !! to = None) →
  settles s (bind s i reg to) i
    (set_tag (if bool_decide (reg.(RegKind) = "") then set_kind reg (kindOfTag to) else reg) to).
Proof.
  intros Hwf Hr Hi Hto. unfold bind.
  set (s1 := if bool_decide _ then _ else s). set (reg1 := if bool_decide _ then _ else reg).
  assert (settles s s1 i reg1 ∧ s1.(byTag) = s.(byTag) ∧ reg1.(Tag) = reg.(Tag)) as (Hs & Hb & Ht).
  { subst s1 reg1. case_bool_decide; [|by auto using settles_id].
    split; [|done]. by apply (settles_write s s i reg (λ r, set_kind r (kindOfTag to))),
      settles_id. }
  case_bool_decide as Hc.
  - subst to. rewrite <- Ht, set_tag_id. done.
  - destruct Hto as [?|Hto]; [done|]. apply settles_rebind; rewrite ?Hb; auto.
Qed.

Lemma reconcile_one_settles bp s u i reg to :
  registry_wf s → s.(heap) !! i = Some reg → s.(byTag) !! reg.(Tag) = Some i →
  target bp reg = Some to → (to = reg.(Tag) ∨ s.(byTag) !! to = None) →
  ∃ s', reconcile_one bp (s, u) i reg = (s', u) ∧ settles s s' i (settle bp reg).
Proof.
  intros Hwf Hr Hi. unfold target, reconcile_one, settle.
  destruct (FromBlueprint reg).
  - destruct (handlersByName bp !! Name reg) as [d|]; [|done]. intros [= <-] Hto.
    eexists. split; [done|]. by apply bind_settles.
  - case_bool_decide as Hk; [|by eauto using settles_id].
    destruct (webSocketTagsByRoute bp !! RegRoute reg) as [d|]; intros [= <-] Hto;
      [|by eauto using settles_id].
    eexists. split; [done|]. by apply (settles_write s _ i _ (λ r, set_route_key r (routeKeyOf d))), bind_settles.
Qed.

(** ** The whole loop *)

(** No registration is to be given a tag another one carries or is to be given. *)
Definition compatible bp s : Prop :=
  ∀ i j ri rj, i ∈ listed s → j ∈ listed s → i ≠ j →
    s.(heap) !! i = Some ri → s.(heap) !! j = Some rj →
    target bp ri ≠ Some rj.(Tag) ∧ target bp ri ≠ target bp rj.

(** Every handler that takes its wiring from the blueprint is declared in it. *)
Definition resolved bp s : Prop :=
  ∀ i reg, i ∈ listed s → s.(heap) !! i = Some reg → is_Some (target bp reg).

Lemma byTag_of_listed s i reg :
  registry_wf s → i ∈ listed s → s.(heap) !! i = Some reg → s.(byTag) !! reg.(Tag) = Some i.
Proof.
  intros Hwf (t & _ & Ht)%elem_of_listed Hr.
  destruct (wf_tag _ Hwf _ _ Ht) as (r & Hr' & <-). by simplify_eq.
Qed.

Lemma listed_of_byTag s t i : registry_wf s → s.(byTag) !! t = Some i → i ∈ listed s.
Proof. intros Hwf Ht. apply elem_of_listed. exists t. split; [|done]. apply Hwf. eauto. Qed.

(** Where the loop stands: the registrations of [done] are settled, the others are
    as they were. *)
Definition progress bp s0 s (done : list nat) : Prop :=
  registry_wf s ∧ listed s = listed s0 ∧
  ∀ j, s.(heap) !! j = if decide (j ∈ done) then settle bp <$> s0.(heap) !! j
                       else s0.(heap) !! j.

Lemma progress_step bp s0 s done i u :
  registry_wf s0 → compatible bp s0 → resolved bp s0 →
  progress bp s0 s done → i ∈ listed s0 → i ∉ done → done ⊆ listed s0 →
  ∃ reg s', s.(heap) !! i = Some reg ∧ reconcile_one bp (s, u) i reg = (s', u) ∧
    progress bp s0 s' (i :: done).
Proof.
  intros Hwf0 Hcomp Hres (Hwf & Hl & Hh) Hi Hnd Hsub.
  assert (∃ reg, s0.(heap) !! i = Some reg) as [reg Hr0].
  { apply elem_of_listed in Hi as (t & _ & Ht). destruct (wf_tag _ Hwf0 _ _ Ht) as (r & ? & _).
    eauto. }
  assert (s.(heap) !! i = Some reg) as Hr by (by rewrite Hh, decide_False).
  destruct (Hres i reg Hi Hr0) as [to Hto].
  assert (to = reg.(Tag) ∨ s.(byTag) !! to = None) as Hfree.
  { destruct (s.(byTag) !! to) as [j|] eqn:Hj; [left|by right].
    destruct (decide (i = j)) as [<-|Hne].
    { destruct (wf_tag _ Hwf _ _ Hj) as (r & Hr' & <-). by simplify_eq. }
    assert (j ∈ listed s0) as Hj0 by (rewrite <- Hl; by eapply listed_of_byTag).
    destruct (wf_tag _ Hwf _ _ Hj) as (rj & Hrj & Ht). rewrite Hh in Hrj.
    case_decide as Hd; [|by destruct (Hcomp i j reg rj) as [[] _]; rewrite ?Ht].
    destruct (s0.(heap) !! j) as [rj0|] eqn:Hrj0; simplify_eq/=.
    destruct (Hres j rj0 Hj0 Hrj0) as [tj Htj].
    destruct (Hcomp i j reg rj0) as [_ []]; try done. rewrite Hto, Htj.
    by rewrite settle_tag, Htj. }
  destruct (reconcile_one_settles bp s u i reg to Hwf Hr) as (s' & Hs' & Hwf' & Hl' & Hh');
    [|done..|].
  { apply byTag_of_listed; [done| |done]. by rewrite Hl. }
  exists reg, s'. unfold progress. split_and!; [done|done|done|by rewrite Hl'|].
  intros j. rewrite Hh', Hh. destruct (decide (i = j)) as [->|Hne].
  - rewrite decide_True by by left. by rewrite Hr0.
  - destruct (decide (j ∈ done)); [by rewrite decide_True by by right|].
    rewrite decide_False by set_solver. done.
Qed.

Lemma progress_loop bp s0 s u done todo :
  registry_wf s0 → compatible bp s0 → resolved bp s0 →
  progress bp s0 s done → listed s0 ≡ₚ done ++ todo →
  ∃ s', reconcile_loop bp (s, u) (Some <$> todo) = Some (s', u) ∧
    progress bp s0 s' (listed s0).
Proof.
  intros Hwf0 Hcomp Hres. revert s done. induction todo as [|i todo IH]; intros s dn Hp Hperm.
  - exists s. split; [done|]. rewrite app_nil_r in Hperm.
    destruct Hp as (? & ? & Hh). unfold progress. split_and!; [done..|]. intros j. rewrite Hh.
    apply decide_ext. by rewrite Hperm.
  - pose proof (NoDup_listed _ Hwf0) as Hnd. rewrite Hperm in Hnd.
    apply NoDup_app in Hnd as (_ & Hdisj & _).
    destruct (progress_step bp s0 s dn i u) as (reg & s' & Hr & Hone & Hp'); try done.
    + rewrite Hperm. set_solver.
    + intros Hin. apply (Hdisj i Hin). by left.
    + intros j Hj. rewrite Hperm. set_solver.
    + rewrite fmap_cons. cbn [reconcile_loop mbind option_bind fst]. rewrite Hr.
      cbn [mbind option_bind]. rewrite Hone. apply (IH s' (i :: dn)); [done|].
      rewrite Hperm. symmetry. apply Permutation_middle.
Qed.

(** What reconciliation leaves: the registrations in the order they were made, each
    settled, each found under its tag. *)
Definition settled_registry bp s s' : Prop :=
  registry_wf s' ∧ All s' = All s ∧
  (∀ i reg, i ∈ listed s → s.(heap) !! i = Some reg →
    s'.(heap) !! i = Some (settle bp reg) ∧ Get s' (settle bp reg).(Tag) = Some i) ∧
  Tags s' = sort_strings (omap (λ i, s.(heap) !! i ≫= target bp) (listed s)).

Lemma progress_settled bp s s' :
  registry_wf s → resolved bp s → progress bp s s' (listed s) → settled_registry bp s s'.
Proof.
  intros Hwf Hres (Hwf' & Hl & Hh). split_and!; [done| | |].
  - by rewrite !All_wf, Hl.
  - intros i reg Hi Hr. assert (s'.(heap) !! i = Some (settle bp reg)) as Hi'
      by (rewrite Hh, decide_True, Hr by done; done).
    split; [done|]. unfold Get. apply byTag_of_listed; [done| |done]. by rewrite Hl.
  - destruct (Tags_spec _ Hwf') as [-> _]. f_equal. rewrite <- (listed_tags _ Hwf'), Hl.
    apply omap_ext_in. intros i Hi. rewrite Hh, decide_True by done.
    destruct (s.(heap) !! i) as [reg|] eqn:Hr; [|done]. simpl. rewrite settle_tag.
    destruct (Hres i reg Hi Hr) as [t ->]. done.
Qed.

Lemma reconcile_settled bp s :
  registry_wf s → compatible bp s → resolved bp s →
  ∃ s', ReconcileTags s bp = Some (s', Ok (Tags s')) ∧ settled_registry bp s s'.
Proof.
  intros Hwf Hcomp Hres.
  destruct (progress_loop bp s s [] [] (listed s)) as (s' & Hloop & Hp); try done.
  exists s'. split; [|by apply progress_settled].
  unfold ReconcileTags. rewrite All_wf by done. by rewrite Hloop.
Qed.

(** C8: reconciliation.  Where the blueprint declares every handler that takes its
    wiring from it, and no two handlers are given one tag, every handler ends under
    the tag the blueprint gives it, keeping its place in the order, and the process
    declares exactly those tags, sorted. *)
Theorem ReconcileTags_settles bp s :
  registry_wf s → compatible bp s → resolved bp s →
  ∃ s', ReconcileTags s bp = Some (s', Ok (Tags s')) ∧ settled_registry bp s s'.
Proof. apply reconcile_settled. Qed.

(** ** A handler the blueprint does not declare *)

Definition unresolved_names bp s : list string :=
  omap (λ i, reg ← s.(heap) !! i;
             if bool_decide (target bp reg = None) then Some reg.(Name) else None) (listed s).

Lemma target_None bp reg :
  target bp reg = None ↔
  reg.(FromBlueprint) = true ∧ handlersByName bp !! reg.(Name) = None.
Proof.
  unfold target. destruct (FromBlueprint reg); [|case_bool_decide; naive_solver].
  destruct (_ !! _); naive_solver.
Qed.

(** Binding a registration changes neither its name nor whether the blueprint wires
    it, whatever tags it moves, so what is reported does not depend on the order. *)
Definition same_wiring s s' : Prop :=
  ∀ j, (λ r, (r.(Name), r.(FromBlueprint))) <$> s'.(heap) !! j =
       (λ r, (r.(Name), r.(FromBlueprint))) <$> s.(heap) !! j.

Lemma same_wiring_write s s' i f :
  (∀ r, (f r).(Name) = r.(Name) ∧ (f r).(FromBlueprint) = r.(FromBlueprint)) →
  same_wiring s s' → same_wiring s (write s' i f).
Proof.
  intros Hf Hs j. rewrite write_lookup. case_decide; [|done]. rewrite <- Hs.
  destruct (s'.(heap) !! j) as [r|]; [|done]. simpl. by destruct (Hf r) as [-> ->].
Qed.

Lemma same_wiring_bind s s' i reg to : same_wiring s s' → same_wiring s (bind s' i reg to).
Proof.
  intros Hs. unfold bind.
  assert (same_wiring s (if bool_decide (reg.(RegKind) = "")
    then write s' i (λ reg, set_kind reg (kindOfTag to)) else s')) as H1.
  { case_bool_decide; [by apply same_wiring_write|done]. }
  destruct (bool_decide (to = Tag reg)); [done|]. intros j. specialize (H1 j). rewrite rebind_heap.
  destruct (decide (i = j)); [|exact H1]. rewrite <- H1. by destruct (heap _ !! j).
Qed.

Lemma same_wiring_one bp s s' u i reg :
  same_wiring s s' → same_wiring s (reconcile_one bp (s', u) i reg).1.
Proof.
  intros Hs. unfold reconcile_one. destruct (FromBlueprint reg).
  - destruct (handlersByName bp !! Name reg); [by apply same_wiring_bind|done].
  - case_bool_decide; [|done]. destruct (webSocketTagsByRoute bp !! RegRoute reg); [|done].
    by apply same_wiring_write, same_wiring_bind.
Qed.

Lemma reconcile_one_names bp s u i reg :
  (reconcile_one bp (s, u) i reg).2 =
    u ++ (if bool_decide (target bp reg = None) then [reg.(Name)] else []).
Proof.
  unfold reconcile_one, target. destruct (FromBlueprint reg).
  - destruct (handlersByName bp !! Name reg); simpl; by rewrite ?app_nil_r.
  - case_bool_decide; simpl; [|by rewrite app_nil_r].
    destruct (webSocketTagsByRoute bp !! RegRoute reg); simpl; by rewrite app_nil_r.
Qed.

Lemma target_None_wiring bp r r' :
  (r.(Name), r.(FromBlueprint)) = (r'.(Name), r'.(FromBlueprint)) →
  target bp r = None ↔ target bp r' = None.
Proof. intros [= H1 H2]. by rewrite !target_None, H1, H2. Qed.

Lemma reconcile_loop_total bp s0 s u todo :
  same_wiring s0 s → Forall (λ i, is_Some (s0.(heap) !! i)) todo →
  ∃ s', reconcile_loop bp (s, u) (Some <$> todo) =
    Some (s', u ++ omap (λ i, reg ← s0.(heap) !! i;
      if bool_decide (target bp reg = None) then Some reg.(Name) else None) todo).
Proof.
  intros Hs Hall. revert s u Hs.
  induction Hall as [|i todo [r Hr] _ IH]; intros s u Hs; [eexists; by rewrite app_nil_r|].
  pose proof (Hs i) as Hi. rewrite Hr in Hi.
  destruct (s.(heap) !! i) as [r'|] eqn:Hr'; [|done]. injection Hi as Hn Hb.
  pose proof (same_wiring_one bp s0 s u i r' Hs) as Hs'.
  pose proof (reconcile_one_names bp s u i r') as Hu.
  destruct (reconcile_one bp (s, u) i r') as [s1 u1] eqn:Hone. simpl in Hs', Hu.
  destruct (IH s1 u1 Hs') as [s' Hloop]. exists s'.
  rewrite fmap_cons. cbn [reconcile_loop mbind option_bind fst]. rewrite Hr'.
  cbn [mbind option_bind]. rewrite Hone, Hloop. do 2 f_equal. subst u1.
  rewrite <- app_assoc. f_equal. simpl. rewrite Hr. simpl.
  assert (target bp r' = None ↔ target bp r = None) as Ht
    by (apply target_None_wiring; by rewrite Hn, Hb).
  rewrite Hn. destruct (bool_decide_reflect (target bp r' = None)),
    (bool_decide_reflect (target bp r = None)); [done|tauto..|done].
Qed.

(** An unresolved handler.  Reconciling a well-formed registry never follows a
    nil pointer, and fails exactly where a handler that takes its wiring from the
    blueprint is not declared in it: the error names every such handler, sorted, and
    what the blueprint does declare. *)
Lemma ReconcileTags_unresolved bp s :
  registry_wf s →
  ∃ s', ReconcileTags s bp = Some (s',
    if bool_decide (unresolved_names bp s = []) then Ok (Tags s')
    else Err (UnresolvedHandlerError (sort_strings (unresolved_names bp s)) (namesOf bp))).
Proof.
  intros Hwf. destruct (reconcile_loop_total bp s s [] (listed s)) as [s' Hloop]; [done| |].
  { apply Forall_forall. intros i (t & _ & Hi)%elem_of_listed.
    apply (wf_tag _ Hwf) in Hi as (? & ? & _). eauto. }
  exists s'. unfold ReconcileTags. rewrite All_wf, Hloop by done. simpl.
  change (omap _ (listed s)) with (unresolved_names bp s).
  by destruct (unresolved_names bp s).
Qed.
End reconcile.

(** ** Two handlers given one tag *)

(** A handler named once by its resource name and once by its published name: both
    are bound to the tag the blueprint declares, the second silently taking the
    place of the first. *)
Definition twice_blueprint : list BlueprintHandler :=
  [MkBlueprintHandler "chat" "chat-v1" "event::chat"].

Definition twice_registry : Registry unit :=
  MkRegistry
    [plain_registration "blueprint::chat" "chat" "" true;
     plain_registration "blueprint::chat-v1" "chat-v1" "" true]
    {[ "blueprint::chat" := 0; "blueprint::chat-v1" := 1 ]}
    ["blueprint::chat"; "blueprint::chat-v1"].

Lemma twice_registry_wf : registry_wf twice_registry.
Proof.
  split.
  - by apply (bool_decide_unpack (NoDup (order twice_registry))).
  - intros tag. simpl. rewrite elem_of_cons, list_elem_of_singleton, lookup_insert_is_Some,
      lookup_singleton_is_Some. naive_solver.
  - intros tag i. simpl. rewrite lookup_insert_Some, lookup_singleton_Some.
    intros [[<- <-]|[_ [<- <-]]]; eexists; split; reflexivity.
Qed.

(** Two handlers of one tag.  A handler registered under a resource name and
    another under the published name of the same blueprint handler reconcile
    without an error, and the first is reached under no tag afterwards: the second
    has taken its events, which [Add] is documented to refuse. *)
Lemma ReconcileTags_overwrites :
  registry_wf twice_registry ∧
  ∃ s', ReconcileTags twice_registry twice_blueprint = Some (s', Ok ["event::chat"]) ∧
    Get s' "event::chat" = Some 1 ∧ (∀ tag, Get s' tag ≠ Some 0) ∧
    All s' = [Some 1; Some 1].
Proof.
  split; [apply twice_registry_wf|].
  eexists. split; [vm_compute; reflexivity|]. split_and!; [done| |done].
  intros tag. unfold Get. simpl. intros H.
  assert (map_Forall (λ _ i, i ≠ 0) ({["event::chat" := 1]} : gmap string nat)) as Hall
    by (by apply map_Forall_singleton).
  apply (Hall tag 0); [|done]. exact H.
Qed.

(** ** Witnesses *)

Definition sample_blueprint : list BlueprintHandler :=
  [MkBlueprintHandler "recalculate" "" "custom::recalculate";
   MkBlueprintHandler "onSend" "" "action::sendMessage"].

Definition sample_registry : Registry unit :=
  MkRegistry
    [plain_registration "blueprint::recalculate" "recalculate" "" true;
     MkRegistration "event::sendMessage" "onSend" "" KindWebSocket "" "sendMessage" "event" ""
       "app.go" 9 "" (λ _ ev w, (Answer (EmptyResult ev.(EventID)), w)) [] [] [] false 3 false]
    {[ "blueprint::recalculate" := 0; "event::sendMessage" := 1 ]}
    ["blueprint::recalculate"; "event::sendMessage"].

Lemma sample_registry_wf : registry_wf sample_registry.
Proof.
  split.
  - by apply (bool_decide_unpack (NoDup (order sample_registry))).
  - intros tag. simpl. rewrite elem_of_cons, list_elem_of_singleton, lookup_insert_is_Some,
      lookup_singleton_is_Some. naive_solver.
  - intros tag i. simpl. rewrite lookup_insert_Some, lookup_singleton_Some.
    intros [[<- <-]|[_ [<- <-]]]; eexists; split; reflexivity.
Qed.

Lemma sample_compatible : compatible sample_blueprint sample_registry.
Proof.
  intros i j ri rj Hi Hj Hne Hri Hrj.
  change (i ∈ [0; 1]) in Hi. change (j ∈ [0; 1]) in Hj.
  rewrite !elem_of_cons, elem_of_nil in Hi, Hj.
  destruct Hi as [->|[->|[]]], Hj as [->|[->|[]]]; try done;
    injection Hri as <-; injection Hrj as <-; by split; vm_compute.
Qed.

Lemma sample_resolved : resolved sample_blueprint sample_registry.
Proof.
  intros i r Hi Hr. change (i ∈ [0; 1]) in Hi. rewrite !elem_of_cons, elem_of_nil in Hi.
  destruct Hi as [->|[->|[]]]; injection Hr as <-; by eexists; vm_compute.
Qed.

Lemma ReconcileTags_settles_witness :
  ∃ s', ReconcileTags sample_registry sample_blueprint = Some (s', Ok (Tags s')) ∧
    settled_registry sample_blueprint sample_registry s' ∧
    Tags s' = ["action::sendMessage"; "custom::recalculate"].
Proof.
  destruct (ReconcileTags_settles _ _ sample_registry_wf sample_compatible sample_resolved)
    as (s' & H1 & H2).
  exists s'. split; [exact H1|]. split; [exact H2|].
  destruct H2 as (_ & _ & _ & ->). vm_compute. reflexivity.
Defined.

Lemma ReconcileTags_unresolved_witness :
  ∃ s', ReconcileTags sample_registry [] = Some (s',
    Err (UnresolvedHandlerError ["recalculate"] [])).
Proof. exact (ReconcileTags_unresolved [] sample_registry sample_registry_wf). Defined.

(** ** The event source a tag names *)

Definition no_colon (s : string) : Prop := no_byte ":" s = true.

Lemma cut_colons a b : no_colon a → cut "::" (a +:+ "::" +:+ b) = Some (a, b).
Proof. apply (cut_app ":" ":"). Qed.

Lemma has_prefix_word a w b :
  no_colon a → no_colon w → a ≠ w → has_prefix (a +:+ "::" +:+ b) (w +:+ "::") = false.
Proof.
  intros Ha Hw Hne. apply not_true_iff_false. intros [r Hr]%has_prefix_spec.
  rewrite append_assoc in Hr.
  assert (Some (a, b) = Some (w, r)) as [= ? ?] by (rewrite <- !cut_colons, Hr by done; done).
  done.
Qed.

Lemma kindOfTag_word a b :
  no_colon a → a ≠ "custom" → a ≠ "source" →
  kindOfTag (a +:+ "::" +:+ b) = if has_prefix b "/" then KindHTTP else KindWebSocket.
Proof.
  intros Ha Hc Hs. unfold kindOfTag.
  pose proof (has_prefix_word a "custom" b Ha eq_refl Hc) as Hc'.
  pose proof (has_prefix_word a "source" b Ha eq_refl Hs) as Hs'.
  change ("custom" +:+ "::") with "custom::" in Hc'.
  change ("source" +:+ "::") with "source::" in Hs'.
  rewrite Hc', Hs'. by rewrite cut_colons.
Qed.

Lemma to_upper_not w s : to_upper w ≠ w → to_upper s ≠ w.
Proof. intros Hw <-. by rewrite to_upper_idemp in Hw. Qed.

(** [kindOfTag] reads back the source a tag was built for: custom, source and
    HTTP tags always, and a WebSocket tag whose route key is a word other than
    [custom] and [source] and whose route is no path.  An API keyed by one of those
    two words is read as custom or as a consumer instead. *)
Lemma kindOfTag_tags name sourceID method key route :
  kindOfTag (CustomTag name) = KindCustom ∧
  kindOfTag (SourceTag sourceID name) = KindConsumer ∧
  (no_colon (to_upper method) → kindOfTag (HTTPTag method (String "/" route)) = KindHTTP) ∧
  (no_colon key → key ≠ "custom" → key ≠ "source" → has_prefix route "/" = false →
     kindOfTag (WebSocketTag key route) = KindWebSocket) ∧
  kindOfTag (WebSocketTag "custom" route) = KindCustom ∧
  kindOfTag (WebSocketTag "source" route) = KindConsumer.
Proof.
  split_and!; try done.
  - intros Hm. unfold HTTPTag. rewrite kindOfTag_word; [done|done|..]; by apply to_upper_not.
  - intros Hk Hc Hs Hr. unfold WebSocketTag. by rewrite kindOfTag_word, Hr.
Qed.

Lemma kindOfTag_tags_witness :
  kindOfTag "GET::/orders/{id}" = KindHTTP ∧ kindOfTag "action::sendMessage" = KindWebSocket.
Proof.
  destruct (kindOfTag_tags "" "" "get" "action" "orders/{id}") as (_ & _ & H & _).
  destruct (kindOfTag_tags "" "" "" "action" "sendMessage") as (_ & _ & _ & H' & _).
  split; [apply H; reflexivity | apply H'; [reflexivity|discriminate|discriminate|reflexivity]].
Defined.

(** ** Concurrency caps *)

Section limits.
Context {W : Type}.
Implicit Types (s : Registry W).

(** [App.HandlerLimits]; [None] where a pointer is nil. *)
Fixpoint limits_of s (ptrs : list (option nat)) (limits : gmap string Z) :
    option (gmap string Z) :=
  match ptrs with
  | [] => Some limits
  | p :: ptrs =>
      i ← p;
      reg ← s.(heap) !! i;
      if (reg.(RegMaxConcurrent) <=? 0)%Z then limits_of s ptrs limits
      else limits_of s ptrs (<[reg.(Tag) := reg.(RegMaxConcurrent)]> limits)
  end.

Definition HandlerLimits s : option (gmap string Z) := limits_of s (All s) ∅.

Lemma limits_of_spec s todo m :
  registry_wf s → Forall (λ i, i ∈ listed s) todo → NoDup todo →
  ∃ m', limits_of s (Some <$> todo) m = Some m' ∧
    ∀ tag, m' !! tag =
      match s.(byTag) !! tag with
      | Some i =>
          match s.(heap) !! i with
          | Some reg => if decide (i ∈ todo) then
                          if (reg.(RegMaxConcurrent) <=? 0)%Z then m !! tag
                          else Some reg.(RegMaxConcurrent)
                        else m !! tag
          | None => m !! tag
          end
      | None => m !! tag
      end.
Proof.
  intros Hwf Hall. revert m. induction Hall as [|i todo Hi _ IH]; intros m Hnd.
  { exists m. split; [done|]. intros t. destruct (byTag s !! t) as [i|]; [|done].
    by destruct (heap s !! i). }
  apply NoDup_cons in Hnd as [Hni Hnd].
  apply elem_of_listed in Hi as (ti & _ & Hti).
  destruct (wf_tag _ Hwf _ _ Hti) as (reg & Hr & Ht).
  rewrite fmap_cons. cbn [limits_of mbind option_bind]. rewrite Hr. cbn [mbind option_bind].
  set (m1 := if (RegMaxConcurrent reg <=? 0)%Z then m
             else <[Tag reg := RegMaxConcurrent reg]> m).
  destruct (IH m1 Hnd) as (m' & Hm' & Hlook).
  exists m'. split; [subst m1; by destruct (_ <=? _)%Z|].
  intros t. rewrite Hlook. destruct (byTag s !! t) as [j|] eqn:Htj.
  - destruct (wf_tag _ Hwf _ _ Htj) as (rj & Hrj & Hrt). rewrite Hrj.
    destruct (decide (j = i)) as [->|Hne].
    + rewrite (decide_False (P := i ∈ todo)), (decide_True (P := i ∈ i :: todo))
        by first [done | by left]. simplify_eq. subst m1.
      destruct (_ <=? _)%Z; [done|]. by rewrite lookup_insert_eq.
    + assert (Tag reg ≠ t) as Htne by (intros Heq; apply Hne; congruence).
      assert (m1 !! t = m !! t) as ->.
      { subst m1. destruct (_ <=? _)%Z; [done|]. by rewrite lookup_insert_ne. }
      destruct (decide (j ∈ todo)).
      * by rewrite decide_True by by right.
      * by rewrite decide_False by set_solver.
  - subst m1. destruct (_ <=? _)%Z; [done|]. rewrite lookup_insert_ne; [done|].
    intros <-. congruence.
Qed.

Lemma HandlerLimits_wf s :
  registry_wf s →
  ∃ m, HandlerLimits s = Some m ∧
    (∀ tag n, m !! tag = Some n ↔
       ∃ i reg, Get s tag = Some i ∧ s.(heap) !! i = Some reg ∧
         reg.(RegMaxConcurrent) = n ∧ (0 < n)%Z) ∧
    (∀ tag, is_Some (m !! tag) → tag ∈ Tags s).
Proof.
  intros Hwf. destruct (limits_of_spec s (listed s) ∅ Hwf) as (m & Hm & Hlook).
  { by apply Forall_forall. }
  { by apply NoDup_listed. }
  assert (∀ tag n, m !! tag = Some n ↔
       ∃ i reg, Get s tag = Some i ∧ s.(heap) !! i = Some reg ∧
         reg.(RegMaxConcurrent) = n ∧ (0 < n)%Z) as Hiff.
  { intros t n. rewrite Hlook, lookup_empty. unfold Get.
    destruct (byTag s !! t) as [i|] eqn:Ht; [|naive_solver].
    destruct (heap s !! i) as [reg|] eqn:Hr; [|naive_solver].
    rewrite decide_True by by eapply listed_of_byTag.
    destruct (Z.leb_spec (RegMaxConcurrent reg) 0); [naive_solver lia|].
    split; [|naive_solver]. intros [= <-]. eauto 10. }
  exists m. unfold HandlerLimits. rewrite All_wf by done. split_and!; [done..|].
  intros t [n (i & reg & Hi & _)%Hiff]. destruct (Tags_spec _ Hwf) as [-> _].
  rewrite elem_of_sort_strings. apply Hwf. eauto.
Qed.

(** The caps declared to the runtime.  Every cap is keyed by a declared tag and
    is the positive one its handler was registered with; every handler registered
    with one has it declared. *)
Lemma HandlerLimits_spec s :
  registry_wf s →
  ∃ m, HandlerLimits s = Some m ∧
    (∀ tag n, m !! tag = Some n ↔
       ∃ i reg, Get s tag = Some i ∧ s.(heap) !! i = Some reg ∧
         reg.(RegMaxConcurrent) = n ∧ (0 < n)%Z) ∧
    (∀ tag, is_Some (m !! tag) → tag ∈ Tags s).
Proof. apply HandlerLimits_wf. Qed.
End limits.

Lemma HandlerLimits_spec_witness :
  ∃ m, HandlerLimits sample_registry = Some m ∧ m !! "event::sendMessage" = Some 3%Z.
Proof.
  destruct (HandlerLimits_spec sample_registry sample_registry_wf) as (m & H1 & H2 & _).
  exists m. split; [exact H1|]. apply H2. exists 1. eexists. repeat split; reflexivity.
Defined.
