(* ===== verification/Bind.v ===== *)
(** * Binding a request into a typed input

    Models [celerity/bind.go] and [decodeInto] of [celerity/wrap.go].  A handler's
    input type is described by what reflection reads of it: a chain of pointers, and
    a struct of fields with a kind and tags, or something that is no struct.
    [json.Unmarshal] and [strconv.ParseFloat] are parameters; [ParseBool],
    [ParseInt] and [ParseUint] are modelled to the byte. *)

From S2P Require Import Prelude GoStrings Json Errors Handler.
From stdpp Require Import options.

(** ** [strconv] *)

Definition ErrSyntax : error := EString "invalid syntax".
Definition ErrRange : error := EString "value out of range".

(** [*strconv.NumError]. *)
Definition NumError (func num : string) (err : error) : error :=
  EWrap ("strconv." +:+ func +:+ ": parsing " +:+ go_quote num +:+ ": " +:+ error_text err) err.

Definition digit (c : ascii) : option Z :=
  let n := nat_of_ascii c in
  if (48 <=? n) && (n <=? 57) then Some (Z.of_nat (n - 48)) else None.

(** The loop of [ParseUint] in base ten, stopping at the first byte that is no
    digit or that takes the number past [maxVal]. *)
Fixpoint parse_digits (maxVal n : Z) (s : string) : result error Z :=
  match s with
  | "" => Ok n
  | String c s =>
      match digit c with
      | None => Err ErrSyntax
      | Some d => if (maxVal <? n * 10 + d)%Z then Err ErrRange
                  else parse_digits maxVal (n * 10 + d) s
      end
  end.

Definition parse_uint (bits : Z) (s : string) : result error Z :=
  if bool_decide (s = "") then Err ErrSyntax else parse_digits (2 ^ bits - 1) 0 s.

Definition with_num {A} (func num : string) (r : result error A) : result error A :=
  match r with Ok a => Ok a | Err e => Err (NumError func num e) end.

Definition ParseUint (s : string) (bits : Z) : result error Z :=
  with_num "ParseUint" s (parse_uint bits s).

(** The sign is read off first, and the magnitude held against half the range. *)
Definition ParseInt (s : string) (bits : Z) : result error Z :=
  let '(neg, digits) :=
    match s with
    | String "+" s => (false, s)
    | String "-" s => (true, s)
    | _ => (false, s)
    end in
  with_num "ParseInt" s
    (if bool_decide (s = "") then Err ErrSyntax else
     let! un := parse_uint bits digits in
     if negb neg && (2 ^ (bits - 1) <=? un)%Z then Err ErrRange
     else if neg && (2 ^ (bits - 1) <? un)%Z then Err ErrRange
     else Ok (if neg then - un else un)%Z).

Definition ParseBool (s : string) : result error bool :=
  if decide (s ∈ ["1"; "t"; "T"; "TRUE"; "true"; "True"]) then Ok true
  else if decide (s ∈ ["0"; "f"; "F"; "FALSE"; "false"; "False"]) then Ok false
  else Err (NumError "ParseBool" s ErrSyntax).

(** ** Inputs as reflection sees them *)

Inductive fkind : Type :=
  | KString | KBool | KInt (bits : Z) | KUint (bits : Z) | KFloat (bits : Z)
  | KStrings                                   (* a slice of strings *)
  | KOther (name : string).                    (* [Kind.String()] of anything else *)

Record field : Type := MkField {
  FieldName : string;
  FieldTags : gmap string string;
  FieldKind : fkind;
  Exported : bool;
}.

Section bind.
Context {F : Type} (ParseFloat : string → Z → result error F).

Inductive fval : Type :=
  | VString (s : string) | VBool (b : bool) | VInt (n : Z) | VUint (n : Z)
  | VFloat (f : F) | VStrings (l : list string) | VOther (j : json) | VZero.

Inductive gtype : Type :=
  | TPointer (elem : gtype)
  | TStruct (fields : list field)
  | TOther.

(** A value of the input's type; [Opaque] is one that is neither a pointer nor a
    struct. *)
Inductive gval : Type :=
  | NilPointer (elem : gtype)
  | Pointer (v : gval)
  | Struct (fields : list (field * fval))
  | Opaque (j : json).

Definition zero_of (t : gtype) : gval :=
  match t with
  | TPointer elem => NilPointer elem
  | TStruct fields => Struct ((λ f, (f, VZero)) <$> fields)
  | TOther => Opaque JNull
  end.

(** What [json.Unmarshal] does to a value, which is the library's. *)
Context (Unmarshal : bytes → gval → result error gval).

(** [decodeInto]. *)
Definition decodeInto (body : bytes) (out : gval) : result error gval :=
  if bool_decide (body = "") then Ok out
  else match Unmarshal body out with
       | Ok v => Ok v
       | Err e => Err (EWrap ("decoding request body: " +:+ error_text e) e)
       end.

(** [taggedValue]: the first of the three tags the field has decides, even where the
    request holds nothing under its name. *)
Definition tag_sources (req : Request) : list (string * Params * bool) :=
  [("path", req.(PathParams), true); ("query", req.(QueryParams), false);
   ("header", req.(RequestHeaders), false)].

Fixpoint tagged_in (f : field) (sources : list (string * Params * bool)) :
    option (Values * bool) :=
  match sources with
  | [] => None
  | (tag, params, isPath) :: sources =>
      match f.(FieldTags) !! tag with
      | None => tagged_in f sources
      | Some name =>
          match params !! name with
          | Some (v :: vs) => Some (v :: vs, isPath)
          | _ => None
          end
      end
  end.

Definition taggedValue (req : Request) (f : field) : option (Values * bool) :=
  tagged_in f (tag_sources req).

(** What is parsed of the values bound to a field that is no slice. *)
Definition raw_value (values : Values) (isPath : bool) : string :=
  if isPath && (1 <? length values) then join values "/" else First values.

Definition map_ok {A B} (g : A → B) (r : result error A) : result error B :=
  match r with Ok a => Ok (g a) | Err e => Err e end.

Definition setField (k : fkind) (values : Values) (isPath : bool) : result error fval :=
  let raw := raw_value values isPath in
  match k with
  | KStrings => Ok (VStrings values)
  | KString => Ok (VString raw)
  | KBool => map_ok VBool (ParseBool raw)
  | KInt bits => map_ok VInt (ParseInt raw bits)
  | KUint bits => map_ok VUint (ParseUint raw bits)
  | KFloat bits => map_ok VFloat (ParseFloat raw bits)
  | KOther name => Err (EString ("cannot bind a " +:+ name +:+ " from a request parameter"))
  end.

(** One field of [bindRequest]'s loop. *)
Definition bind_field (req : Request) (fv : field * fval) : result error (field * fval) :=
  let '(f, v) := fv in
  if negb f.(Exported) then Ok (f, v)
  else match taggedValue req f with
       | None => Ok (f, v)
       | Some (values, isPath) =>
           match setField f.(FieldKind) values isPath with
           | Ok v' => Ok (f, v')
           | Err e => Err (EWrap ("binding " +:+ f.(FieldName) +:+ ": " +:+ error_text e) e)
           end
       end.

(** [structToBind] and the loop: the fields of the struct at the end of the
    pointers, each nil one allocated; anything else is left alone. *)
Fixpoint bind_nil (req : Request) (t : gtype) : result error gval :=
  match t with
  | TPointer t => map_ok Pointer (bind_nil req t)
  | TStruct fields => map_ok Struct (try_map (bind_field req) ((λ f, (f, VZero)) <$> fields))
  | TOther => Ok (zero_of TOther)
  end.

Fixpoint bind_value (req : Request) (v : gval) : result error gval :=
  match v with
  | NilPointer t => map_ok Pointer (bind_nil req t)
  | Pointer v => map_ok Pointer (bind_value req v)
  | Struct fields => map_ok Struct (try_map (bind_field req) fields)
  | Opaque j => Ok (Opaque j)
  end.

Definition bindRequest (req : option Request) (out : gval) : result error gval :=
  match req with
  | None => Ok out
  | Some req => let! v := decodeInto req.(RequestBody) out in bind_value req v
  end.

(** ** What binding guarantees *)

(** The fields binding reaches: those of the struct behind the pointers, nil ones
    counting as pointers to a zero value. *)
Fixpoint zero_fields (t : gtype) : option (list (field * fval)) :=
  match t with
  | TPointer t => zero_fields t
  | TStruct fields => Some ((λ f, (f, VZero)) <$> fields)
  | TOther => None
  end.

Fixpoint fields_of (v : gval) : option (list (field * fval)) :=
  match v with
  | NilPointer t => zero_fields t
  | Pointer v => fields_of v
  | Struct fields => Some fields
  | Opaque _ => None
  end.

(** A field the request line names holds the request's value; any other keeps what
    decoding left in it. *)
Definition bound_from (req : Request) (before after : field * fval) : Prop :=
  after.1 = before.1 ∧
  match (if before.1.(Exported) then taggedValue req before.1 else None) with
  | Some (values, isPath) => setField before.1.(FieldKind) values isPath = Ok after.2
  | None => after.2 = before.2
  end.

Lemma bind_field_Ok req b a : bind_field req b = Ok a → bound_from req b a.
Proof.
  destruct b as [f v]. unfold bind_field, bound_from. simpl.
  destruct (Exported f); simpl; [|by intros [= <-]].
  destruct (taggedValue req f) as [[values isPath]|]; [|by intros [= <-]].
  destruct (setField _ _ _) as [v'|] eqn:Hs; [|done]. by intros [= <-].
Qed.

Lemma try_map_Ok {A B} (g : A → result error B) xs ys :
  try_map g xs = Ok ys → Forall2 (λ x y, g x = Ok y) xs ys.
Proof.
  revert ys. induction xs as [|x xs IH]; simpl; intros ys; [by intros [= <-]|].
  destruct (g x) as [y|] eqn:Hx; [|done].
  destruct (try_map g xs) as [zs|]; [|done]. intros [= <-]. constructor; auto.
Qed.

Lemma bind_fields_Ok req fs fs' :
  try_map (bind_field req) fs = Ok fs' → Forall2 (bound_from req) fs fs'.
Proof. intros H%try_map_Ok. eapply Forall2_impl; [exact H|]. apply bind_field_Ok. Qed.

(** What holds of a value bound from another: its reachable fields are bound, and a
    value that reaches no struct keeps reaching none. *)
Definition value_bound (req : Request) (fs : option (list (field * fval))) (v' : gval) : Prop :=
  match fs with
  | Some fs => ∃ fs', fields_of v' = Some fs' ∧ Forall2 (bound_from req) fs fs'
  | None => fields_of v' = None
  end.

Lemma bind_nil_Ok req t v' : bind_nil req t = Ok v' → value_bound req (zero_fields t) v'.
Proof.
  revert v'. induction t as [t IH|fields|]; simpl; intros v'; [| |by intros [= <-]].
  - destruct (bind_nil req t) as [g|] eqn:Hb; [|done]. intros [= <-]. exact (IH g eq_refl).
  - destruct (try_map _ _) as [fs'|] eqn:Hm; [|done]. intros [= <-]. exists fs'.
    split; [done|]. by apply bind_fields_Ok.
Qed.

Lemma bind_value_Ok req v v' : bind_value req v = Ok v' → value_bound req (fields_of v) v'.
Proof.
  revert v'. induction v as [t|v IH|fs|j]; simpl; intros v'.
  - destruct (bind_nil req t) eqn:Hb; [|done]. intros [= <-]. by apply bind_nil_Ok in Hb.
  - destruct (bind_value req v) as [g|] eqn:Hb; [|done]. intros [= <-]. exact (IH g eq_refl).
  - destruct (try_map _ _) as [fs'|] eqn:Hm; [|done]. intros [= <-]. exists fs'.
    split; [done|]. by apply bind_fields_Ok.
  - by intros [= <-].
Qed.

(** C23: the request line wins over the body.  Where a request is bound, every
    exported field tagged with a path, query or header name the request carries
    holds exactly the value parsed from it, whatever the body said of that field,
    through any number of pointers, nil ones included; every other field holds what
    the body decoded to. *)
Theorem bindRequest_overrides req out v' :
  bindRequest (Some req) out = Ok v' →
  ∃ v, decodeInto req.(RequestBody) out = Ok v ∧ value_bound req (fields_of v) v'.
Proof.
  unfold bindRequest. destruct (decodeInto _ out) as [v|]; [|done].
  intros H. exists v. split; [done|]. by apply bind_value_Ok.
Qed.
End bind.

(** ** Integers at their width *)

(** The number a text of decimal digits writes. *)
Fixpoint dec_value (n : Z) (s : string) : option Z :=
  match s with
  | "" => Some n
  | String c s => d ← digit c; dec_value (n * 10 + d) s
  end.

Lemma digit_bounds c d : digit c = Some d → (0 <= d <= 9)%Z.
Proof. unfold digit. destruct (_ && _) eqn:H; [|done]. bools. intros [= <-].
  apply Nat.leb_le in H, H0. lia. Qed.

Lemma dec_value_le n s v : (0 <= n)%Z → dec_value n s = Some v → (n <= v)%Z.
Proof.
  revert n. induction s as [|c s IH]; simpl; intros n Hn; [intros [= <-]; lia|].
  destruct (digit c) as [d|] eqn:Hd; [|done]. apply digit_bounds in Hd.
  intros H%IH; lia.
Qed.

Lemma parse_digits_value maxVal n s v :
  (0 <= n <= maxVal)%Z → dec_value n s = Some v →
  parse_digits maxVal n s = if (v <=? maxVal)%Z then Ok v else Err ErrRange.
Proof.
  revert n. induction s as [|c s IH]; intros n Hn.
  - simpl. intros [= <-]. by rewrite (proj2 (Z.leb_le _ _)) by lia.
  - cbn [dec_value parse_digits]. destruct (digit c) as [d|] eqn:Hd; [|done].
    apply digit_bounds in Hd. cbn [mbind option_bind]. intros Hv.
    destruct (Z.ltb_spec maxVal (n * 10 + d)) as [Hlt|Hge].
    + apply dec_value_le in Hv; [|lia]. by rewrite (proj2 (Z.leb_gt _ _)) by lia.
    + apply IH; [lia|done].
Qed.

Lemma half_range bits : (0 < bits)%Z → (0 < 2 ^ (bits - 1) ∧ 2 ^ bits = 2 * 2 ^ (bits - 1))%Z.
Proof.
  intros Hb. split; [apply Z.pow_pos_nonneg; lia|].
  rewrite <- Z.pow_succ_r by lia. f_equal. lia.
Qed.

Lemma parse_uint_value bits s v :
  (0 < bits)%Z → s ≠ "" → dec_value 0 s = Some v →
  parse_uint bits s = if (v <? 2 ^ bits)%Z then Ok v else Err ErrRange.
Proof.
  intros Hb Hs Hv. unfold parse_uint. rewrite bool_decide_eq_false_2 by done.
  destruct (half_range bits Hb).
  rewrite (parse_digits_value _ _ _ v) by (done || lia).
  destruct (Z.leb_spec v (2 ^ bits - 1)), (Z.ltb_spec v (2 ^ bits)); done || lia.
Qed.

(** An integer is parsed at its width.  Decimal digits, with either sign or
    none, are accepted exactly when the number they write fits the signed width, at
    both ends of the range, and are that number; otherwise the parse fails as out of
    range rather than wrapping around. *)
Lemma ParseInt_width bits s v :
  (0 < bits)%Z → s ≠ "" → dec_value 0 s = Some v →
  ParseInt (String "+" s) bits =
    (if (v <? 2 ^ (bits - 1))%Z then Ok v
     else Err (NumError "ParseInt" (String "+" s) ErrRange)) ∧
  ParseInt (String "-" s) bits =
    (if (v <=? 2 ^ (bits - 1))%Z then Ok (- v)%Z
     else Err (NumError "ParseInt" (String "-" s) ErrRange)) ∧
  (has_prefix s "+" = false → has_prefix s "-" = false →
   ParseInt s bits =
     (if (v <? 2 ^ (bits - 1))%Z then Ok v else Err (NumError "ParseInt" s ErrRange))).
Proof.
  intros Hb Hs Hv. pose proof (parse_uint_value bits s v Hb Hs Hv) as Hu.
  destruct (half_range bits Hb) as [Hp Htwice].
  split_and!.
  - unfold ParseInt. rewrite bool_decide_eq_false_2 by done. rewrite Hu. cbn [negb andb].
    destruct (Z.ltb_spec v (2 ^ bits)), (Z.ltb_spec v (2 ^ (bits - 1))); try lia; cbn;
      destruct (Z.leb_spec (2 ^ (bits - 1)) v); done || lia.
  - unfold ParseInt. rewrite bool_decide_eq_false_2 by done. rewrite Hu. cbn [negb andb].
    destruct (Z.ltb_spec v (2 ^ bits)), (Z.leb_spec v (2 ^ (bits - 1))); try lia; cbn;
      destruct (Z.ltb_spec (2 ^ (bits - 1)) v); done || lia.
  - intros Hplus Hminus.
    assert (match s with
            | String "+" t => (false, t) | String "-" t => (true, t) | _ => (false, s)
            end = (false, s)) as Hsign.
    { destruct s as [|c s']; [done|]. destruct (digit c) eqn:Hd; [|by simpl in Hv; rewrite Hd in Hv].
      by destruct c as [[] [] [] [] [] [] [] []]. }
    unfold ParseInt. rewrite Hsign, bool_decide_eq_false_2, Hu by done. cbn [negb andb].
    destruct (Z.ltb_spec v (2 ^ bits)), (Z.ltb_spec v (2 ^ (bits - 1))); try lia; cbn;
      destruct (Z.leb_spec (2 ^ (bits - 1)) v); done || lia.
Qed.

Lemma ParseInt_width_witness :
  ParseInt "+127" 8 = Ok 127%Z ∧ ParseInt "-128" 8 = Ok (-128)%Z ∧
  ParseInt "128" 8 = Err (NumError "ParseInt" "128" ErrRange).
Proof.
  destruct (ParseInt_width 8 "127" 127 eq_refl ltac:(discriminate) eq_refl) as (H1 & _ & _).
  destruct (ParseInt_width 8 "128" 128 eq_refl ltac:(discriminate) eq_refl) as (_ & H2 & H3).
  split; [exact H1|]. split; [exact H2|]. exact (H3 eq_refl eq_refl).
Defined.

(** An input with one path field, decoded from a body that sets it too. *)
Definition order_field : field := MkField "OrderID" {[ "path" := "orderId" ]} KString true.

Definition order_request : Request :=
  MkRequest "POST" "/orders/o1" "/orders/{orderId}" {[ "orderId" := ["o1"] ]} ∅ ∅ "" "r1"
    "(a body naming o2)".

Definition order_unmarshal (_ : bytes) (_ : gval (F := unit)) : result error (gval (F := unit)) :=
  Ok (Pointer (Struct [(order_field, VString "o2")])).

Lemma bindRequest_overrides_witness :
  ∃ v', bindRequest (λ _ _, Err ErrSyntax) order_unmarshal (Some order_request)
          (NilPointer (TStruct [order_field])) = Ok v' ∧
    fields_of v' = Some [(order_field, VString "o1")].
Proof.
  eexists. split; [reflexivity|].
  destruct (bindRequest_overrides (λ _ _, Err ErrSyntax) order_unmarshal order_request
    (NilPointer (TStruct [order_field])) _ eq_refl) as (v & Hv & Hb).
  injection Hv as <-. destruct Hb as (fs' & Hfs & HF). rewrite Hfs. f_equal.
  inversion HF as [|b a fs fs'' [H1 H2] HF']; subst. inversion HF'; subst.
  destruct a as [f w]. simpl in H1. subst f. injection H2 as <-. reflexivity.
Defined.
