(* ===== verification/Wrap.v ===== *)
(** * From typed handlers to event handlers

    Models [celerity/wrap.go] and [celerity/validate.go]: decoding, validating and
    encoding around a handler that deals only in its own types.  The input is a
    value as [Bind] describes it; what [json.Marshal] makes of an output, and whether
    the output is a response of its own, are parameters. *)

From S2P Require Import Prelude GoStrings Json Errors Handler Status Layer Bind.
From stdpp Require Import options.

(** ** Validation *)

(** [asValidationError]. *)
Definition asValidationError (err : error) : error :=
  match err with
  | EValidation _ _ _ => err
  | _ => EValidation "the request is not valid" (IssuesFrom err) (Some err)
  end.

(** [decodeFailure]. *)
Definition decodeFailure (err : error) : error :=
  EValidation "the request body could not be read" (IssuesFromDecode err) (Some err).

Section validation.
Context {In : Type}.

(** What an input type and an application may each check: [None] where there is
    nothing of the kind. *)
Definition check : Type := option (In → option error).

Definition run_check (c : check) (input : In) : option error := f ← c; f input.

(** [validateInput]: the input's own check, then the validator. *)
Definition validateInput (self v : check) (input : In) : option error :=
  match run_check self input with
  | Some err => Some (asValidationError err)
  | None => asValidationError <$> run_check v input
  end.

(** [App.validationFor], of an application's validator and a registration's. *)
Definition validationFor (appValidator : check) (skip : bool) (own self : check) : check :=
  if skip then None
  else let v := match own with Some _ => own | None => appValidator end in
       Some (validateInput self v).
End validation.

Arguments check : clear implicits.

Lemma asValidationError_validation err :
  ∃ message issues cause, asValidationError err = EValidation message issues cause.
Proof. destruct err; simpl; eauto. Qed.

Lemma ResponseForError_EValidation message issues cause :
  ResponseForError (EValidation message issues cause) =
    Some (JSONAnswer 400 message (issues_detail issues)).
Proof. rewrite ResponseForError_eq. by destruct cause. Qed.

(** ** The wrappers *)

Section wrap.
Context {W F Out : Type}.
Context (ParseFloat : string → Z → result error F).
Context (Unmarshal : bytes → gval (F := F) → result error (gval (F := F))).
Context (Marshal : Out → result error bytes) (asResponse : Out → option (option Response)).
Context (input_type : gtype).

Abbreviation In := (gval (F := F)).

(** [HandlerFunc]. *)
Definition HandlerFunc : Type := Ctx → In → W → outcome Out * W.

(** [wrongSource]. *)
Definition wrongSource (ev : Event) (serves : Kind) : error :=
  let arrived := if bool_decide (ev.(EventKind) = "") then "unknown" else ev.(EventKind) in
  EString ("celerity: handler " +:+ go_quote ev.(EventTag) +:+ " serves " +:+ serves
           +:+ " events and was dispatched a " +:+ arrived +:+ " event").

(** [httpErrorResult]. *)
Definition httpErrorResult (ev : Event) (err : error) : handled :=
  match ResponseForError err with
  | Some res => Answer (HTTPResult ev.(EventID) (Some res))
  | None => Failure err
  end.

Definition wrapHTTP (h : Ctx → Request → W → outcome (option Response) * W) : Func W :=
  λ c ev w,
    match ev.(EventHTTP) with
    | None => (Failure (wrongSource ev KindHTTP), w)
    | Some req =>
        let '(o, w) := h c req w in
        (match o with
         | Returned _ (Some err) => httpErrorResult ev err
         | Returned res None => Answer (HTTPResult ev.(EventID) res)
         | Panicked text => Panicked text
         end, w)
    end.

(** [jsonResponse]. *)
Definition jsonResponse (out : Out) : result error (option Response) :=
  match asResponse out with
  | Some res => Ok res
  | None =>
      match Marshal out with
      | Ok body => Ok (Some (MkResponse 200 content_type_json body))
      | Err e => Err (EWrap ("encoding response body: " +:+ error_text e) e)
      end
  end.

Definition input_zero : In := zero_of input_type.

Definition wrapTypedHTTP (validate : check In) (h : HandlerFunc) : Func W :=
  λ c ev w,
    match ev.(EventHTTP) with
    | None => (Failure (wrongSource ev KindHTTP), w)
    | Some req =>
        match bindRequest ParseFloat Unmarshal (Some req) input_zero with
        | Err e => (httpErrorResult ev (decodeFailure e), w)
        | Ok input =>
            match run_check validate input with
            | Some e => (httpErrorResult ev e, w)
            | None =>
                let '(o, w) := h c input w in
                (match o with
                 | Panicked text => Panicked text
                 | Returned _ (Some e) => httpErrorResult ev e
                 | Returned out None =>
                     match jsonResponse out with
                     | Err e => Failure e
                     | Ok res => Answer (HTTPResult ev.(EventID) res)
                     end
                 end, w)
            end
        end
    end.

Definition wrapTypedWebSocket (validate : check In) (h : HandlerFunc) : Func W :=
  λ c ev w,
    match ev.(EventWebSocket) with
    | None => (Failure (wrongSource ev KindWebSocket), w)
    | Some msg =>
        match decodeInto Unmarshal msg.(WSMessage) input_zero with
        | Err e => (Failure e, w)
        | Ok input =>
            match run_check validate input with
            | Some e => (Answer (WebSocketResult ev.(EventID) (MkAck false (error_text e))), w)
            | None =>
                let '(o, w) := h c input w in
                (match o with
                 | Panicked text => Panicked text
                 | Returned _ (Some e) => Failure e
                 | Returned _ None => Answer (WebSocketResult ev.(EventID) (MkAck true ""))
                 end, w)
            end
        end
    end.

Definition wrapConsumer (h : Ctx → ConsumerBatch → W → outcome (option BatchResult) * W) :
    Func W :=
  λ c ev w,
    match ev.(EventConsumer) with
    | None => (Failure (wrongSource ev KindConsumer), w)
    | Some batch =>
        let '(o, w) := h c batch w in
        (match o with
         | Panicked text => Panicked text
         | Returned _ (Some e) => Failure e
         | Returned res None =>
             Answer (ConsumerResult ev.(EventID) (default (MkBatchResult []) res))
         end, w)
    end.

Definition wrapSchedule (h : Ctx → ScheduleTrigger → W → outcome unit * W) : Func W :=
  λ c ev w,
    match ev.(EventSchedule) with
    | None => (Failure (wrongSource ev KindSchedule), w)
    | Some trigger =>
        let '(o, w) := h c trigger w in
        (match o with
         | Panicked text => Panicked text
         | Returned _ (Some e) => Failure e
         | Returned _ None => Answer (ScheduleResult ev.(EventID) (MkAck true ""))
         end, w)
    end.

Definition wrapCustom (validate : check In) (h : HandlerFunc) : Func W :=
  λ c ev w,
    match ev.(EventCustom) with
    | None => (Failure (wrongSource ev KindCustom), w)
    | Some custom =>
        match decodeInto Unmarshal custom.(CustomInput) input_zero with
        | Err e => (Failure e, w)
        | Ok input =>
            match run_check validate input with
            | Some e => (Failure e, w)
            | None =>
                let '(o, w) := h c input w in
                (match o with
                 | Panicked text => Panicked text
                 | Returned _ (Some e) => Failure e
                 | Returned out None =>
                     match Marshal out with
                     | Err e => Failure (EWrap ("encoding custom handler output: "
                                                +:+ error_text e) e)
                     | Ok encoded =>
                         Answer (CustomResult ev.(EventID) (MkCustomInvokeResult encoded))
                     end
                 end, w)
            end
        end
    end.

(** [wrapTypedAny]: the source is read from the event. *)
Definition wrapTypedAny (validate : check In) (h : HandlerFunc) : Func W :=
  λ c ev w,
    if bool_decide (ev.(EventKind) = KindHTTP) then wrapTypedHTTP validate h c ev w
    else if bool_decide (ev.(EventKind) = KindWebSocket) then wrapTypedWebSocket validate h c ev w
    else if bool_decide (ev.(EventKind) = KindCustom) then wrapCustom validate h c ev w
    else (Failure (EString ("handler " +:+ go_quote ev.(EventTag)
            +:+ " takes a decoded input, and the blueprint binds it to a "
            +:+ ev.(EventKind)
            +:+ " source: register it with Consume or Schedule instead")), w).

(** ** What a wrapper answers *)

(** A result for the event it was given, or an error: never both, and never
    neither. *)
Definition answers (ev : Event) (o : handled) : Prop :=
  match o with
  | Returned (Some r) None => r.(ResultID) = ev.(EventID)
  | Returned None (Some _) => True
  | Returned _ _ => False
  | Panicked _ => True
  end.

Lemma answers_httpError ev e : answers ev (httpErrorResult ev e).
Proof. unfold httpErrorResult. by destruct (ResponseForError e). Qed.

Hint Resolve answers_httpError : go.

Ltac answered := repeat (case_match; simplify_eq/=; try done; auto with go).

Lemma wrapTypedHTTP_answers v h c ev w : answers ev (wrapTypedHTTP v h c ev w).1.
Proof. unfold wrapTypedHTTP. answered. Qed.
Lemma wrapTypedWebSocket_answers v h c ev w : answers ev (wrapTypedWebSocket v h c ev w).1.
Proof. unfold wrapTypedWebSocket. answered. Qed.
Lemma wrapCustom_answers v h c ev w : answers ev (wrapCustom v h c ev w).1.
Proof. unfold wrapCustom. answered. Qed.
Lemma wrapHTTP_answers h c ev w : answers ev (wrapHTTP h c ev w).1.
Proof. unfold wrapHTTP. answered. Qed.
Lemma wrapConsumer_answers h c ev w : answers ev (wrapConsumer h c ev w).1.
Proof. unfold wrapConsumer. answered. Qed.
Lemma wrapSchedule_answers h c ev w : answers ev (wrapSchedule h c ev w).1.
Proof. unfold wrapSchedule. answered. Qed.

(** What a registered handler answers.  Whatever the application's handler does,
    and whatever event arrives, the handler registered for it answers either a
    result carrying the event's own id or an error, never both and never neither. *)
Lemma wrappers_answer validate h hHTTP hConsumer hSchedule c ev w :
  answers ev (wrapHTTP hHTTP c ev w).1 ∧
  answers ev (wrapTypedHTTP validate h c ev w).1 ∧
  answers ev (wrapTypedWebSocket validate h c ev w).1 ∧
  answers ev (wrapConsumer hConsumer c ev w).1 ∧
  answers ev (wrapSchedule hSchedule c ev w).1 ∧
  answers ev (wrapCustom validate h c ev w).1 ∧
  answers ev (wrapTypedAny validate h c ev w).1.
Proof.
  split_and!; auto using wrapHTTP_answers, wrapTypedHTTP_answers, wrapTypedWebSocket_answers,
    wrapConsumer_answers, wrapSchedule_answers, wrapCustom_answers.
  unfold wrapTypedAny. repeat case_bool_decide;
    auto using wrapTypedHTTP_answers, wrapTypedWebSocket_answers, wrapCustom_answers.
  done.
Qed.

(** ** Inputs that are refused *)

Definition invalid_answer (ev : Event) (message : string) (issues : slice_of ValidationIssue) :
    handled :=
  Answer (HTTPResult ev.(EventID) (Some (JSONAnswer 400 message (issues_detail issues)))).

(** What an error the input's checks answered with becomes: itself where it is a
    validation error, and otherwise one that repeats none of its text. *)
Definition refusal (err : error) : string * slice_of ValidationIssue :=
  match err with
  | EValidation message issues _ => (message, issues)
  | _ => ("the request is not valid", IssuesFrom err)
  end.

(** The first check that fails, the input's own before the validator's. *)
Definition failed_check (appValidator : check In) (skip : bool) (own self : check In)
    (input : In) : option error :=
  if skip then None
  else match run_check self input with
       | Some err => Some err
       | None => run_check (match own with Some _ => own | None => appValidator end) input
       end.

Lemma validationFor_failed app skip own self input :
  run_check (validationFor app skip own self) input =
    asValidationError <$> failed_check app skip own self input.
Proof.
  unfold validationFor, failed_check, run_check. destruct skip; [done|]. simpl.
  unfold validateInput, run_check. destruct self as [f|]; simpl; [destruct (f input)|]; done.
Qed.

Lemma httpErrorResult_validation ev err :
  httpErrorResult ev (asValidationError err) =
    invalid_answer ev (refusal err).1 (refusal err).2.
Proof.
  unfold httpErrorResult, invalid_answer. destruct err; cbn [asValidationError refusal fst snd];
    by rewrite ResponseForError_EValidation.
Qed.

(** The words a caller is told what was expected in. *)
Definition json_words : list string :=
  ["an array"; "an object"; "a string"; "a boolean"; "a number"; "a different value"].

Lemma describeJSONType_words goType : describeJSONType goType ∈ json_words.
Proof using. clear. unfold describeJSONType, json_words. repeat case_match; set_solver. Qed.

Lemma refused_unbound ev req c validate h w e :
  ev.(EventHTTP) = Some req → bindRequest ParseFloat Unmarshal (Some req) input_zero = Err e →
  wrapTypedHTTP validate h c ev w =
    (invalid_answer ev "the request body could not be read" (IssuesFromDecode e), w).
Proof using Type.
  intros Hev He. unfold wrapTypedHTTP. rewrite Hev, He.
  unfold httpErrorResult, invalid_answer, decodeFailure. by rewrite ResponseForError_EValidation.
Qed.

(** A body that is not decoded is not bound, and what is said of it is said of what decoding
    it came to. *)
Lemma undecoded_body req e :
  req.(RequestBody) ≠ "" → Unmarshal req.(RequestBody) input_zero = Err e →
  ∃ e', bindRequest ParseFloat Unmarshal (Some req) input_zero = Err e' ∧ IssuesFromDecode e' = IssuesFromDecode e.
Proof using Type.
  intros Hbody He. unfold bindRequest, decodeInto. rewrite bool_decide_eq_false_2, He by done.
  eexists. split; [reflexivity|]. done.
Qed.


(** An error that carries no issues has one, naming nothing, though [SelfValidating] says it
    has no detail. *)
Lemma a_plain_error_has_detail msg :
  refusal (EString msg) = ("the request is not valid", Some [MkIssue CodeInvalid (Some []) "the value is not valid"]).
Proof using Type. done. Qed.

End wrap.

(** The issue a request parameter that cannot be parsed is described by. *)
Definition unreadable_body : slice_of ValidationIssue :=
  Some [MkIssue CodeMalformed (Some []) "the body could not be read"].

Lemma not_json_unreadable e :
  errors_as as_type_error e = None → errors_as as_syntax_error e = None →
  IssuesFromDecode e = unreadable_body.
Proof. intros H1 H2. unfold IssuesFromDecode. by rewrite H1, H2. Qed.

Lemma parse_digits_error m n s e : parse_digits m n s = Err e → e = ErrSyntax ∨ e = ErrRange.
Proof.
  revert n. induction s as [|c s IH]; simpl; intros n; [done|].
  destruct (digit c); [|intros [= <-]; auto].
  destruct (_ <? _)%Z; [intros [= <-]; auto|apply IH].
Qed.

Lemma parse_uint_error bits s e : parse_uint bits s = Err e → e = ErrSyntax ∨ e = ErrRange.
Proof.
  unfold parse_uint. case_bool_decide; [intros [= <-]; auto|apply parse_digits_error].
Qed.

Lemma with_num_error {A} func num (r : result error A) e :
  (∀ e', r = Err e' → e' = ErrSyntax ∨ e' = ErrRange) → with_num func num r = Err e →
  e = NumError func num ErrSyntax ∨ e = NumError func num ErrRange.
Proof. destruct r as [a|e']; [done|]. intros H [= <-]. destruct (H e' eq_refl); subst; auto. Qed.

Lemma ParseInt_error s bits e :
  ParseInt s bits = Err e →
  e = NumError "ParseInt" s ErrSyntax ∨ e = NumError "ParseInt" s ErrRange.
Proof.
  unfold ParseInt. destruct (match s with String "+" s => (false, s)
    | String "-" s => (true, s) | _ => (false, s) end) as [neg ds].
  apply with_num_error. intros e' H. case_bool_decide; [naive_solver|].
  destruct (parse_uint bits ds) as [u|e''] eqn:Hu; [|by injection H as <-; eauto using parse_uint_error].
  repeat case_match; naive_solver.
Qed.

(** A request parameter that is no number is reported against the body.  A path,
    query or header value that does not parse as the integer its field is, of a
    request whose body is empty or decoded, is answered as a malformed body, and the
    issue names no field. *)
Lemma parameter_failure_blames_body {F} (ParseFloat : string → Z → result error F)
    f v values isPath bits e req :
  f.(Exported) = true → f.(FieldKind) = KInt bits →
  taggedValue req f = Some (values, isPath) →
  bind_field ParseFloat req (f, v) = Err e →
  IssuesFromDecode e = unreadable_body.
Proof.
  unfold bind_field. intros -> Hk ->. simpl. unfold setField. rewrite Hk.
  destruct (ParseInt _ bits) as [n|e'] eqn:Hp; [done|]. intros [= <-].
  apply not_json_unreadable; apply ParseInt_error in Hp as [-> | ->]; done.
Qed.

(** ** Function names *)

(** [shortFuncName]. *)
Fixpoint first_not_func (parts : list string) : option string :=
  match parts with
  | [] => None
  | part :: parts => if has_prefix part "func" then first_not_func parts else Some part
  end.

Definition shortFuncName (full : string) : string :=
  if bool_decide (full = "") then ""
  else
    let parts := split_on "." (after_last "/" full) in
    match first_not_func (tail parts) with
    | Some part => part
    | None => List.last parts ""
    end.

(** [guardRedefinedError]. *)
Definition guardRedefinedError (name file : string) (line : Z) : error :=
  EString ("guard " +:+ go_quote name +:+ " is already registered, and " +:+ file +:+ ":"
           +:+ itoa line +:+ " registers it again").

Lemma after_last_app a b : no_byte "/" b = true → after_last "/" (a +:+ "/" +:+ b) = b.
Proof.
  intros Hb. unfold after_last. rewrite append_cons, append_nil_l, split_on_app_gen,
    (split_on_single _ b) by done. by rewrite last_snoc.
Qed.

(** A handler's name where none is given.  A function of a package, and a
    closure it returns however deep, is named by the function alone: the import path,
    the package and the closure suffixes are dropped.  A method value is named by its
    receiver's type instead of the method. *)
Lemma shortFuncName_function path pkg name suffixes receiver method :
  no_byte "." pkg = true → no_byte "." name = true → Forall (λ s, no_byte "." s = true) suffixes →
  no_byte "/" (join (pkg :: name :: suffixes) ".") = true →
  has_prefix name "func" = false →
  no_byte "." receiver = true → no_byte "." method = true →
  no_byte "/" (join [pkg; "(*" +:+ receiver +:+ ")"; method] ".") = true →
  shortFuncName (path +:+ "/" +:+ join (pkg :: name :: suffixes) ".") = name ∧
  shortFuncName (path +:+ "/" +:+ join [pkg; "(*" +:+ receiver +:+ ")"; method] ".") =
    "(*" +:+ receiver +:+ ")".
Proof.
  intros Hp Hn Hs Hslash Hf Hr Hm Hslash'.
  assert (∀ b, path +:+ "/" +:+ b ≠ "") as Hne by (intros b; by destruct path).
  unfold shortFuncName. split.
  - rewrite bool_decide_eq_false_2 by done. rewrite after_last_app, split_join by auto.
    simpl. by rewrite Hf.
  - rewrite bool_decide_eq_false_2 by done. rewrite after_last_app, split_join; [done|done| |done].
    repeat constructor; [done| |done]. by rewrite !no_byte_append, Hr.
Qed.

Lemma shortFuncName_function_witness :
  shortFuncName "github.com/acme/app/orders.Create.func1" = "Create" ∧
  shortFuncName "github.com/acme/app/orders.(*Service).Create-fm" = "(*Service)".
Proof.
  apply (shortFuncName_function "github.com/acme/app" "orders" "Create" ["func1"] "Service"
           "Create-fm"); [reflexivity|reflexivity| |reflexivity..].
  repeat constructor.
Defined.

(** ** Witnesses *)

Section witnesses.

Definition no_float : string → Z → result error unit := λ _ _, Err ErrSyntax.

(** An input of one integer path field; its body is left as it is. *)
Definition count_field : field := MkField "Count" {[ "path" := "count" ]} (KInt 8) true.
Definition count_input : gtype := TStruct [count_field].
Definition keep_body : bytes → gval (F := unit) → result error (gval (F := unit)) :=
  λ _ v, Ok v.

Definition count_request (count : string) : Request :=
  MkRequest "GET" "/c" "/c/{count}" {[ "count" := [count] ]} ∅ ∅ "" "r1" "".

Definition count_event (count : string) : Event :=
  MkEvent "e1" "GET::/c/{count}" KindHTTP None None ∅ (Some (count_request count))
    None None None None.

(** A check that refuses every input with an error of its own. *)
Definition refuse_all : check (gval (F := unit)) :=
  Some (λ _, Some (EApp (MkApp "field Count of type int8" "*lib.Error" None None None None) None)).

(** A body whose count is a text. *)
Definition text_count : Event :=
  MkEvent "e1" "POST::/c" KindHTTP None None ∅
    (Some (MkRequest "POST" "/c" "/c" ∅ ∅ ∅ "" "r1" "{a}")) None None None None.
Definition not_a_number : bytes → gval (F := unit) → result error (gval (F := unit)) :=
  λ _ _, Err (EJSONType "cannot unmarshal string" "order.count" "int8").


Lemma parameter_failure_blames_body_witness :
  ∃ e, bind_field no_float (count_request "1000") (count_field, VZero) = Err e ∧
    IssuesFromDecode e = unreadable_body.
Proof.
  eexists. split; [vm_compute; reflexivity|].
  eapply (parameter_failure_blames_body no_float count_field VZero ["1000"] true 8 _
    (count_request "1000")); vm_compute; reflexivity.
Defined.
End witnesses.
