(* ===== verification/App.v ===== *)
(** * The application and its registrations

    Models [celerity/app.go], [celerity/register.go] and [celerity/host.go].  An
    application is the registry, the options it was built with, the errors
    collected so far and the resources it refers to.  The options that only name an
    implementation to run with (adapter, resource provider, configuration service)
    are not part of the state: nothing modelled here reads them. *)

From S2P Require Import Prelude GoStrings Json Errors Handler Route Layer Registry Bind Wrap.
From stdpp Require Import options.

(** [guard.Request] and [guard.Guard]. *)
Record GuardRequest : Type := MkGuardRequest {
  GuardKind : Kind;
  GuardMethod : string;
  GuardRoute : string;
  GuardHeaders : Params;
  GuardQuery : Params;
  GuardConnectionID : string;
  GuardSourceIP : string;
  GuardRequestID : string;
}.

Section app.
Context {W F : Type}.
Context (ParseFloat : string → Z → result error F).
Context (Unmarshal : bytes → gval (F := F) → result error (gval (F := F))).

Abbreviation In := (gval (F := F)).

Definition Guard : Type := Ctx → GuardRequest → W → outcome Decision * W.

(** ** Options *)

Record app_options : Type := MkOptions {
  optLayers : list (option (Layer W));
  optGuards : gmap string Guard;
  optLogger : option Logger;
  optRouteKey : string;
  optValidator : check In;
}.

Inductive Option_ : Type :=
  | WithLayers (layers : list (option (Layer W)))
  | WithWebSocketRouteKey (key : string)
  | WithAppLogger (l : Logger)
  | WithValidator (v : check In).

Definition apply_app_option (o : app_options) (opt : Option_) : app_options :=
  match opt with
  | WithLayers layers => MkOptions (o.(optLayers) ++ layers) o.(optGuards) o.(optLogger)
                           o.(optRouteKey) o.(optValidator)
  | WithWebSocketRouteKey key => MkOptions o.(optLayers) o.(optGuards) o.(optLogger) key
                                   o.(optValidator)
  | WithAppLogger l => MkOptions o.(optLayers) o.(optGuards) (Some l) o.(optRouteKey)
                         o.(optValidator)
  | WithValidator v => MkOptions o.(optLayers) o.(optGuards) o.(optLogger) o.(optRouteKey) v
  end.

Record App : Type := MkApp_ {
  registry : Registry W;
  options_ : app_options;
  errs : list error;
  resourceRefs : gmap string (gset string);
}.

(** [New]; [configErr] is what reading the environment's configuration failed with. *)
Definition New (opts : list Option_) (configErr : option error) : App :=
  MkApp_ NewRegistry
    (foldl apply_app_option (MkOptions [] ∅ None DefaultWebSocketRouteKey None) opts)
    (option_list configErr) ∅.

(** [App.Err]: every error collected, joined; nil where there is none. *)
Definition Err_ (a : App) : option error :=
  match a.(errs) with [] => None | es => Some (EJoin es) end.

Definition add_error (a : App) (e : error) : App :=
  MkApp_ a.(registry) a.(options_) (a.(errs) ++ [e]) a.(resourceRefs).

Definition set_registry (a : App) (s : Registry W) : App :=
  MkApp_ s a.(options_) a.(errs) a.(resourceRefs).

(** [App.register], of a registration not yet in the heap: its layers are the
    application's at this moment and then its own.  [None] is a nil dereference. *)
Definition register (a : App) (reg : Registration W) (layers : list (option (Layer W))) :
    option App :=
  let '(s, i) := alloc a.(registry) (set_layers reg (a.(options_).(optLayers) ++ layers)) in
  added ← Add s i;
  Some (match added with
        | Ok s => set_registry a s
        | Err e => add_error (set_registry a s) e
        end).

(** [AddGuard], at the given source location. *)
Definition AddGuard (a : App) (name : string) (g : Guard) (site : string * Z) : App :=
  match a.(options_).(optGuards) !! name with
  | Some _ => add_error a (guardRedefinedError name site.1 site.2)
  | None =>
      let o := a.(options_) in
      MkApp_ a.(registry)
        (MkOptions o.(optLayers) (<[name := g]> o.(optGuards)) o.(optLogger) o.(optRouteKey)
           o.(optValidator))
        a.(errs) a.(resourceRefs)
  end.

(** ** Registration options *)

Record registerOptions : Type := MkRegisterOptions {
  ro_name : string;
  ro_publishedName : string;
  ro_layers : list (option (Layer W));
  ro_guards : list string;
  ro_uses : list string;
  ro_public : bool;
  ro_maxConcurrent : Z;
  ro_skipValidation : bool;
  ro_validator : check In;
}.

Definition no_options : registerOptions :=
  MkRegisterOptions "" "" [] [] [] false 0 false None.

Inductive RegisterOption : Type :=
  | Named (name : string)
  | PublishedAs (name : string)
  | With (layers : list (option (Layer W)))
  | ProtectedBy (guards : list string)
  | MaxConcurrent (n : Z)
  | SkipValidation
  | ValidateWith (v : check In)
  | Public
  | Uses (resourceNames : list string).

Definition apply_option (o : registerOptions) (opt : RegisterOption) : registerOptions :=
  let '(MkRegisterOptions n p l g u pub m s v) := o in
  match opt with
  | Named name => MkRegisterOptions name p l g u pub m s v
  | PublishedAs name => MkRegisterOptions n name l g u pub m s v
  | With layers => MkRegisterOptions n p (l ++ layers) g u pub m s v
  | ProtectedBy guards => MkRegisterOptions n p l (g ++ guards) u pub m s v
  | MaxConcurrent m => MkRegisterOptions n p l g u pub m s v
  | SkipValidation => MkRegisterOptions n p l g u pub m true v
  | ValidateWith v => MkRegisterOptions n p l g u pub m s v
  | Public => MkRegisterOptions n p l g u true m s v
  | Uses names => MkRegisterOptions n p l g (u ++ names) pub m s v
  end.

Definition applyOptions (opts : list RegisterOption) : registerOptions :=
  foldl apply_option no_options opts.

Definition handlerName (explicit funcName : string) : string :=
  if bool_decide (explicit = "") then shortFuncName funcName else explicit.

(** ** Registrations of each source *)

(** A typed handler: what its Go types bring with them, and its function's name. *)
Record typed : Type := MkTyped {
  th_Out : Type;
  th_marshal : th_Out → result error bytes;
  th_asResponse : th_Out → option (option Response);
  th_input : gtype;
  th_self : check In;
  th_handler : HandlerFunc (W := W) (F := F) (Out := th_Out);
  th_func : string;
}.

(** The check [validationFor] settles at registration. *)
Definition validation (a : App) (o : registerOptions) (t : typed) : check In :=
  validationFor a.(options_).(optValidator) o.(ro_skipValidation) o.(ro_validator) t.(th_self).

(** The fields every registration fills from its options. *)
Definition registration (tag name : string) (kind : Kind) (method route routeKey sourceID : string)
    (site : string * Z) (func : string) (h : Func W) (fromBlueprint : bool)
    (o : registerOptions) : Registration W :=
  MkRegistration tag name o.(ro_publishedName) kind method route routeKey sourceID
    site.1 site.2 func h [] o.(ro_guards) o.(ro_uses) o.(ro_public) o.(ro_maxConcurrent)
    fromBlueprint.

Definition pendingTagPrefix : string := "blueprint::".
Definition RouteConnect : string := "$connect".
Definition RouteDisconnect : string := "$disconnect".
Definition RouteDefault : string := "$default".

Definition registerHTTP (a : App) (method route : string) (t : typed)
    (opts : list RegisterOption) (site : string * Z) : option App :=
  let o := applyOptions opts in
  let normalised := NormaliseRoute route in
  register a
    (registration (HTTPTag method normalised) (handlerName o.(ro_name) t.(th_func)) KindHTTP
       method normalised "" "" site t.(th_func)
       (wrapTypedHTTP ParseFloat Unmarshal t.(th_marshal) t.(th_asResponse) t.(th_input)
          (validation a o t) t.(th_handler)) false o)
    o.(ro_layers).

(** [Get], [Post], [Put], [Patch] and [Delete]. *)
Definition RegGet (a : App) := registerHTTP a "GET".
Definition RegPost (a : App) := registerHTTP a "POST".
Definition RegPut (a : App) := registerHTTP a "PUT".
Definition RegPatch (a : App) := registerHTTP a "PATCH".
Definition RegDelete (a : App) := registerHTTP a "DELETE".

Definition HTTP (a : App) (method route : string)
    (h : Ctx → Request → W → outcome (option Response) * W) (func : string)
    (opts : list RegisterOption) (site : string * Z) : option App :=
  let o := applyOptions opts in
  let normalised := NormaliseRoute route in
  register a
    (registration (HTTPTag method normalised) (handlerName o.(ro_name) func) KindHTTP
       method normalised "" "" site func (wrapHTTP h) false o)
    o.(ro_layers).

Definition registerWebSocket (a : App) (route : string) (t : typed)
    (opts : list RegisterOption) (site : string * Z) : option App :=
  let o := applyOptions opts in
  let routeKey := a.(options_).(optRouteKey) in
  register a
    (registration (WebSocketTag routeKey route) (handlerName o.(ro_name) t.(th_func))
       KindWebSocket "" route routeKey "" site t.(th_func)
       (wrapTypedWebSocket Unmarshal t.(th_input) (validation a o t) t.(th_handler)) false o)
    o.(ro_layers).

Definition OnMessage := registerWebSocket.
Definition OnConnect (a : App) := registerWebSocket a RouteConnect.
Definition OnDisconnect (a : App) := registerWebSocket a RouteDisconnect.

Definition Consume (a : App) (sourceID : string)
    (h : Ctx → ConsumerBatch → W → outcome (option BatchResult) * W) (func : string)
    (opts : list RegisterOption) (site : string * Z) : option App :=
  let o := applyOptions opts in
  let name := handlerName o.(ro_name) func in
  register a
    (registration (SourceTag sourceID name) name KindConsumer "" "" "" sourceID site func
       (wrapConsumer h) false o)
    o.(ro_layers).

Definition Schedule (a : App) (sourceID : string)
    (h : Ctx → ScheduleTrigger → W → outcome unit * W) (func : string)
    (opts : list RegisterOption) (site : string * Z) : option App :=
  let o := applyOptions opts in
  let name := handlerName o.(ro_name) func in
  register a
    (registration (SourceTag sourceID name) name KindSchedule "" "" "" sourceID site func
       (wrapSchedule h) false o)
    o.(ro_layers).

Definition Invoke (a : App) (name : string) (t : typed)
    (opts : list RegisterOption) (site : string * Z) : option App :=
  let o := applyOptions opts in
  register a
    (registration (CustomTag name) name KindCustom "" "" "" "" site t.(th_func)
       (wrapCustom Unmarshal t.(th_marshal) t.(th_input) (validation a o t) t.(th_handler))
       false o)
    o.(ro_layers).

Definition Handler (a : App) (name : string) (t : typed)
    (opts : list RegisterOption) (site : string * Z) : option App :=
  let o := applyOptions opts in
  register a
    (registration (pendingTagPrefix +:+ name) name "" "" "" "" "" site t.(th_func)
       (wrapTypedAny ParseFloat Unmarshal t.(th_marshal) t.(th_asResponse) t.(th_input)
          (validation a o t) t.(th_handler)) true o)
    o.(ro_layers).

(** ** Resource references *)

Definition RecordResourceRef (a : App) (kind name : string) : App :=
  let names := default ∅ (a.(resourceRefs) !! kind) in
  MkApp_ a.(registry) a.(options_) a.(errs)
    (<[kind := {[name]} ∪ names]> a.(resourceRefs)).

Definition ResourceError (a : App) (e : error) : App := add_error a e.

Definition ResourceRefs (a : App) : gmap string (list string) :=
  (λ names, sort_strings (elements names)) <$> a.(resourceRefs).

(** ** What a file of registrations builds *)

(** One call of a registration function. *)
Inductive call : Type :=
  | CallHTTP (method route : string) (t : typed) (opts : list RegisterOption) (site : string * Z)
  | CallRawHTTP (method route : string)
      (h : Ctx → Request → W → outcome (option Response) * W) (func : string)
      (opts : list RegisterOption) (site : string * Z)
  | CallOnMessage (route : string) (t : typed) (opts : list RegisterOption) (site : string * Z)
  | CallConsume (sourceID : string)
      (h : Ctx → ConsumerBatch → W → outcome (option BatchResult) * W) (func : string)
      (opts : list RegisterOption) (site : string * Z)
  | CallSchedule (sourceID : string) (h : Ctx → ScheduleTrigger → W → outcome unit * W)
      (func : string) (opts : list RegisterOption) (site : string * Z)
  | CallInvoke (name : string) (t : typed) (opts : list RegisterOption) (site : string * Z)
  | CallHandler (name : string) (t : typed) (opts : list RegisterOption) (site : string * Z).

Definition do_call (a : App) (c : call) : option App :=
  match c with
  | CallHTTP method route t opts site => registerHTTP a method route t opts site
  | CallRawHTTP method route h func opts site => HTTP a method route h func opts site
  | CallOnMessage route t opts site => OnMessage a route t opts site
  | CallConsume sourceID h func opts site => Consume a sourceID h func opts site
  | CallSchedule sourceID h func opts site => Schedule a sourceID h func opts site
  | CallInvoke name t opts site => Invoke a name t opts site
  | CallHandler name t opts site => Handler a name t opts site
  end.

Definition do_calls (a : App) (calls : list call) : option App :=
  foldl (λ a c, a ≫= λ a, do_call a c) (Some a) calls.

(** The name a call registers its handler under. *)
Definition given_name (opts : list RegisterOption) (func : string) : string :=
  handlerName (applyOptions opts).(ro_name) func.

(** The tag it registers it under, of an application with this route key. *)
Definition call_tag (routeKey : string) (c : call) : string :=
  match c with
  | CallHTTP method route _ _ _ | CallRawHTTP method route _ _ _ _ =>
      HTTPTag method (NormaliseRoute route)
  | CallOnMessage route _ _ _ => WebSocketTag routeKey route
  | CallConsume sourceID _ func opts _ | CallSchedule sourceID _ func opts _ =>
      SourceTag sourceID (given_name opts func)
  | CallInvoke name _ _ _ => CustomTag name
  | CallHandler name _ _ _ => pendingTagPrefix +:+ name
  end.

(** Every call is one registration under that tag. *)
Lemma do_call_register a c :
  ∃ reg layers, do_call a c = register a reg layers ∧
    reg.(Tag) = call_tag a.(options_).(optRouteKey) c.
Proof using Type. destruct c; eexists _, _; (split; [reflexivity|reflexivity]). Qed.

(** A list of tags with the repeats left out, and how many there were. *)
Definition first_seen (l : list string) : list string :=
  foldl (λ seen t, if decide (t ∈ seen) then seen else seen ++ [t]) [] l.

Definition see (seen : list string) (t : string) : list string :=
  if decide (t ∈ seen) then seen else seen ++ [t].

Lemma register_spec a reg layers :
  registry_wf a.(registry) →
  ∃ a', register a reg layers = Some a' ∧ registry_wf a'.(registry) ∧
    a'.(options_) = a.(options_) ∧
    a'.(registry).(order) = see a.(registry).(order) reg.(Tag) ∧
    (if decide (reg.(Tag) ∈ a.(registry).(order))
     then ∃ e, a'.(errs) = a.(errs) ++ [e] else a'.(errs) = a.(errs)).
Proof using Type.
  intros Hwf. unfold register, see.
  set (reg' := set_layers reg _). pose proof (alloc_wf _ reg' Hwf) as Hwf'.
  destruct (alloc a.(registry) reg') as [s i] eqn:Ha. injection Ha as <- <-. simpl in Hwf'.
  assert ((heap (registry a) ++ [reg']) !! length (heap (registry a)) = Some reg') as Hr
    by (rewrite lookup_app_r, Nat.sub_diag by done; done).
  unfold Add. simpl. rewrite Hr. simpl.
  destruct (byTag (registry a) !! Tag reg) as [e|] eqn:He.
  - destruct (wf_tag _ Hwf' _ _ He) as (existing & Hex & _). simpl in Hex. rewrite Hex. simpl.
    assert (Tag reg ∈ order (registry a)) as Hin by (apply Hwf; eauto).
    rewrite !decide_True by done. eexists. split; [done|]. simpl.
    split_and!; try done. rewrite decide_True by done. by eexists.
  - assert (Tag reg ∉ order (registry a)) as Hin by (rewrite (wf_dom _ Hwf), He; by intros []).
    rewrite !decide_False by done. eexists. split; [done|]. simpl.
    split_and!; [exact (added_wf _ _ reg' Hwf' Hr He)|done..|by rewrite decide_False].
Qed.

Lemma do_calls_spec a calls :
  registry_wf a.(registry) →
  ∃ a', do_calls a calls = Some a' ∧ registry_wf a'.(registry) ∧
    a'.(registry).(order) =
      foldl see a.(registry).(order) (call_tag a.(options_).(optRouteKey) <$> calls) ∧
    (length a'.(errs) + length a'.(registry).(order) =
       length a.(errs) + length a.(registry).(order) + length calls).
Proof using Type.
  revert a. induction calls as [|c calls IH]; intros a Hwf.
  { exists a. split_and!; done || (simpl; lia). }
  destruct (do_call_register a c) as (reg & layers & Hc & Ht).
  destruct (register_spec a reg layers Hwf) as (a1 & H1 & Hwf1 & Ho1 & Hord1 & Herr1).
  destruct (IH a1 Hwf1) as (a' & H' & Hwf' & Hord' & Herr').
  exists a'. unfold do_calls in *. simpl. rewrite Hc, H1. split_and!; [done..| |].
  - by rewrite Hord', Hord1, Ho1, Ht.
  - rewrite Herr', Hord1. unfold see. simpl. rewrite Ht in *.
    case_decide; [destruct Herr1 as [e ->]; rewrite length_app|rewrite Herr1, length_app];
      simpl; lia.
Qed.

Lemma length_see l seen : length (foldl see seen l) ≤ length seen + length l.
Proof using Type.
  clear ParseFloat Unmarshal. revert seen. induction l as [|t l IH]; intros seen; simpl; [lia|].
  specialize (IH (see seen t)). unfold see in *. case_decide; rewrite ?length_app in *; simpl in *; lia.
Qed.

Lemma see_NoDup l seen :
  NoDup seen →
  length (foldl see seen l) = length seen + length l ↔ NoDup (seen ++ l).
Proof using Type.
  revert seen. induction l as [|t l IH]; intros seen Hnd; simpl.
  { rewrite app_nil_r. split; [done|lia]. }
  pose proof (length_see l (see seen t)) as Hle. unfold see in *. case_decide as Ht.
  - split; [lia|]. intros Hn. apply NoDup_app in Hn as (_ & Hd & _).
    exfalso. apply (Hd t Ht). by left.
  - specialize (IH (seen ++ [t])). rewrite length_app in IH. simpl in IH.
    rewrite <- app_assoc in IH. simpl in IH. rewrite <- IH; [split; lia|].
    apply NoDup_app. split_and!; [done| |apply NoDup_singleton].
    by intros x Hx ->%list_elem_of_singleton.
Qed.

(** A file of registrations.  Any sequence of registrations leaves a well-formed
    registry whose tags are those of the calls, in the order of the calls, the first
    of each; every later call under a tag already taken is one collected error, and
    an application has no error exactly when all its tags differ.  What it then
    declares is every tag, sorted. *)
Lemma registrations_spec opts calls :
  let tags := call_tag (New opts None).(options_).(optRouteKey) <$> calls in
  ∃ a, do_calls (New opts None) calls = Some a ∧ registry_wf a.(registry) ∧
    a.(registry).(order) = foldl see [] tags ∧
    Tags a.(registry) = sort_strings (foldl see [] tags) ∧
    length a.(errs) + Len a.(registry) = length calls ∧
    (Err_ a = None ↔ NoDup tags).
Proof using Type.
  intros tags. destruct (do_calls_spec (New opts None) calls NewRegistry_wf)
    as (a & H1 & Hwf & Ho & He).
  destruct (Tags_spec _ Hwf) as [HT HL]. simpl in Ho, He.
  exists a. split_and!; [done..|by rewrite HT, Ho|rewrite HL; lia|].
  pose proof (see_NoDup tags [] NoDup_nil_2) as Hnd. simpl in Hnd. rewrite <- Hnd.
  fold tags in Ho. rewrite Ho in He. unfold tags in *. rewrite length_fmap in *.
  unfold Err_. destruct (errs a); simpl in *; split; intros; try done; lia.
Qed.
End app.
