(* ===== verification/Pipeline.v ===== *)
(** * The pipeline a handler runs behind

    Models [celerity/pipeline.go], [celerity/run.go] and [celerity/runtime.go]:
    guards, then layers, then the handler, inside the dispatch's span; and how an
    application is resolved and run. *)

From S2P Require Import Prelude GoStrings Json Errors Handler Status Layer Registry Bind Wrap App.
From stdpp Require Import options.

Section pipeline.
Context {W F : Type} `{Tracer W}.

Abbreviation App := (App (W := W) (F := F)).
Abbreviation Guard := (Guard (W := W)).

(** ** Guards *)

(** [guardRequestFrom]. *)
Definition guardRequestFrom (ev : Event) : GuardRequest :=
  match ev.(EventHTTP), ev.(EventWebSocket) with
  | Some r, _ =>
      MkGuardRequest ev.(EventKind) r.(Method) r.(RequestRoute) r.(RequestHeaders)
        r.(QueryParams) "" r.(RequestSourceIP) r.(RequestRequestID)
  | None, Some m =>
      MkGuardRequest ev.(EventKind) "" m.(WSRoute) ∅ ∅ m.(WSConnectionID) m.(WSSourceIP)
        m.(WSRequestID)
  | None, None => MkGuardRequest ev.(EventKind) "" "" ∅ ∅ "" "" ""
  end.

(** [refused]. *)
Definition refused (ev : Event) (d : Decision) : Result :=
  let reason := if bool_decide (d.(Reason) = "") then "Unauthorized" else d.(Reason) in
  if bool_decide (ev.(EventKind) = KindHTTP)
  then HTTPResult ev.(EventID) (Some (JSONMessage 401 reason))
  else if bool_decide (ev.(EventKind) = KindWebSocket)
  then WebSocketResult ev.(EventID) (MkAck false reason)
  else ErrorResult ev.(EventID) (MkHandlerError reason "Unauthorized" "").

Definition guard_missing (tag name : string) : error :=
  EString ("handler " +:+ go_quote tag +:+ " is protected by guard " +:+ go_quote name
           +:+ ", which is not registered").

Definition guard_failed (name : string) (err : error) : error :=
  EWrap ("guard " +:+ go_quote name +:+ ": " +:+ error_text err) err.

(** The loop of [guardLayer]. *)
Fixpoint run_guards (guards : gmap string Guard) (tag : string) (ev : Event)
    (names : list string) (next : Next W) (c : Ctx) (w : W) : handled * W :=
  match names with
  | [] => next c ev w
  | name :: names =>
      match guards !! name with
      | None => (Failure (guard_missing tag name), w)
      | Some g =>
          let '(o, w) := g c (guardRequestFrom ev) w in
          match o with
          | Panicked text => (Panicked text, w)
          | Returned _ (Some err) => (Failure (guard_failed name err), w)
          | Returned d None =>
              if d.(Allowed)
              then run_guards guards tag ev names next (WithIdentity c d) w
              else (Answer (refused ev d), w)
          end
      end
  end.

Definition guardLayer (a : App) (reg : Registration W) : Layer W :=
  λ next c ev w,
    run_guards a.(options_).(optGuards) reg.(Tag) ev reg.(Guards) next c w.

(** ** The dispatch's span *)

Definition dispatchSpan (reg : Registration W) : string :=
  "celerity.handler." +:+ reg.(RegKind).

Definition dispatchAttrs (reg : Registration W) (ev : Event) : list Attr :=
  [("handler.name", AString reg.(Name)); ("handler.tag", AString reg.(Tag));
   ("handler.event_id", AString ev.(EventID))]
  ++ match ev.(EventHTTP) with
     | Some r => [("http.request.method", AString r.(Method));
                  ("http.route", AString reg.(RegRoute))]
     | None => []
     end
  ++ match ev.(EventConsumer) with
     | Some b => [("handler.batch_size", AInt (Z.of_nat (length b.(Records))))]
     | None => []
     end.

(** [dispatchLogger]: the application's logger, or the process's default, with the
    dispatch bound into it. *)
Definition dispatchLogger (a : App) (reg : Registration W) (ev : Event) (span : Span) : Logger :=
  default [] a.(options_).(optLogger)
  ++ [("handler", reg.(Name)); ("tag", reg.(Tag)); ("eventId", ev.(EventID))]
  ++ (let sc := SpanOf span in
      if Recorded sc then [(TraceIDKey, sc.(TraceID)); (SpanIDKey, sc.(SpanID))] else []).

(** [App.traced]. *)
Definition traced (a : App) (c : Ctx) (reg : Registration W) (ev : Event) (next : Next W)
    (w : W) : handled * W :=
  Traced c (dispatchSpan reg) (dispatchAttrs reg ev)
    (λ c span w, next (WithLogger c (dispatchLogger a reg ev span)) ev w) w.

Definition contextLayer (a : App) (reg : Registration W) : Layer W :=
  λ next c ev w,
    let c := WithEvent c ev in
    let c := if bool_decide (ev.(EventTraceContext) = ∅) then c
             else WithTraceContext c ev.(EventTraceContext) in
    traced a c reg ev next w.

(** [App.Pipeline]. *)
Definition Pipeline (a : App) (reg : Registration W) : Next W :=
  let next := Apply reg.(RegHandler) reg.(Layers) in
  let next := match reg.(Guards) with [] => next | _ => guardLayer a reg next end in
  contextLayer a reg next.

(** ** Guards decide *)

(** The guards of a handler that all allow an event, one after the other, each
    seeing the identity the one before it established. *)
Inductive allow_all (guards : gmap string Guard) (ev : Event) :
    list string → Ctx → W → Ctx → W → Prop :=
  | allow_nil c w : allow_all guards ev [] c w c w
  | allow_cons name names g c w d w1 c2 w2 :
      guards !! name = Some g →
      g c (guardRequestFrom ev) w = (Returned d None, w1) → d.(Allowed) = true →
      allow_all guards ev names (WithIdentity c d) w1 c2 w2 →
      allow_all guards ev (name :: names) c w c2 w2.

(** What a handler that is not reached is answered with. *)
Definition turned_away (ev : Event) (o : handled) : Prop :=
  (∃ d, d.(Allowed) = false ∧ o = Answer (refused ev d)) ∨
  (∃ e, o = Failure e) ∨ (∃ text, o = Panicked text).

Lemma run_guards_cases guards tag ev names c w :
  (∃ c' w', allow_all guards ev names c w c' w' ∧
     ∀ next, run_guards guards tag ev names next c w = next c' ev w') ∨
  (∃ o w', turned_away ev o ∧
     ∀ next, run_guards guards tag ev names next c w = (o, w')).
Proof using Type.
  revert c w. induction names as [|name names IH]; intros c w.
  { left. exists c, w. split; [constructor|done]. }
  simpl. destruct (guards !! name) as [g|] eqn:Hg.
  2:{ right. eexists _, w. split; [|done]. right. left. eauto. }
  destruct (g c (guardRequestFrom ev) w) as [[d [e|]|text] w1] eqn:Hd.
  - right. eexists _, w1. split; [|done]. right. left. eauto.
  - destruct (Allowed d) eqn:Ha.
    + destruct (IH (WithIdentity c d) w1) as [(c' & w' & Hall & Hn)|(o & w' & Ho & Hn)].
      * left. exists c', w'. split; [by econstructor|done].
      * right. by exists o, w'.
    + right. eexists _, w1. split; [|done]. left. eauto.
  - right. eexists _, w1. split; [|done]. right. right. eauto.
Qed.

(** C6: every guard must allow.  Either all the guards a handler names allow the
    event, in order, and what is inside runs in the context and the world the last
    of them left; or what is inside does not run at all, whatever it is, and the
    event is answered with a refusal, an error, or the guard's own panic.  A guard
    that is not registered lets nothing through. *)
Theorem guards_decide (a : App) (reg : Registration W) c ev w :
  (∃ c' w', allow_all a.(options_).(optGuards) ev reg.(Guards) c w c' w' ∧
     ∀ next, guardLayer a reg next c ev w = next c' ev w') ∨
  (∃ o w', turned_away ev o ∧ ∀ next, guardLayer a reg next c ev w = (o, w')).
Proof using Type. apply run_guards_cases. Qed.

(** Adding a guard only narrows: whatever is allowed by more guards is allowed by
    the ones before it alone. *)
Lemma allow_all_app guards ev n1 n2 c w c2 w2 :
  allow_all guards ev (n1 ++ n2) c w c2 w2 →
  ∃ c1 w1, allow_all guards ev n1 c w c1 w1 ∧ allow_all guards ev n2 c1 w1 c2 w2.
Proof using Type.
  revert c w. induction n1 as [|n n1 IH]; simpl; intros c w Hall.
  { exists c, w. split; [constructor|done]. }
  inversion Hall; subst. edestruct IH as (cm & wm & ? & ?); [eassumption|].
  exists cm, wm. split; [by econstructor|done].
Qed.

(** ** What a dispatch answers *)

(** A stage that answers as [Wrap.answers] asks, for whatever event it is given. *)
Definition answering (next : Next W) : Prop := ∀ c ev w, answers ev (next c ev w).1.

(** A layer that keeps it: what a well-behaved middleware does. *)
Definition keeps_answering (l : option (Layer W)) : Prop :=
  match l with Some l => ∀ next, answering next → answering (l next) | None => True end.

Lemma Chain_answering layers next :
  Forall keeps_answering layers → answering next → answering (Chain layers next).
Proof using Type.
  induction 1 as [|[l|] layers Hl _ IH]; intros Hn; [done| |by apply IH].
  apply Hl. by apply IH.
Qed.

Lemma guardLayer_answering a reg next : answering next → answering (guardLayer a reg next).
Proof using Type.
  intros Hn c ev w.
  destruct (guards_decide a reg c ev w) as [(c' & w' & _ & ->)|(o & w' & Ho & ->)]; [apply Hn|].
  destruct Ho as [(d & _ & ->)|[[e ->]|[t ->]]]; simpl; [|done..].
  unfold refused. by repeat case_bool_decide.
Qed.

Lemma Traced_answers c name attrs (fn : Ctx → Span → W → handled * W) ev w :
  (∀ c s w, answers ev (fn c s w).1) → answers ev (Traced c name attrs fn w).1.
Proof using Type.
  intros Hf. unfold Traced. destruct (Start c name attrs w) as [[c' s] w'].
  specialize (Hf c' s w'). destruct (fn c' s w') as [[r [e|]|t] w'']; done.
Qed.

(** The pipeline.  Around a handler that answers every event with a result for
    it or with an error, through layers that keep that, the whole pipeline does:
    guards, spans and contexts never drop an answer, answer twice, or answer for
    another event. *)
Lemma Pipeline_answers (a : App) (reg : Registration W) :
  Forall keeps_answering reg.(Layers) → answering reg.(RegHandler) →
  answering (Pipeline a reg).
Proof using Type.
  intros Hl Hh c ev w. unfold Pipeline, contextLayer, traced. apply Traced_answers.
  intros c' s w'. generalize (WithLogger c' (dispatchLogger a reg ev s)) as c''. intros c''.
  pose proof (Chain_answering _ _ Hl Hh) as Hn.
  destruct (Guards reg); [apply Hn | by apply guardLayer_answering].
Qed.

(** What the handler's own context holds, whatever layers that pass their context on
    do: the event, the trace context it arrived with, the last guard's decision, and
    a logger the dispatch is bound into. *)
Lemma Start_context `{!TracerLaws W} c name attrs w :
  ∃ c' s w', Start c name attrs w = ((c', s), w') ∧ c'.(ctxEvent) = c.(ctxEvent) ∧
    c'.(ctxIdentity) = c.(ctxIdentity) ∧ c'.(ctxTrace) = c.(ctxTrace) ∧
    c'.(ctxDeadline) = c.(ctxDeadline) ∧ c'.(ctxSender) = c.(ctxSender).
Proof using Type.
  destruct (Start c name attrs w) as [[c' s] w'] eqn:Hs.
  destruct (Start_keeps _ _ _ _ _ _ _ Hs) as (? & ? & ? & ? & ? & ?). by exists c', s, w'.
Qed.

Definition event_context (c : Ctx) (ev : Event) : Ctx :=
  let c := WithEvent c ev in
  if bool_decide (ev.(EventTraceContext) = ∅) then c
  else WithTraceContext c ev.(EventTraceContext).

(** What a handler is given.  With no layers and no guards, the handler runs in
    a context holding the event itself, the trace context the event arrived with
    where it has one, the deadline and the sender the dispatch came with, and a logger the
    handler's name and tag and the event's id are bound into; and it is run inside a
    span that is started before it and ended after it. *)
Lemma Pipeline_context `{!TracerLaws W} (a : App) (reg : Registration W) c ev w :
  reg.(Layers) = [] → reg.(Guards) = [] →
  ∃ c' s w1 o w2,
    Start (event_context c ev) (dispatchSpan reg) (dispatchAttrs reg ev) w = ((c', s), w1) ∧
    let c'' := WithLogger c' (dispatchLogger a reg ev s) in
    reg.(RegHandler) c'' ev w1 = (o, w2) ∧
    (Pipeline a reg c ev w).1 = o ∧
    EventFrom c'' = Some ev ∧
    TraceContextFrom c'' = (if bool_decide (ev.(EventTraceContext) = ∅)
                            then TraceContextFrom c else Some ev.(EventTraceContext)) ∧
    c''.(ctxDeadline) = c.(ctxDeadline) ∧
    WebSocketSenderFrom c'' = WebSocketSenderFrom c ∧
    ("tag", reg.(Tag)) ∈ LoggerFrom c''.
Proof using Type.
  intros Hl Hg. unfold Pipeline, contextLayer, traced, Traced. rewrite Hl, Hg.
  destruct (Start_context (event_context c ev) (dispatchSpan reg) (dispatchAttrs reg ev) w)
    as (c' & s & w1 & Hs & He & _ & Ht & Hd & Hsd).
  unfold event_context in *. rewrite Hs.
  destruct (RegHandler reg (WithLogger c' (dispatchLogger a reg ev s)) ev w1) as [o w2] eqn:Ho.
  exists c', s, w1, o, w2. split; [done|]. cbn zeta. split; [done|].
  split; [unfold Apply, Chain; simpl; rewrite Ho; by destruct o as [r [e|]|t]|].
  unfold EventFrom, TraceContextFrom, WebSocketSenderFrom, LoggerFrom. simpl.
  rewrite He, Ht, Hd, Hsd. split_and!; try by case_bool_decide.
  unfold dispatchLogger. apply elem_of_app. right. apply elem_of_app. left.
  right. left.
Qed.

(** ** Resolving and running *)

(** What a registration is handed to an adapter as. *)
Record ServerlessHandler : Type := MkServerlessHandler {
  sh_Tag : string;
  sh_Name : string;
  sh_Kind : Kind;
  sh_Invoke : Next W;
}.

Definition toServerlessHandler (a : App) (reg : Registration W) : ServerlessHandler :=
  MkServerlessHandler reg.(Tag) reg.(Name) reg.(RegKind) (Pipeline a reg).

Definition handler_at (a : App) (i : nat) : option (Registration W) := a.(registry).(heap) !! i.

(** [registryResolver.ByTag], [ByName] and [Only]; the outer [None] of the last two
    is a nil dereference. *)
Definition ByTag (a : App) (tag : string) : option ServerlessHandler :=
  i ← Get a.(registry) tag; toServerlessHandler a <$> handler_at a i.

Definition ResolveByName (a : App) (name : string) : option (option ServerlessHandler) :=
  r ← ByName a.(registry) name;
  match r with
  | None => Some None
  | Some i => Some <$> (toServerlessHandler a <$> handler_at a i)
  end.

Definition Only (a : App) (kind : Kind) : option (option ServerlessHandler) :=
  matched ← OfKind a.(registry) kind;
  match matched with
  | [i] => Some <$> (toServerlessHandler a <$> handler_at a i)
  | _ => Some None
  end.

(** [App.resolvePipeline]. *)
Definition resolvePipeline (a : App) (tag : string) : option (Next W) :=
  i ← Get a.(registry) tag; Pipeline a <$> handler_at a i.
End pipeline.

(** [DetectMode], of the environment and of whether a linked adapter recognises its
    platform. *)
Inductive Mode : Type := ModeRuntime | ModeServerless | ModeExtract.

Definition runtimeSocketEnvVar : string := "CELERITY_RUNTIME_SOCKET".
Definition runtimeCallModeEnvVar : string := "CELERITY_RUNTIME_CALL_MODE".
Definition extractManifestEnvVar : string := "CELERITY_EXTRACT_MANIFEST".

Definition DetectMode (env : string → string) (detected : bool) : Mode :=
  if negb (bool_decide (env extractManifestEnvVar = "")) then ModeExtract
  else if negb (bool_decide (env runtimeSocketEnvVar = ""))
       || bool_decide (env runtimeCallModeEnvVar = "ipc") then ModeRuntime
  else if detected then ModeServerless
  else ModeRuntime.

(** [handlerConcurrency]: the worker pool size the environment asks for, and four to
    a processor where it asks for none that is a positive number. *)
Definition concurrencyEnvVar : string := "CELERITY_HANDLER_CONCURRENCY".

Definition handlerConcurrency (env : string → string) (numCPU : Z) : Z :=
  let raw := env concurrencyEnvVar in
  if bool_decide (raw = "") then numCPU * 4
  else match ParseInt raw 64 with
       | Ok n => if (0 <? n)%Z then n else numCPU * 4
       | Err _ => numCPU * 4
       end.

Lemma handlerConcurrency_pos env numCPU :
  (0 < numCPU)%Z → (0 < handlerConcurrency env numCPU)%Z.
Proof.
  intros. unfold handlerConcurrency. case_bool_decide; [lia|].
  destruct (ParseInt _ _) as [n|]; [|lia]. destruct (Z.ltb_spec 0 n); lia.
Qed.

Lemma resolvePipeline_iff {W F} `{Tracer W} (a : App (W := W) (F := F)) tag :
  registry_wf a.(registry) → is_Some (resolvePipeline a tag) ↔ tag ∈ Tags a.(registry).
Proof.
  intros Hwf. destruct (Tags_spec _ Hwf) as [HT _].
  rewrite HT, elem_of_sort_strings, (wf_dom _ Hwf). unfold resolvePipeline, Get, handler_at.
  destruct (byTag _ !! tag) as [i|] eqn:Hi; simpl.
  - destruct (wf_tag _ Hwf _ _ Hi) as (reg & -> & _). split; eauto.
  - by split; intros [].
Qed.

(** What is declared is served.  In an application with a well-formed registry
    the tags declared to the runtime are exactly those the dispatcher and an adapter
    resolve, each to the pipeline of the registration that carries it; a name
    resolves to the first registration of that resource or published name; and a
    kind resolves exactly where one registration serves it. *)
Lemma resolution_spec {W F} `{Tracer W} (a : App (W := W) (F := F)) :
  registry_wf a.(registry) →
  (∀ tag, tag ∈ Tags a.(registry) ↔
     ∃ i reg, Get a.(registry) tag = Some i ∧ handler_at a i = Some reg ∧ reg.(Tag) = tag ∧
       resolvePipeline a tag = Some (Pipeline a reg) ∧
       ByTag a tag = Some (toServerlessHandler a reg)) ∧
  (∀ tag, tag ∉ Tags a.(registry) → resolvePipeline a tag = None ∧ ByTag a tag = None) ∧
  (∀ name, ∃ r, ResolveByName a name = Some r ∧
     r = (i ← List.find (named_at a.(registry) name) (listed a.(registry));
          toServerlessHandler a <$> handler_at a i)) ∧
  (∀ kind, ∃ matched, OfKind a.(registry) kind = Some matched ∧
     ∃ r, Only a kind = Some r ∧ (is_Some r ↔ length matched = 1)).
Proof.
  intros Hwf. destruct (Tags_spec _ Hwf) as [HT _].
  assert (∀ tag, tag ∈ Tags (registry a) ↔ is_Some (byTag (registry a) !! tag)) as Hin.
  { intros t. rewrite HT, elem_of_sort_strings. apply Hwf. }
  assert (∀ i, i ∈ listed (registry a) → is_Some (handler_at a i)) as Hat.
  { intros i (t & _ & Hi)%elem_of_listed. destruct (wf_tag _ Hwf _ _ Hi) as (r & Hr & _).
    exists r. exact Hr. }
  split_and!.
  - intros t. rewrite Hin. split; [|intros (i & _ & Hi & _); eexists; exact Hi].
    intros [i Hi]. destruct (wf_tag _ Hwf _ _ Hi) as (reg & Hr & Ht).
    exists i, reg. unfold resolvePipeline, ByTag, Get, handler_at. rewrite Hi. simpl.
    by rewrite Hr.
  - intros t Ht. rewrite Hin in Ht. unfold resolvePipeline, ByTag, Get.
    destruct (byTag (registry a) !! t); [|done]. by destruct Ht.
  - intros name. unfold ResolveByName. rewrite ByName_wf by done. simpl.
    destruct (List.find _ _) as [i|] eqn:Hf; simpl; [|by eexists].
    apply find_some in Hf as [Hi%list_elem_of_In _]. destruct (Hat i Hi) as [reg ->]. by eexists.
  - intros kind. unfold Only. rewrite OfKind_wf by done. eexists. split; [done|]. simpl.
    destruct (List.filter _ _) as [|i [|j js]] eqn:Hf.
    + eexists. split; [done|]. split; [by intros []|done].
    + assert (In i (i :: [])) as Hi by (by left). rewrite <- Hf in Hi.
      apply filter_In in Hi as [Hi%list_elem_of_In _]. destruct (Hat i Hi) as [reg ->].
      eexists. split; [done|]. split; eauto.
    + eexists. split; [done|]. split; [by intros []|done].
Qed.

(** ** Witnesses *)

Definition plain_app : App (W := nat) (F := unit) :=
  MkApp_ (added (alloc NewRegistry (plain_registration "custom::a" "a" KindCustom false)).1 0
            "custom::a")
    (MkOptions [] ∅ None "event" None) [] ∅.

Definition plain_reg : Registration nat := plain_registration "custom::a" "a" KindCustom false.

Definition plain_event : Event :=
  MkEvent "e1" "custom::a" KindCustom None (Some 5%Z) ∅ None None None None
    (Some (MkCustomInvoke "a" "{}")).

Lemma plain_app_wf : registry_wf plain_app.(registry).
Proof. by apply (added_wf _ 0 plain_reg); [apply alloc_wf, NewRegistry_wf|..]. Qed.

Lemma Pipeline_answers_witness :
  answering (Pipeline (H := noopTracer) plain_app plain_reg) ∧
  (Pipeline (H := noopTracer) plain_app plain_reg Background plain_event 0).1 =
    Answer (EmptyResult "e1").
Proof.
  split; [|reflexivity].
  apply (Pipeline_answers (H := noopTracer) plain_app plain_reg); [constructor|].
  intros c ev w. reflexivity.
Defined.

Lemma Pipeline_context_witness :
  ∃ c', EventFrom c' = Some plain_event ∧ ("tag", "custom::a") ∈ LoggerFrom c'.
Proof.
  destruct (Pipeline_context (H := noopTracer) (TracerLaws0 := noopTracer_laws)
    plain_app plain_reg Background plain_event 0 eq_refl eq_refl)
    as (c' & s & w1 & o & w2 & _ & _ & _ & He & _ & _ & _ & Hl).
  eexists. split; [exact He|exact Hl].
Defined.

Lemma resolution_spec_witness :
  "custom::a" ∈ Tags plain_app.(registry) ∧
  (let _ := @noopTracer nat in is_Some (resolvePipeline plain_app "custom::a")).
Proof.
  assert ("custom::a" ∈ Tags plain_app.(registry)) as Hin.
  { apply elem_of_sort_strings, elem_of_keys. by exists 0. }
  split; [exact Hin|]. cbn zeta.
  destruct (resolution_spec (H := noopTracer) plain_app plain_app_wf) as (H1 & _).
  apply H1 in Hin as (i & reg & _ & _ & _ & Hp & _).
  rewrite Hp. eexists. reflexivity.
Defined.
