(* ===== verification/Frames.v ===== *)
(** * Frames of the handler stream, and the wire contract

    Models [internal/ipc/frames.go] and [internal/ipc/convert.go].  The messages of
    the generated contract are the records of module [Pb]; an accessor of a nil
    message answers the zero value, so a nil message is its zero here.  A width is
    written out where a conversion can wrap. *)

From S2P Require Import Prelude GoStrings Errors Handler.
From stdpp Require Import options.

(** ** Machine integers *)

Definition to_uint32 (n : Z) : Z := n mod 2 ^ 32.
Definition to_int64 (n : Z) : Z := (n + 2 ^ 63) mod 2 ^ 64 - 2 ^ 63.

Arguments to_uint32 : simpl never.
Arguments to_int64 : simpl never.

Lemma to_int64_id n : (- 2 ^ 63 ≤ n < 2 ^ 63)%Z → to_int64 n = n.
Proof. intros. unfold to_int64. rewrite Z.mod_small; lia. Qed.

Lemma to_uint32_id n : (0 ≤ n < 2 ^ 32)%Z → to_uint32 n = n.
Proof. intros. unfold to_uint32. by rewrite Z.mod_small. Qed.

(** ** The wire contract *)

Module Pb.

Abbreviation params := (gmap string (list string)).

Record HttpRequest : Type := MkHttpRequest {
  req_method : string; req_path : string; req_route : string;
  req_path_params : params; req_query_params : params; req_headers : params;
  req_source_ip : string; req_request_id : string; req_body : bytes;
}.
Record WebSocketMessage : Type := MkWebSocketMessage {
  ws_route : string; ws_connection_id : string; ws_source_ip : string;
  ws_request_id : string; ws_message : bytes; ws_is_binary : bool; ws_message_id : string;
}.
Record ConsumerRecord : Type := MkConsumerRecord {
  rec_message_id : string; rec_body : bytes; rec_source : string;
  rec_event_type : string; rec_attributes : bytes; rec_vendor : bytes;
}.
Record ConsumerBatch : Type := MkConsumerBatch {
  batch_records : list ConsumerRecord; batch_source_id : string;
  batch_source_type : string; batch_vendor : bytes;
}.
Record ScheduleTrigger : Type := MkScheduleTrigger {
  sch_id : string; sch_message_id : string; sch_schedule : string;
  sch_input : bytes; sch_vendor : bytes;
}.
Record CustomInvoke : Type := MkCustomInvoke { inv_handler_name : string; inv_input : bytes }.

Inductive source : Type :=
  | Http (r : HttpRequest)
  | Websocket (m : WebSocketMessage)
  | Consumer (b : ConsumerBatch)
  | Schedule (t : ScheduleTrigger)
  | Custom (c : CustomInvoke).

Record Dispatch : Type := MkDispatch {
  d_id : string; d_handler_tag : string; d_timestamp_ms : Z; d_deadline_unix_ms : Z;
  d_trace_context : gmap string string; d_source : option source;
}.

Record ProtocolVersion : Type := MkProtocolVersion { v_major : Z; v_minor : Z }.

Record HandlerConfig : Type := MkHandlerConfig {
  h_name : string; h_tag : string; h_timeout_ms : Z; h_tracing : bool; h_published : string;
}.
Record RuntimeConfig : Type := MkRuntimeConfig {
  c_tracing : bool; c_metrics : bool; c_handlers : list HandlerConfig;
  c_version : option ProtocolVersion;
}.
Record ReadyAck : Type := MkReadyAck {
  a_accepted : bool; a_unknown : list string; a_unhandled : list string; a_reason : Z;
}.
Record SendFailure : Type := MkSendFailure {
  f_index : Z; f_connection_id : string; f_error : string;
}.
Record WsSendAck : Type := MkWsSendAck {
  ack_correlation : string; ack_success : bool; ack_failures : list SendFailure;
}.

(** What the runtime sends; [Unknown] is a frame a later contract adds. *)
Inductive RuntimeMessage : Type :=
  | Config (c : RuntimeConfig)
  | ReadyAck_ (a : ReadyAck)
  | Dispatch_ (d : Dispatch)
  | Cancel (id : string) (reason : Z)
  | Drain (deadline_unix_ms : Z)
  | WsAck (a : WsSendAck)
  | Unknown.

Record HandlerLimit : Type := MkHandlerLimit { l_tag : string; l_max : Z }.
Record Ready : Type := MkReady {
  r_tags : list string; r_credit : Z; r_sdk : string; r_limits : list HandlerLimit;
  r_version : ProtocolVersion;
}.
Record Outbound : Type := MkOutbound {
  o_connection_id : string; o_message : bytes; o_is_binary : bool; o_inform : list string;
  o_message_id : string; o_caller : string; o_wait : bool;
}.
Record RecordFailure : Type := MkRecordFailure { rf_message_id : string; rf_error : string }.

Inductive result_outcome : Type :=
  | RError (message type_ stack : string)
  | RHttp (status : Z) (headers : params) (body : bytes)
  | RWebsocket (success : bool) (error : string)
  | RConsumer (success : bool) (failures : list RecordFailure)
  | RSchedule (success : bool) (error : string)
  | RCustom (output : bytes).

Record Result : Type := MkResult {
  res_id : string; res_credit : Z; res_outcome : option result_outcome;
}.

(** What the handler sends. *)
Inductive HandlerMessage : Type :=
  | Ready_ (r : Ready)
  | Result_ (r : Result)
  | Credit (additional : Z)
  | WsSend (correlation : string) (messages : list Outbound)
  | Draining (deadline_unix_ms : Z).

End Pb.

(** ** The SDK's own frames *)

Record ProtocolVersion : Type := MkProtocolVersion { Major : Z; Minor : Z }.
Definition ProtocolMajor : Z := 1.
Definition ProtocolMinor : Z := 0.
Definition version_text (v : ProtocolVersion) : string :=
  itoa v.(Major) +:+ "." +:+ itoa v.(Minor).

Record HandlerLimit : Type := MkHandlerLimit { LimitTag : string; LimitMax : Z }.

Record Ready : Type := MkReady {
  HandlerTags : list string;
  InitialCredit : Z;
  SDKVersion : string;
  Limits : list HandlerLimit;
  ReadyProtocol : ProtocolVersion;
}.

(** [Outbound] is an [OutboundMessage] and whether it is framed. *)
Record Outbound : Type := MkOutbound { out_message : OutboundMessage; IsBinary : bool }.

(** A frame to the runtime; a result's outcome is a pointer, and may be nil. *)
Inductive ToRuntime : Type :=
  | FReady (r : Ready)
  | FResult (outcome : option Result) (creditGrant : Z)
  | FCredit (additional : Z)
  | FWsSend (correlationID : string) (messages : list Outbound)
  | FDraining (deadline : option Z)
  | FEmpty.

Inductive RefusedReason : Type :=
  | RefusedUnspecified | RefusedTagMismatch | RefusedProtocolVersion
  | RefusedOther (n : Z).

Record ReadyAck : Type := MkReadyAck {
  Accepted : bool;
  UnknownTags : list string;
  UnhandledTags : list string;
  AckReason : RefusedReason;
}.

Record WsSendAck : Type := MkWsSendAck {
  AckCorrelationID : string;
  WsAckSuccess : bool;
  WsAckFailures : list SendFailure;
}.

Record HandlerConfig : Type := MkHandlerConfig {
  HandlerName : string;
  HandlerTag : string;
  Timeout : Z;                                           (* nanoseconds *)
  HandlerTracing : bool;
  HandlerPublished : string;
}.

Record RuntimeConfig : Type := MkRuntimeConfig {
  TracingEnabled : bool;
  MetricsEnabled : bool;
  Handlers : list HandlerConfig;
  ServedProtocol : ProtocolVersion;
}.

(** [RuntimeConfig.Tags]. *)
Definition ConfigTags (c : RuntimeConfig) : list string := HandlerTag <$> c.(Handlers).

Inductive FromRuntime : Type :=
  | FConfig (c : RuntimeConfig)
  | FReadyAck (a : ReadyAck)
  | FDispatch (ev : Event)
  | FCancel (id : string) (reason : Z)
  | FDrain (deadline : option Z)
  | FWsAck (a : WsSendAck)
  | FIgnored.

(** ** From the wire *)

(** [unixMillis]: zero is absent. *)
Definition unixMillis (ms : Z) : option Z := if bool_decide (ms = 0%Z) then None else Some ms.

Arguments unixMillis : simpl never.

(** [paramsFrom] and [paramsTo]. *)
Definition paramsFrom (values : Pb.params) : Params := values.
Definition paramsTo (p : Params) : Pb.params := p.

Definition requestFrom (r : Pb.HttpRequest) : Request :=
  MkRequest r.(Pb.req_method) r.(Pb.req_path) r.(Pb.req_route)
    (paramsFrom r.(Pb.req_path_params)) (paramsFrom r.(Pb.req_query_params))
    (paramsFrom r.(Pb.req_headers)) r.(Pb.req_source_ip) r.(Pb.req_request_id)
    r.(Pb.req_body).

Definition webSocketMessageFrom (m : Pb.WebSocketMessage) : WebSocketMessage :=
  MkWebSocketMessage m.(Pb.ws_route) m.(Pb.ws_connection_id) m.(Pb.ws_source_ip)
    m.(Pb.ws_request_id) m.(Pb.ws_message) m.(Pb.ws_is_binary) m.(Pb.ws_message_id).

Definition consumerRecordFrom (r : Pb.ConsumerRecord) : ConsumerRecord :=
  MkConsumerRecord r.(Pb.rec_message_id) r.(Pb.rec_body) r.(Pb.rec_source)
    r.(Pb.rec_event_type) r.(Pb.rec_attributes) r.(Pb.rec_vendor).

Definition consumerBatchFrom (b : Pb.ConsumerBatch) : ConsumerBatch :=
  MkConsumerBatch (consumerRecordFrom <$> b.(Pb.batch_records)) b.(Pb.batch_source_id)
    b.(Pb.batch_source_type) b.(Pb.batch_vendor).

Definition eventFrom (d : Pb.Dispatch) : Event :=
  let mk kind http ws consumer schedule custom :=
    MkEvent d.(Pb.d_id) d.(Pb.d_handler_tag) kind (unixMillis (to_int64 d.(Pb.d_timestamp_ms)))
      (unixMillis d.(Pb.d_deadline_unix_ms)) d.(Pb.d_trace_context)
      http ws consumer schedule custom in
  match d.(Pb.d_source) with
  | Some (Pb.Http r) => mk KindHTTP (Some (requestFrom r)) None None None None
  | Some (Pb.Websocket m) => mk KindWebSocket None (Some (webSocketMessageFrom m)) None None None
  | Some (Pb.Consumer b) => mk KindConsumer None None (Some (consumerBatchFrom b)) None None
  | Some (Pb.Schedule t) =>
      mk KindSchedule None None None
        (Some (MkScheduleTrigger t.(Pb.sch_id) t.(Pb.sch_message_id) t.(Pb.sch_schedule)
                 t.(Pb.sch_input) t.(Pb.sch_vendor))) None
  | Some (Pb.Custom c) =>
      mk KindCustom None None None None
        (Some (MkCustomInvoke c.(Pb.inv_handler_name) c.(Pb.inv_input)))
  | None => mk "" None None None None None
  end.

Definition runtimeConfigFrom (c : Pb.RuntimeConfig) : RuntimeConfig :=
  let v := default (Pb.MkProtocolVersion 0 0) c.(Pb.c_version) in
  MkRuntimeConfig c.(Pb.c_tracing) c.(Pb.c_metrics)
    ((λ h, MkHandlerConfig h.(Pb.h_name) h.(Pb.h_tag) (to_int64 (h.(Pb.h_timeout_ms) * 1000000))
             h.(Pb.h_tracing) h.(Pb.h_published)) <$> c.(Pb.c_handlers))
    (MkProtocolVersion v.(Pb.v_major) v.(Pb.v_minor)).

Definition reasonFrom (n : Z) : RefusedReason :=
  match n with
  | 0 => RefusedUnspecified | 1 => RefusedTagMismatch | 2 => RefusedProtocolVersion
  | _ => RefusedOther n
  end%Z.

Definition sendFailureFrom (f : Pb.SendFailure) : SendFailure :=
  MkSendFailure f.(Pb.f_index) f.(Pb.f_connection_id) f.(Pb.f_error).

Definition wsAckFrom (a : Pb.WsSendAck) : WsSendAck :=
  MkWsSendAck a.(Pb.ack_correlation) a.(Pb.ack_success) (sendFailureFrom <$> a.(Pb.ack_failures)).

Definition fromRuntimeMessage (msg : Pb.RuntimeMessage) : FromRuntime :=
  match msg with
  | Pb.Config c => FConfig (runtimeConfigFrom c)
  | Pb.ReadyAck_ a =>
      FReadyAck (MkReadyAck a.(Pb.a_accepted) a.(Pb.a_unknown) a.(Pb.a_unhandled)
                   (reasonFrom a.(Pb.a_reason)))
  | Pb.Dispatch_ d => FDispatch (eventFrom d)
  | Pb.Cancel id reason => FCancel id reason
  | Pb.Drain deadline => FDrain (unixMillis deadline)
  | Pb.WsAck a => FWsAck (wsAckFrom a)
  | Pb.Unknown => FIgnored
  end.

(** ** To the wire *)

Definition readyTo (r : Ready) : Pb.Ready :=
  Pb.MkReady r.(HandlerTags) r.(InitialCredit) r.(SDKVersion)
    ((λ l, Pb.MkHandlerLimit l.(LimitTag) l.(LimitMax)) <$> r.(Limits))
    (Pb.MkProtocolVersion r.(ReadyProtocol).(Major) r.(ReadyProtocol).(Minor)).

Definition recordFailureTo (f : RecordFailure) : Pb.RecordFailure :=
  Pb.MkRecordFailure f.(FailedMessageID) f.(FailedError).

Definition batchResultTo (b : BatchResult) : Pb.result_outcome :=
  Pb.RConsumer (negb (Failed b)) (recordFailureTo <$> b.(Failures)).

(** [resultTo]'s switch: the first outcome set, an error before any. *)
Definition outcomeTo (r : Result) : option Pb.result_outcome :=
  match r.(ResultError) with
  | Some e => Some (Pb.RError e.(ErrorMessage) e.(ErrorType) e.(ErrorStack))
  | None =>
  match r.(ResultHTTP) with
  | Some h =>
      Some (Pb.RHttp (to_uint32 h.(Status)) (paramsTo h.(ResponseHeaders)) h.(ResponseBody))
  | None =>
  match r.(ResultWebSocket) with
  | Some a => Some (Pb.RWebsocket a.(AckSuccess) a.(AckError))
  | None =>
  match r.(ResultConsumer) with
  | Some b => Some (batchResultTo b)
  | None =>
  match r.(ResultSchedule) with
  | Some a => Some (Pb.RSchedule a.(AckSuccess) a.(AckError))
  | None =>
  match r.(ResultCustom) with
  | Some c => Some (Pb.RCustom c.(CustomOutput))
  | None => None
  end end end end end end.

(** [resultTo]; [None] is the nil dereference of a result with no outcome. *)
Definition resultTo (outcome : option Result) (creditGrant : Z) : option Pb.Result :=
  r ← outcome;
  Some (Pb.MkResult r.(ResultID) creditGrant (outcomeTo r)).

Definition outboundTo (m : Outbound) : Pb.Outbound :=
  let o := m.(out_message) in
  Pb.MkOutbound o.(OutConnectionID) o.(OutMessage) m.(IsBinary) o.(OutInformClientsOnLoss)
    o.(OutMessageID) o.(OutCaller) o.(OutWaitForAck).

(** What [UnixMilli] answers of the zero time. *)
Definition zero_time_millis : Z := -62135596800000.

(** [toHandlerMessage]: [Some None] is the nil it answers for a frame with nothing
    set, and the outer [None] the nil dereference. *)
Definition toHandlerMessage (frame : ToRuntime) : option (option Pb.HandlerMessage) :=
  match frame with
  | FReady r => Some (Some (Pb.Ready_ (readyTo r)))
  | FResult outcome grant => (λ r, Some (Pb.Result_ r)) <$> resultTo outcome grant
  | FCredit additional => Some (Some (Pb.Credit additional))
  | FWsSend id messages => Some (Some (Pb.WsSend id (outboundTo <$> messages)))
  | FDraining deadline => Some (Some (Pb.Draining (default zero_time_millis deadline)))
  | FEmpty => Some None
  end.

(** ** What the conversion keeps *)

(** The source an event's kind names is the one it carries, and the only one. *)
Definition one_source (ev : Event) : Prop :=
  match ev.(EventHTTP), ev.(EventWebSocket), ev.(EventConsumer), ev.(EventSchedule),
        ev.(EventCustom) with
  | Some _, None, None, None, None => ev.(EventKind) = KindHTTP
  | None, Some _, None, None, None => ev.(EventKind) = KindWebSocket
  | None, None, Some _, None, None => ev.(EventKind) = KindConsumer
  | None, None, None, Some _, None => ev.(EventKind) = KindSchedule
  | None, None, None, None, Some _ => ev.(EventKind) = KindCustom
  | None, None, None, None, None => ev.(EventKind) = ""
  | _, _, _, _, _ => False
  end.

(** A dispatch as an event.  Every dispatch becomes an event of the same id and
    tag whose kind is exactly that of the one source it carries; a deadline of zero
    is no deadline, and any other is kept to the millisecond; a timestamp is kept
    wherever it fits a signed 64-bit integer. *)
Lemma eventFrom_spec d :
  let ev := eventFrom d in
  ev.(EventID) = d.(Pb.d_id) ∧ ev.(EventTag) = d.(Pb.d_handler_tag) ∧
  ev.(EventTraceContext) = d.(Pb.d_trace_context) ∧
  one_source ev ∧
  (ev.(Deadline) = None ↔ d.(Pb.d_deadline_unix_ms) = 0%Z) ∧
  (∀ t, ev.(Deadline) = Some t → t = d.(Pb.d_deadline_unix_ms)) ∧
  ((0 < d.(Pb.d_timestamp_ms) < 2 ^ 63)%Z → ev.(Timestamp) = Some d.(Pb.d_timestamp_ms)).
Proof.
  destruct d as [id tag ts dl tc src]. cbn zeta.
  assert (∀ ms, unixMillis ms = None ↔ ms = 0%Z) as Hnone
    by (intros; unfold unixMillis; case_bool_decide; naive_solver).
  assert (∀ ms t, unixMillis ms = Some t → t = ms) as Hsome
    by (intros ms t; unfold unixMillis; case_bool_decide; naive_solver).
  assert ((0 < ts < 2 ^ 63)%Z → unixMillis (to_int64 ts) = Some ts) as Hts.
  { intros. rewrite to_int64_id by lia. unfold unixMillis. rewrite bool_decide_eq_false_2; [done|lia]. }
  destruct src as [[]|]; split_and!; simpl; try apply Hnone; try reflexivity; auto.
Qed.

Lemma eventFrom_spec_witness :
  let d := Pb.MkDispatch "e1" "custom::a" 1700000000000 0 ∅
             (Some (Pb.Custom (Pb.MkCustomInvoke "a" "{}"))) in
  (eventFrom d).(Timestamp) = Some 1700000000000%Z ∧ (eventFrom d).(Deadline) = None.
Proof.
  intros d. destruct (eventFrom_spec d) as (_ & _ & _ & _ & Hd & _ & Ht).
  split; [apply Ht; simpl; lia | apply Hd; reflexivity].
Defined.

(** ** Reading a result back *)

(** What the runtime makes of a result's outcome. *)
Definition outcomeFrom (id : string) (o : option Pb.result_outcome) : Result :=
  match o with
  | None => EmptyResult id
  | Some (Pb.RError m t s) => ErrorResult id (MkHandlerError m t s)
  | Some (Pb.RHttp status headers body) => HTTPResult id (Some (MkResponse status headers body))
  | Some (Pb.RWebsocket ok e) => WebSocketResult id (MkAck ok e)
  | Some (Pb.RConsumer _ failures) =>
      ConsumerResult id (MkBatchResult
        ((λ f, MkRecordFailure f.(Pb.rf_message_id) f.(Pb.rf_error)) <$> failures))
  | Some (Pb.RSchedule ok e) => ScheduleResult id (MkAck ok e)
  | Some (Pb.RCustom output) => CustomResult id (MkCustomInvokeResult output)
  end.

(** A result of one outcome, as every wrapper builds one, with a status the wire can
    carry. *)
Inductive single_outcome : Result → Prop :=
  | single_none id : single_outcome (EmptyResult id)
  | single_http id u : (0 ≤ u.(Status) < 2 ^ 32)%Z → single_outcome (HTTPResult id (Some u))
  | single_ws id a : single_outcome (WebSocketResult id a)
  | single_consumer id b : single_outcome (ConsumerResult id b)
  | single_schedule id a : single_outcome (ScheduleResult id a)
  | single_custom id c : single_outcome (CustomResult id c)
  | single_error id e : single_outcome (ErrorResult id e).

Lemma recordFailure_roundtrip (fs : list RecordFailure) :
  (λ f, MkRecordFailure f.(Pb.rf_message_id) f.(Pb.rf_error)) <$> (recordFailureTo <$> fs) = fs.
Proof.
  rewrite <- list_fmap_compose. rewrite <- (list_fmap_id fs) at 2.
  apply list_fmap_ext. by intros _ [] _.
Qed.

(** A result on the wire.  A result is sent with its own id and the credit it
    was given, whatever it holds; one that holds a single outcome, with a status an
    unsigned 32-bit integer can be, is read back as it was; and a result that is nil
    cannot be sent at all: the conversion dereferences it. *)
Lemma resultTo_roundtrip r grant :
  (∃ p, resultTo (Some r) grant = Some p ∧ p.(Pb.res_id) = r.(ResultID) ∧
     p.(Pb.res_credit) = grant ∧
     (∀ e, r.(ResultError) = Some e → outcomeFrom r.(ResultID) p.(Pb.res_outcome) =
                                       ErrorResult r.(ResultID) e)) ∧
  (single_outcome r → outcomeFrom r.(ResultID) (outcomeTo r) = r) ∧
  resultTo None grant = None.
Proof.
  split_and!; [| |done].
  - eexists. split; [done|]. split_and!; [done..|]. intros e He. destruct r; simpl in *. subst.
    by destruct e.
  - intros H. inversion H as [id|id u Hst|id a|id b|id a|id c|id e]; subst; simpl; try done.
    + destruct u. simpl in *. by rewrite to_uint32_id.
    + by destruct a.
    + destruct b as [fs]. unfold ConsumerResult. by rewrite recordFailure_roundtrip.
    + by destruct a.
    + by destruct c.
    + by destruct e.
Qed.

Lemma resultTo_roundtrip_witness :
  let r := HTTPResult "e1" (Some (MkResponse 404 ∅ "{}")) in
  single_outcome r ∧ outcomeFrom "e1" (outcomeTo r) = r.
Proof.
  intros r. assert (single_outcome r) as Hr by (constructor; simpl; lia).
  split; [exact Hr|]. exact (proj1 (proj2 (resultTo_roundtrip r 1)) Hr).
Defined.
