(* ===== verification/Client.v ===== *)
(** * The handler's side of the handshake, and one dispatch

    Models [internal/ipc/client.go], [internal/ipc/dial.go] and the framing half of
    [internal/ipc/websocket.go]; the frame loop and the sends in flight are in
    [Loop].  The transport is given by what [Recv] and [Send] answer. *)

From S2P Require Import Prelude GoStrings Json Errors Handler Status BinaryFrame Layer Registry Reconcile Bind Wrap App Pipeline Frames.
From stdpp Require Import options.

(** ** Where the runtime is *)

Definition socketEnvVar : string := "CELERITY_RUNTIME_SOCKET".
Definition fallbackEnabledEnvVar : string := "CELERITY_RUNTIME_SOCKET_FALLBACK_ENABLED".
Definition fallbackPortEnvVar : string := "CELERITY_RUNTIME_SOCKET_FALLBACK_PORT".

Record DialConfig : Type := MkDialConfig {
  Socket : string;
  FallbackEnabled : bool;
  FallbackPort : Z;
  RetryFor : Z;                                          (* nanoseconds *)
}.

(** [DialConfigFromEnv]: a number or a boolean that does not parse is the zero one.
    A port past the range of an [int] reads as the nearest one, as [Atoi] answers. *)
Definition DialConfigFromEnv (env : string → string) : DialConfig :=
  let port := env fallbackPortEnvVar in
  MkDialConfig (env socketEnvVar)
    (match ParseBool (env fallbackEnabledEnvVar) with Ok b => b | Err _ => false end)
    (match ParseInt port 64 with
     | Ok n => n
     | Err e => if errors_is "value out of range" e
                then if has_prefix port "-" then - 2 ^ 63 else 2 ^ 63 - 1
                else 0
     end)%Z (30 * 1000000000)%Z.

Definition no_address : error :=
  EString ("the runtime published no handler stream address: expected " +:+ socketEnvVar
    +:+ " to name a unix socket, or " +:+ fallbackEnabledEnvVar +:+ " with "
    +:+ fallbackPortEnvVar).

(** [DialConfig.Target]. *)
Definition Target (c : DialConfig) : result error string :=
  if negb (bool_decide (c.(Socket) = "")) then Ok ("unix://" +:+ c.(Socket))
  else if c.(FallbackEnabled) && (0 <? c.(FallbackPort))%Z
  then Ok ("127.0.0.1:" +:+ itoa c.(FallbackPort))
  else Err no_address.

(** ** Handshake *)

Definition ProtocolVersionError (declared served : ProtocolVersion) : error :=
  EApp (MkApp ("this SDK speaks IPC protocol " +:+ version_text declared
    +:+ " and the runtime serves " +:+ version_text served
    +:+ ", rebuild against an SDK the runtime serves")
    "*ipc.ProtocolVersionError" None None None None) None.

Definition TagMismatchError (unknown unhandled : list string) : error :=
  EApp (MkApp ("handler registration does not match the blueprint"
    +:+ (if bool_decide (unknown = []) then ""
         else newline +:+ "  registered in code but not declared by the blueprint: "
              +:+ join unknown ", ")
    +:+ (if bool_decide (unhandled = []) then ""
         else newline +:+ "  declared by the blueprint but not registered in code: "
              +:+ join unhandled ", "))
    "*ipc.TagMismatchError" None None None None) None.

(** [limitsFrom]: sorted by tag. *)
Definition limitsFrom (limits : gmap string Z) : list HandlerLimit :=
  omap (λ tag, (λ n, MkHandlerLimit tag (to_uint32 n)) <$> limits !! tag)
    (sort_strings (keys limits)).

(** [awaitConfig]. *)
Definition awaitConfig (recv : result error FromRuntime) : result error RuntimeConfig :=
  match recv with
  | Err e => Err (EWrap ("waiting for runtime configuration: " +:+ error_text e) e)
  | Ok (FConfig c) => Ok c
  | Ok _ => Err (EString "runtime sent a frame before its configuration")
  end.

Definition config_of (first : result error FromRuntime) : option RuntimeConfig :=
  match first with Ok (FConfig config) => Some config | _ => None end.

Section handshake.
Context {S : Type}.
Implicit Types (s : S).

(** What a client needs, over the state [S] its functions work on: [Reconcile] may
    change it, and [Limits] is called after.  [None] of either is a panic. *)
Record Config : Type := MkConfig {
  CfgTags : list string;
  CfgReconcile : option (S → list HandlerConfig → option (S * result error (list string)));
  CfgConcurrency : Z;
  CfgLimits : option (S → option (gmap string Z));
  CfgSDKVersion : string;
}.

(** [New]. *)
Definition NewConfig (c : Config) : Config :=
  if (c.(CfgConcurrency) <=? 0)%Z
  then MkConfig c.(CfgTags) c.(CfgReconcile) 1 c.(CfgLimits) c.(CfgSDKVersion)
  else c.

Definition set_tags (c : Config) (tags : list string) : Config :=
  MkConfig tags c.(CfgReconcile) c.(CfgConcurrency) c.(CfgLimits) c.(CfgSDKVersion).

(** The tags settled by [Serve], and the state they leave. *)
Definition reconciled (c : Config) s (config : RuntimeConfig) :
    option (S * result error (list string)) :=
  match c.(CfgReconcile) with
  | Some f => f s config.(Handlers)
  | None => Some (s, Ok c.(CfgTags))
  end.

Definition limits_at (c : Config) s : option (gmap string Z) :=
  match c.(CfgLimits) with Some f => f s | None => Some ∅ end.

Definition ready_frame (c : Config) (limits : gmap string Z) : Ready :=
  MkReady (sort_strings c.(CfgTags)) (to_uint32 c.(CfgConcurrency)) c.(CfgSDKVersion)
    (limitsFrom limits) (Frames.MkProtocolVersion ProtocolMajor ProtocolMinor).

(** What [declareReady] makes of the runtime's answer. *)
Definition accepted_by (ready : Ready) (config : RuntimeConfig) (recv : result error FromRuntime) :
    result error unit :=
  match recv with
  | Err e => Err (EWrap ("waiting for the runtime to accept this handler: " +:+ error_text e) e)
  | Ok (FReadyAck a) =>
      if a.(Accepted) then Ok tt
      else match a.(AckReason) with
           | RefusedProtocolVersion =>
               Err (ProtocolVersionError ready.(ReadyProtocol) config.(ServedProtocol))
           | _ => Err (TagMismatchError a.(UnknownTags) a.(UnhandledTags))
           end
  | Ok _ => Err (EString "runtime sent a frame other than an acknowledgement of readiness")
  end.

(** [declareReady]: the frames sent, and how it ended. *)
Definition declareReady (c : Config) s (config : RuntimeConfig) (send : option error)
    (recv : result error FromRuntime) : option (list ToRuntime * result error unit) :=
  limits ← limits_at c s;
  let ready := ready_frame c limits in
  Some match send with
       | Some e => ([], Err (EWrap ("declaring handlers: " +:+ error_text e) e))
       | None => ([FReady ready], accepted_by ready config recv)
       end.

(** [Serve] up to its loop: the frames sent, and the configuration it serves with. *)
Definition handshake (c : Config) s (first : result error FromRuntime) (send : option error)
    (second : result error FromRuntime) : option (S * list ToRuntime * result error Config) :=
  match awaitConfig first with
  | Err e => Some (s, [], Err e)
  | Ok config =>
      '(s, tags) ← reconciled c s config;
      match tags with
      | Err e => Some (s, [], Err e)
      | Ok tags =>
          let c := set_tags c tags in
          '(sent, r) ← declareReady c s config send second;
          Some (s, sent, let! _ := r in Ok c)
      end
  end.

Lemma elem_of_limitsFrom limits l :
  l ∈ limitsFrom limits ↔ ∃ n, limits !! l.(LimitTag) = Some n ∧ l.(LimitMax) = to_uint32 n.
Proof.
  unfold limitsFrom. rewrite list_elem_of_omap. split.
  - intros (tag & _ & H). destruct (limits !! tag) as [n|] eqn:Hn; [|done].
    injection H as <-. eauto.
  - intros (n & Hn & Hm). exists l.(LimitTag). rewrite elem_of_sort_strings, elem_of_keys.
    split; [eauto|]. rewrite Hn. destruct l. simpl in *. by subst.
Qed.

Lemma limitsFrom_tags limits : LimitTag <$> limitsFrom limits = sort_strings (keys limits).
Proof.
  apply fmap_omap_key, Forall_forall. intros t [n Hn]%elem_of_sort_strings%elem_of_keys.
  rewrite Hn. by eexists.
Qed.

(** The handshake.  Nothing is sent before the runtime's configuration has
    arrived and reconciliation has settled the tags; what is then sent is one
    declaration of the settled tags, sorted, with the concurrency as credit and the
    caps, sorted by tag, as they are once the tags are settled; and the loop is
    entered, with the settled tags, exactly when the declaration is sent and the
    runtime accepts it. *)
Lemma handshake_spec c s first send second s' sent r :
  handshake c s first send second = Some (s', sent, r) →
  (sent = [] ∨ ∃ config tags limits, first = Ok (FConfig config) ∧
     reconciled c s config = Some (s', Ok tags) ∧ limits_at c s' = Some limits ∧
     ∃ ready, sent = [FReady ready] ∧ ready.(HandlerTags) = sort_strings tags ∧
       ready.(InitialCredit) = to_uint32 c.(CfgConcurrency) ∧
       ready.(ReadyProtocol) = Frames.MkProtocolVersion 1 0 ∧
       (LimitTag <$> ready.(Limits)) = sort_strings (keys limits) ∧
       (∀ l, l ∈ ready.(Limits) ↔
          ∃ n, limits !! l.(LimitTag) = Some n ∧ l.(LimitMax) = to_uint32 n)) ∧
  ((∃ c', r = Ok c' ∧ (config_of first ≫= reconciled c s) = Some (s', Ok c'.(CfgTags))) ↔
   sent ≠ [] ∧ ∃ a, second = Ok (FReadyAck a) ∧ a.(Accepted) = true).
Proof using Type.
  unfold handshake, awaitConfig. destruct first as [[config| | | | | |]|e];
    try (intros [= <- <- <-]; split; [by left|]; split; [by intros (? & ? & _)|by intros [? _]]).
  cbn [mbind option_bind].
  destruct (reconciled c s config) as [[s1 [tags|e]]|] eqn:Hrec; cbn [mbind option_bind]; [| |done].
  2: { intros [= <- <- <-]. split; [by left|]. split; [by intros (? & ? & _)|by intros [? _]]. }
  unfold declareReady. change (limits_at (set_tags c tags) s1) with (limits_at c s1).
  destruct (limits_at c s1) as [limits|] eqn:Hl; [|done]. cbn [mbind option_bind].
  destruct send as [e|]; intros [= <- <- <-].
  { split; [by left|]. split; [by intros (? & ? & _)|by intros [? _]]. }
  split.
  - right. exists config, tags, limits. split_and!; [done..|]. eexists. split; [done|].
    split_and!; try done; [by apply limitsFrom_tags|]. intros l. apply elem_of_limitsFrom.
  - destruct second as [[| a| | | | |]|]; simpl;
      try (split; [by intros (? & ? & _)|by intros (_ & ? & ? & _)]).
    destruct (Accepted a) eqn:Ha; simpl; split.
    + intros _. split; [done|]. by exists a.
    + intros _. eexists. by split.
    + destruct (AckReason a); by intros (? & ? & _).
    + intros (_ & ? & [= <-] & ?). congruence.
Qed.
End handshake.

Arguments Config : clear implicits.

Definition sample_config : Config unit := MkConfig ["b"; "a"] None 4 None "0.1.0".
Definition sample_first : result error FromRuntime :=
  Ok (FConfig (MkRuntimeConfig false false [] (Frames.MkProtocolVersion 1 0))).
Definition sample_second : result error FromRuntime :=
  Ok (FReadyAck (MkReadyAck true [] [] RefusedUnspecified)).

Lemma handshake_spec_witness :
  ∃ sent r, handshake sample_config tt sample_first None sample_second = Some (tt, sent, r) ∧
    sent ≠ [] ∧ ∃ c', r = Ok c' ∧ c'.(CfgTags) = ["b"; "a"].
Proof.
  eexists _, _. split; [reflexivity|].
  destruct (handshake_spec sample_config tt sample_first None sample_second _ _ _ eq_refl)
    as [_ H].
  split; [discriminate|]. destruct H as [_ H].
  destruct H as (c' & Hc & Ht).
  { split; [discriminate|]. eexists. split; reflexivity. }
  exists c'. split; [exact Hc|]. injection Ht as Ht. symmetry. exact Ht.
Defined.

(** ** One dispatch *)

(** [errorFrom], of an error and of anything else a handler panicked with. *)
Definition errorFrom (v : panic_value) : HandlerError :=
  match v with
  | PanicError (EHandler message type_ stack) => MkHandlerError message type_ stack
  | PanicError e =>
      MkHandlerError (error_text e) (default (error_go_type e) (typed_error e)) ""
  | PanicText text => MkHandlerError text "panic" ""
  end.

Section dispatch.
Context {W : Type}.

Definition unroutable (ev : Event) : HandlerError :=
  MkHandlerError ("no handler registered for tag " +:+ go_quote ev.(EventTag))
    "UnroutableEvent" "".

(** [resultFor]: the pointer it answers, which is the pipeline's own where the
    pipeline answered without an error. *)
Definition resultFor (resolve : string → option (Next W)) (c : Ctx) (ev : Event) (w : W) :
    option Result * W :=
  match resolve ev.(EventTag) with
  | None => (Some (ErrorResult ev.(EventID) (unroutable ev)), w)
  | Some invoke =>
      let '(o, w) := invoke c ev w in
      (match o with
       | Panicked v => Some (ErrorResult ev.(EventID) (errorFrom v))
       | Returned _ (Some e) => Some (ErrorResult ev.(EventID) (errorFrom (PanicError e)))
       | Returned out None => out
       end, w)
  end.

(** The frame a worker queues: a result always carries a credit of one. *)
Definition result_frame (o : option Result) : ToRuntime := FResult o 1.

(** The sender of the stream, which [withWebSocketSender] makes of the client. *)
Definition stream_sender : Sender := 0.

(** [eventContext]: the trace context and the deadline of the event; a deadline of the
    parent that is nearer stays. *)
Definition eventContext (c : Ctx) (ev : Event) : Ctx :=
  let c := if bool_decide (ev.(EventTraceContext) = ∅) then c
           else WithTraceContext c ev.(EventTraceContext) in
  let c := WithWebSocketSender c stream_sender in
  MkCtx c.(ctxEvent) c.(ctxIdentity) c.(ctxTrace) c.(ctxLogger)
    (match ev.(Deadline), c.(ctxDeadline) with
     | Some d, Some parent => Some (Z.min d parent)
     | Some d, None => Some d
     | None, parent => parent
     end) c.(ctxSpan) c.(ctxSender).

Definition run_dispatch (resolve : string → option (Next W)) (c : Ctx) (ev : Event) (w : W) :
    ToRuntime * W :=
  let '(o, w) := resultFor resolve (eventContext c ev) ev w in (result_frame o, w).

(** What a frame is sent as: a result of an id, with one credit. *)
Definition sent_as (p : ToRuntime) (id : string) (outcome : option Pb.result_outcome) : Prop :=
  toHandlerMessage p = Some (Some (Pb.Result_ (Pb.MkResult id 1 outcome))).
Definition failed_as (e : HandlerError) : option Pb.result_outcome :=
  Some (Pb.RError e.(ErrorMessage) e.(ErrorType) e.(ErrorStack)).

(** C3: what a dispatch is answered with, in every case.  Under a tag with no handler nothing
    runs, and the answer is a handler error of the dispatch's id; otherwise its pipeline runs
    once, on the event, in a context with its deadline and the stream's sender, and an error it
    returns or whatever it panics with is a handler error of the dispatch's id, while a result
    it returns is sent as it is.  Every one of these carries exactly one credit.  Where the
    pipeline returns neither a result nor an error there is nothing that can be sent, which is
    the one case there is no answer in; pipelines that never do, and answer for the event
    they are given, are always answered for under the dispatch's id. *)
Theorem run_dispatch_answers resolve c (d : Pb.Dispatch) w :
  let ev := eventFrom d in
  let '(p, w') := run_dispatch resolve c ev w in
  match resolve d.(Pb.d_handler_tag) with
  | None => w' = w ∧ sent_as p d.(Pb.d_id) (failed_as (unroutable ev))
  | Some next =>
      let '(o, w1) := next (eventContext c ev) ev w in
      w' = w1 ∧
      match o with
      | Panicked v => sent_as p d.(Pb.d_id) (failed_as (errorFrom v))
      | Returned _ (Some e) => sent_as p d.(Pb.d_id) (failed_as (errorFrom (PanicError e)))
      | Returned (Some r) None => sent_as p r.(ResultID) (outcomeTo r)
      | Returned None None => toHandlerMessage p = None
      end
  end ∧
  ((∀ tag next, resolve tag = Some next → answering next) → ∃ outcome, sent_as p d.(Pb.d_id) outcome).
Proof using Type.
  cbn zeta. unfold run_dispatch, resultFor.
  assert ((eventFrom d).(EventID) = d.(Pb.d_id) ∧ (eventFrom d).(EventTag) = d.(Pb.d_handler_tag))
    as [Hid Htag] by (destruct d as [? ? ? ? ? [[]|]]; done).
  rewrite Htag, Hid. destruct (resolve _) as [next|] eqn:Hr.
  - destruct (next _ _ w) as [o w'] eqn:Hn. split.
    + split; [done|]. by destruct o as [[r|] [e|]|v].
    + intros Hans. pose proof (Hans _ _ Hr (eventContext c (eventFrom d)) (eventFrom d) w) as Ha.
      rewrite Hn in Ha. destruct o as [[r|] [e|]|v]; cbn in *; try done; eexists; [done..| |done|done].
      rewrite <- Hid, <- Ha. done.
  - split; [done|]. by eexists.
Qed.

(** A handler that answers nothing.  A layer or a guard-free pipeline that
    answers neither a result nor an error is not turned into one: the frame queued
    for it cannot be converted, and the goroutine that sends frames panics. *)
Lemma run_dispatch_nil resolve c ev w next w' :
  resolve ev.(EventTag) = Some next →
  next (eventContext c ev) ev w = (Returned None None, w') →
  run_dispatch resolve c ev w = (FResult None 1, w') ∧
  toHandlerMessage (FResult None 1) = None.
Proof using Type. intros Hr Hn. unfold run_dispatch, resultFor. by rewrite Hr, Hn. Qed.
End dispatch.

Lemma run_dispatch_nil_witness :
  run_dispatch (λ _, Some (λ _ _ w, (Returned None None, w))) Background plain_event 0 =
    (FResult None 1, 0).
Proof.
  apply (run_dispatch_nil (λ _, Some (λ _ _ w, (Returned None None, w))) Background plain_event
    0 (λ _ _ w, (Returned None None, w)) 0 eq_refl eq_refl).
Defined.

(** An application whose handlers answer, fail, panic and say nothing. *)
Definition four_handlers (tag : string) : option (Next nat) :=
  if bool_decide (tag = "custom::fails") then Some (λ _ _ w, (Failure (EString "no such order"), S w))
  else if bool_decide (tag = "custom::panics") then Some (λ _ _ w, (Panicked (PanicText "nil map"), S w))
  else if bool_decide (tag = "custom::nothing") then Some (λ _ _ w, (Returned None None, S w))
  else if bool_decide (tag = "custom::answers") then
    Some (λ _ ev w, (Answer (ErrorResult ev.(EventID) (MkHandlerError "sold out" "Stock" "")), S w))
  else None.
Definition dispatched (tag : string) : ToRuntime * nat :=
  run_dispatch four_handlers Background (eventFrom (Pb.MkDispatch "e1" tag 1 0 ∅ None)) 0.

Lemma run_dispatch_answers_witness :
  sent_as (dispatched "custom::answers").1 "e1" (Some (Pb.RError "sold out" "Stock" "")) ∧
  sent_as (dispatched "custom::fails").1 "e1" (failed_as (errorFrom (PanicError (EString "no such order")))) ∧
  sent_as (dispatched "custom::panics").1 "e1" (Some (Pb.RError "nil map" "panic" "")) ∧
  toHandlerMessage (dispatched "custom::nothing").1 = None ∧ (dispatched "custom::nothing").2 = 1 ∧
  (dispatched "custom::other").2 = 0 ∧
  sent_as (run_dispatch (W := nat) (λ _, None) Background (eventFrom (Pb.MkDispatch "e2" "custom::a" 1 0 ∅ None)) 0).1
    "e2" (failed_as (unroutable (eventFrom (Pb.MkDispatch "e2" "custom::a" 1 0 ∅ None)))).
Proof.
  pose proof (λ tag, run_dispatch_answers four_handlers Background (Pb.MkDispatch "e1" tag 1 0 ∅ None) 0) as H.
  split_and!; [exact (proj2 (proj1 (H "custom::answers")))|exact (proj2 (proj1 (H "custom::fails")))|
    exact (proj2 (proj1 (H "custom::panics")))|exact (proj2 (proj1 (H "custom::nothing")))|
    exact (proj1 (proj1 (H "custom::nothing")))|exact (proj1 (proj1 (H "custom::other")))|].
  exact (proj2 (proj1 (run_dispatch_answers (W := nat) (λ _, None) Background
    (Pb.MkDispatch "e2" "custom::a" 1 0 ∅ None) 0))).
Defined.

(** ** Framing a binary send *)

(** The loop of [SendBinary] from the [i]th message on. *)
Fixpoint frame_messages (i : nat) (messages : list OutboundBinaryMessage) :
    result error (list Outbound) :=
  match messages with
  | [] => Ok []
  | m :: messages =>
      match FrameBinaryMessage m.(BinRoute) m.(BinFrameMessageID) m.(BinRequireAck)
              m.(BinMessage) with
      | Err e =>
          Err (EWrap ("framing binary message " +:+ itoa (Z.of_nat i) +:+ " for connection "
                      +:+ m.(BinConnectionID) +:+ ": " +:+ error_text e) e)
      | Ok framed =>
          let! rest := frame_messages (S i) messages in
          Ok (MkOutbound
                (MkOutboundMessage m.(BinConnectionID) framed m.(BinInformClientsOnLoss)
                   m.(BinMessageID) m.(BinCaller) m.(BinWaitForAck)) true :: rest)
      end
  end.

(** What [Send] and [SendBinary] hand to the stream: nothing for no messages. *)
Definition text_messages (messages : list OutboundMessage) : list Outbound :=
  (λ m, MkOutbound m false) <$> messages.

Definition Send (messages : list OutboundMessage) : option (list Outbound) :=
  match messages with [] => None | _ => Some (text_messages messages) end.

Definition SendBinary (messages : list OutboundBinaryMessage) :
    result error (option (list Outbound)) :=
  match messages with
  | [] => Ok None
  | _ => let! outbound := frame_messages 0 messages in Ok (Some outbound)
  end.

(** What a client reads of an outbound message is what the application sent. *)
Definition carries (m : OutboundBinaryMessage) (o : Outbound) : Prop :=
  o.(IsBinary) = true ∧ o.(out_message).(OutConnectionID) = m.(BinConnectionID) ∧
  o.(out_message).(OutMessageID) = m.(BinMessageID) ∧
  read_frame o.(out_message).(OutMessage) =
    Some (MkFrame m.(BinRoute) m.(BinRequireAck) m.(BinFrameMessageID) m.(BinMessage)).

Lemma frame_messages_Ok i ms os : frame_messages i ms = Ok os → Forall2 carries ms os.
Proof.
  revert i os. induction ms as [|m ms IH]; intros i os; [by intros [= <-]|].
  simpl. destruct (FrameBinaryMessage _ _ _ _) as [framed|] eqn:Hf; [|done].
  destruct (frame_messages (S i) ms) as [rest|] eqn:Hr; [|done]. intros [= <-].
  constructor; [|by eapply IH]. split_and!; try done. simpl.
  apply FrameBinaryMessage_Ok_inv in Hf as [([? ?] & ? & ? & ?) ->].
  by apply read_frame_fields.
Qed.

Lemma frame_messages_Err i ms e :
  frame_messages i ms = Err e →
  ∃ k m, ms !! k = Some m ∧
    ¬ frameable m.(BinRoute) m.(BinFrameMessageID) m.(BinRequireAck) ∧
    (∀ j m', j < k → ms !! j = Some m' →
       frameable m'.(BinRoute) m'.(BinFrameMessageID) m'.(BinRequireAck)).
Proof.
  revert i. induction ms as [|m ms IH]; intros i; [done|]. simpl.
  destruct (FrameBinaryMessage _ _ _ _) as [framed|e'] eqn:Hf.
  - destruct (frame_messages (S i) ms) as [rest|e''] eqn:Hr; [done|]. intros [= ->].
    destruct (IH (S i) Hr) as (k & m' & Hk & Hn & Hall). exists (S k), m'. split_and!; try done.
    intros [|j] mj Hj Hm; [|by apply (Hall j); [lia|]]. injection Hm as <-.
    by apply FrameBinaryMessage_Ok_inv in Hf as [? _].
  - intros _. exists 0, m. split_and!; [done| |intros; lia].
    intros Hfr%(FrameBinaryMessage_frameable _ _ _ (BinMessage m)). by rewrite Hf in Hfr.
Qed.

(** A binary send is framed whole or not at all.  Every message of a send that
    goes out is one a client reads as the route, id, flag and bytes the application
    gave, in the order given; and a send that does not is refused for the first
    message the format cannot represent, with nothing sent. *)
Lemma SendBinary_spec ms :
  match SendBinary ms with
  | Ok None => ms = []
  | Ok (Some os) => ms ≠ [] ∧ Forall2 carries ms os
  | Err _ => ∃ k m, ms !! k = Some m ∧
      ¬ frameable m.(BinRoute) m.(BinFrameMessageID) m.(BinRequireAck) ∧
      (∀ j m', j < k → ms !! j = Some m' →
         frameable m'.(BinRoute) m'.(BinFrameMessageID) m'.(BinRequireAck))
  end.
Proof.
  unfold SendBinary. destruct ms as [|m ms]; [done|].
  destruct (frame_messages 0 (m :: ms)) as [os|e] eqn:Hf.
  - split; [done|]. by eapply frame_messages_Ok.
  - by eapply frame_messages_Err.
Qed.
