(* ===== verification/Loop.v ===== *)
(** * The frame loop: credit, results and sends in flight

    Models [internal/ipc/loop.go] and the waiting half of [internal/ipc/websocket.go]
    as a labelled transition system.  A label is one thing one goroutine does, or one
    thing that reaches the process: a frame received, a worker's next action, the
    sender's, a timer.  Interleavings are sequences of labels.

    What a handler computes is of no interest here: a worker runs, may send and wait
    for its acknowledgement, and finishes.  [credit] is the runtime's side of the
    window: it dispatches only while it has some.  A worker is known by the number of
    its dispatch, which a result carries so that results can be told apart. *)

From S2P Require Import Prelude GoStrings Handler.
From stdpp Require Import options.

(** ** State *)

Inductive worker_phase : Type :=
  | Running
  | Sending (corr : nat)         (* blocked on the queue, registered for its ack *)
  | Awaiting (corr : nat)        (* waiting for the acknowledgement *)
  | Finished.                    (* its result is to be queued *)

Record worker : Type := MkWorker {
  w_event : string;
  w_deadline : bool;
  w_cancelled : bool;
  w_phase : worker_phase;
}.

Inductive frame_out : Type :=
  | OResult (wid : nat)
  | OWsSend (corr : nat).

Inductive loop_phase : Type :=
  | Reading | Draining | Returned_ | Closing | Closed.

#[export] Instance loop_phase_eq_dec : EqDecision loop_phase.
Proof. solve_decision. Defined.

(** An acknowledgement as it arrived: the correlation it names, and whether all was
    delivered. *)
Record ack : Type := MkAck_ { ack_corr : nat; ack_ok : bool }.

Record state : Type := MkState {
  conc : nat;                              (* [config.Concurrency] *)
  stopped : bool;                          (* the context of [loop] is cancelled *)
  credit : nat;                            (* what the runtime may still dispatch *)
  phase : loop_phase;
  next : nat;                              (* dispatches received *)
  workers : gmap nat worker;
  inFlight : gmap string nat;              (* whose context an event id cancels *)
  counter : nat;                           (* [correlationCounter] *)
  wsWaiting : gmap nat (option ack);       (* the one-place channels *)
  queue : list frame_out;                  (* [c.out] *)
  held : option frame_out;                 (* taken off [c.out] by the sender, and not sent yet *)
  sender : bool;                           (* the sender goroutine is running *)
  wire : list frame_out;                   (* sent *)
  lost : list frame_out;                   (* taken by a send that failed *)
}.

(** The buffer of [c.out]. *)
Definition capacity (s : state) : nat := s.(conc) * 2.

(** The state [loop] starts in: the handshake granted the concurrency. *)
Definition start (n : nat) : state := MkState n false n Reading 0 ∅ ∅ 0 ∅ [] None true [] [].

(** Updates of one field. *)
Definition set_phase (p : loop_phase) (s : state) : state :=
  MkState s.(conc) s.(stopped) s.(credit) p s.(next) s.(workers) s.(inFlight) s.(counter) s.(wsWaiting)
    s.(queue) s.(held) s.(sender) s.(wire) s.(lost).
Definition set_workers (ws : gmap nat worker) (s : state) : state :=
  MkState s.(conc) s.(stopped) s.(credit) s.(phase) s.(next) ws s.(inFlight) s.(counter) s.(wsWaiting)
    s.(queue) s.(held) s.(sender) s.(wire) s.(lost).
Definition set_inFlight (m : gmap string nat) (s : state) : state :=
  MkState s.(conc) s.(stopped) s.(credit) s.(phase) s.(next) s.(workers) m s.(counter) s.(wsWaiting)
    s.(queue) s.(held) s.(sender) s.(wire) s.(lost).
Definition set_waiting (m : gmap nat (option ack)) (s : state) : state :=
  MkState s.(conc) s.(stopped) s.(credit) s.(phase) s.(next) s.(workers) s.(inFlight) s.(counter) m
    s.(queue) s.(held) s.(sender) s.(wire) s.(lost).
Definition set_queue (q : list frame_out) (s : state) : state :=
  MkState s.(conc) s.(stopped) s.(credit) s.(phase) s.(next) s.(workers) s.(inFlight) s.(counter)
    s.(wsWaiting) q s.(held) s.(sender) s.(wire) s.(lost).
Definition set_sender (b : bool) (s : state) : state :=
  MkState s.(conc) s.(stopped) s.(credit) s.(phase) s.(next) s.(workers) s.(inFlight) s.(counter)
    s.(wsWaiting) s.(queue) s.(held) b s.(wire) s.(lost).

Definition set_stopped (s : state) : state :=
  MkState s.(conc) true s.(credit) s.(phase) s.(next) s.(workers) s.(inFlight) s.(counter)
    s.(wsWaiting) s.(queue) s.(held) s.(sender) s.(wire) s.(lost).

Definition at_phase (p : worker_phase) (w : worker) : worker :=
  MkWorker w.(w_event) w.(w_deadline) w.(w_cancelled) p.
Definition cancelled (w : worker) : worker :=
  MkWorker w.(w_event) w.(w_deadline) true w.(w_phase).

Definition set_worker (wid : nat) (w : worker) (s : state) : state :=
  set_workers (<[wid := w]> s.(workers)) s.

(** ** Steps *)

Inductive label : Type :=
  | RecvDispatch (id : string) (deadline : bool)
  | RecvCancel (id : string)
  | RecvAck (a : ack)
  | RecvOther                      (* a frame the loop has no case for *)
  | RecvDrain
  | RecvEnd                        (* [Recv] answers an error, [io.EOF] or another *)
  | DrainTimer | DrainFinished
  | WorkersDone | TransportClose
  | SenderTakes | SenderSends | SenderFails | SenderStops
  | StartSend (wid : nat) | QueueSend (wid : nat) | TakeAck (wid : nat)
  | AbandonSend (wid : nat)        (* [ctx.Done()] in either select of [send] *)
  | Finish (wid : nat) | QueueResult (wid : nat)
  | DeadlinePasses (wid : nat)
  | ParentCancel.                  (* the context [Serve] was given is cancelled *)

Definition guarded (b : bool) (s : state) : option state := if b then Some s else None.

Definition is_phase (p : loop_phase) (s : state) : bool := bool_decide (s.(phase) = p).

Definition has_room (s : state) : bool := length s.(queue) <? capacity s.

Definition has_waiting (w : worker) : option nat :=
  match w.(w_phase) with Sending c | Awaiting c => Some c | _ => None end.

(** [startDispatch]. *)
Definition recv_dispatch (id : string) (deadline : bool) (s : state) : option state :=
  guarded (is_phase Reading s && (0 <? s.(credit)))
    (MkState s.(conc) s.(stopped) (s.(credit) - 1) s.(phase) (S s.(next))
       (<[s.(next) := MkWorker id deadline s.(stopped) Running]> s.(workers))
       (<[id := s.(next)]> s.(inFlight)) s.(counter) s.(wsWaiting) s.(queue) s.(held) s.(sender)
       s.(wire) s.(lost)).

(** [cancel]: an id of an event that has completed is ignored. *)
Definition recv_cancel (id : string) (s : state) : option state :=
  guarded (is_phase Reading s)
    match s.(inFlight) !! id with
    | None => s
    | Some wid =>
        set_inFlight (delete id s.(inFlight))
          (set_workers (alter cancelled wid s.(workers)) s)
    end.

(** [deliverWsAck]: dropped where nobody waits, and where one was delivered. *)
Definition recv_ack (a : ack) (s : state) : option state :=
  guarded (is_phase Reading s)
    match s.(wsWaiting) !! a.(ack_corr) with
    | Some None => set_waiting (<[a.(ack_corr) := Some a]> s.(wsWaiting)) s
    | _ => s
    end.

(** [send] up to the first select: a correlation of its own, registered. *)
Definition start_send (wid : nat) (w : worker) (s : state) : option state :=
  let c := S s.(counter) in
  match w.(w_phase) with
  | Running =>
      Some (MkState s.(conc) s.(stopped) s.(credit) s.(phase) s.(next)
              (<[wid := at_phase (Sending c) w]> s.(workers)) s.(inFlight) c
              (<[c := None]> s.(wsWaiting)) s.(queue) s.(held) s.(sender) s.(wire) s.(lost))
  | _ => None
  end.

Definition queue_send (wid : nat) (w : worker) (s : state) : option state :=
  match w.(w_phase) with
  | Sending c =>
      guarded (has_room s)
        (set_queue (s.(queue) ++ [OWsSend c]) (set_worker wid (at_phase (Awaiting c) w) s))
  | _ => None
  end.

(** The deferred delete of [send], with the worker going on. *)
Definition end_send (wid : nat) (w : worker) (c : nat) (s : state) : state :=
  set_waiting (delete c s.(wsWaiting)) (set_worker wid (at_phase Running w) s).

Definition take_ack (wid : nat) (w : worker) (s : state) : option state :=
  match w.(w_phase) with
  | Awaiting c =>
      match s.(wsWaiting) !! c with
      | Some (Some _) => Some (end_send wid w c s)
      | _ => None
      end
  | _ => None
  end.

Definition abandon_send (wid : nat) (w : worker) (s : state) : option state :=
  match has_waiting w with
  | Some c => guarded w.(w_cancelled) (end_send wid w c s)
  | None => None
  end.

(** The worker's goroutine ends: its result is queued, its event untracked. *)
Definition queue_result (wid : nat) (w : worker) (s : state) : option state :=
  match w.(w_phase) with
  | Finished =>
      guarded (has_room s)
        (set_queue (s.(queue) ++ [OResult wid])
           (set_inFlight (delete w.(w_event) s.(inFlight))
              (set_workers (delete wid s.(workers)) s)))
  | _ => None
  end.

Definition grant_of (f : frame_out) : nat := match f with OResult _ => 1 | OWsSend _ => 0 end.

(** The sender takes a frame off the channel, whose buffer has room for another from then
    on, and only then sends it. *)
Definition sender_takes (s : state) : option state :=
  match s.(held), s.(queue) with
  | None, f :: q =>
      guarded s.(sender)
        (MkState s.(conc) s.(stopped) s.(credit) s.(phase) s.(next) s.(workers) s.(inFlight) s.(counter)
           s.(wsWaiting) q (Some f) s.(sender) s.(wire) s.(lost))
  | _, _ => None
  end.

Definition sender_sends (s : state) : option state :=
  match s.(held) with
  | Some f =>
      guarded s.(sender)
        (MkState s.(conc) s.(stopped) (s.(credit) + grant_of f) s.(phase) s.(next) s.(workers)
           s.(inFlight) s.(counter) s.(wsWaiting) s.(queue) None s.(sender) (s.(wire) ++ [f]) s.(lost))
  | None => None
  end.

Definition sender_fails (s : state) : option state :=
  match s.(held) with
  | Some f =>
      guarded s.(sender)
        (MkState s.(conc) s.(stopped) s.(credit) s.(phase) s.(next) s.(workers) s.(inFlight) s.(counter)
           s.(wsWaiting) s.(queue) None false s.(wire) (s.(lost) ++ [f]))
  | None => None
  end.

Definition with_worker (wid : nat) (f : worker → state → option state) (s : state) :
    option state :=
  w ← s.(workers) !! wid; f w s.

Definition no_workers (s : state) : bool := bool_decide (s.(workers) = ∅).

Definition step (l : label) (s : state) : option state :=
  match l with
  | RecvDispatch id deadline => recv_dispatch id deadline s
  | RecvCancel id => recv_cancel id s
  | RecvAck a => recv_ack a s
  | RecvOther => guarded (is_phase Reading s) s
  | RecvDrain => guarded (is_phase Reading s) (set_phase Draining s)
  | RecvEnd => guarded (is_phase Reading s) (set_phase Returned_ s)
  | DrainTimer => guarded (is_phase Draining s) (set_phase Returned_ s)
  | DrainFinished => guarded (is_phase Draining s && no_workers s) (set_phase Returned_ s)
  | WorkersDone => guarded (is_phase Returned_ s && no_workers s) (set_phase Closing s)
  | SenderStops =>
      guarded (is_phase Closing s && bool_decide (s.(queue) = []) && bool_decide (s.(held) = None) && s.(sender))
        (set_sender false s)
  | TransportClose => guarded (is_phase Closing s && negb s.(sender)) (set_phase Closed s)
  | SenderTakes => sender_takes s
  | SenderSends => sender_sends s
  | SenderFails => sender_fails s
  | StartSend wid => with_worker wid (start_send wid) s
  | QueueSend wid => with_worker wid (queue_send wid) s
  | TakeAck wid => with_worker wid (take_ack wid) s
  | AbandonSend wid => with_worker wid (abandon_send wid) s
  | Finish wid =>
      with_worker wid (λ w s, match w.(w_phase) with
                              | Running => Some (set_worker wid (at_phase Finished w) s)
                              | _ => None
                              end) s
  | QueueResult wid => with_worker wid (queue_result wid) s
  | DeadlinePasses wid =>
      with_worker wid (λ w s, guarded w.(w_deadline) (set_worker wid (cancelled w) s)) s
  | ParentCancel => Some (set_stopped (set_workers (cancelled <$> s.(workers)) s))
  end.

(** Runs: a sequence of labels, each enabled where it stands. *)
Fixpoint run (ls : list label) (s : state) : option state :=
  match ls with
  | [] => Some s
  | l :: ls => s' ← step l s; run ls s'
  end.

Definition reachable (n : nat) (s : state) : Prop := ∃ ls, run ls (start n) = Some s.

Lemma run_app ls1 ls2 s : run (ls1 ++ ls2) s = (s' ← run ls1 s; run ls2 s').
Proof.
  revert s. induction ls1 as [|l ls1 IH]; intros s; [done|]. simpl.
  destruct (step l s); [apply IH|done].
Qed.

(** Rule induction: what holds at the start and is kept by every step holds of every
    reachable state. *)
Lemma reachable_ind (P : state → Prop) n :
  P (start n) → (∀ l s s', P s → step l s = Some s' → P s') →
  ∀ s, reachable n s → P s.
Proof.
  intros Hstart Hstep s [ls Hls].
  assert (∀ ls s0 s1, P s0 → run ls s0 = Some s1 → P s1) as Hrun; [|by eapply Hrun].
  clear s ls Hls. intros ls. induction ls as [|l ls IH]; intros s0 s1 HP; simpl.
  - by intros [= <-].
  - destruct (step l s0) as [s'|] eqn:Hs; [|done]. simpl. apply IH. by eapply Hstep.
Qed.

(** ** The credit window *)

Definition results (q : list frame_out) : list nat :=
  omap (λ f, match f with OResult wid => Some wid | OWsSend _ => None end) q.

Lemma results_app q1 q2 : results (q1 ++ q2) = results q1 ++ results q2.
Proof. apply omap_app. Qed.

Lemma results_cons f q :
  results (f :: q) = match f with OResult wid => wid :: results q | OWsSend _ => results q end.
Proof. by destruct f. Qed.

(** What is on its way out: what the sender holds, and what is queued behind it. *)
Definition outgoing (s : state) : list frame_out := option_list s.(held) ++ s.(queue).

Definition credit_inv (s : state) : Prop :=
  s.(credit) + size s.(workers) + length (results (outgoing s)) + length (results s.(lost))
    = s.(conc).

(** Which dispatches have been received, and where each of them is. *)
Definition accounted (s : state) : list nat :=
  results s.(wire) ++ results s.(lost) ++ results (outgoing s) ++ (map_to_list s.(workers)).*1.

Definition once_inv (s : state) : Prop := accounted s ≡ₚ seq 0 s.(next).

Definition bounded (s : state) : Prop := length s.(queue) ≤ capacity s.

(** Splits a step into the facts that enabled it. *)
Ltac step_cases H :=
  repeat match type of H with
  | guarded ?b _ = Some _ => unfold guarded in H; destruct b eqn:?; [|done]
  | with_worker _ _ _ = Some _ =>
      unfold with_worker in H; apply bind_Some in H as (? & ? & H)
  | context [match ?x with _ => _ end] => destruct x eqn:?; try done
  end; simplify_eq/=.

Lemma size_alter (f : worker → worker) wid (m : gmap nat worker) :
  size (alter f wid m) = size m.
Proof.
  rewrite <- !size_dom. by rewrite dom_alter_L.
Qed.

Lemma size_update wid w w' (m : gmap nat worker) :
  m !! wid = Some w → size (<[wid := w']> m) = size m.
Proof. intros Hw. by rewrite map_size_insert_Some by eauto. Qed.

Lemma keys_dom {V} (m : gmap nat V) : (map_to_list m).*1 ≡ₚ elements (dom m).
Proof.
  apply NoDup_Permutation; [apply NoDup_fst_map_to_list|apply NoDup_elements|].
  intros i. rewrite elem_of_elements, elem_of_dom, list_elem_of_fmap. split.
  - intros ([j v] & -> & H%elem_of_map_to_list). eauto.
  - intros [v Hv]. exists (i, v). split; [done|]. by apply elem_of_map_to_list.
Qed.

(** What a step may do to the workers, the queue, the wire and the window: admit a
    worker for a credit, turn a worker into a queued result, send or lose a frame, or
    nothing of these. *)
Inductive moves (s s' : state) : Prop :=
  | moves_admit : s'.(credit) + 1 = s.(credit) → dom s'.(workers) = {[s.(next)]} ∪ dom s.(workers) →
      size s'.(workers) = S (size s.(workers)) → s'.(next) = S s.(next) →
      outgoing s' = outgoing s → s'.(wire) = s.(wire) → s'.(lost) = s.(lost) → moves s s'
  | moves_queue wid : s'.(credit) = s.(credit) → is_Some (s.(workers) !! wid) →
      s'.(workers) = delete wid s.(workers) → s'.(next) = s.(next) →
      outgoing s' = outgoing s ++ [OResult wid] → s'.(wire) = s.(wire) → s'.(lost) = s.(lost) →
      moves s s'
  | moves_push c : s'.(credit) = s.(credit) → dom s'.(workers) = dom s.(workers) →
      size s'.(workers) = size s.(workers) → s'.(next) = s.(next) →
      outgoing s' = outgoing s ++ [OWsSend c] → s'.(wire) = s.(wire) → s'.(lost) = s.(lost) →
      moves s s'
  | moves_send f : s'.(credit) = s.(credit) + grant_of f → s'.(workers) = s.(workers) →
      s'.(next) = s.(next) → outgoing s = f :: outgoing s' → s'.(wire) = s.(wire) ++ [f] →
      s'.(lost) = s.(lost) → moves s s'
  | moves_lose f : s'.(credit) = s.(credit) → s'.(workers) = s.(workers) →
      s'.(next) = s.(next) → outgoing s = f :: outgoing s' → s'.(wire) = s.(wire) →
      s'.(lost) = s.(lost) ++ [f] → moves s s'
  | moves_none : s'.(credit) = s.(credit) → dom s'.(workers) = dom s.(workers) →
      size s'.(workers) = size s.(workers) → s'.(next) = s.(next) →
      outgoing s' = outgoing s → s'.(wire) = s.(wire) → s'.(lost) = s.(lost) → moves s s'.

(** Workers are numbered below the next dispatch. *)
Definition numbered (s : state) : Prop := ∀ wid, is_Some (s.(workers) !! wid) → wid < s.(next).

Lemma dom_update wid w w' (m : gmap nat worker) :
  m !! wid = Some w → dom (<[wid := w']> m) = dom m.
Proof. intros Hw. apply leibniz_equiv, dom_insert_lookup. eauto. Qed.

Lemma step_conc l s s' : step l s = Some s' → s'.(conc) = s.(conc).
Proof.
  destruct l; simpl; intros H;
    unfold recv_dispatch, recv_cancel, recv_ack, sender_takes, sender_sends, sender_fails, start_send,
      queue_send, take_ack, abandon_send, queue_result in H;
    step_cases H; done.
Qed.

Lemma dom_alter_worker f wid (m : gmap nat worker) : dom (alter f wid m) = dom m.
Proof. apply leibniz_equiv, dom_alter. Qed.

Ltac unfold_step H :=
  unfold recv_dispatch, recv_cancel, recv_ack, sender_takes, sender_sends, sender_fails, start_send,
    queue_send, take_ack, abandon_send, queue_result, end_send in H; step_cases H.

Ltac quiet := apply moves_none; simpl;
  rewrite ?dom_alter_worker, ?size_alter; eauto using dom_update, size_update.

Lemma outgoing_push f s s' :
  s'.(held) = s.(held) → s'.(queue) = s.(queue) ++ [f] → outgoing s' = outgoing s ++ [f].
Proof. unfold outgoing. intros -> ->. by rewrite (assoc_L (++)). Qed.

Lemma step_moves l s s' : numbered s → step l s = Some s' → moves s s'.
Proof.
  intros Hnum. destruct l; simpl; intros H; unfold_step H; bools;
    try (quiet; fail).
  - apply moves_admit; simpl; try done.
    + apply Nat.ltb_lt in H0. lia.
    + by rewrite dom_insert_L.
    + rewrite map_size_insert_None; [done|].
      destruct (s.(workers) !! s.(next)) eqn:He; [|done].
      assert (s.(next) < s.(next)) by (apply Hnum; eauto). lia.
  - apply moves_none; simpl; try done. unfold outgoing. simpl. by rewrite Heqo, Heql.
  - apply (moves_send _ _ f); simpl; try done. unfold outgoing. simpl. by rewrite Heqo.
  - apply (moves_lose _ _ f); simpl; try done. unfold outgoing. simpl. by rewrite Heqo.
  - eapply moves_push; simpl; eauto using dom_update, size_update. by apply outgoing_push.
  - apply (moves_queue _ _ wid); simpl; eauto. by apply outgoing_push.
  - apply moves_none; simpl; try done; [apply leibniz_equiv, dom_fmap|apply map_size_fmap].
Qed.

Lemma moves_numbered s s' : moves s s' → numbered s → numbered s'.
Proof.
  intros Hm Hn. assert (Hdom : ∀ wid, wid ∈ dom s.(workers) → wid < s.(next)).
  { intros wid Hw. apply Hn. by apply elem_of_dom. }
  intros wid Hw%elem_of_dom. destruct Hm as
    [_ Hd _ Hx | wid' _ _ Hd Hx | c _ Hd _ Hx | f _ Hd Hx | f _ Hd Hx | _ Hd _ Hx];
    rewrite Hx; rewrite Hd in Hw; auto.
  - apply elem_of_union in Hw as [->%elem_of_singleton|Hw]; [lia|]. apply Hdom in Hw. lia.
  - rewrite dom_delete_L in Hw. apply Hdom. set_solver.
Qed.

Lemma moves_credit s s' :
  s'.(conc) = s.(conc) → moves s s' → credit_inv s → credit_inv s'.
Proof.
  unfold credit_inv. intros Hc Hm Hi. destruct Hm as
    [Hcr _ Hsz _ Hq _ Hl | wid Hcr Hw Hwk _ Hq _ Hl | c Hcr _ Hsz _ Hq _ Hl
    | f Hcr Hwk _ Hq _ Hl | f Hcr Hwk _ Hq _ Hl | Hcr _ Hsz _ Hq _ Hl]; rewrite Hc.
  - rewrite Hsz, Hq, Hl. lia.
  - rewrite Hcr, Hwk, Hq, Hl, results_app, length_app, map_size_delete_Some by done. simpl.
    assert (size s.(workers) ≠ 0).
    { destruct Hw as [w Hw]. intros Hz%map_size_empty_inv. by rewrite Hz in Hw. }
    lia.
  - rewrite Hcr, Hsz, Hq, Hl, results_app, app_nil_r. lia.
  - rewrite Hq, results_cons in Hi. rewrite Hcr, Hwk, Hl. destruct f; simpl in *; lia.
  - rewrite Hq, results_cons in Hi. rewrite Hcr, Hwk, Hl, results_app, length_app.
    destruct f; simpl in *; lia.
  - rewrite Hcr, Hsz, Hq, Hl. lia.
Qed.

Lemma elements_of_dom_eq (m1 m2 : gmap nat worker) :
  dom m1 = dom m2 → (map_to_list m1).*1 ≡ₚ (map_to_list m2).*1.
Proof. intros H. by rewrite !keys_dom, H. Qed.

Lemma moves_once s s' : numbered s → moves s s' → once_inv s → once_inv s'.
Proof.
  unfold once_inv, accounted. intros Hnum Hm Hi. destruct Hm as
    [_ Hd _ Hx Hq Hw Hl | wid _ [w Hwk'] Hwk Hx Hq Hw Hl | c _ Hd _ Hx Hq Hw Hl
    | f _ Hwk Hx Hq Hw Hl | f _ Hwk Hx Hq Hw Hl | _ Hd _ Hx Hq Hw Hl].
  - rewrite Hx, Hq, Hw, Hl, seq_S, <- Hi. simpl.
    assert ((map_to_list s'.(workers)).*1 ≡ₚ s.(next) :: (map_to_list s.(workers)).*1) as ->.
    { rewrite !keys_dom, Hd, elements_union_singleton; [done|].
      intros Hin%elem_of_dom%Hnum. lia. }
    by rewrite (Permutation_app_comm _ [next s]), <- !Permutation_middle.
  - rewrite Hx, Hq, Hw, Hl, Hwk, results_app, <- Hi. simpl.
    rewrite <- !(assoc_L (++)). do 3 f_equiv. simpl.
    rewrite <- (map_to_list_delete s.(workers) wid w Hwk'). done.
  - rewrite Hx, Hq, Hw, Hl, results_app, app_nil_r, <- Hi. by rewrite (elements_of_dom_eq _ _ Hd).
  - rewrite Hx, Hw, Hl, Hwk, <- Hi, Hq, results_app, results_cons.
    destruct f; simpl; [|by rewrite app_nil_r].
    rewrite <- !(assoc_L (++)). f_equiv. simpl. by rewrite <- !Permutation_middle.
  - rewrite Hx, Hw, Hl, Hwk, <- Hi, Hq, results_app, results_cons.
    destruct f; simpl; [|by rewrite app_nil_r].
    rewrite <- !(assoc_L (++)). by do 2 f_equiv.
  - rewrite Hx, Hq, Hw, Hl, <- Hi. by rewrite (elements_of_dom_eq _ _ Hd).
Qed.

Lemma step_bounded l s s' : step l s = Some s' → bounded s → bounded s'.
Proof.
  unfold bounded. intros H Hb.
  destruct l; simpl in H; unfold_step H; bools; try done; unfold has_room, capacity in *; simpl in *;
    rewrite ?length_app; simpl;
    try match goal with E : s.(queue) = _ |- _ => rewrite E in Hb; simpl in Hb end;
    try match goal with E : (_ <? _) = true |- _ => apply Nat.ltb_lt in E end; lia.
Qed.

(** The three hold of every reachable state. *)
Lemma reachable_inv n s :
  reachable n s →
  s.(conc) = n ∧ numbered s ∧ credit_inv s ∧ once_inv s ∧ bounded s.
Proof.
  revert s. apply reachable_ind.
  - split_and!; [done|by intros wid []| | |]; unfold credit_inv, once_inv, bounded; simpl;
      rewrite ?map_size_empty; [lia|done|lia].
  - intros l s s' (Hc & Hn & Hcr & Ho & Hb) Hs.
    pose proof (step_moves _ _ _ Hn Hs) as Hm. pose proof (step_conc _ _ _ Hs) as Hc'.
    split_and!; [congruence|by eapply moves_numbered|by eapply moves_credit
      |by eapply moves_once|by eapply step_bounded].
Qed.

(** ** Shutting down *)

(** The channel is closed only with no worker left, the transport only once the
    sender has returned, and the sender returns by itself only from an empty queue of
    a closed channel. *)
Definition ending (p : loop_phase) : bool :=
  match p with Closing | Closed => true | _ => false end.

Definition idle_inv (s : state) : Prop := ending s.(phase) = true → s.(workers) = ∅.

Definition sender_inv (s : state) : Prop :=
  if s.(sender) then s.(lost) = [] ∧ s.(phase) ≠ Closed
  else s.(lost) = [] → outgoing s = [] ∧ ending s.(phase) = true.

Ltac facts := bools; unfold is_phase, no_workers in *; bools; simpl in *.

Lemma step_idle l s s' : step l s = Some s' → idle_inv s → idle_inv s'.
Proof.
  unfold idle_inv. intros H Hi.
  destruct l; simpl in H; unfold_step H; facts; try exact Hi; try done;
    intros Hp; try (rewrite Hi in * by (by rewrite ?H0); done);
    try (match goal with E : s.(phase) = _ |- _ => rewrite E in Hp; done end).
  apply Hi. by rewrite H.
Qed.

Lemma step_sender l s s' : step l s = Some s' → idle_inv s → sender_inv s → sender_inv s'.
Proof.
  unfold idle_inv, sender_inv. intros H Hi Hs.
  destruct (s.(sender)) eqn:He.
  - destruct Hs as [Hl Hp].
    destruct l; simpl in H; unfold_step H; facts; rewrite ?He; try done;
      try (split; congruence).
    + by intros [_ ?]%app_eq_nil.
    + intros _. unfold outgoing. simpl. split; [|by rewrite H]. by repeat match goal with E : _ s = _ |- _ => rewrite E; clear E end.
  - destruct l; simpl in H; unfold_step H; facts; rewrite ?He; try done;
      intros Hl; destruct (Hs Hl) as [Hq Hend];
      try (match goal with E : s.(phase) = _ |- _ => rewrite E in Hend; done end);
      try (split; [done|by rewrite Hend]);
      try (by rewrite (Hi Hend) in *).
Qed.

Lemma reachable_shutdown n s : reachable n s → idle_inv s ∧ sender_inv s.
Proof.
  revert s. apply reachable_ind.
  - by split.
  - intros l s s' [Hi Hs] H. split; [by eapply step_idle|by eapply step_sender].
Qed.

(** C1: credit is conserved.  In every reachable state the credit the runtime holds,
    the events being worked on, the results queued, the one the sender holds and the results a failed send took
    add up to the concurrency declared in the handshake: so no more events than that
    are ever worked on, no result is ever withheld from the window except by a send
    that failed, and the queue never holds more than its buffer. *)
Theorem credit_conserved n s :
  reachable n s →
  s.(credit) + size s.(workers) + length (results (outgoing s)) + length (results s.(lost)) = n ∧
  size s.(workers) ≤ n ∧ length s.(queue) ≤ 2 * n ∧
  (s.(sender) = true → s.(workers) = ∅ → s.(queue) = [] → s.(held) = None → s.(credit) = n).
Proof.
  intros Hr. destruct (reachable_inv n s Hr) as (Hc & _ & Hcr & _ & Hb).
  destruct (reachable_shutdown n s Hr) as [_ Hs].
  unfold credit_inv, bounded, capacity in *. rewrite Hc in *. split_and!; [done|lia|lia|].
  intros Ht Hw Hq Hh. unfold sender_inv in Hs. rewrite Ht in Hs. destruct Hs as [Hl _].
  unfold outgoing in Hcr. rewrite Hw, Hq, Hh, Hl, map_size_empty in Hcr. simpl in Hcr. lia.
Qed.

Definition one_event : list label :=
  [RecvDispatch "e0" false; Finish 0; QueueResult 0; SenderTakes; SenderSends].

Lemma credit_conserved_witness :
  ∃ s, run one_event (start 4) = Some s ∧ size s.(workers) ≤ 4 ∧ length s.(queue) ≤ 2 * 4.
Proof.
  assert (is_Some (run one_event (start 4))) as [s Hs] by (vm_compute; eexists; reflexivity).
  exists s. split; [exact Hs|].
  destruct (credit_conserved 4 s (ex_intro _ one_event Hs)) as (_ & H1 & H2 & _).
  split; [exact H1|exact H2].
Defined.

(** C2: every dispatch is answered once.  In every reachable state each event
    received is in exactly one place: its result sent, taken by a send that failed,
    held by the sender, queued, or its handler still running; no event is answered twice.  Once the loop
    has closed the stream, and unless a send failed, every event received has had its
    result sent. *)
Theorem answered_once n s :
  reachable n s →
  results s.(wire) ++ results s.(lost) ++ results (option_list s.(held)) ++ results s.(queue) ++ (map_to_list s.(workers)).*1
    ≡ₚ seq 0 s.(next) ∧
  NoDup (results s.(wire)) ∧
  (s.(phase) = Closed → s.(workers) = ∅) ∧
  (s.(phase) = Closed → s.(lost) = [] → results s.(wire) ≡ₚ seq 0 s.(next)).
Proof.
  intros Hr. destruct (reachable_inv n s Hr) as (_ & _ & _ & Ho & _).
  destruct (reachable_shutdown n s Hr) as [Hi Hs].
  assert (s.(phase) = Closed → s.(workers) = ∅) as Hw by (intros Hp; apply Hi; by rewrite Hp).
  unfold once_inv, accounted in Ho. split_and!; [| |done|].
  - unfold outgoing in Ho. by rewrite results_app, <- (assoc_L (++)) in Ho.
  - pose proof (NoDup_seq 0 s.(next)) as Hnd. rewrite <- Ho in Hnd.
    by apply NoDup_app in Hnd as [? _].
  - intros Hp Hl. unfold sender_inv in Hs. destruct (s.(sender)).
    + by destruct Hs.
    + destruct (Hs Hl) as [Hq _].
      rewrite Hl, Hq, Hw, map_to_list_empty in Ho by done. simpl in Ho.
      by rewrite app_nil_r in Ho.
Qed.

Definition one_event_closed : list label :=
  one_event ++ [RecvEnd; WorkersDone; SenderStops; TransportClose].

Lemma answered_once_witness :
  ∃ s, run one_event_closed (start 4) = Some s ∧ s.(phase) = Closed ∧
    results s.(wire) ≡ₚ seq 0 s.(next).
Proof.
  assert (∃ s, run one_event_closed (start 4) = Some s ∧ s.(phase) = Closed ∧ s.(lost) = [])
    as (s & Hs & Hp & Hl) by (eexists; vm_compute; done).
  exists s. split; [exact Hs|]. split; [exact Hp|].
  destruct (answered_once 4 s (ex_intro _ one_event_closed Hs)) as (_ & _ & _ & H).
  exact (H Hp Hl).
Defined.

(** ** Sends and their acknowledgements *)

(** The correlations workers are waiting on are registered, each for one worker, and
    have all been issued; an acknowledgement delivered under one names it. *)
Definition waits (s : state) (wid c : nat) : Prop :=
  ∃ w, s.(workers) !! wid = Some w ∧ has_waiting w = Some c.

Record send_inv (s : state) : Prop := {
  si_own : ∀ w1 w2 c, waits s w1 c → waits s w2 c → w1 = w2;
  si_registered : ∀ wid c, waits s wid c → is_Some (s.(wsWaiting) !! c);
  si_waited : ∀ c, is_Some (s.(wsWaiting) !! c) → ∃ wid, waits s wid c;
  si_issued : ∀ c, is_Some (s.(wsWaiting) !! c) → 1 ≤ c ≤ s.(counter);
  si_named : ∀ c a, s.(wsWaiting) !! c = Some (Some a) → a.(ack_corr) = c;
}.

(** What the steps do to who waits for what. *)
Inductive sends (s s' : state) : Prop :=
  | sends_same : s'.(counter) = s.(counter) → s'.(wsWaiting) = s.(wsWaiting) →
      (∀ wid c, waits s' wid c ↔ waits s wid c) → sends s s'
  | sends_start wid : s'.(counter) = S s.(counter) →
      s'.(wsWaiting) = <[S s.(counter) := None]> s.(wsWaiting) →
      (∀ w c, waits s' w c ↔ (w = wid ∧ c = S s.(counter)) ∨ waits s w c) → sends s s'
  | sends_end wid c : waits s wid c → s'.(counter) = s.(counter) →
      s'.(wsWaiting) = delete c s.(wsWaiting) →
      (∀ w c', waits s' w c' ↔ w ≠ wid ∧ waits s w c') → sends s s'
  | sends_ack a : s.(wsWaiting) !! a.(ack_corr) = Some None → s'.(counter) = s.(counter) →
      s'.(wsWaiting) = <[a.(ack_corr) := Some a]> s.(wsWaiting) →
      (∀ w c, waits s' w c ↔ waits s w c) → sends s s'.

Lemma sends_inv s s' : sends s s' → send_inv s → send_inv s'.
Proof.
  intros Hs [Ho Hr Hw Hi Hn]. destruct Hs as
    [Hc Hm Hwt | wid Hc Hm Hwt | wid c0 H0 Hc Hm Hwt | a Ha Hc Hm Hwt].
  - split; [intros w1 w2 c|intros w1 c|intros c|intros c|intros c a']; rewrite ?Hwt, ?Hm, ?Hc; eauto.
    intros (wid & Hwid)%Hw. exists wid. by apply Hwt.
  - assert (∀ w c, waits s w c → c ≠ S s.(counter)) as Hfresh.
    { intros w c H ->. apply Hr in H. apply Hi in H. lia. }
    split; [intros w1 w2 c|intros w1 c|intros c|intros c|intros c a']; rewrite ?Hm, ?Hc.
    + rewrite !Hwt. intros [[-> ->]|H1] [[-> H2]|H2]; try done.
      * by apply Hfresh in H2.
      * subst. by apply Hfresh in H1.
      * eauto.
    + rewrite Hwt. intros [[-> ->]|H1]; [by rewrite lookup_insert_eq|].
      rewrite lookup_insert_ne by (intros He; by apply Hfresh in H1). eauto.
    + rewrite lookup_insert. case_decide as He.
      * intros _. exists wid. apply Hwt. left. done.
      * intros (w & Hw')%Hw. exists w. apply Hwt. by right.
    + rewrite lookup_insert. case_decide as He; [subst; lia|]. intros H%Hi. lia.
    + rewrite lookup_insert. case_decide; [done|apply Hn].
  - assert (∀ w c, w ≠ wid → waits s w c → c ≠ c0) as Hne.
    { intros w c Hw' H ->. apply Hw'. by apply (Ho w wid c0). }
    split; [intros w1 w2 c|intros w1 c|intros c|intros c|intros c a']; rewrite ?Hm, ?Hc.
    + rewrite !Hwt. intros [_ H1] [_ H2]. eauto.
    + rewrite Hwt. intros [Hw' H]. rewrite lookup_delete_ne by (by apply not_eq_sym, (Hne w1)).
      eauto.
    + intros [x [Hd Hx]%lookup_delete_Some]. destruct (Hw c) as [w Hw']; [eauto|].
      exists w. apply Hwt. split; [|done]. intros ->. apply Hd.
      destruct Hw' as (w1 & E1 & E2), H0 as (w2 & E3 & E4). by simplify_eq.
    + intros [x [_ Hx]%lookup_delete_Some]. eauto.
    + intros [_ Hx]%lookup_delete_Some. eauto.
  - split; [intros w1 w2 c|intros w1 c|intros c|intros c|intros c a']; rewrite ?Hwt, ?Hm, ?Hc; eauto.
    + intros H. rewrite lookup_insert. case_decide; eauto.
    + intros H. assert (is_Some (s.(wsWaiting) !! c)) as (wid & Hwid)%Hw.
      { rewrite lookup_insert in H. case_decide; [subst; eauto|done]. }
      exists wid. by apply Hwt.
    + rewrite lookup_insert. case_decide; [subst; eauto|apply Hi].
    + rewrite lookup_insert. case_decide; [by intros [= <-]|apply Hn].
Qed.

Definition waits_in (ws : gmap nat worker) (wid c : nat) : Prop :=
  ∃ w, ws !! wid = Some w ∧ has_waiting w = Some c.

Lemma waits_insert ws wid w' x c :
  waits_in (<[wid := w']> ws) x c ↔
    (x = wid ∧ has_waiting w' = Some c) ∨ (x ≠ wid ∧ waits_in ws x c).
Proof.
  unfold waits_in. destruct (decide (x = wid)) as [->|Hne].
  - rewrite lookup_insert_eq. naive_solver.
  - rewrite lookup_insert_ne by done. naive_solver.
Qed.

(** A worker replaced by one that waits for the same. *)
Lemma waits_insert_same ws wid w w' x c :
  ws !! wid = Some w → has_waiting w' = has_waiting w →
  waits_in (<[wid := w']> ws) x c ↔ waits_in ws x c.
Proof.
  intros Hw He. rewrite waits_insert, He. unfold waits_in.
  destruct (decide (x = wid)) as [->|Hne]; naive_solver.
Qed.

Lemma waits_alter f ws wid x c :
  (∀ w, has_waiting (f w) = has_waiting w) →
  waits_in (alter f wid ws) x c ↔ waits_in ws x c.
Proof.
  intros Hf. unfold waits_in. destruct (decide (wid = x)) as [->|Hne].
  - rewrite lookup_alter_eq. destruct (ws !! x) as [w|]; simpl; [|done].
    split; intros (w' & [= <-] & H); [rewrite Hf in H|]; eexists; (split; [done|]);
      by rewrite ?Hf.
  - by rewrite lookup_alter_ne.
Qed.

Lemma waits_fmap f ws x c :
  (∀ w, has_waiting (f w) = has_waiting w) →
  waits_in (f <$> ws) x c ↔ waits_in ws x c.
Proof.
  intros Hf. unfold waits_in. rewrite lookup_fmap. destruct (ws !! x) as [w|]; simpl; [|done].
  split; intros (w' & [= <-] & H); [rewrite Hf in H|]; eexists; (split; [done|]); by rewrite ?Hf.
Qed.

Lemma waits_delete ws wid w x c :
  ws !! wid = Some w → has_waiting w = None →
  waits_in (delete wid ws) x c ↔ waits_in ws x c.
Proof.
  intros Hw Hn. unfold waits_in. destruct (decide (wid = x)) as [->|Hne].
  - rewrite lookup_delete_eq. naive_solver.
  - by rewrite lookup_delete_ne.
Qed.

Lemma waits_admit s id d :
  numbered s → ∀ x c,
  waits_in (<[s.(next) := MkWorker id d s.(stopped) Running]> s.(workers)) x c ↔
  waits_in s.(workers) x c.
Proof.
  intros Hn x c. rewrite waits_insert. split; [intros [[_ ?]|[_ ?]]; done|].
  intros (w & Hw & Hc). right. split; [|by exists w]. intros ->.
  assert (s.(next) < s.(next)) by (apply Hn; eauto). lia.
Qed.

(** [end_send] leaves only the worker's own wait behind. *)
Lemma sends_end_send s wid w c :
  s.(workers) !! wid = Some w → has_waiting w = Some c → sends s (end_send wid w c s).
Proof.
  intros Hw Hc. apply (sends_end _ _ wid c); [by exists w|done|done|].
  intros x c'. etransitivity; [apply (waits_insert s.(workers) wid)|].
  unfold waits, waits_in. naive_solver.
Qed.

Lemma step_sends l s s' : numbered s → step l s = Some s' → sends s s'.
Proof.
  intros Hn. destruct l; simpl; intros H;
    unfold recv_dispatch, recv_cancel, recv_ack, sender_takes, sender_sends, sender_fails, start_send,
      queue_send, take_ack, abandon_send, queue_result in H; step_cases H;
    try (apply sends_same; simpl; done).
  - apply sends_same; [done..|]. by apply waits_admit.
  - apply sends_same; [done..|]. intros wx cx. by apply waits_alter.
  - by eapply sends_ack.
  - apply (sends_start _ _ wid); [done..|]. intros wx cx.
    etransitivity; [apply (waits_insert s.(workers) wid)|]. simpl. unfold waits, waits_in, has_waiting. split; [naive_solver|].
    intros [[-> ->]|(w & Hw & Hc)]; [by left|]. right. split; [|eauto]. intros ->.
    simplify_eq. destruct (w_phase _); done.
  - apply sends_same; [done..|]. intros wx cx. eapply (waits_insert_same s.(workers)); [done|].
    unfold has_waiting. simpl. by rewrite Heqw.
  - eapply sends_end_send; [done|]. unfold has_waiting. by rewrite Heqw.
  - by eapply sends_end_send.
  - apply sends_same; [done..|]. intros wx cx. eapply (waits_insert_same s.(workers)); [done|].
    unfold has_waiting. simpl. by rewrite Heqw.
  - apply sends_same; [done..|]. intros wx cx. eapply (waits_delete s.(workers)); [done|].
    unfold has_waiting. by rewrite Heqw.
  - apply sends_same; [done..|]. intros wx cx. by eapply (waits_insert_same s.(workers)).
  - apply sends_same; [done..|]. intros wx cx. by apply waits_fmap.
Qed.

Lemma reachable_send n s : reachable n s → send_inv s.
Proof.
  intros Hr. assert (numbered s ∧ send_inv s) as [_ ?]; [|done]. revert s Hr. apply reachable_ind.
  - split; [by intros wid []|]. split; try (by intros ?? (w & Hw & _)); try (by intros ? []).
    by intros ??? (w & Hw & _).
  - intros l s s' [Hn Hi] H. split; [by eapply moves_numbered, Hn; eapply step_moves|].
    eapply sends_inv; [by eapply step_sends|done].
Qed.

(** C9: an acknowledgement reaches the send it is for.  In every reachable state no
    two sends wait under one correlation id, every send that waits is registered and
    nothing else is; and what a send takes as its acknowledgement is one that named
    its own id: an acknowledgement for a send that has given up reaches nobody, and
    one delivered twice is taken once. *)
Theorem ack_reaches_its_send n s :
  reachable n s →
  (∀ w1 w2 c, waits s w1 c → waits s w2 c → w1 = w2) ∧
  (∀ c, is_Some (s.(wsWaiting) !! c) ↔ ∃ wid, waits s wid c) ∧
  (∀ wid s', step (TakeAck wid) s = Some s' →
     ∃ c a, waits s wid c ∧ s.(wsWaiting) !! c = Some (Some a) ∧ a.(ack_corr) = c ∧
       s'.(wsWaiting) !! c = None) ∧
  (∀ a s', step (RecvAck a) s = Some s' →
     (∀ wid, ¬ waits s wid a.(ack_corr)) → s' = s) ∧
  (∀ a b s1 s2, step (RecvAck a) s = Some s1 → step (RecvAck b) s1 = Some s2 →
     a.(ack_corr) = b.(ack_corr) → s2 = s1).
Proof.
  intros [Ho Hreg Hw _ Hn]%reachable_send. split_and!; [done| | | |].
  - intros c. split; [apply Hw|]. by intros [wid ?%Hreg].
  - intros wid s' H. simpl in H. unfold take_ack in H. step_cases H.
    eexists _, _. split_and!; [|done|by eapply Hn|apply lookup_delete_eq].
    eexists. split; [done|]. unfold has_waiting. by rewrite Heqw.
  - intros a s' H Hno. simpl in H. unfold recv_ack in H.
    step_cases H; try done. exfalso.
    destruct (Hw (ack_corr a)) as [wid ?]; [eauto|]. by eapply Hno.
  - intros a b s1 s2 H1 H2 Hc. simpl in H1, H2. unfold recv_ack in H1, H2.
    rewrite <- Hc in H2. step_cases H1; step_cases H2; try done; try congruence.
    by rewrite lookup_insert_eq in *.
Qed.

Lemma sender_sends_held s f :
  s.(sender) = true → s.(held) = Some f →
  ∃ s', step SenderSends s = Some s' ∧ s'.(held) = None ∧ s'.(queue) = s.(queue) ∧ s'.(sender) = true ∧
    s'.(workers) = s.(workers) ∧ s'.(conc) = s.(conc) ∧ s'.(wire) = s.(wire) ++ [f].
Proof. intros Hs Hh. eexists. simpl. unfold sender_sends. rewrite Hh, Hs. by split_and!. Qed.

Lemma sender_takes_next s f q :
  s.(sender) = true → s.(held) = None → s.(queue) = f :: q →
  ∃ s', step SenderTakes s = Some s' ∧ s'.(held) = Some f ∧ s'.(queue) = q ∧ s'.(sender) = true ∧
    s'.(workers) = s.(workers) ∧ s'.(conc) = s.(conc).
Proof. intros Hs Hh Hq. eexists. simpl. unfold sender_takes. rewrite Hh, Hq, Hs. by split_and!. Qed.

Definition of_sender (l : label) : Prop := l = SenderTakes ∨ l = SenderSends.

(** The sender, left to itself, sends all there is. *)
Lemma sender_drains s :
  s.(sender) = true →
  ∃ ls s', run ls s = Some s' ∧ Forall of_sender ls ∧ s'.(held) = None ∧ s'.(queue) = [] ∧
    s'.(sender) = true ∧ s'.(workers) = s.(workers) ∧ s'.(conc) = s.(conc).
Proof.
  assert (∀ q s, s.(sender) = true → s.(held) = None → s.(queue) = q →
    ∃ ls s', run ls s = Some s' ∧ Forall of_sender ls ∧ s'.(held) = None ∧ s'.(queue) = [] ∧
      s'.(sender) = true ∧ s'.(workers) = s.(workers) ∧ s'.(conc) = s.(conc)) as Hidle.
  { intros q. induction q as [|f q IH]; intros s1 Hs Hh Hq; [exists [], s1; by split_and!|].
    destruct (sender_takes_next s1 f q Hs Hh Hq) as (s2 & Ht & Hh2 & Hq2 & Hs2 & Hw2 & Hc2).
    destruct (sender_sends_held s2 f Hs2 Hh2) as (s3 & Hd & Hh3 & Hq3 & Hs3 & Hw3 & Hc3 & _).
    destruct (IH s3 Hs3 Hh3 (eq_trans Hq3 Hq2)) as (ls & s' & Hr & Hl & ? & ? & ? & ? & ?).
    exists (SenderTakes :: SenderSends :: ls), s'. cbn [run]. rewrite Ht. cbn [mbind option_bind]. rewrite Hd.
    split_and!; try done; [|congruence..]. constructor; [by left|]. constructor; [by right|done]. }
  intros Hs. destruct (s.(held)) as [f|] eqn:Hh; [|by apply (Hidle s.(queue))].
  destruct (sender_sends_held s f Hs Hh) as (s1 & Hd & Hh1 & Hq1 & Hs1 & Hw1 & Hc1 & _).
  destruct (Hidle _ s1 Hs1 Hh1 eq_refl) as (ls & s' & Hr & Hl & ? & ? & ? & ? & ?).
  exists (SenderSends :: ls), s'. cbn [run]. rewrite Hd. split_and!; try done; [|congruence..].
  constructor; [by right|done].
Qed.

(** A finished event can always be answered.  While the sender runs, a worker
    that has finished gets its result onto the wire by the sender's and its own steps
    alone, whatever is queued before it: nothing else has to happen first. *)
Lemma finished_is_answered n s wid w :
  0 < n → reachable n s → s.(sender) = true →
  s.(workers) !! wid = Some w → w.(w_phase) = Finished →
  ∃ ls s', run ls s = Some s' ∧
    Forall (λ l, of_sender l ∨ l = QueueResult wid) ls ∧
    wid ∈ results s'.(wire) ∧ s'.(workers) = delete wid s.(workers).
Proof.
  intros Hpos Hr Hsend Hw Hfin. destruct (reachable_inv n s Hr) as (Hc & _).
  destruct (sender_drains s Hsend) as (ls & s1 & Hrun & Hls & Hh & Hq & Hs1 & Hws & Hc1).
  assert (has_room s1 = true) as Hroom.
  { unfold has_room, capacity. rewrite Hq, Hc1, Hc. apply Nat.ltb_lt. simpl. lia. }
  set (s2 := set_queue (s1.(queue) ++ [OResult wid]) (set_inFlight (delete w.(w_event) s1.(inFlight))
    (set_workers (delete wid s1.(workers)) s1))).
  assert (step (QueueResult wid) s1 = Some s2) as Hs2.
  { simpl. unfold with_worker. rewrite Hws, Hw. simpl. unfold queue_result. by rewrite Hfin, Hroom. }
  destruct (sender_takes_next s2 (OResult wid) []) as (s3 & Ht & Hh3 & _ & Hs3 & Hw3 & _); [done..|simpl; by rewrite Hq|].
  destruct (sender_sends_held s3 _ Hs3 Hh3) as (s4 & Hd & _ & _ & _ & Hw4 & _ & Hwire).
  exists (ls ++ [QueueResult wid; SenderTakes; SenderSends]), s4. split_and!.
  - rewrite run_app, Hrun. cbn [run mbind option_bind]. rewrite Hs2. cbn [mbind option_bind].
    rewrite Ht. cbn [mbind option_bind]. by rewrite Hd.
  - apply Forall_app. split; [eapply Forall_impl; [exact Hls|]; by left|].
    apply Forall_cons. split; [by right|]. apply Forall_cons. split; [by left; left|].
    apply Forall_singleton. by left; right.
  - rewrite Hwire, results_app. apply elem_of_app. right. simpl. left.
  - rewrite Hw4, Hw3. simpl. by rewrite Hws.
Qed.

Lemma finished_is_answered_witness :
  ∃ s, run [RecvDispatch "e0" false; Finish 0] (start 1) = Some s ∧
    ∃ ls s', run ls s = Some s' ∧ 0 ∈ results s'.(wire).
Proof.
  assert (∃ s, run [RecvDispatch "e0" false; Finish 0] (start 1) = Some s ∧
    s.(sender) = true ∧ s.(workers) !! 0 = Some (MkWorker "e0" false false Finished))
    as (s & Hs & Hsend & Hw) by (eexists; vm_compute; done).
  exists s. split; [exact Hs|].
  destruct (finished_is_answered 1 s 0 _ Nat.lt_0_1
    (ex_intro _ [RecvDispatch "e0" false; Finish 0] Hs) Hsend Hw eq_refl)
    as (ls & s' & H1 & _ & H2 & _).
  exists ls, s'. split; [exact H1|exact H2].
Defined.

Lemma ack_reaches_its_send_witness :
  ∃ s, run [RecvDispatch "e0" false; StartSend 0; QueueSend 0; RecvAck (MkAck_ 1 true)] (start 1)
    = Some s ∧ (∀ w1 w2 c, waits s w1 c → waits s w2 c → w1 = w2).
Proof.
  assert (is_Some (run [RecvDispatch "e0" false; StartSend 0; QueueSend 0;
    RecvAck (MkAck_ 1 true)] (start 1))) as [s Hs] by (vm_compute; eexists; reflexivity).
  exists s. split; [exact Hs|]. exact (proj1 (ack_reaches_its_send 1 s (ex_intro _ _ Hs))).
Defined.

(** ** A send that is never acknowledged *)

(** A worker waiting for an acknowledgement that has not arrived, with nothing to
    cancel it but the context of [Serve], when the loop has stopped reading. *)
Definition stranded (wid c : nat) (s : state) : Prop :=
  (s.(phase) = Draining ∨ s.(phase) = Returned_) ∧
  s.(wsWaiting) !! c = Some None ∧
  ∃ w, s.(workers) !! wid = Some w ∧ w.(w_phase) = Awaiting c ∧
    w.(w_deadline) = false ∧ w.(w_cancelled) = false.

Lemma stranded_end_send wid c wid' w' c' s :
  send_inv s → stranded wid c s → s.(workers) !! wid' = Some w' → has_waiting w' = Some c' →
  wid' ≠ wid → stranded wid c (end_send wid' w' c' s).
Proof.
  intros Hi (Hp & Hc & w & Hw & Hwp & Hd & Hcn) Hw' Hc' Hne. split; [done|]. split.
  - simpl. rewrite lookup_delete_ne; [done|]. intros ->. apply Hne.
    apply (si_own _ Hi wid' wid c); [by exists w'|]. exists w. split; [done|].
    unfold has_waiting. by rewrite Hwp.
  - exists w. simpl. by rewrite lookup_insert_ne.
Qed.

Lemma stranded_set_worker wid c wid' w' s :
  stranded wid c s → wid' ≠ wid → stranded wid c (set_worker wid' w' s).
Proof.
  intros (Hp & Hc & w & Hw & Hrest) Hne. split; [done|]. split; [done|].
  exists w. simpl. by rewrite lookup_insert_ne.
Qed.

(** Every other step leaves it so: the loop reads nothing more, nobody else holds the
    worker's correlation, and the worker itself has nothing to do. *)
Lemma step_stranded l s s' wid c :
  send_inv s → stranded wid c s → l ≠ ParentCancel → step l s = Some s' → stranded wid c s'.
Proof.
  intros Hi Hs Hl H. pose proof Hs as (Hp & Hc & w & Hw & Hwp & Hd & Hcn).
  assert (is_phase Reading s = false ∧ is_phase Closing s = false ∧ no_workers s = false)
    as (Hnr & Hnc & Hnw).
  { unfold is_phase, no_workers. split_and!; apply bool_decide_eq_false_2.
    - by destruct Hp as [->| ->].
    - by destruct Hp as [->| ->].
    - intros He. by rewrite He in Hw. }
  assert (∀ wid' w', s.(workers) !! wid' = Some w' →
    (w'.(w_phase) = Awaiting c → w'.(w_deadline) = true ∨ w'.(w_cancelled) = true) →
    wid' ≠ wid) as Hother.
  { intros wid' w' Hw' Hor ->. simplify_eq. destruct (Hor Hwp); congruence. }
  destruct l; simpl in H;
    unfold recv_dispatch, recv_cancel, recv_ack, sender_takes, sender_sends, sender_fails, start_send,
      queue_send, take_ack, abandon_send, queue_result in H;
    rewrite ?Hnr, ?Hnc, ?Hnw, ?andb_false_r in H; step_cases H.
  all: try (split; [by right|split; [done|by exists w]]).
  all: try (split; [done|split; [done|by exists w]]).
  all: match goal with E : workers _ !! ?wid' = Some _ |- _ =>
         assert (wid' ≠ wid) as Hne by (apply (Hother _ _ E); intros; first [congruence | by left | by right])
       end.
  - split; [done|]. simpl. rewrite lookup_insert_ne.
    + split; [done|]. exists w. by rewrite lookup_insert_ne.
    + intros He. assert (1 ≤ c ≤ s.(counter)) by (apply (si_issued _ Hi); eauto). lia.
  - by apply (stranded_set_worker _ _ _ _ s).
  - eapply stranded_end_send; [done..| |done]. unfold has_waiting. by rewrite Heqw0.
  - by eapply stranded_end_send.
  - by apply stranded_set_worker.
  - split; [done|]. split; [done|]. exists w. simpl. by rewrite lookup_delete_ne.
  - by apply stranded_set_worker.
Qed.

(** A drain does not end at its deadline.  Once the runtime has drained or gone
    away, nothing is read any more; a handler waiting for a send to be acknowledged,
    of an event with no deadline of its own, then waits for ever, and the loop with
    it: whatever happens next, the drain's timer included, short of the context of
    [Serve] being cancelled, the stream is never closed and the handler never
    released. *)
Lemma drain_strands_sends n s wid w c ls s' :
  reachable n s → (s.(phase) = Draining ∨ s.(phase) = Returned_) →
  s.(workers) !! wid = Some w → w.(w_phase) = Awaiting c → w.(w_deadline) = false →
  w.(w_cancelled) = false → s.(wsWaiting) !! c = Some None →
  ParentCancel ∉ ls → run ls s = Some s' →
  s'.(phase) ≠ Closed ∧ ∃ w', s'.(workers) !! wid = Some w' ∧ w'.(w_phase) = Awaiting c.
Proof.
  intros Hr Hp Hw Hwp Hd Hcn Hc Hls Hrun.
  assert (stranded wid c s') as (Hp' & _ & w' & Hw' & Hrest).
  { assert (stranded wid c s) as Hs by (split; [done|]; split; [done|]; by exists w).
    clear Hp Hw Hwp Hd Hcn Hc. destruct Hr as [ls0 Hls0].
    revert s ls0 Hls0 Hs Hrun. induction ls as [|l ls IH]; intros s ls0 Hls0 Hs Hrun.
    { by injection Hrun as <-. }
    apply not_elem_of_cons in Hls as [Hl Hls]. cbn [run] in Hrun.
    destruct (step l s) as [s1|] eqn:Hstep; [|done].
    apply (IH Hls s1 (ls0 ++ [l])); [| |done].
    - rewrite run_app, Hls0. simpl. by rewrite Hstep.
    - eapply step_stranded; [by eapply reachable_send; exists ls0|done|done|done]. }
  split; [by destruct Hp' as [->| ->]|]. exists w'. by destruct Hrest.
Qed.

(** A handler is waiting on its send when the runtime drains. *)
Definition drain_trace : list label :=
  [RecvDispatch "e0" false; StartSend 0; QueueSend 0; SenderTakes; SenderSends; RecvDrain].

Lemma drain_strands_sends_witness :
  ∃ s s', run drain_trace (start 1) = Some s ∧ run [DrainTimer] s = Some s' ∧
    s'.(phase) ≠ Closed.
Proof.
  assert (∃ s, run drain_trace (start 1) = Some s ∧ s.(phase) = Draining ∧
    s.(workers) !! 0 = Some (MkWorker "e0" false false (Awaiting 1)) ∧
    s.(wsWaiting) !! 1 = Some None) as (s & Hs & Hp & Hw & Hc) by (eexists; vm_compute; done).
  exists s, (set_phase Returned_ s). split; [exact Hs|].
  assert (run [DrainTimer] s = Some (set_phase Returned_ s)) as Hrun.
  { simpl. unfold is_phase. by rewrite Hp. }
  split; [exact Hrun|].
  refine (proj1 (drain_strands_sends 1 s 0 _ 1 [DrainTimer] _ (ex_intro _ drain_trace Hs)
    (or_introl Hp) Hw eq_refl eq_refl eq_refl Hc _ Hrun)).
  intros Hin. apply list_elem_of_singleton in Hin. discriminate.
Defined.
