(* ===== verification/Serve.v ===== *)
(** * Serving an application against the runtime

    Models [serveRuntime] and [reconcileFrom] of [celerity/runtime.go]: the client of
    [Client] over an application of [App], whose registry the handshake reconciles
    before it is declared. *)

From S2P Require Import Prelude GoStrings Json Errors Handler Status Layer Registry Reconcile Bind Wrap App Pipeline Frames Client.
From stdpp Require Import options.

Definition Version : string := "0.1.0".

(** What [reconcileFrom] hands to [ReconcileTags]. *)
Definition declared_handlers (blueprint : list Frames.HandlerConfig) : list BlueprintHandler :=
  (λ h, MkBlueprintHandler h.(HandlerName) h.(HandlerPublished) h.(HandlerTag)) <$> blueprint.

Section serve.
Context {W F : Type} `{Tracer W}.
Implicit Types (s : Registry W).

Abbreviation App := (App (W := W) (F := F)).

Definition reconcileFrom s (blueprint : list Frames.HandlerConfig) :
    option (Registry W * result error (list string)) :=
  ReconcileTags s (declared_handlers blueprint).

(** The client [serveRuntime] makes. *)
Definition serveRuntime (a : App) (env : string → string) (numCPU : Z) :
    Client.Config (Registry W) :=
  NewConfig (MkConfig (Tags a.(registry)) (Some reconcileFrom) (handlerConcurrency env numCPU)
               (Some HandlerLimits) Version).

(** C5: what is declared is what is served.  The handshake of an application whose
    handlers the blueprint declares, each under a tag of its own, follows no nil
    pointer and leaves the registry settled; where the declaration is sent it names
    the settled tags and no others, caps none but those, each as its handler was
    registered, and every tag declared resolves in the settled application, and no
    other does.  With at least one processor the credit declared is that of a pool of
    at least one worker. *)
Theorem serveRuntime_declares (a : App) env numCPU config send second :
  let bp := declared_handlers config.(Handlers) in
  registry_wf a.(registry) → compatible bp a.(registry) → resolved bp a.(registry) →
  (0 < numCPU)%Z →
  ∃ s' sent r,
    handshake (serveRuntime a env numCPU) a.(registry) (Ok (FConfig config)) send second
      = Some (s', sent, r) ∧
    settled_registry bp a.(registry) s' ∧
    (send = None → ∃ ready n, sent = [FReady ready] ∧
       ready.(HandlerTags) = Tags s' ∧
       (∀ tag, tag ∈ ready.(HandlerTags) ↔ is_Some (resolvePipeline (set_registry a s') tag)) ∧
       (∀ l, l ∈ ready.(Limits) ↔ ∃ i reg, Get s' l.(LimitTag) = Some i ∧
          s'.(heap) !! i = Some reg ∧ (0 < reg.(RegMaxConcurrent))%Z ∧
          l.(LimitMax) = to_uint32 reg.(RegMaxConcurrent)) ∧
       (∀ l, l ∈ ready.(Limits) → l.(LimitTag) ∈ ready.(HandlerTags)) ∧
       (0 < n)%Z ∧ ready.(InitialCredit) = to_uint32 n).
Proof using Type.
  intros bp Hwf Hcomp Hres Hcpu.
  destruct (reconcile_settled bp _ Hwf Hcomp Hres) as (s' & Hrec & Hset).
  pose proof Hset as (Hwf' & _ & _ & _).
  destruct (HandlerLimits_wf s' Hwf') as (limits & Hlim & Hiff & Hin).
  pose proof (handlerConcurrency_pos env numCPU Hcpu) as Hpos.
  unfold serveRuntime, NewConfig. cbn [CfgConcurrency].
  destruct (Z.leb_spec (handlerConcurrency env numCPU) 0); [lia|].
  unfold handshake, reconciled. cbn [awaitConfig CfgReconcile mbind option_bind].
  change (reconcileFrom (registry a) (Handlers config)) with (ReconcileTags (registry a) bp).
  rewrite Hrec. cbn [mbind option_bind].
  unfold declareReady, limits_at. cbn [set_tags CfgLimits]. rewrite Hlim. cbn [mbind option_bind].
  destruct send as [e|]; (eexists _, _, _; split; [reflexivity|]; split; [done|]); [done|].
  intros _. eexists _, (handlerConcurrency env numCPU). split; [reflexivity|].
  assert (sort_strings (Tags s') = Tags s') as Hsort by (apply sort_strings_id, sort_strings_sorted).
  cbn [HandlerTags ready_frame Limits InitialCredit CfgTags CfgConcurrency set_tags].
  rewrite Hsort. split_and!; [done| | | |done|done].
  - intros tag. symmetry. by apply resolvePipeline_iff.
  - intros l. rewrite elem_of_limitsFrom. setoid_rewrite Hiff. naive_solver.
  - intros l (n & Hn & _)%elem_of_limitsFrom. eauto.
Qed.
End serve.

(** An application of two handlers, one keyed by its route and one taking its tag from
    the blueprint. *)
Definition served_app : App (W := unit) (F := unit) :=
  set_registry (New [] None) sample_registry.

Definition served_config : RuntimeConfig :=
  MkRuntimeConfig false false
    [Frames.MkHandlerConfig "recalculate" "custom::recalculate" 0 false "";
     Frames.MkHandlerConfig "onSend" "action::sendMessage" 0 false ""]
    (Frames.MkProtocolVersion 1 0).

Lemma serveRuntime_declares_witness :
  let _ := @noopTracer unit in
  ∃ s' sent r, handshake (serveRuntime served_app (λ _, "") 2) served_app.(registry)
      (Ok (FConfig served_config)) None (Err (EString "EOF")) = Some (s', sent, r) ∧
    ∃ ready, sent = [FReady ready] ∧ ready.(HandlerTags) = Tags s'.
Proof.
  intros T.
  destruct (serveRuntime_declares served_app (λ _, "") 2 served_config None (Err (EString "EOF"))
    sample_registry_wf sample_compatible sample_resolved eq_refl)
    as (s' & sent & r & Hh & _ & Hs).
  exists s', sent, r. split; [exact Hh|].
  destruct (Hs eq_refl) as (ready & n & Hsent & Ht & _). exists ready. split; [exact Hsent|exact Ht].
Defined.
