(* ===== verification/Serverless.v ===== *)
(** * Serving one function of a serverless platform

    Models [serverless/serve.go], [serverless/event.go] and [serverless/registry.go]:
    the dispatcher between a provider's event loop and a handler.  What a provider
    supplies is an [EventMapper] and an [Adapter], and what the application supplies a
    [Resolver]; all three are interfaces here as they are there.  [V] is what the
    provider's runtime serialises. *)

From S2P Require Import Prelude GoStrings Json Errors Handler Layer Registry Bind Wrap App Pipeline.
From stdpp Require Import options.

(** ** Interfaces *)

(** [EventMapper].  A pointer it answers may be nil even without an error. *)
Record EventMapper (V : Type) : Type := MkEventMapper {
  Detect : bytes → result error Kind;
  ToRequest : bytes → result error (option Request);
  FromResponse : option Response → result error V;
  ToWebSocketMessage : bytes → result error (option WebSocketMessage);
  ToConsumerBatch : bytes → string → result error (option ConsumerBatch);
  FromBatchResult : option BatchResult → result error V;
  ToScheduleTrigger : bytes → string → result error (option ScheduleTrigger);
  ToCustomInvoke : bytes → result error (option CustomInvoke);
  FromCustomResult : option CustomInvokeResult → result error V;
}.
Arguments MkEventMapper {V}.
Arguments Detect {V}. Arguments ToRequest {V}. Arguments FromResponse {V}.
Arguments ToWebSocketMessage {V}. Arguments ToConsumerBatch {V}. Arguments FromBatchResult {V}.
Arguments ToScheduleTrigger {V}. Arguments ToCustomInvoke {V}. Arguments FromCustomResult {V}.

(** [Adapter], with the two interfaces an adapter may also implement. *)
Record Adapter (V W : Type) : Type := MkAdapter {
  AdapterName : string;
  DetectPlatform : bool;
  Mapper : EventMapper V;
  WebSocketSender : option (Ctx → bytes → W → result error Sender * W);
  AcknowledgeReceipt : option (Ctx → WebSocketMessage → W → option error * W);
}.
Arguments MkAdapter {V W}.
Arguments AdapterName {V W}. Arguments DetectPlatform {V W}. Arguments Mapper {V W}.
Arguments WebSocketSender {V W}. Arguments AcknowledgeReceipt {V W}.

(** [Resolver], and what a dispatcher relies on it for. *)
Class Resolver (W : Type) : Type := {
  FindByName : string → option (ServerlessHandler (W := W));
  FindByTag : string → option (ServerlessHandler (W := W));
  FindOnly : Kind → option (ServerlessHandler (W := W));
}.

Class ResolverLaws (W : Type) `{Resolver W} : Prop := {
  FindByTag_tag : ∀ tag h, FindByTag tag = Some h → h.(sh_Tag) = tag;
  FindOnly_kind : ∀ kind h, FindOnly kind = Some h → h.(sh_Kind) = kind;
}.

(** What an invocation hands to the provider to serialise. *)
Inductive reply (V : Type) : Type :=
  | Nothing
  | StatusOnly (code : Z)                          (* map[string]int{"statusCode": code} *)
  | Mapped (v : V).
Arguments Nothing {V}. Arguments StatusOnly {V} code. Arguments Mapped {V} v.

Definition HandlerIDEnvVar : string := "CELERITY_HANDLER_ID".
Definition HandlerTagEnvVar : string := "CELERITY_HANDLER_TAG".
Definition ErrNoHandler : error := EString "celerity: no handler for event".

Section dispatcher.
Context {V W : Type} `{Resolver W} (adapter : Adapter V W) (flush : option (Ctx → W → option error * W)).

Abbreviation mapper := adapter.(Mapper).
Abbreviation ServerlessHandler := (ServerlessHandler (W := W)).

(** ** The dispatcher *)

(** [dispatcher]; [resolution] is what [once] has run to, with [resolved] and
    [resolveErr]. *)
Record dispatcher : Type := MkDispatcher {
  handlerID : string;
  handlerTag : string;
  resolution : option (result error ServerlessHandler);
}.

(** [NewInvoker]. *)
Definition NewInvoker (env : string → string) : dispatcher :=
  MkDispatcher (env HandlerIDEnvVar) (env HandlerTagEnvVar) None.

Definition unresolvable (d : dispatcher) (kind : Kind) : error :=
  EWrap (error_text ErrNoHandler +:+ ": kind " +:+ go_quote kind +:+ ", "
         +:+ HandlerIDEnvVar +:+ "=" +:+ go_quote d.(handlerID) +:+ ", "
         +:+ HandlerTagEnvVar +:+ "=" +:+ go_quote d.(handlerTag)) ErrNoHandler.

(** [resolve]: each source is tried where it was given and did not answer. *)
Definition by_id (d : dispatcher) : option ServerlessHandler :=
  if bool_decide (d.(handlerID) = "") then None else FindByName d.(handlerID).
Definition by_tag (d : dispatcher) : option ServerlessHandler :=
  if bool_decide (d.(handlerTag) = "") then None else FindByTag d.(handlerTag).

Definition resolve (d : dispatcher) (kind : Kind) : result error ServerlessHandler :=
  match by_id d with
  | Some h => Ok h
  | None =>
  match by_tag d with
  | Some h => Ok h
  | None =>
  match FindOnly kind with
  | Some h => Ok h
  | None => Err (unresolvable d kind)
  end end end.

(** [once.Do]. *)
Definition once (d : dispatcher) (kind : Kind) : dispatcher * result error ServerlessHandler :=
  match d.(resolution) with
  | Some r => (d, r)
  | None => let r := resolve d kind in (MkDispatcher d.(handlerID) d.(handlerTag) (Some r), r)
  end.

(** What the two results of a mapper are returned as. *)
Definition mapped (r : result error V) : outcome (reply V) :=
  match r with Ok v => Returned (Mapped v) None | Err e => Returned Nothing (Some e) end.

Definition fails (e : error) : outcome (reply V) := Returned Nothing (Some e).

(** A string in double quotes. *)
Definition quoted (s : string) : string := String dquote "" +:+ s +:+ String dquote "".

Definition not_found : Response :=
  MkResponse 404 {[ "content-type" := ["application/json"] ]}
    ("{" +:+ quoted "message" +:+ ":" +:+ quoted "Not Found" +:+ "}").

(** [noHandler]. *)
Definition noHandler (kind : Kind) (cause : error) : outcome (reply V) :=
  if bool_decide (kind = KindHTTP) then mapped (FromResponse mapper (Some not_found))
  else if bool_decide (kind = KindWebSocket) then Returned (StatusOnly 404) None
  else if bool_decide (kind = KindCustom)
  then mapped (FromCustomResult mapper (Some (MkCustomInvokeResult "")))
  else fails cause.

(** [toEvent].  The event has no timestamp, no deadline and no trace context, and an
    id only where its source carries one. *)
Definition event_of (tag : string) (kind : Kind) (id : string) (http : option Request)
    (ws : option WebSocketMessage) (consumer : option ConsumerBatch)
    (schedule : option ScheduleTrigger) (custom : option CustomInvoke) : Event :=
  MkEvent id tag kind None None ∅ http ws consumer schedule custom.

Definition mapping_failed (kind : Kind) (e : error) : error :=
  EWrap ("mapping " +:+ kind +:+ " event: " +:+ error_text e) e.

Definition with_source {A} (kind : Kind) (r : result error A) (k : A → Event) :
    result error Event :=
  match r with Ok a => Ok (k a) | Err e => Err (mapping_failed kind e) end.

Definition id_of {A} (f : A → string) (o : option A) : string :=
  match o with Some a => f a | None => "" end.

Definition toEvent (tag : string) (kind : Kind) (payload : bytes) : result error Event :=
  if bool_decide (kind = KindHTTP) then
    with_source kind (ToRequest mapper payload)
      (λ r, event_of tag kind (id_of RequestRequestID r) r None None None None)
  else if bool_decide (kind = KindWebSocket) then
    with_source kind (ToWebSocketMessage mapper payload)
      (λ m, event_of tag kind (id_of WSRequestID m) None m None None None)
  else if bool_decide (kind = KindConsumer) then
    with_source kind (ToConsumerBatch mapper payload tag)
      (λ b, event_of tag kind "" None None b None None)
  else if bool_decide (kind = KindSchedule) then
    with_source kind (ToScheduleTrigger mapper payload tag)
      (λ t, event_of tag kind (id_of ScheduleMessageID t) None None None t None)
  else if bool_decide (kind = KindCustom) then
    with_source kind (ToCustomInvoke mapper payload)
      (λ c, event_of tag kind "" None None None None c)
  else Err (EString ("unsupported event source " +:+ go_quote kind)).

(** [webSocketStatus] and [scheduleError]. *)
Definition webSocketStatus (ack : option Ack) : reply V :=
  match ack with
  | Some a => if a.(AckSuccess) then StatusOnly 200 else StatusOnly 401
  | None => StatusOnly 200
  end.

Definition scheduleError (ack : option Ack) : option error :=
  match ack with
  | Some a => if a.(AckSuccess) then None
              else Some (EString ("scheduled handler failed: " +:+ a.(AckError)))
  | None => None
  end.

Definition fromResult (kind : Kind) (res : option Result) : outcome (reply V) :=
  match res with
  | None => Returned Nothing None
  | Some r =>
      match r.(ResultError) with
      | Some e => fails (EHandler e.(ErrorMessage) e.(ErrorType) e.(ErrorStack))
      | None =>
          if bool_decide (kind = KindHTTP) then mapped (FromResponse mapper r.(ResultHTTP))
          else if bool_decide (kind = KindWebSocket)
          then Returned (webSocketStatus r.(ResultWebSocket)) None
          else if bool_decide (kind = KindConsumer)
          then mapped (FromBatchResult mapper r.(ResultConsumer))
          else if bool_decide (kind = KindSchedule)
          then Returned Nothing (scheduleError r.(ResultSchedule))
          else if bool_decide (kind = KindCustom)
          then mapped (FromCustomResult mapper r.(ResultCustom))
          else fails (EString ("unsupported event source " +:+ go_quote kind))
      end
  end.

(** ** An invocation *)

(** [webSocketSender] and [acknowledgeReceipt]. *)
Definition webSocketSender (c : Ctx) (kind : Kind) (payload : bytes) (w : W) : option Sender * W :=
  if bool_decide (kind = KindWebSocket) then
    match adapter.(WebSocketSender) with
    | None => (None, w)
    | Some provider =>
        match provider c payload w with
        | (Ok sender, w) => (Some sender, w)
        | (Err _, w) => (None, w)
        end
    end
  else (None, w).

Definition acknowledgeReceipt (c : Ctx) (payload : bytes) (w : W) : W :=
  match adapter.(AcknowledgeReceipt) with
  | None => w
  | Some acker =>
      match ToWebSocketMessage mapper payload with
      | Ok (Some msg) => (acker c msg w).2
      | _ => w
      end
  end.

(** The context and the world the handler is resolved in. *)
Definition received (c : Ctx) (kind : Kind) (payload : bytes) (w : W) : Ctx * W :=
  match webSocketSender c kind payload w with
  | (Some sender, w) =>
      let c := WithWebSocketSender c sender in (c, acknowledgeReceipt c payload w)
  | (None, w) => (c, w)
  end.

(** [telemetry.Flush], of the flusher installed, in a context that outlives the
    invocation's deadline; the two seconds it is given are not modelled. *)
Definition flushTelemetry (c : Ctx) (w : W) : W :=
  match flush with
  | None => w
  | Some f =>
      (f (MkCtx c.(ctxEvent) c.(ctxIdentity) c.(ctxTrace) c.(ctxLogger) None c.(ctxSpan)
            c.(ctxSender)) w).2
  end.

Definition run_handler (h : ServerlessHandler) (c : Ctx) (kind : Kind) (payload : bytes) (w : W) :
    outcome (reply V) * W :=
  match toEvent h.(sh_Tag) kind payload with
  | Err e => (fails e, w)
  | Ok ev =>
      let '(o, w) := h.(sh_Invoke) c ev w in
      (match o with
       | Panicked v => Panicked v
       | Returned _ (Some e) => fails e
       | Returned res None => fromResult kind res
       end, w)
  end.

(** [invoke] before its deferred flush. *)
Definition invoke_body (d : dispatcher) (c : Ctx) (payload : bytes) (w : W) :
    outcome (reply V) * dispatcher * W :=
  match Detect mapper payload with
  | Err e => (fails (EWrap ("detecting event source: " +:+ error_text e) e), d, w)
  | Ok kind =>
      let '(c, w) := received c kind payload w in
      let '(d, r) := once d kind in
      match r with
      | Err cause => (noHandler kind cause, d, w)
      | Ok h => let '(o, w) := run_handler h c kind payload w in (o, d, w)
      end
  end.

Definition invoke (d : dispatcher) (c : Ctx) (payload : bytes) (w : W) :
    outcome (reply V) * dispatcher * W :=
  let '(o, d, w) := invoke_body d c payload w in (o, d, flushTelemetry c w).

(** The invocations of one execution environment, one after the other; one that
    panics ends it. *)
Fixpoint environment (d : dispatcher) (events : list (Ctx * bytes)) (w : W) :
    list (outcome (reply V)) * dispatcher * W :=
  match events with
  | [] => ([], d, w)
  | (c, payload) :: events =>
      let '(o, d, w) := invoke d c payload w in
      match o with
      | Panicked _ => ([o], d, w)
      | _ => let '(os, d, w) := environment d events w in (o :: os, d, w)
      end
  end.

(** ** Resolution *)

Lemma once_given d kind :
  (once d kind).1.(handlerID) = d.(handlerID) ∧ (once d kind).1.(handlerTag) = d.(handlerTag) ∧
  (once d kind).1.(resolution) = Some (once d kind).2.
Proof using Type. unfold once. by destruct (resolution d) eqn:Hr. Qed.

Lemma invoke_resolution d c payload w :
  (invoke d c payload w).1.2.(resolution) =
    match d.(resolution), Detect mapper payload with
    | Some r, _ => Some r
    | None, Ok kind => Some (resolve d kind)
    | None, Err _ => None
    end ∧
  (invoke d c payload w).1.2.(handlerID) = d.(handlerID) ∧
  (invoke d c payload w).1.2.(handlerTag) = d.(handlerTag).
Proof using Type.
  unfold invoke, invoke_body. destruct (Detect mapper payload) as [kind|e]; simpl.
  - destruct (received c kind payload w) as [c1 w1]. unfold once.
    destruct (resolution d) as [[h|e]|] eqn:Hd; simpl; rewrite ?Hd.
    + by destruct (run_handler _ _ _ _ _).
    + done.
    + destruct (resolve d kind) as [h|e]; simpl; [by destruct (run_handler _ _ _ _ _)|done].
  - by destruct (resolution d).
Qed.

Lemma resolve_given d d' kind :
  d'.(handlerID) = d.(handlerID) → d'.(handlerTag) = d.(handlerTag) →
  resolve d' kind = resolve d kind.
Proof using Type. destruct d, d'; simpl; intros -> ->. reflexivity. Qed.

(** The source of the first event of an environment that is recognised. *)
Definition first_kind (events : list (Ctx * bytes)) : option Kind :=
  head (omap (λ e, match Detect mapper e.2 with Ok kind => Some kind | Err _ => None end) events).

(** No invocation of an environment panics. *)
Definition survives (d : dispatcher) (events : list (Ctx * bytes)) (w : W) : Prop :=
  length (environment d events w).1.1 = length events ∧
  ∀ o, o ∈ (environment d events w).1.1 → ∀ v, o ≠ Panicked v.

Lemma environment_resolution d events w :
  survives d events w →
  (environment d events w).1.2.(resolution) =
    match d.(resolution) with
    | Some r => Some r
    | None => resolve d <$> first_kind events
    end.
Proof using Type.
  revert d w. induction events as [|[c payload] events IH]; intros d w Hs.
  { simpl. by destruct (resolution d). }
  destruct (invoke_resolution d c payload w) as (Hr & Hi & Ht). revert Hs.
  unfold survives. simpl. destruct (invoke d c payload w) as [[o d1] w1]. simpl in *.
  destruct o as [a e|v].
  2:{ simpl. intros [_ Hno]. exfalso. by apply (Hno (Panicked v) ltac:(by left) v). }
  specialize (IH d1 w1). unfold survives in IH.
  destruct (environment d1 events w1) as [[os d2] w2]. simpl in *. intros [Hlen Hno].
  rewrite IH, Hr; [|split; [lia|intros o' Ho'; apply Hno; by right]].
  unfold first_kind. destruct (resolution d) as [r|]; [done|]. simpl.
  destruct (Detect mapper payload) as [kind|e']; [done|].
  destruct (head _) as [kind|]; [|done]. simpl. f_equal. by apply resolve_given.
Qed.

(** Resolution happens once.  The handler an environment serves is settled by its
    first event that is recognised, whatever comes after and of whatever source: by
    the id the deployment set where it names a handler, else by the tag where it
    names one, else by being the only handler of that event's source; and where none
    of the three answers, every later event is unroutable too. *)
Lemma environment_resolves_once env events w :
  let d := NewInvoker env in
  survives d events w →
  (environment d events w).1.2.(resolution) = resolve d <$> first_kind events ∧
  (∀ kind h, resolve d kind = Ok h ↔
     by_id d = Some h ∨ (by_id d = None ∧ by_tag d = Some h) ∨
     (by_id d = None ∧ by_tag d = None ∧ FindOnly kind = Some h)) ∧
  (∀ kind e, resolve d kind = Err e →
     by_id d = None ∧ by_tag d = None ∧ FindOnly kind = None ∧ errors_is (error_text ErrNoHandler) e).
Proof using Type.
  intros d Hs. rewrite environment_resolution by done. split_and!.
  - done.
  - intros kind h. unfold resolve. destruct (by_id d), (by_tag d), (FindOnly kind); naive_solver.
  - intros kind e. unfold resolve.
    destruct (by_id d), (by_tag d), (FindOnly kind); try done. by intros [= <-].
Qed.

(** ** Outcomes *)

Lemma invoke_outcome d c payload kind w :
  Detect mapper payload = Ok kind →
  let '(c1, w1) := received c kind payload w in
  (invoke d c payload w).1.1 =
    match (once d kind).2 with
    | Err cause => noHandler kind cause
    | Ok h => (run_handler h c1 kind payload w1).1
    end.
Proof using Type.
  intros Hk. unfold invoke, invoke_body. rewrite Hk.
  destruct (received c kind payload w) as [c1 w1]. destruct (once d kind) as [d1 [h|e]]; [|done].
  simpl. by destruct (run_handler h c1 kind payload w1).
Qed.

(** A handler ran on the event and did not fail. *)
Definition handled_well (h : ServerlessHandler) (c : Ctx) (kind : Kind) (payload : bytes) (w : W) :
    Prop :=
  ∃ ev res, toEvent h.(sh_Tag) kind payload = Ok ev ∧
    (h.(sh_Invoke) c ev w).1 = Returned res None ∧
    ∀ r, res = Some r → r.(ResultError) = None ∧
      (kind = KindSchedule → ∀ a, r.(ResultSchedule) = Some a → a.(AckSuccess) = true).

Lemma run_handler_succeeds h c kind payload w a :
  (run_handler h c kind payload w).1 = Returned a None → handled_well h c kind payload w.
Proof using Type.
  unfold run_handler, handled_well. destruct (toEvent _ _ _) as [ev|e]; [|done].
  destruct (sh_Invoke h c ev w) as [o w1] eqn:Ho. simpl.
  destruct o as [res [e|]|v]; [done| |done]. intros Hf. exists ev, res.
  rewrite Ho. split_and!; [done..|]. intros r ->. unfold fromResult in Hf.
  destruct (ResultError r); [done|]. split; [done|]. intros -> a' Ha'. revert Hf.
  rewrite !bool_decide_eq_false_2 by done. simpl. rewrite Ha'. simpl.
  by destruct (AckSuccess a').
Qed.

(** C19: nothing is quietly consumed.  An invocation for a batch of records or a
    schedule's trigger succeeds only where a handler was resolved, the payload was
    mapped to its event, the handler ran on it and answered no error, and a trigger
    was acknowledged as handled: a batch or a trigger that reaches no handler fails
    the invocation. *)
Theorem no_quiet_success d c payload kind w a :
  Detect mapper payload = Ok kind → kind = KindConsumer ∨ kind = KindSchedule →
  (invoke d c payload w).1.1 = Returned a None →
  ∃ h, (once d kind).2 = Ok h ∧
    let '(c1, w1) := received c kind payload w in handled_well h c1 kind payload w1.
Proof using Type.
  intros Hk Hkind. pose proof (invoke_outcome d c payload kind w Hk) as Ho.
  destruct (received c kind payload w) as [c1 w1]. rewrite Ho.
  destruct (once d kind).2 as [h|e].
  - intros Hr. exists h. split; [done|]. by eapply run_handler_succeeds.
  - unfold noHandler. by destruct Hkind as [->| ->].
Qed.

(** What an unroutable event is answered with.  A request is a 404, a WebSocket
    message a 404 status, an invocation an empty output, and a batch or a trigger the
    error that says what was looked for. *)
Lemma unroutable_answers d c payload kind w cause :
  Detect mapper payload = Ok kind → (once d kind).2 = Err cause →
  (kind = KindHTTP → (invoke d c payload w).1.1 = mapped (FromResponse mapper (Some not_found))) ∧
  (kind = KindWebSocket → (invoke d c payload w).1.1 = Returned (StatusOnly 404) None) ∧
  (kind = KindCustom → (invoke d c payload w).1.1 =
     mapped (FromCustomResult mapper (Some (MkCustomInvokeResult "")))) ∧
  (kind ∉ [KindHTTP; KindWebSocket; KindCustom] → (invoke d c payload w).1.1 = fails cause).
Proof using Type.
  intros Hk He. pose proof (invoke_outcome d c payload kind w Hk) as Ho.
  destruct (received c kind payload w) as [c1 w1]. rewrite Ho, He. unfold noHandler.
  split_and!; try by intros ->.
  rewrite !not_elem_of_cons. intros (H1 & H2 & H3 & _). by rewrite !bool_decide_eq_false_2.
Qed.

(** A WebSocket message is acknowledged as received before anything else.  On a
    platform whose adapter makes a sender and acknowledges receipts, the receipt of a
    message is acknowledged once, with the sender already in the context; the
    handler, if there is one, then runs with that sender in the world the
    acknowledgement left, and whether it succeeded changes nothing else; a message
    that reaches no handler was acknowledged all the same. *)
Lemma receipt_first d c payload w provider acker sender w1 msg err w2 :
  Detect mapper payload = Ok KindWebSocket →
  adapter.(WebSocketSender) = Some provider → provider c payload w = (Ok sender, w1) →
  adapter.(AcknowledgeReceipt) = Some acker → ToWebSocketMessage mapper payload = Ok (Some msg) →
  acker (WithWebSocketSender c sender) msg w1 = (err, w2) →
  match (once d KindWebSocket).2 with
  | Err _ => invoke d c payload w =
      (Returned (StatusOnly 404) None, (once d KindWebSocket).1, flushTelemetry c w2)
  | Ok h => ∃ o w3, h.(sh_Invoke) (WithWebSocketSender c sender)
        (event_of h.(sh_Tag) KindWebSocket msg.(WSRequestID) None (Some msg) None None None) w2
        = (o, w3) ∧
      invoke d c payload w =
        (match o with
         | Panicked v => Panicked v
         | Returned _ (Some e) => fails e
         | Returned res None => fromResult KindWebSocket res
         end, (once d KindWebSocket).1, flushTelemetry c w3)
  end.
Proof using Type.
  intros Hk Hp Hs Ha Hm Hack.
  assert (received c KindWebSocket payload w = (WithWebSocketSender c sender, w2)) as Hrec.
  { unfold received, webSocketSender. rewrite bool_decide_eq_true_2, Hp, Hs by done.
    unfold acknowledgeReceipt. by rewrite Ha, Hm, Hack. }
  unfold invoke, invoke_body. rewrite Hk, Hrec. destruct (once d KindWebSocket) as [d1 [h|e]]; [|done].
  unfold run_handler, toEvent, with_source. rewrite bool_decide_eq_false_2 by done.
  rewrite bool_decide_eq_true_2 by done. simpl. rewrite Hm. simpl.
  destruct (sh_Invoke h _ _ w2) as [o w3]. by exists o, w3.
Qed.
End dispatcher.

(** ** The application as a resolver *)

Section application.
Context {V W F : Type} `{Tracer W} (a : App (W := W) (F := F)).

(** [App.Resolver].  Over a well-formed registry [ResolveByName] and [Only] follow no
    nil pointer, and [mjoin] loses nothing. *)
Definition app_resolver : Resolver W := {|
  FindByName name := mjoin (ResolveByName a name);
  FindByTag tag := ByTag a tag;
  FindOnly kind := mjoin (Only a kind);
|}.

Lemma ByTag_spec tag h :
  registry_wf a.(registry) → ByTag a tag = Some h →
  h.(sh_Tag) = tag ∧ resolvePipeline a tag = Some h.(sh_Invoke).
Proof using Type.
  intros Hwf. unfold ByTag, resolvePipeline, Get, handler_at.
  destruct (byTag _ !! tag) as [i|] eqn:Hi; [|done]. simpl.
  destruct (wf_tag _ Hwf _ _ Hi) as (reg & -> & Ht). simpl. by intros [= <-].
Qed.

Lemma app_resolver_laws : registry_wf a.(registry) → @ResolverLaws W app_resolver.
Proof using Type.
  intros Hwf. split.
  - intros tag h Hh. by apply ByTag_spec in Hh as [? _].
  - intros kind h. simpl. unfold Only. rewrite OfKind_wf by done. simpl.
    destruct (List.filter _ _) as [|i [|j js]] eqn:Hf; simpl; [done| |done].
    assert (In i (i :: [])) as Hi by by left. rewrite <- Hf in Hi.
    apply filter_In in Hi as [_ Hi]. unfold handler_at. simpl in *.
    destruct (heap _ !! i) as [reg|] eqn:Hr; simpl; [|done]. intros [= <-]. simpl.
    by apply bool_decide_eq_true in Hi.
Qed.

(** C22: a function runs the handler it was told to.  A function whose deployment gives
    it the tag of a declared handler, and no id that names another, settles on that
    handler at its first event, and runs on every event the very pipeline the
    runtime's dispatcher resolves for the tag. *)
Theorem told_tag_runs_pipeline (env : string → string) kind :
  let d := NewInvoker (W := W) env in
  let R := app_resolver in
  registry_wf a.(registry) →
  (env HandlerIDEnvVar = "" ∨ mjoin (ResolveByName a (env HandlerIDEnvVar)) = None) →
  env HandlerTagEnvVar ≠ "" → env HandlerTagEnvVar ∈ Tags a.(registry) →
  ∃ h, (once d kind).2 = Ok h ∧ h.(sh_Tag) = env HandlerTagEnvVar ∧
    resolvePipeline a (env HandlerTagEnvVar) = Some h.(sh_Invoke).
Proof using Type.
  intros d R Hwf Hid Hne Htag. unfold once. simpl. unfold resolve, by_id, by_tag. simpl.
  assert ((if bool_decide (env HandlerIDEnvVar = "") then None
           else mjoin (ResolveByName a (env HandlerIDEnvVar))) = None) as ->.
  { case_bool_decide; [done|]. by destruct Hid. }
  rewrite bool_decide_eq_false_2 by done.
  apply (resolvePipeline_iff a) in Htag as [p Hp]; [|done].
  assert (is_Some (ByTag a (env HandlerTagEnvVar))) as [h Hh].
  { revert Hp. unfold resolvePipeline, ByTag. destruct (Get _ _); [|done]. simpl.
    destruct (handler_at a _); [|done]. eauto. }
  rewrite Hh. exists h. split; [done|]. by apply ByTag_spec.
Qed.
End application.

(** ** Linked adapters *)

Section registered.
Context {V W : Type}.
Implicit Types (a : Adapter V W) (registered : list (Adapter V W)).

(** [Register]: a name taken is a panic, which [None] is. *)
Definition Register registered a : option (list (Adapter V W)) :=
  if existsb (λ e, bool_decide (e.(AdapterName) = a.(AdapterName))) registered then None
  else Some (registered ++ [a]).

Definition Registered registered : list string := sort_strings (AdapterName <$> registered).

(** [Detected]: the first whose platform this is. *)
Definition Detected registered : option (Adapter V W) :=
  List.find (λ a, a.(DetectPlatform)) registered.

(** The adapters of a binary, linked in the order of their imports. *)
Definition link (adapters : list (Adapter V W)) : option (list (Adapter V W)) :=
  foldl (λ acc a, registered ← acc; Register registered a) (Some []) adapters.

Lemma link_from adapters registered :
  NoDup (AdapterName <$> registered) →
  match foldl (λ acc a, registered ← acc; Register registered a) (Some registered) adapters with
  | Some r => r = registered ++ adapters ∧ NoDup (AdapterName <$> (registered ++ adapters))
  | None => ¬ NoDup (AdapterName <$> (registered ++ adapters))
  end.
Proof using Type.
  revert registered. induction adapters as [|a adapters IH]; intros registered Hnd; simpl.
  { by rewrite app_nil_r. }
  unfold Register at 2. destruct (existsb _ registered) eqn:He; simpl.
  - assert (foldl (λ acc a, registered ← acc; Register registered a) None adapters = None) as ->
      by (clear; induction adapters; simpl; auto).
    rewrite fmap_app, fmap_cons, NoDup_app. intros (_ & Hdis & _).
    apply existsb_exists in He as (e & He%list_elem_of_In & Heq%bool_decide_eq_true).
    apply (Hdis (AdapterName e)); [by apply list_elem_of_fmap_2|]. rewrite Heq. by left.
  - assert (NoDup (AdapterName <$> (registered ++ [a]))) as Hnd'.
    { rewrite fmap_app, NoDup_app. split_and!; [done| |by apply NoDup_singleton].
      intros x (e & -> & He')%list_elem_of_fmap Hx. apply list_elem_of_singleton in Hx.
      assert (existsb (λ e, bool_decide (AdapterName e = AdapterName a)) registered = true);
        [|congruence].
      apply existsb_exists. exists e. split; [by apply list_elem_of_In|].
      by apply bool_decide_eq_true. }
    specialize (IH _ Hnd'). by rewrite <- (assoc_L (++)) in IH.
Qed.

(** Linking panics exactly where two adapters have one name, and otherwise keeps
    them all, in order. *)
Lemma link_spec adapters :
  (NoDup (AdapterName <$> adapters) → link adapters = Some adapters) ∧
  (¬ NoDup (AdapterName <$> adapters) → link adapters = None).
Proof using Type.
  pose proof (link_from adapters [] (NoDup_nil_2 (A := string))) as Hl. unfold link.
  destruct (foldl _ _ _) as [r|]; simpl in Hl.
  - destruct Hl as [-> ?]. by split.
  - by split.
Qed.
End registered.

Definition missing_adapter_text (linked : list string) : string :=
  "running in a serverless environment that no linked adapter serves." +:+ newline
  +:+ "Import the adapter for the platform being deployed to, for example:" +:+ newline +:+ newline
  +:+ tab +:+ "import _ " +:+ quoted "github.com/newstack-cloud/celerity-go-sdk/serverless/aws"
  +:+ newline
  +:+ (match linked with
       | [] => newline +:+ "No serverless adapters are linked into this binary."
       | _ => newline +:+ "Adapters linked into this binary: " +:+ join linked ", "
       end).

(** [MissingAdapterError]. *)
Definition MissingAdapterError (linked : list string) : error :=
  EApp (MkApp (missing_adapter_text linked) "*serverless.MissingAdapterError" None None None None)
    None.

(** [App.adapter]: the one given, or the linked one whose platform this is. *)
Definition choose_adapter {V W} (given : option (Adapter V W)) (registered : list (Adapter V W)) :
    result error (Adapter V W) :=
  match given with
  | Some a => Ok a
  | None =>
      match Detected registered with
      | Some a => Ok a
      | None => Err (MissingAdapterError (Registered registered))
      end
  end.

(** ** Witnesses *)

(** A provider whose payload is the name of its source. *)
Definition plain_mapper : EventMapper string :=
  MkEventMapper
    (λ p, if bool_decide (p = "") then Err (EString "empty payload") else Ok p)
    (λ p, Ok (Some (MkRequest "GET" "/" "/" ∅ ∅ ∅ "" "r1" "")))
    (λ r, Ok "response")
    (λ p, Ok (Some (MkWebSocketMessage "$default" "conn" "" "r1" p false "m1")))
    (λ p tag, Ok (Some (MkConsumerBatch [] tag "" "")))
    (λ b, Ok "batch")
    (λ p tag, Ok (Some (MkScheduleTrigger "s" "m1" "" "" "")))
    (λ p, Ok (Some (MkCustomInvoke "a" p)))
    (λ c, Ok "custom").

(** It counts the receipts it acknowledges in the world. *)
Definition plain_adapter : Adapter string nat :=
  MkAdapter "plain" true plain_mapper (Some (λ c p w, (Ok 7, w))) (Some (λ c m w, (None, S w))).

Definition plain_resolver : Resolver nat := app_resolver (H := noopTracer) plain_app.

Definition told (tag : string) : string → string :=
  λ name, if bool_decide (name = HandlerTagEnvVar) then tag else "".

Lemma environment_resolves_once_witness :
  let R := plain_resolver in
  let d := NewInvoker (told "") in
  (environment plain_adapter None d [(Background, ""); (Background, "custom"); (Background, "http")] 0)
    .1.2.(resolution) = Some (resolve d KindCustom).
Proof.
  intros R d.
  assert (survives plain_adapter None d
    [(Background, ""); (Background, "custom"); (Background, "http")] 0) as Hs.
  { split; [vm_compute; reflexivity|]. intros o Ho v ->. vm_compute in Ho.
    repeat (apply elem_of_cons in Ho as [Ho|Ho]; [discriminate|]). by apply elem_of_nil in Ho. }
  exact (proj1 (environment_resolves_once plain_adapter None (told "") _ 0 Hs)).
Defined.

Lemma no_quiet_success_witness :
  let R := plain_resolver in
  (invoke plain_adapter None (NewInvoker (told "custom::a")) Background "schedule" 0).1.1
    = Returned Nothing None ∧
  ∃ h, (once (NewInvoker (told "custom::a")) KindSchedule).2 = Ok h.
Proof.
  intros R.
  assert ((invoke plain_adapter None (NewInvoker (told "custom::a")) Background "schedule" 0).1.1
    = Returned Nothing None) as Ha by (vm_compute; reflexivity).
  split; [exact Ha|].
  destruct (no_quiet_success plain_adapter None (NewInvoker (told "custom::a")) Background
    "schedule" KindSchedule 0 Nothing eq_refl (or_intror eq_refl) Ha) as (h & Hh & _).
  exists h. exact Hh.
Defined.

Lemma unroutable_answers_witness :
  let R := plain_resolver in
  (invoke plain_adapter None (NewInvoker (told "none")) Background "websocket" 0).1.1 =
    Returned (StatusOnly 404) None.
Proof.
  intros R.
  assert (∃ cause, (once (NewInvoker (told "none")) KindWebSocket).2 = Err cause) as [cause Hc]
    by (eexists; vm_compute; reflexivity).
  exact (proj1 (proj2 (unroutable_answers plain_adapter None (NewInvoker (told "none")) Background
    "websocket" KindWebSocket 0 cause eq_refl Hc)) eq_refl).
Defined.

Lemma receipt_first_witness :
  let R := plain_resolver in
  invoke plain_adapter None (NewInvoker (told "none")) Background "websocket" 0 =
    (Returned (StatusOnly 404) None, (once (NewInvoker (told "none")) KindWebSocket).1, 1).
Proof.
  intros R.
  exact (receipt_first plain_adapter None (NewInvoker (told "none")) Background "websocket" 0
    (λ c p w, (Ok 7, w)) (λ c m w, (None, S w)) 7 0
    (MkWebSocketMessage "$default" "conn" "" "r1" "websocket" false "m1") None 1
    eq_refl eq_refl eq_refl eq_refl eq_refl eq_refl).
Defined.

Lemma told_tag_runs_pipeline_witness :
  let R := plain_resolver in
  ∃ h, (once (NewInvoker (told "custom::a")) KindCustom).2 = Ok h ∧ h.(sh_Tag) = "custom::a".
Proof.
  intros R.
  assert ("custom::a" ∈ Tags plain_app.(registry)) as Hin.
  { apply elem_of_sort_strings, elem_of_keys. by exists 0. }
  destruct (told_tag_runs_pipeline (H := noopTracer) plain_app (told "custom::a") KindCustom
    plain_app_wf (or_introl eq_refl) ltac:(discriminate) Hin) as (h & Hh & Ht & _).
  exists h. split; [exact Hh|exact Ht].
Defined.
