(* ===== verification/Encoding.v ===== *)
(** * Byte encodings of the standard library

    What [serverless/aws/http.go] uses of encoding/base64, unicode/utf8 and net/url:
    [base64.StdEncoding], [utf8.Valid] and [url.ParseQuery]. *)

From S2P Require Import Prelude GoStrings Json Route.
From stdpp Require Import options.
From Stdlib Require Import ZArith ZifyNat Lia.

(** ** Base64 *)

Definition in_range (lo hi n : nat) : bool := (lo <=? n) && (n <=? hi).

Definition b64_char (n : nat) : ascii :=
  ascii_of_nat (if n <? 26 then 65 + n
                else if n <? 52 then 71 + n
                else if n <? 62 then n - 4
                else if n =? 62 then 43 else 47).

Definition b64_val (c : ascii) : option nat :=
  let n := nat_of_ascii c in
  if in_range 65 90 n then Some (n - 65)
  else if in_range 97 122 n then Some (n - 71)
  else if in_range 48 57 n then Some (n + 4)
  else if n =? 43 then Some 62
  else if n =? 47 then Some 63
  else None.

Definition pad : ascii := "=".

(** [EncodeToString]: three bytes to four characters, padded. *)
Fixpoint b64_encode (s : bytes) : string :=
  match s with
  | "" => ""
  | String a "" =>
      let a := nat_of_ascii a in
      String (b64_char (a / 4)) (String (b64_char (a mod 4 * 16)) (String pad (String pad "")))
  | String a (String b "") =>
      let a := nat_of_ascii a in let b := nat_of_ascii b in
      String (b64_char (a / 4)) (String (b64_char (a mod 4 * 16 + b / 16))
        (String (b64_char (b mod 16 * 4)) (String pad "")))
  | String a (String b (String c s)) =>
      let a := nat_of_ascii a in let b := nat_of_ascii b in let c := nat_of_ascii c in
      String (b64_char (a / 4)) (String (b64_char (a mod 4 * 16 + b / 16))
        (String (b64_char (b mod 16 * 4 + c / 64)) (String (b64_char (c mod 64))
          (b64_encode s))))
  end.

(** The decoder skips line breaks wherever they stand. *)
Definition line_break (c : ascii) : bool :=
  let n := nat_of_ascii c in (n =? 10) || (n =? 13).

Fixpoint drop_breaks (s : string) : string :=
  match s with
  | "" => ""
  | String c s => if line_break c then drop_breaks s else String c (drop_breaks s)
  end.

(** Four characters at a time; padding ends the text, and the bits a padded quantum
    leaves over are ignored. *)
Fixpoint b64_quanta (s : string) : option bytes :=
  match s with
  | "" => Some ""
  | String c1 (String c2 (String c3 (String c4 s))) =>
      a ← b64_val c1; b ← b64_val c2;
      let first := ascii_of_nat (a * 4 + b / 16) in
      if Ascii.eqb c3 pad then
        if Ascii.eqb c4 pad && bool_decide (s = "") then Some (String first "") else None
      else
        c ← b64_val c3;
        let second := ascii_of_nat (b mod 16 * 16 + c / 4) in
        if Ascii.eqb c4 pad then
          if bool_decide (s = "") then Some (String first (String second "")) else None
        else
          d ← b64_val c4;
          rest ← b64_quanta s;
          Some (String first (String second (String (ascii_of_nat (c mod 4 * 64 + d)) rest)))
  | _ => None
  end.

(** [DecodeString]. *)
Definition b64_decode (s : string) : option bytes := b64_quanta (drop_breaks s).

Example b64_ex : b64_encode "Hello" = "SGVsbG8=" ∧ b64_decode "SGVs
bG8=" = Some "Hello".
Proof. split; vm_compute; reflexivity. Qed.

(** *** What is encoded is decoded *)

Lemma b64_char_props n :
  n < 64 → b64_val (b64_char n) = Some n ∧ b64_char n ≠ pad ∧
  line_break (b64_char n) = false ∧ nat_of_ascii (b64_char n) < 128.
Proof.
  intros Hn.
  assert (forallb (λ n, bool_decide (b64_val (b64_char n) = Some n) &&
    negb (Ascii.eqb (b64_char n) pad) && negb (line_break (b64_char n)) &&
    (nat_of_ascii (b64_char n) <? 128)) (seq 0 64) = true) as Hall by (vm_compute; reflexivity).
  rewrite forallb_forall in Hall. specialize (Hall n).
  rewrite !andb_true_iff, !negb_true_iff, bool_decide_eq_true, Nat.ltb_lt in Hall.
  destruct Hall as (((? & He) & ?) & ?); [apply in_seq; lia|]. split_and!; try done.
  intros Hp. rewrite Hp in He. discriminate.
Qed.

Lemma nat_byte n c : n = nat_of_ascii c → ascii_of_nat n = c.
Proof. intros ->. apply ascii_nat_embedding. Qed.

Lemma byte_bound c : nat_of_ascii c < 256.
Proof. apply nat_ascii_bounded. Qed.

Lemma drop_breaks_char n s :
  n < 64 → drop_breaks (String (b64_char n) s) = String (b64_char n) (drop_breaks s).
Proof. intros Hn. simpl. by destruct (b64_char_props n Hn) as (_ & _ & -> & _). Qed.

Lemma pad_eqb n : n < 64 → Ascii.eqb (b64_char n) pad = false.
Proof. intros Hn. apply Ascii.eqb_neq. by destruct (b64_char_props n Hn) as (_ & ? & _). Qed.

Lemma b64_val_char n : n < 64 → b64_val (b64_char n) = Some n.
Proof. intros Hn. by destruct (b64_char_props n Hn). Qed.

(** Induction three bytes at a time. *)
Lemma string_ind3 (P : string → Prop) :
  P "" → (∀ a, P (String a "")) → (∀ a b, P (String a (String b ""))) →
  (∀ a b c s, P s → P (String a (String b (String c s)))) → ∀ s, P s.
Proof.
  intros H0 H1 H2 H3. fix IH 1. intros [|a [|b [|c s]]]; [exact H0|apply H1|apply H2|]. apply H3, IH.
Qed.

(** The sextets of three bytes, and the bytes of four sextets. *)
Lemma sextets a b c :
  a < 256 → b < 256 → c < 256 →
  a / 4 < 64 ∧ a mod 4 * 16 + b / 16 < 64 ∧ b mod 16 * 4 + c / 64 < 64 ∧ c mod 64 < 64 ∧
  a / 4 * 4 + (a mod 4 * 16 + b / 16) / 16 = a ∧
  (a mod 4 * 16 + b / 16) mod 16 * 16 + (b mod 16 * 4 + c / 64) / 4 = b ∧
  (b mod 16 * 4 + c / 64) mod 4 * 64 + c mod 64 = c.
Proof. intros. split_and!; zify; Z.to_euclidean_division_equations; lia. Qed.

Lemma sextets0 a b :
  a < 256 → b < 256 →
  a mod 4 * 16 < 64 ∧ b mod 16 * 4 < 64 ∧ a / 4 * 4 + a mod 4 * 16 / 16 = a ∧
  (a mod 4 * 16 + b / 16) mod 16 * 16 + b mod 16 * 4 / 4 = b.
Proof. intros. split_and!; zify; Z.to_euclidean_division_equations; lia. Qed.

Lemma b64_roundtrip s : b64_decode (b64_encode s) = Some s.
Proof.
  unfold b64_decode. induction s as [|a|a b|a b c s IH] using string_ind3; [done|..];
    cbn [b64_encode]; pose proof (byte_bound a) as Ha.
  - destruct (sextets0 _ _ Ha Ha) as (H1 & _ & H3 & _).
    destruct (sextets _ _ _ Ha Ha Ha) as (H0 & _).
    rewrite !drop_breaks_char by done. cbn [drop_breaks b64_quanta].
    change (line_break pad) with false. cbn [b64_quanta].
    rewrite !b64_val_char by done. cbn [mbind option_bind].
    rewrite H3, ascii_nat_embedding. done.
  - pose proof (byte_bound b) as Hb.
    destruct (sextets0 _ _ Ha Hb) as (H1 & H2 & _ & H4).
    destruct (sextets _ _ _ Ha Hb Hb) as (H0 & H5 & _ & _ & H6 & _).
    rewrite !drop_breaks_char by done. cbn [drop_breaks b64_quanta].
    change (line_break pad) with false. cbn [b64_quanta].
    rewrite !b64_val_char by done. cbn [mbind option_bind].
    rewrite pad_eqb, H4, H6, !ascii_nat_embedding by done. done.
  - pose proof (byte_bound b) as Hb. pose proof (byte_bound c) as Hc.
    destruct (sextets _ _ _ Ha Hb Hc) as (H0 & H1 & H2 & H3 & H4 & H5 & H6).
    rewrite !drop_breaks_char by done. cbn [b64_quanta].
    rewrite !b64_val_char by done. cbn [mbind option_bind].
    rewrite !pad_eqb, IH by done. cbn [mbind option_bind].
    by rewrite H4, H5, H6, !ascii_nat_embedding.
Qed.

(** ** UTF-8 *)

Definition cont (c : ascii) : bool := in_range 128 191 (nat_of_ascii c).

(** [utf8.Valid]: overlong forms, surrogates and what is past U+10FFFF are not. *)
Fixpoint utf8_valid (s : bytes) : bool :=
  match s with
  | "" => true
  | String a s1 =>
      let n := nat_of_ascii a in
      if n <? 128 then utf8_valid s1
      else match s1 with
      | "" => false
      | String b s2 =>
          let m := nat_of_ascii b in
          if in_range 194 223 n then cont b && utf8_valid s2
          else match s2 with
          | "" => false
          | String c s3 =>
              if in_range 224 239 n then
                (if n =? 224 then in_range 160 191 m
                 else if n =? 237 then in_range 128 159 m else cont b)
                && cont c && utf8_valid s3
              else match s3 with
              | "" => false
              | String d s4 =>
                  in_range 240 244 n
                  && (if n =? 240 then in_range 144 191 m
                      else if n =? 244 then in_range 128 143 m else cont b)
                  && cont c && cont d && utf8_valid s4
              end
          end
      end
  end.

Definition ascii_byte (c : ascii) : bool := nat_of_ascii c <? 128.

Lemma utf8_ascii s : all_bytes ascii_byte s = true → utf8_valid s = true.
Proof.
  induction s as [|c s IH]; [done|]. cbn [all_bytes utf8_valid]. unfold ascii_byte at 1.
  by intros [-> ?%IH]%andb_true_iff.
Qed.

Lemma b64_encode_ascii s : all_bytes ascii_byte (b64_encode s) = true.
Proof.
  assert (∀ n, n < 64 → ascii_byte (b64_char n) = true) as Hc.
  { intros n Hn. destruct (b64_char_props n Hn) as (_ & _ & _ & ?). by apply Nat.ltb_lt. }
  induction s as [|a|a b|a b c s IH] using string_ind3; [done|..];
    cbn [b64_encode all_bytes]; pose proof (byte_bound a) as Ha.
  - destruct (sextets0 _ _ Ha Ha) as (H1 & _). destruct (sextets _ _ _ Ha Ha Ha) as (H0 & _).
    by rewrite !Hc.
  - pose proof (byte_bound b) as Hb. destruct (sextets0 _ _ Ha Hb) as (_ & H2 & _).
    destruct (sextets _ _ _ Ha Hb Hb) as (H0 & H5 & _). by rewrite !Hc.
  - pose proof (byte_bound b) as Hb. pose proof (byte_bound c) as Hcc.
    destruct (sextets _ _ _ Ha Hb Hcc) as (H0 & H1 & H2 & H3 & _). by rewrite !Hc, IH.
Qed.

(** ** Query strings *)

(** [url.QueryUnescape]. *)
Fixpoint QueryUnescape (s : string) : option string :=
  match s with
  | "" => Some ""
  | String "%" (String a (String b s)) =>
      hi ← unhex a; lo ← unhex b; t ← QueryUnescape s;
      Some (String (ascii_of_nat (16 * hi + lo)) t)
  | String "%" _ => None
  | String "+" s => String " " <$> QueryUnescape s
  | String c s => String c <$> QueryUnescape s
  end.

(** One pair of a query: dropped where it is empty, holds a semicolon, or does not
    unescape. *)
Definition query_pair (part : string) : option (string * string) :=
  if contains part ";" || bool_decide (part = "") then None
  else
    let '(key, value) := default (part, "") (cut "=" part) in
    key ← QueryUnescape key; value ← QueryUnescape value; Some (key, value).

(** [url.ParseQuery], whose error is ignored where it is used. *)
Definition ParseQuery (query : string) : gmap string (list string) :=
  foldl (λ m part,
    match query_pair part with
    | Some (key, value) => <[key := default [] (m !! key) ++ [value]]> m
    | None => m
    end) ∅ (split_on "&" query).

(** [url.QueryEscape], which is how a client writes a name or a value. *)
Definition unreserved (c : ascii) : bool :=
  byte_in "0" "9" c || byte_in "a" "z" c || byte_in "A" "Z" c ||
  Ascii.eqb c "-" || Ascii.eqb c "_" || Ascii.eqb c "." || Ascii.eqb c "~".

Definition hex_upper (n : nat) : ascii :=
  if n <? 10 then ascii_of_nat (48 + n) else ascii_of_nat (55 + n).

Definition query_byte (c : ascii) : string :=
  if unreserved c then String c ""
  else if Ascii.eqb c " " then "+"
  else let n := nat_of_ascii c in
       String "%" (String (hex_upper (n / 16)) (String (hex_upper (n mod 16)) "")).

Definition QueryEscape (s : string) : string := concat_bytes query_byte s.

(** A query as a client writes it: the pairs in order, repetitions and all. *)
Definition query_of (pairs : list (string * string)) : string :=
  join ((λ '(k, v), QueryEscape k +:+ "=" +:+ QueryEscape v) <$> pairs) "&".

(** The values of each name, in the order they were written. *)
Definition grouped (pairs : list (string * string)) : gmap string (list string) :=
  foldl (λ m '(k, v), <[k := default [] (m !! k) ++ [v]]> m) ∅ pairs.

Lemma QueryUnescape_byte c s :
  QueryUnescape (query_byte c +:+ s) = String c <$> QueryUnescape s.
Proof.
  destruct c as [[] [] [] [] [] [] [] []]; vm_compute query_byte;
    rewrite ?append_cons, ?append_nil_l; cbn [QueryUnescape]; try reflexivity;
    vm_compute unhex; cbn [mbind option_bind]; by destruct (QueryUnescape s).
Qed.

Lemma QueryUnescape_Escape s : QueryUnescape (QueryEscape s) = Some s.
Proof.
  induction s as [|c s IH]; [done|]. unfold QueryEscape in *. cbn [concat_bytes].
  by rewrite QueryUnescape_byte, IH.
Qed.

Lemma no_byte_concat c f s :
  (∀ d, no_byte c (f d) = true) → no_byte c (concat_bytes f s) = true.
Proof.
  intros Hf. induction s as [|d s IH]; [done|]. cbn [concat_bytes].
  by rewrite no_byte_append, Hf, IH.
Qed.

Lemma query_byte_plain c d :
  c = "&"%char ∨ c = "="%char ∨ c = ";"%char → no_byte c (query_byte d) = true.
Proof.
  intros Hc. destruct Hc as [->|[->| ->]];
    destruct d as [[] [] [] [] [] [] [] []]; vm_compute; reflexivity.
Qed.

Lemma QueryEscape_plain c s :
  c = "&"%char ∨ c = "="%char ∨ c = ";"%char → no_byte c (QueryEscape s) = true.
Proof. intros Hc. apply no_byte_concat. intros d. by apply query_byte_plain. Qed.

Definition pair_text (kv : string * string) : string :=
  QueryEscape kv.1 +:+ "=" +:+ QueryEscape kv.2.

Lemma query_pair_text kv : query_pair (pair_text kv) = Some kv.
Proof.
  destruct kv as [k v]. unfold query_pair, pair_text. simpl.
  assert (contains (QueryEscape k +:+ "=" +:+ QueryEscape v) ";" = false) as ->.
  { unfold contains. rewrite cut_no_byte; [done|].
    rewrite !no_byte_append, !QueryEscape_plain by auto. done. }
  rewrite bool_decide_eq_false_2.
  2:{ intros He. destruct (QueryEscape k); done. }
  simpl. rewrite (cut_app "=" "") by (apply QueryEscape_plain; auto). simpl.
  rewrite !QueryUnescape_Escape. done.
Qed.

Lemma ParseQuery_roundtrip pairs : ParseQuery (query_of pairs) = grouped pairs.
Proof.
  unfold ParseQuery, query_of, grouped. destruct pairs as [|p pairs]; [done|].
  assert ((λ '(k, v), QueryEscape k +:+ "=" +:+ QueryEscape v) <$> p :: pairs =
          pair_text <$> p :: pairs) as ->.
  { apply list_fmap_ext. by intros _ [k v] _. }
  rewrite split_join.
  - generalize (∅ : gmap string (list string)). induction (p :: pairs) as [|q qs IH]; intros m; [done|].
    rewrite fmap_cons. cbn [foldl]. rewrite query_pair_text. destruct q as [k v]. apply IH.
  - done.
  - apply Forall_fmap, Forall_true. intros [k v]. unfold pair_text. simpl.
    rewrite !no_byte_append, !QueryEscape_plain by auto. done.
Qed.

(** Grouping keeps every name's values, repeated and in order. *)
Lemma grouped_lookup (pairs : list (string * string)) (k : string) :
  default [] (grouped pairs !! k) = omap (λ '(k', v), if decide (k' = k) then Some v else None) pairs.
Proof.
  unfold grouped.
  assert (∀ m : gmap string (list string), default [] (foldl (λ m '(k, v), <[k := default [] (m !! k) ++ [v]]> m) m pairs !! k) =
    default [] (m !! k) ++ omap (λ '(k', v), if decide (k' = k) then Some v else None) pairs) as H.
  { induction pairs as [|[k' v] pairs IH]; intros m; [by rewrite app_nil_r|].
    cbn [foldl]. rewrite IH. cbn [omap list_omap]. destruct (decide (k' = k)) as [->|Hne].
    - rewrite lookup_insert_eq. simpl. by rewrite <- (assoc_L (++)).
    - by rewrite lookup_insert_ne. }
  by rewrite H, lookup_empty.
Qed.
