(* ===== verification/Lambda.v ===== *)
(** * The AWS event mapper

    Models [serverless/aws]: what a Lambda payload is read as, and what Lambda is handed
    back.  The payload types of aws-lambda-go are records of the fields the mapper
    reads, and reading JSON into them is a parameter, as is reading it into the views
    the mapper declares itself ([envelope], [s3Record], [streamRecord],
    [clientRequest]).  Where the code ranges over a map the order is one Go does not
    specify: [range] is any choice of it. *)

From S2P Require Import Prelude GoStrings Json Errors Handler Route Layer Registry Bind Wrap App Pipeline Encoding Serverless.
From stdpp Require Import options.

(** ** Payloads *)

Record HTTPEvent : Type := MkHTTPEvent {
  RouteKey : string;
  RawPath : string;
  RawQueryString : string;
  Cookies : list string;
  EventHeaders : gmap string string;
  QueryStringParameters : gmap string string;
  PathParameters : gmap string string;
  HTTPMethod : string;
  HTTPSourceIP : string;
  HTTPRequestID : string;
  HTTPBody : string;
  IsBase64Encoded : bool;
}.

Record HTTPResponseEvent : Type := MkHTTPResponseEvent {
  StatusCode : Z;
  OutHeaders : gmap string string;
  OutCookies : list string;
  OutBody : string;
  OutBase64 : bool;
}.

Record WSEvent : Type := MkWSEvent {
  WSEventRoute : string;
  WSEventConnection : string;
  WSEventSourceIP : string;
  WSEventRequest : string;
  WSEventDomain : string;
  WSEventStage : string;
  WSEventBody : string;
}.

(** A message; its attributes are given as the JSON they encode to, absent where they
    do not. *)
Record SQSMessage : Type := MkSQSMessage {
  SQSMessageId : string;
  SQSReceiptHandle : string;
  SQSBody : string;
  SQSMd5 : string;
  SQSAttributes : option (gmap string string);           (* absent where nil *)
  SQSMessageAttributes : option bytes;
  SQSEventSourceARN : string;
  SQSEventSource : string;
  SQSRegion : string;
}.

Record CloudWatchEvent : Type := MkCloudWatchEvent {
  CWID : string;
  CWSource : string;
  CWDetailType : string;
  CWAccount : string;
  CWRegion : string;
  CWResources : option (list string);                    (* absent where nil *)
  CWDetail : bytes;
}.

(** [envelope]: only what [Detect] decides on. *)
Record request_context : Type := MkRequestContext {
  rc_http : option bytes;
  rc_connectionId : option string;
  rc_eventType : option string;
}.
Record envelope : Type := MkEnvelope {
  env_requestContext : option request_context;
  env_records : list string;                             (* their eventSource *)
  env_source : option string;
  env_detailType : option string;
}.

Record s3Record : Type := MkS3Record {
  S3EventSource : string;
  S3EventName : string;
  S3Bucket : string;
  S3Key : string;
  S3Size : option Z;
  S3ETag : string;
}.

(** [attributeValue]: exactly one field is set; a map is its members. *)
Inductive attributeValue : Type := MkAV {
  AV_S : option string;
  AV_N : option string;
  AV_B : option string;
  AV_Bool : option bool;
  AV_Null : option bool;
  AV_M : option (list (string * attributeValue));
  AV_L : option (list attributeValue);
  AV_SS : option (list string);
  AV_NS : option (list string);
  AV_BS : option (list string);
}.

Abbreviation item := (list (string * attributeValue)).

Record streamRecord : Type := MkStreamRecord {
  SREventSource : string;
  SREventName : string;
  SREventSourceARN : string;
  (* Keys, NewImage, OldImage *)
  SRDynamoDB : option (option item * option item * option item);
}.

Record clientRequest : Type := MkClientRequest { reqAck : bool; reqMessageID : string }.

Record custom_envelope : Type := MkCustomEnvelope {
  ceHandlerName : string;
  cePayload : option bytes;
}.

(** [json.Unmarshal] into each of them. *)
Record decoders : Type := MkDecoders {
  read_http : bytes → result error HTTPEvent;
  read_ws : bytes → result error WSEvent;
  read_sqs : bytes → result error (list SQSMessage);
  read_cloudwatch : bytes → result error CloudWatchEvent;
  read_envelope : bytes → result error envelope;
  read_s3 : bytes → result error (list s3Record);
  read_stream : bytes → result error streamRecord;
  read_client : bytes → result error clientRequest;
  read_custom : bytes → result error custom_envelope;
  json_Valid : bytes → bool;
}.

(** ** Configuration *)

Definition HandlerKindEnvVar : string := "CELERITY_HANDLER_TYPE".
Definition SplitHeadersEnvVar : string := "CELERITY_SPLIT_HEADERS".
Definition FunctionNameEnvVar : string := "AWS_LAMBDA_FUNCTION_NAME".

Definition kindFromEnv (env : string → string) : option Kind :=
  let kind := env HandlerKindEnvVar in
  if bool_decide (kind ∈ [KindHTTP; KindWebSocket; KindConsumer; KindSchedule; KindCustom])
  then Some kind else None.

Definition SplitHeaders : list string :=
  ["accept"; "accept-charset"; "accept-encoding"; "accept-language";
   "access-control-request-headers"; "cache-control"; "connection"; "content-encoding";
   "content-language"; "content-type"; "if-match"; "if-none-match"; "te"; "trailer";
   "transfer-encoding"; "upgrade"; "vary"; "via"; "x-forwarded-for"].

(** [buildSplitNames]. *)
Definition buildSplitNames (configured : string) : gset string :=
  list_to_set SplitHeaders ∪
  list_to_set (List.filter (λ name, negb (bool_decide (name = "")))
    ((λ name, to_lower (TrimSpace name)) <$> split_on "," configured)).

(** [Mapper]; a nil set of names is the default. *)
Record LambdaMapper : Type := MkMapper {
  splitHeaders : option (gset string);
  handlerKind : Kind;
  mapperHandlerID : string;
}.

Definition NewMapper (env : string → string) : LambdaMapper :=
  MkMapper (Some (buildSplitNames (env SplitHeadersEnvVar))) (default "" (kindFromEnv env))
    (env HandlerIDEnvVar).

Section mapper.
Context (d : decoders) (range : ∀ A : Type, gmap string A → list string).
Implicit Types (m : LambdaMapper).

(** [Detect].  A Kind the deployment stated is not looked behind. *)
Definition sqsEventSource : string := "aws:sqs".
Definition s3EventSource : string := "aws:s3".
Definition ddbEventSource : string := "aws:dynamodb".

Definition kind_of_envelope (e : envelope) : Kind :=
  let from_context :=
    match e.(env_requestContext) with
    | Some rc =>
        if is_some rc.(rc_http) then Some KindHTTP
        else if is_some rc.(rc_connectionId) && is_some rc.(rc_eventType)
        then Some KindWebSocket else None
    | None => None
    end in
  match from_context with
  | Some kind => kind
  | None =>
      match e.(env_records) with
      | source :: _ =>
          if bool_decide (source = sqsEventSource) then KindConsumer
          else if is_some e.(env_source) && is_some e.(env_detailType) then KindSchedule
          else KindCustom
      | [] =>
          if is_some e.(env_source) && is_some e.(env_detailType) then KindSchedule
          else KindCustom
      end
  end.

Definition LambdaDetect m (payload : bytes) : result error Kind :=
  if negb (bool_decide (m.(handlerKind) = "")) then Ok m.(handlerKind)
  else match d.(read_envelope) payload with
       | Err _ => Ok KindCustom
       | Ok e => Ok (kind_of_envelope e)
       end.

(** [decode]. *)
Definition decode_event {A} (r : result error A) (source : string) : result error A :=
  match r with
  | Ok a => Ok a
  | Err e => Err (EWrap ("reading a " +:+ source +:+ " event: " +:+ error_text e) e)
  end.

(** ** HTTP *)

Definition routeOf (routeKey rawPath : string) : string :=
  if bool_decide (routeKey = "") || bool_decide (routeKey = "$default") then rawPath
  else NormaliseRoute (match cut " " routeKey with Some (_, rest) => rest | None => routeKey end).

Definition pathParamsOf (params : gmap string string) (route : string) : Params :=
  map_imap (λ name value,
    Some (if bool_decide (CatchAllParam route = Some name) then split_on "/" value else [value]))
    params.

Definition splitHeaderValue (value : string) : list string :=
  TrimSpace <$> split_on "," value.

(** The loop of [headersOf]: two names that differ in case only are one, and the last
    ranged over is kept. *)
Definition header_values (splittable : gset string) (lower value : string) : list string :=
  if bool_decide (lower ∈ splittable) && contains value "," then splitHeaderValue value
  else [value].

Definition headersOf m (headers : gmap string string) (cookies : list string) : Params :=
  let splittable := default (buildSplitNames "") m.(splitHeaders) in
  let out := foldl (λ out name,
    match headers !! name with
    | Some value =>
        let lower := to_lower name in <[lower := header_values splittable lower value]> out
    | None => out
    end) ∅ (range _ headers) in
  match cookies with [] => out | _ => <["cookie" := [join cookies "; "]]> out end.

Definition singleValued (params : gmap string string) : Params := (λ v, [v]) <$> params.

Definition queryParamsOf (raw : string) (params : gmap string string) : Params :=
  if bool_decide (raw = "") then singleValued params else ParseQuery raw.

Definition bodyOf (body : string) (isBase64 : bool) : bytes :=
  if bool_decide (body = "") then ""
  else if negb isBase64 then body
  else default body (b64_decode body).

Definition LambdaToRequest m (payload : bytes) : result error (option Request) :=
  let! event := decode_event (d.(read_http) payload) "API Gateway HTTP" in
  let route := routeOf event.(RouteKey) event.(RawPath) in
  Ok (Some (MkRequest (to_upper event.(HTTPMethod)) event.(RawPath) route
    (pathParamsOf event.(PathParameters) route)
    (queryParamsOf event.(RawQueryString) event.(QueryStringParameters))
    (headersOf m event.(EventHeaders) event.(Cookies))
    event.(HTTPSourceIP) event.(HTTPRequestID)
    (bodyOf event.(HTTPBody) event.(IsBase64Encoded)))).

(** [responseHeaders]; [strings.EqualFold] of ASCII names. *)
Definition is_set_cookie (name : string) : bool :=
  bool_decide (to_lower name = "set-cookie").

Definition add_header (headers : Params) (acc : gmap string string * list string)
    (name : string) : gmap string string * list string :=
  let '(out, cookies) := acc in
  match headers !! name with
  | Some values =>
      if is_set_cookie name then (out, cookies ++ values)
      else (<[name := join values ", "]> out, cookies)
  | None => (out, cookies)
  end.

Definition responseHeaders (headers : Params) : gmap string string * list string :=
  foldl (add_header headers) (∅, []) (range _ headers).

Definition FromResponseEvent (res : option Response) : HTTPResponseEvent :=
  match res with
  | None => MkHTTPResponseEvent 204 ∅ [] "" false
  | Some r =>
      let '(headers, cookies) := responseHeaders r.(ResponseHeaders) in
      if utf8_valid r.(ResponseBody)
      then MkHTTPResponseEvent r.(Status) headers cookies r.(ResponseBody) false
      else MkHTTPResponseEvent r.(Status) headers cookies (b64_encode r.(ResponseBody)) true
  end.

(** ** WebSocket *)

Definition parseClientRequest (body : string) : option clientRequest :=
  if bool_decide (body = "") then None
  else match d.(read_client) body with Ok req => Some req | Err _ => None end.

Definition clientMessageID (body : string) : string :=
  match parseClientRequest body with Some req => req.(reqMessageID) | None => "" end.

Definition clientAckRequest (body : string) : option string :=
  match parseClientRequest body with
  | Some req =>
      if negb req.(reqAck) || bool_decide (req.(reqMessageID) = "") then None
      else Some req.(reqMessageID)
  | None => None
  end.

Fixpoint firstNonEmpty (values : list string) : string :=
  match values with
  | [] => ""
  | v :: values => if bool_decide (v = "") then firstNonEmpty values else v
  end.

Definition LambdaToWebSocketMessage (payload : bytes) : result error (option WebSocketMessage) :=
  let! event := decode_event (d.(read_ws) payload) "API Gateway WebSocket" in
  Ok (Some (MkWebSocketMessage event.(WSEventRoute) event.(WSEventConnection)
    event.(WSEventSourceIP) event.(WSEventRequest) event.(WSEventBody) false
    (firstNonEmpty [clientMessageID event.(WSEventBody); event.(WSEventRequest)]))).

Definition ManagementEndpoint (payload : bytes) : result error string :=
  let! event := decode_event (d.(read_ws) payload) "API Gateway WebSocket" in
  Ok ("https://" +:+ event.(WSEventDomain) +:+ "/" +:+ event.(WSEventStage)).

(** [composeClientAck]; members in the order the encoder sorts them. *)
Definition composeClientAck (messageID : string) (epochSeconds : Z) : bytes :=
  json_text (JObj [("data", JObj [("messageId", JStr messageID);
                                  ("timestamp", JStr (itoa epochSeconds))]);
                   ("event", JStr "ack")]).

(** ** Consumers *)

(** [arnResourceSegment]; [None] where the ARN has too few parts or lacks the prefix,
    for which the code answers the empty name. *)
Definition arn_resource (arn : string) : option string :=
  match split_on ":" arn with
  | _ :: _ :: _ :: _ :: _ :: part :: parts => Some (join (part :: parts) ":")
  | _ => None
  end.

Definition arnResourceSegment (arn prefix : string) : string :=
  match arn_resource arn with
  | None => ""
  | Some resource =>
      match cut_prefix prefix resource with
      | None => ""
      | Some rest => match cut "/" rest with Some (name, _) => name | None => rest end
      end
  end.

(** The encoder writes the members of a map sorted by name. *)
Definition sorted_members {A} (members : list (string * A)) (f : A → json) : json :=
  JObj (omap (λ name,
    (λ v : string * A, (name, f v.2)) <$> List.find (λ v, bool_decide (v.1 = name)) members)
    (sort_strings members.*1)).

Definition or_null {A} (f : A → json) (o : option A) : json :=
  match o with Some a => f a | None => JNull end.

Definition string_map (m : gmap string string) : json := sorted_members (map_to_list m) JStr.

(** [plainValue] and [plainItem]. *)
Fixpoint plainValue (a : attributeValue) : json :=
  match a with
  | MkAV s n b bool null m l ss ns bs =>
      match s with
      | Some s => JStr s
      | None =>
      match n with
      | Some n => JNum n
      | None =>
      match bool with
      | Some b => JBool b
      | None =>
      match null with
      | Some _ => JNull
      | None =>
      match b with
      | Some b => JStr b
      | None =>
      match m with
      | Some m => sorted_members ((λ '(k, v), (k, plainValue v)) <$> m) id
      | None =>
      match l with
      | Some l => JArr (plainValue <$> l)
      | None =>
      match ss with
      | Some ss => JArr (JStr <$> ss)
      | None =>
      match ns with
      | Some ns => JArr (JNum <$> ns)
      | None =>
      match bs with
      | Some bs => JArr (JStr <$> bs)
      | None => JNull
      end end end end end end end end end end
  end.

Definition plainItem (i : item) : json :=
  sorted_members ((λ '(k, v), (k, plainValue v)) <$> i) id.

(** [streamRecord.body]; an image that is absent is left out. *)
Definition option_member (name : string) (j : option json) : list (string * json) :=
  match j with Some j => [(name, j)] | None => [] end.

Definition stream_body (r : streamRecord) : bytes :=
  json_text match r.(SRDynamoDB) with
  | None => JObj [("keys", JObj [])]
  | Some (keys, newImage, oldImage) =>
      JObj (("keys", default (JObj []) (plainItem <$> keys))
            :: option_member "newItem" (plainItem <$> newImage)
            ++ option_member "oldItem" (plainItem <$> oldImage))
  end.

Definition tableName (r : streamRecord) : string :=
  arnResourceSegment r.(SREventSourceARN) "table/".

Definition datastoreEventType (eventName : string) : string :=
  if bool_decide (eventName = "INSERT") then "inserted"
  else if bool_decide (eventName = "MODIFY") then "modified"
  else if bool_decide (eventName = "REMOVE") then "removed"
  else "".

(** [s3Record.body]. *)
Definition s3_body (r : s3Record) : bytes :=
  json_text (JObj
    ((if bool_decide (r.(S3ETag) = "") then [] else [("eTag", JStr r.(S3ETag))])
     ++ ("key", JStr r.(S3Key)) :: option_member "size" ((λ n, JNum (itoa n)) <$> r.(S3Size)))).

Definition bucketEventType (eventName : string) : string :=
  let name := trim_prefix eventName "s3:" in
  if has_prefix name "ObjectCreated:" || has_prefix name "ObjectRestore:" then "created"
  else if has_prefix name "ObjectRemoved:" then "deleted"
  else if has_prefix name "ObjectTagging:" || has_prefix name "ObjectAcl:"
  then "metadataUpdated" else "".

Definition s3Notification (body : string) : option s3Record :=
  match d.(read_s3) body with
  | Ok (r :: _) => if bool_decide (r.(S3EventSource) = s3EventSource) then Some r else None
  | _ => None
  end.

Definition dynamoDBStreamRecord (body : string) : option streamRecord :=
  match d.(read_stream) body with
  | Ok r => if bool_decide (r.(SREventSource) = ddbEventSource) then Some r else None
  | Err _ => None
  end.

Record sourceOrigin : Type := MkOrigin { sourceType : string; originName : string }.
Record sourceEvent : Type := MkSourceEvent {
  se_body : bytes; se_type : string; se_origin : sourceOrigin }.

(** [unwrapSourceEvent]. *)
Definition unwrapSourceEvent (body : string) : option sourceEvent :=
  if negb (contains body s3EventSource) && negb (contains body ddbEventSource) then None
  else match s3Notification body with
  | Some n =>
      Some (MkSourceEvent (s3_body n) (bucketEventType n.(S3EventName))
              (MkOrigin "bucket" n.(S3Bucket)))
  | None =>
      match dynamoDBStreamRecord body with
      | Some r =>
          Some (MkSourceEvent (stream_body r) (datastoreEventType r.(SREventName))
                  (MkOrigin "datastore" (tableName r)))
      | None => None
      end
  end.

Definition sqsVendor (record : SQSMessage) : bytes :=
  json_text (JObj [("attributes", or_null string_map record.(SQSAttributes));
                   ("awsRegion", JStr record.(SQSRegion));
                   ("eventSource", JStr record.(SQSEventSource));
                   ("md5OfBody", JStr record.(SQSMd5));
                   ("receiptHandle", JStr record.(SQSReceiptHandle))]).

Definition consumerRecord (record : SQSMessage) : ConsumerRecord * sourceOrigin :=
  let out body eventType :=
    MkConsumerRecord record.(SQSMessageId) body record.(SQSEventSourceARN) eventType
      (default "" record.(SQSMessageAttributes)) (sqsVendor record) in
  match unwrapSourceEvent record.(SQSBody) with
  | Some u => (out u.(se_body) u.(se_type), u.(se_origin))
  | None => (out record.(SQSBody) "", MkOrigin "queue" "")
  end.

(** The id the blueprint gave a source, which its handler's tag carries. *)
Definition source_in_tag (tag : string) : option string :=
  rest ← cut_prefix "source::" tag; '(id, _) ← cut "::" rest; Some id.

Definition sourceIDOf (tag : string) (origin : sourceOrigin) (records : list SQSMessage) : string :=
  match source_in_tag tag with
  | Some id => id
  | None =>
      if negb (bool_decide (origin.(originName) = "")) then origin.(originName)
      else match records with
           | r :: _ => arnResourceSegment r.(SQSEventSourceARN) ""
           | [] => ""
           end
  end.

Definition sqsBatchVendor : bytes := json_text (JObj [("eventSource", JStr sqsEventSource)]).

Definition LambdaToConsumerBatch (payload : bytes) (tag : string) :
    result error (option ConsumerBatch) :=
  let! records := decode_event (d.(read_sqs) payload) "SQS" in
  let mapped := consumerRecord <$> records in
  let origin := match mapped with (_, o) :: _ => o | [] => MkOrigin "" "" end in
  Ok (Some (MkConsumerBatch mapped.*1 (sourceIDOf tag origin records) origin.(sourceType)
              sqsBatchVendor)).

(** [FromBatchResult]: the messages left on the queue. *)
Definition batchItemFailures (res : option BatchResult) : list string :=
  match res with Some r => FailedMessageID <$> r.(Failures) | None => [] end.

(** ** Schedules and direct invocations *)

Definition scheduleIDOf (tag : string) (resources : list string) : string :=
  match source_in_tag tag with
  | Some id => id
  | None => match resources with r :: _ => arnResourceSegment r "rule/" | [] => "" end
  end.

Definition LambdaToScheduleTrigger (payload : bytes) (tag : string) :
    result error (option ScheduleTrigger) :=
  let! event := decode_event (d.(read_cloudwatch) payload) "EventBridge" in
  Ok (Some (MkScheduleTrigger (scheduleIDOf tag (default [] event.(CWResources))) event.(CWID) ""
    event.(CWDetail)
    (json_text (JObj [("account", JStr event.(CWAccount));
                      ("detailType", JStr event.(CWDetailType));
                      ("region", JStr event.(CWRegion));
                      ("resources", or_null (λ l, JArr (JStr <$> l)) event.(CWResources));
                      ("source", JStr event.(CWSource))])))).

Definition LambdaToCustomInvoke m (payload : bytes) : result error (option CustomInvoke) :=
  Ok (Some
    (if negb (bool_decide (m.(mapperHandlerID) = ""))
     then MkCustomInvoke m.(mapperHandlerID) payload
     else match d.(read_custom) payload with
          | Ok e =>
              if bool_decide (e.(ceHandlerName) = "") then MkCustomInvoke "" payload
              else MkCustomInvoke e.(ceHandlerName) (default payload e.(cePayload))
          | Err _ => MkCustomInvoke "" payload
          end)).

(** What Lambda is handed to serialise. *)
Inductive lambda_value : Type :=
  | VResponse (r : HTTPResponseEvent)
  | VBatch (itemIdentifiers : list string)
  | VNil
  | VRaw (j : bytes)                               (* json.RawMessage *)
  | VText (s : string).

Definition FromCustomOutput (res : option CustomInvokeResult) : lambda_value :=
  match res with
  | None => VNil
  | Some r =>
      if bool_decide (r.(CustomOutput) = "") then VNil
      else if d.(json_Valid) r.(CustomOutput) then VRaw r.(CustomOutput)
      else VText r.(CustomOutput)
  end.

(** [Mapper], as the dispatcher's interface has it. *)
Definition lambda_mapper (m : LambdaMapper) : EventMapper lambda_value :=
  MkEventMapper (LambdaDetect m) (LambdaToRequest m)
    (λ r, Ok (VResponse (FromResponseEvent r)))
    LambdaToWebSocketMessage
    LambdaToConsumerBatch (λ r, Ok (VBatch (batchItemFailures r)))
    LambdaToScheduleTrigger
    (LambdaToCustomInvoke m) (λ r, Ok (FromCustomOutput r)).
End mapper.

(** ** The adapter *)

(** The senders kept for the life of the environment, one to an endpoint, beside the
    world outside. *)
Record lambda_world (W : Type) : Type := MkLambdaWorld {
  senders : gmap string Sender;
  outside : W;
}.
Arguments MkLambdaWorld {W}.
Arguments senders {W}. Arguments outside {W}.

Section adapter.
Context {W : Type} (d : decoders) (range : ∀ A : Type, gmap string A → list string).
(** [sender.Send] of one message, and the clock. *)
Context (push : string → OutboundMessage → W → option error * W) (now : W → Z).
Implicit Types (w : lambda_world W).

Definition no_endpoint : error :=
  EString "the websocket event carries no domain or stage to push back to".

(** [Adapter.WebSocketSender]: the sender of the endpoint, made where there is none. *)
Definition LambdaSender (c : Ctx) (payload : bytes) w : result error Sender * lambda_world W :=
  match ManagementEndpoint d payload with
  | Err e => (Err e, w)
  | Ok endpoint =>
      if bool_decide (endpoint = "https:///") then (Err no_endpoint, w)
      else match w.(senders) !! endpoint with
           | Some sender => (Ok sender, w)
           | None =>
               let sender := size w.(senders) in
               (Ok sender, MkLambdaWorld (<[endpoint := sender]> w.(senders)) w.(outside))
           end
  end.

(** The endpoint a sender was made for. *)
Definition endpoint_of w (sender : Sender) : option string :=
  fst <$> List.find (λ '(_, s), bool_decide (s = sender)) (map_to_list w.(senders)).

Definition ack_message (msg : WebSocketMessage) (messageID : string) (epochSeconds : Z) :
    OutboundMessage :=
  MkOutboundMessage msg.(WSConnectionID) (composeClientAck messageID epochSeconds) [] "" "" false.

(** [Adapter.AcknowledgeReceipt]. *)
Definition LambdaAcknowledge (c : Ctx) (msg : WebSocketMessage) w :
    option error * lambda_world W :=
  match clientAckRequest d msg.(WSMessage) with
  | None => (None, w)
  | Some messageID =>
      match WebSocketSenderFrom c ≫= endpoint_of w with
      | None =>
          (Some (EString ("no websocket sender to acknowledge message " +:+ messageID +:+ " on")),
           w)
      | Some endpoint =>
          let '(err, out) :=
            push endpoint (ack_message msg messageID (now w.(outside))) w.(outside) in
          (err, MkLambdaWorld w.(senders) out)
      end
  end.

Definition LambdaAdapter (env : string → string) : Adapter lambda_value (lambda_world W) :=
  MkAdapter "aws-lambda" (negb (bool_decide (env FunctionNameEnvVar = "")))
    (lambda_mapper d range (NewMapper env)) (Some LambdaSender) (Some LambdaAcknowledge).
End adapter.

(** ** Responses *)

Definition cookies_in (headers : Params) (names : list string) : list string :=
  mjoin (omap (λ n, if is_set_cookie n then headers !! n else None) names).

Lemma responseHeaders_fold (headers : Params) names out0 cookies0 :
  ∃ out, foldl (add_header headers) (out0, cookies0) names =
           (out, cookies0 ++ cookies_in headers names) ∧
  ∀ n, out !! n =
    match headers !! n with
    | Some values => if decide (n ∈ names) then if is_set_cookie n then out0 !! n
                       else Some (join values ", ") else out0 !! n
    | None => out0 !! n
    end.
Proof.
  revert out0 cookies0. induction names as [|x names IH]; intros out0 cookies0.
  { exists out0. unfold cookies_in. simpl. rewrite app_nil_r. split; [done|].
    intros n. destruct (headers !! n); done. }
  cbn [foldl]. unfold cookies_in in *. unfold add_header at 2. cbn [omap list_omap].
  destruct (headers !! x) as [vs|] eqn:Hx.
  - destruct (is_set_cookie x) eqn:Hc.
    + destruct (IH out0 (cookies0 ++ vs)) as (out & Hf & Ho). exists out.
      split; [rewrite Hf; simpl; by rewrite <- (assoc_L (++))|]. intros n. rewrite Ho.
      destruct (headers !! n) as [v|] eqn:Hn; [|done].
      destruct (decide (n = x)) as [->|]; [by rewrite Hc; do 2 case_decide|].
      by rewrite (decide_ext (n ∈ x :: names) (n ∈ names)) by set_solver.
    + destruct (IH (<[x := join vs ", "]> out0) cookies0) as (out & Hf & Ho). exists out.
      split; [done|]. intros n. rewrite Ho.
      destruct (decide (n = x)) as [->|Hne].
      * rewrite Hx, Hc, lookup_insert_eq.
        rewrite (decide_True (P := x ∈ x :: names)) by by left. by case_decide.
      * rewrite !lookup_insert_ne by done. destruct (headers !! n); [|done].
        by rewrite (decide_ext (n ∈ x :: names) (n ∈ names)) by set_solver.
  - destruct (IH out0 cookies0) as (out & Hf & Ho). exists out.
    split; [rewrite Hf; by destruct (is_set_cookie x)|]. intros n. rewrite Ho.
    destruct (headers !! n) eqn:Hn; [|done].
    by rewrite (decide_ext (n ∈ x :: names) (n ∈ names)) by set_solver.
Qed.

Section properties.
Context (d : decoders) (range : ∀ A : Type, gmap string A → list string).
Context (range_keys : ∀ (A : Type) (m : gmap string A), range A m ≡ₚ elements (dom m)).

(** What API Gateway delivers of a response: the bytes its body stands for. *)
Definition delivered (r : HTTPResponseEvent) : option bytes :=
  if r.(OutBase64) then b64_decode r.(OutBody) else Some r.(OutBody).

(** A response on Lambda.  What API Gateway delivers is the status and the very
    bytes the handler answered, whatever they are, in a body that is text; every header
    but a cookie is carried under its own name with its values joined, every cookie
    a handler sets is carried on its own and never joined with another, and nothing
    else is sent. *)
Lemma FromResponse_delivers r :
  let e := FromResponseEvent range (Some r) in
  e.(StatusCode) = r.(Status) ∧ delivered e = Some r.(ResponseBody) ∧
  utf8_valid e.(OutBody) = true ∧
  (∀ name, is_set_cookie name = false →
     e.(OutHeaders) !! name = (λ values, join values ", ") <$> r.(ResponseHeaders) !! name) ∧
  (∀ name, is_set_cookie name = true → e.(OutHeaders) !! name = None) ∧
  (∀ cookie, cookie ∈ e.(OutCookies) ↔
     ∃ name values, is_set_cookie name = true ∧ r.(ResponseHeaders) !! name = Some values ∧
       cookie ∈ values).
Proof using range_keys.
  cbn zeta. unfold FromResponseEvent, responseHeaders.
  destruct (responseHeaders_fold r.(ResponseHeaders) (range _ r.(ResponseHeaders)) ∅ [])
    as (out & -> & Ho).
  assert (∀ n, n ∈ range _ r.(ResponseHeaders) ↔ is_Some (r.(ResponseHeaders) !! n)) as Hk.
  { intros n. by rewrite range_keys, elem_of_elements, elem_of_dom. }
  assert (∀ e, e = (if utf8_valid (ResponseBody r)
     then MkHTTPResponseEvent (Status r) out ([] ++ cookies_in (ResponseHeaders r) (range _ (ResponseHeaders r)))
            (ResponseBody r) false
     else MkHTTPResponseEvent (Status r) out ([] ++ cookies_in (ResponseHeaders r) (range _ (ResponseHeaders r)))
            (b64_encode (ResponseBody r)) true) →
     e.(StatusCode) = r.(Status) ∧ delivered e = Some r.(ResponseBody) ∧
     utf8_valid e.(OutBody) = true ∧ e.(OutHeaders) = out ∧
     e.(OutCookies) = cookies_in (ResponseHeaders r) (range _ (ResponseHeaders r))) as He.
  { intros e ->. destruct (utf8_valid (ResponseBody r)) eqn:Hu; simpl; [done|].
    unfold delivered. simpl. split_and!; try done; [apply b64_roundtrip|].
    apply utf8_ascii, b64_encode_ascii. }
  destruct (He _ eq_refl) as (-> & -> & -> & -> & ->). split_and!; try done.
  - intros n Hc. rewrite Ho, lookup_empty, Hc. destruct (_ !! n) eqn:Hn; simpl; [|done].
    rewrite decide_True; [done|]. apply Hk. by eexists.
  - intros n Hc. rewrite Ho, lookup_empty, Hc. destruct (_ !! n); [|done]. by case_decide.
  - intros c. unfold cookies_in. rewrite list_elem_of_join. setoid_rewrite list_elem_of_omap.
    split.
    + intros (vs & Hin & n & Hn & Hv). destruct (is_set_cookie n) eqn:Hc; [|done]. eauto.
    + intros (n & vs & Hc & Hv & Hin). exists vs. split; [done|]. exists n. rewrite Hc.
      split; [|done]. apply Hk. by rewrite Hv.
Qed.

(** ** Requests *)

(** How API Gateway carries the bytes of a body. *)
Definition carried (body : bytes) : string * bool :=
  if utf8_valid body then (body, false) else (b64_encode body, true).

Lemma b64_encode_nonempty s : s ≠ "" → b64_encode s ≠ "".
Proof using Type. destruct s as [|a [|b [|c s]]]; done. Qed.

Lemma bodyOf_carried body : bodyOf (carried body).1 (carried body).2 = body.
Proof using Type.
  unfold carried, bodyOf. destruct (utf8_valid body) eqn:Hu; simpl; [by case_bool_decide|].
  rewrite bool_decide_eq_false_2, b64_roundtrip; [done|].
  apply b64_encode_nonempty. by intros ->.
Qed.

Lemma query_of_nonempty pairs : pairs ≠ [] → query_of pairs ≠ "".
Proof using Type.
  destruct pairs as [|[k v] [|p pairs]]; [done|..]; intros _; unfold query_of; simpl.
  - by destruct (QueryEscape k).
  - by destruct (QueryEscape k).
Qed.

(** A request on Lambda.  Read from a payload whose query string is the one the
    client wrote and whose body is as the gateway carries it, a request has the
    client's very bytes, every name's query values as often and in the order they were
    written, the method in capitals, the path as received and the route in the router's
    form; a path parameter holds the one value it was given, or, for the route's
    catch-all, its segments, which joined are that value and none of which holds a
    separator. *)
Lemma LambdaToRequest_keeps m payload event pairs body :
  d.(read_http) payload = Ok event → event.(RawQueryString) = query_of pairs → pairs ≠ [] →
  (event.(HTTPBody), event.(IsBase64Encoded)) = carried body →
  ∃ r, LambdaToRequest d range m payload = Ok (Some r) ∧
    r.(RequestBody) = body ∧
    (∀ k, default [] (r.(QueryParams) !! k) =
       omap (λ '(k', v), if decide (k' = k) then Some v else None) pairs) ∧
    r.(Method) = to_upper event.(HTTPMethod) ∧ r.(RequestPath) = event.(RawPath) ∧
    r.(RequestRoute) = routeOf event.(RouteKey) event.(RawPath) ∧
    (∀ name, is_Some (r.(PathParams) !! name) ↔ is_Some (event.(PathParameters) !! name)) ∧
    (∀ name values, r.(PathParams) !! name = Some values →
       ∃ value, event.(PathParameters) !! name = Some value ∧
         (CatchAllParam r.(RequestRoute) ≠ Some name → values = [value]) ∧
         (CatchAllParam r.(RequestRoute) = Some name →
            join values "/" = value ∧ Forall (λ s, no_byte "/" s = true) values)).
Proof using Type.
  intros Hread Hq Hne Hbody. unfold LambdaToRequest, decode_event. rewrite Hread.
  eexists. split; [done|]. simpl.
  split_and!; try done.
  - transitivity (bodyOf (carried body).1 (carried body).2); [by rewrite <- Hbody|apply bodyOf_carried].
  - intros k. unfold queryParamsOf. rewrite Hq, bool_decide_eq_false_2, ParseQuery_roundtrip
      by by apply query_of_nonempty. apply grouped_lookup.
  - intros name. unfold pathParamsOf. rewrite map_lookup_imap. destruct (_ !! name); simpl; [|done].
    split; intros _; eauto.
  - intros name values. unfold pathParamsOf. rewrite map_lookup_imap.
    destruct (_ !! name) as [value|]; simpl; [|done]. intros [= <-]. exists value.
    split; [done|]. split; intros Hc.
    + by rewrite bool_decide_eq_false_2.
    + rewrite bool_decide_eq_true_2 by done. split; [apply join_split|apply split_on_no_byte].
Qed.

(** ** Headers *)

(** No two names differ in case only, as API Gateway lowercases them. *)
Definition names_distinct (headers : gmap string string) : Prop :=
  ∀ n1 n2, is_Some (headers !! n1) → is_Some (headers !! n2) → to_lower n1 = to_lower n2 → n1 = n2.

Lemma headers_fold splittable headers names out0 lower :
  names_distinct headers → Forall (λ n, is_Some (headers !! n)) names →
  foldl (λ out name,
    match headers !! name with
    | Some value =>
        let lower := to_lower name in <[lower := header_values splittable lower value]> out
    | None => out
    end) out0 names !! lower =
  match List.find (λ n, bool_decide (to_lower n = lower)) names ≫= (headers !!.) with
  | Some value => Some (header_values splittable lower value)
  | None => (out0 : Params) !! lower
  end.
Proof using Type.
  intros Hd Hall. revert out0. induction Hall as [|x names [v Hx] Hall IH]; intros out0; [done|].
  cbn [foldl]. rewrite Hx. cbn zeta. rewrite IH. cbn [List.find].
  destruct (decide (to_lower x = lower)) as [<-|Hne].
  - rewrite (bool_decide_eq_true_2 (to_lower x = to_lower x)) by done. cbn [mbind option_bind].
    rewrite Hx. destruct (List.find _ names) as [y|] eqn:Hf; simpl.
    + apply find_some in Hf as [Hin%list_elem_of_In Hy%bool_decide_eq_true].
      rewrite Forall_forall in Hall. rewrite (Hd y x), Hx by eauto. done.
    + by rewrite lookup_insert_eq.
  - rewrite (bool_decide_eq_false_2 (to_lower x = lower)) by done.
    destruct (List.find _ names ≫= _); [done|]. by rewrite lookup_insert_ne.
Qed.

(** The headers whose value is a date, whose own comma no list may be split at. *)
Definition date_headers : list string :=
  ["date"; "expires"; "if-modified-since"; "if-unmodified-since"; "last-modified"; "retry-after"].

(** Headers on Lambda.  Every header reaches the handler under its name in lower
    case and no other does, cookies folded into one; a header that is not one the
    deployment splits has the one value it arrived with, dates among them unless it
    says so itself, and a split one has the parts between its commas, trimmed. *)
Lemma headersOf_keeps m headers cookies :
  names_distinct headers →
  let splittable := default (buildSplitNames "") m.(splitHeaders) in
  let out := headersOf range m headers cookies in
  (∀ name value, headers !! name = Some value → cookies = [] ∨ to_lower name ≠ "cookie" →
     out !! to_lower name = Some
       (if bool_decide (to_lower name ∈ splittable) && contains value ","
        then TrimSpace <$> split_on "," value else [value])) ∧
  (cookies ≠ [] → out !! "cookie" = Some [join cookies "; "]) ∧
  (∀ lower, is_Some (out !! lower) →
     (lower = "cookie" ∧ cookies ≠ []) ∨ ∃ name, is_Some (headers !! name) ∧ to_lower name = lower) ∧
  Forall (λ name, name ∉ buildSplitNames "") date_headers.
Proof using range_keys.
  intros Hd splittable out.
  assert (∀ n, n ∈ range _ headers ↔ is_Some (headers !! n)) as Hk.
  { intros n. by rewrite range_keys, elem_of_elements, elem_of_dom. }
  assert (Forall (λ n, is_Some (headers !! n)) (range _ headers)) as Hall.
  { apply Forall_forall. intros n. apply Hk. }
  assert (∀ lower, out !! lower =
    if bool_decide (cookies ≠ [] ∧ lower = "cookie") then Some [join cookies "; "]
    else match List.find (λ n, bool_decide (to_lower n = lower)) (range _ headers) ≫= (headers !!.) with
         | Some value => Some (header_values splittable lower value) | None => None end) as Ho.
  { intros lower. subst out. unfold headersOf. destruct cookies as [|ck cookies].
    - rewrite headers_fold, lookup_empty by done. by rewrite bool_decide_eq_false_2 by by intros [].
    - destruct (decide (lower = "cookie")) as [->|Hne].
      + by rewrite lookup_insert_eq, bool_decide_eq_true_2.
      + rewrite lookup_insert_ne, headers_fold, lookup_empty by done.
        by rewrite bool_decide_eq_false_2 by by intros []. }
  split_and!.
  - intros name value Hn Hc. rewrite Ho, bool_decide_eq_false_2 by (intros []; by destruct Hc).
    destruct (List.find _ _) as [y|] eqn:Hf.
    + apply find_some in Hf as [Hin%list_elem_of_In Hy%bool_decide_eq_true]. simpl.
      assert (y = name) as -> by (apply Hd; [by apply Hk|by eexists|done]). by rewrite Hn.
    + eapply find_none in Hf; [|apply list_elem_of_In, Hk; by eexists].
      by apply bool_decide_eq_false in Hf.
  - intros Hc. by rewrite Ho, bool_decide_eq_true_2.
  - intros lower Hs. rewrite Ho in Hs. case_bool_decide as Hc; [left; tauto|]. right.
    destruct (List.find _ _) as [y|] eqn:Hf; [|by destruct Hs].
    apply find_some in Hf as [Hin%list_elem_of_In Hy%bool_decide_eq_true]. exists y.
    split; [by apply Hk|done].
  - apply (bool_decide_unpack _). vm_compute. exact I.
Qed.
End properties.

(** ** Consumers *)

Section consumers.
Context (d : decoders).

(** A body naming neither source is the application's own. *)
Definition plain_body (body : string) : Prop :=
  contains body s3EventSource = false ∧ contains body ddbEventSource = false.

(** A batch on Lambda.  An SQS event is a batch of one record to a message, in order
    and under its id, and the source is the one the handler's tag names where it names
    one; a message of the application's own is carried as it is; and the messages left
    on the queue are exactly those the handler reports as failed.  But of the objects a
    bucket's notification names only the first reaches the handler: the body of its
    record, and its event type, are the same whatever follows the first. *)
Lemma LambdaToConsumerBatch_spec payload tag records :
  d.(read_sqs) payload = Ok records →
  ∃ b, LambdaToConsumerBatch d payload tag = Ok (Some b) ∧
    (RecordMessageID <$> b.(Records)) = (SQSMessageId <$> records) ∧
    (∀ id, source_in_tag tag = Some id → b.(BatchSourceID) = id) ∧
    (∀ i m r, records !! i = Some m → b.(Records) !! i = Some r →
       plain_body m.(SQSBody) → r.(RecordBody) = m.(SQSBody) ∧ r.(RecordEventType) = "") ∧
    (∀ i m r first rest, records !! i = Some m → b.(Records) !! i = Some r →
       contains m.(SQSBody) s3EventSource = true →
       d.(read_s3) m.(SQSBody) = Ok (first :: rest) → first.(S3EventSource) = s3EventSource →
       r.(RecordBody) = s3_body first ∧ r.(RecordEventType) = bucketEventType first.(S3EventName)) ∧
    (∀ res id err, id ∈ batchItemFailures (Some (Fail res id err)) ∧
       ∀ id', id' ∈ batchItemFailures (Some (Fail res id err)) ↔
         id' = id ∨ id' ∈ batchItemFailures (Some res)).
Proof using Type.
  intros Hread. unfold LambdaToConsumerBatch, decode_event. rewrite Hread.
  eexists. split; [done|]. simpl.
  assert (∀ i m r, records !! i = Some m → (consumerRecord d <$> records).*1 !! i = Some r →
    r = (consumerRecord d m).1) as Hi.
  { intros i m r Hm. rewrite !list_lookup_fmap, Hm. simpl. by intros [= <-]. }
  split_and!.
  - rewrite <- !list_fmap_compose. apply list_fmap_ext. intros _ m _. simpl.
    unfold consumerRecord. by destruct (unwrapSourceEvent _ _).
  - intros id Hid. unfold sourceIDOf. by rewrite Hid.
  - intros i m r Hm Hr [H1 H2]. rewrite (Hi i m r Hm Hr). unfold consumerRecord, unwrapSourceEvent.
    by rewrite H1, H2.
  - intros i m r first rest Hm Hr Hc Hs3 Hsrc. rewrite (Hi i m r Hm Hr).
    unfold consumerRecord, unwrapSourceEvent, s3Notification.
    by rewrite Hc, Hs3, bool_decide_eq_true_2.
  - intros res id err. unfold batchItemFailures, Fail. simpl. rewrite fmap_app. simpl.
    split; [|intros id']; rewrite elem_of_app, list_elem_of_singleton; [by right|tauto].
Qed.
End consumers.

(** ** Receipts *)

Section receipts.
Context {W : Type} (d : decoders).
Implicit Types (w : lambda_world W).

(** Senders are told apart by their endpoints. *)
Definition senders_wf w : Prop :=
  (∀ e s, w.(senders) !! e = Some s → s < size w.(senders)) ∧
  (∀ e1 e2 s, w.(senders) !! e1 = Some s → w.(senders) !! e2 = Some s → e1 = e2).

Lemma LambdaSender_spec c payload w endpoint :
  senders_wf w → ManagementEndpoint d payload = Ok endpoint → endpoint ≠ "https:///" →
  ∃ s w', LambdaSender d c payload w = (Ok s, w') ∧ senders_wf w' ∧
    w'.(senders) !! endpoint = Some s ∧ w'.(outside) = w.(outside) ∧ w.(senders) ⊆ w'.(senders).
Proof using Type.
  intros [Hlt Hinj] He Hne. unfold LambdaSender. rewrite He, bool_decide_eq_false_2 by done.
  destruct (senders w !! endpoint) as [s|] eqn:Hs; [by exists s, w|].
  eexists _, _. split; [done|]. unfold senders_wf. simpl. split_and!.
  - intros e s. rewrite map_size_insert_None by done. rewrite lookup_insert_Some.
    intros [[_ <-]|[_ H%Hlt]]; lia.
  - intros e1 e2 s. rewrite !lookup_insert_Some.
    intros [[-> <-]|[Hn1 H1]] [[-> Hx]|[Hn2 H2]]; [done|..].
    + apply Hlt in H2. lia.
    + subst. apply Hlt in H1. lia.
    + by eapply Hinj.
  - apply lookup_insert_eq.
  - done.
  - by apply insert_subseteq.
Qed.

Lemma endpoint_of_spec w endpoint s :
  senders_wf w → w.(senders) !! endpoint = Some s → endpoint_of w s = Some endpoint.
Proof using Type.
  intros [_ Hinj] Hs. unfold endpoint_of. destruct (List.find _ _) as [[e s']|] eqn:Hf.
  - apply find_some in Hf as [Hin%list_elem_of_In Heq%bool_decide_eq_true]. subst.
    apply elem_of_map_to_list in Hin. simpl. f_equal. by eapply Hinj.
  - eapply find_none in Hf; [|apply list_elem_of_In, elem_of_map_to_list; exact Hs].
    by apply bool_decide_eq_false in Hf.
Qed.

Context (range : ∀ A : Type, gmap string A → list string).
Context (push : string → OutboundMessage → W → option error * W) (now : W → Z).

(** A client is told its message arrived.  On Lambda a WebSocket message whose
    event names somewhere to answer to is received with the sender of that endpoint in
    the context, the same one for every event of the endpoint; where its body asks for
    an acknowledgement under an id, exactly one is pushed, to its own connection and
    naming that id, and otherwise nothing is. *)
Lemma client_acknowledged env c payload event w :
  senders_wf w → d.(read_ws) payload = Ok event →
  event.(WSEventDomain) ≠ "" ∨ event.(WSEventStage) ≠ "" →
  let endpoint := "https://" +:+ event.(WSEventDomain) +:+ "/" +:+ event.(WSEventStage) in
  ∃ s w', received (LambdaAdapter d range push now env) c KindWebSocket payload w =
            (WithWebSocketSender c s, w') ∧
    senders_wf w' ∧ w'.(senders) !! endpoint = Some s ∧ w.(senders) ⊆ w'.(senders) ∧
    match clientAckRequest d event.(WSEventBody) with
    | Some id => ∃ msg err, LambdaToWebSocketMessage d payload = Ok (Some msg) ∧
        msg.(WSConnectionID) = event.(WSEventConnection) ∧ msg.(WSMessageID) = id ∧
        push endpoint (ack_message msg id (now w.(outside))) w.(outside) = (err, w'.(outside))
    | None => w'.(outside) = w.(outside)
    end.
Proof using Type.
  intros Hwf Hread Hne endpoint.
  assert (ManagementEndpoint d payload = Ok endpoint) as He.
  { unfold ManagementEndpoint, decode_event. by rewrite Hread. }
  assert (endpoint ≠ "https:///") as Hend.
  { subst endpoint. intros Heq. apply (inj (String.append "https://")) in Heq.
    destruct (WSEventDomain event) as [|a dom], (WSEventStage event) as [|b st];
      [by destruct Hne|..]; rewrite ?append_nil_l, ?append_cons in Heq; try discriminate.
    - injection Heq as -> Heq. by destruct dom.
    - injection Heq as -> Heq. by destruct dom. }
  destruct (LambdaSender_spec c payload w endpoint Hwf He Hend) as (s & w1 & Hs & Hwf1 & Hl & Ho & Hsub).
  set (msg := MkWebSocketMessage event.(WSEventRoute) event.(WSEventConnection)
    event.(WSEventSourceIP) event.(WSEventRequest) event.(WSEventBody) false
    (firstNonEmpty [clientMessageID d event.(WSEventBody); event.(WSEventRequest)])).
  assert (LambdaToWebSocketMessage d payload = Ok (Some msg)) as Hm.
  { unfold LambdaToWebSocketMessage, decode_event. by rewrite Hread. }
  assert (received (LambdaAdapter d range push now env) c KindWebSocket payload w =
    (WithWebSocketSender c s, (LambdaAcknowledge d push now (WithWebSocketSender c s) msg w1).2)) as ->.
  { unfold received, webSocketSender, acknowledgeReceipt. rewrite bool_decide_eq_true_2 by done.
    cbn [WebSocketSender LambdaAdapter]. rewrite Hs.
    cbn [AcknowledgeReceipt LambdaAdapter Mapper lambda_mapper ToWebSocketMessage]. by rewrite Hm. }
  eexists s, _. split; [done|]. unfold LambdaAcknowledge. change (WSMessage msg) with (WSEventBody event).
  destruct (clientAckRequest d (WSEventBody event)) as [id|] eqn:Hack; [|by split_and!].
  change (WebSocketSenderFrom (WithWebSocketSender c s)) with (Some s). cbn [mbind option_bind].
  rewrite (endpoint_of_spec w1 endpoint s), Ho by done.
  destruct (push endpoint _ _) as [err out] eqn:Hp. simpl.
  split_and!; [apply Hwf1|done|done|]. exists msg, err. split_and!; try done.
  revert Hack. subst msg. unfold clientAckRequest, clientMessageID. simpl.
  destruct (parseClientRequest d _) as [req|]; [|done].
  destruct (negb (reqAck req)); [done|]. simpl. by case_bool_decide; [|intros [= <-]].
Qed.
End receipts.

(** ** Path parameters, here and in a test *)

(** The values one name is given. *)
Definition values_of (bs : list (string * string)) (k : string) : list string :=
  omap (λ '(n, v), if decide (n = k) then Some v else None) bs.

Lemma values_of_cons n v bs k :
  values_of ((n, v) :: bs) k = if decide (n = k) then v :: values_of bs k else values_of bs k.
Proof. unfold values_of. cbn. by destruct (decide (n = k)). Qed.

Lemma bind_all_values bs ps k :
  default [] (bind_all bs ps !! k) = default [] (ps !! k) ++ (decode <$> values_of bs k).
Proof.
  unfold bind_all. revert ps. induction bs as [|[n v] bs IH]; intros ps.
  { by rewrite app_nil_r. }
  cbn [foldl]. rewrite IH, values_of_cons. unfold Params.Add.
  destruct (decide (n = k)) as [->|Hne].
  - rewrite lookup_insert_eq, fmap_cons. simpl. by rewrite <- (assoc_L (++)).
  - by rewrite lookup_insert_ne.
Qed.

Lemma values_of_app b1 b2 k : values_of (b1 ++ b2) k = values_of b1 k ++ values_of b2 k.
Proof. apply omap_app. Qed.

Lemma values_of_pairs n vs k : values_of (pair n <$> vs) k = if decide (n = k) then vs else [].
Proof.
  induction vs as [|v vs IH]; [by case_decide|].
  rewrite fmap_cons, values_of_cons, IH. by case_decide.
Qed.

Lemma values_of_map bs k :
  NoDup bs.*1 → values_of bs k = option_list ((list_to_map bs : gmap string string) !! k).
Proof.
  induction bs as [|[n v] bs IH]; [done|].
  rewrite fmap_cons, NoDup_cons, values_of_cons. intros [Hn Hnd]. cbn [list_to_map uncurry foldr].
  specialize (IH Hnd). destruct (decide (n = k)) as [->|Hne].
  - rewrite lookup_insert_eq, IH. simpl. by rewrite (not_elem_of_list_to_map_1 bs k Hn).
  - by rewrite lookup_insert_ne.
Qed.

(** What the platform gives of the segments a route binds: the catch-all in one value. *)
Definition platform_bindings (slots : list slot) (catch : option (string * list string)) :
    list (string * string) :=
  omap slot_binding slots ++
  match catch with Some (n, vs) => [(n, join vs "/")] | None => [] end.

(** Path parameters are the same in a test, but for their decoding.  Of a path that
    a route of distinct names matches, with something under its catch-all, what a handler
    is given by the routing its tests run on is what the mapper gives it on Lambda with
    every segment percent-decoded: the mapper decodes none. *)
Lemma path_params_agree slots catch k :
  let route := rooted ((slot_route <$> slots) ++ catch_text catch) in
  let path := rooted ((slot_path <$> slots) ++ catch_values catch) in
  let platform := list_to_map (platform_bindings slots catch) in
  Forall slot_ok slots → catch_ok catch → NoDup (platform_bindings slots catch).*1 →
  CatchAllParam route = fst <$> catch → (∀ n vs, catch = Some (n, vs) → vs ≠ []) →
  ∃ params, matchRoute route path = Some params ∧
    default [] (params !! k) = decode <$> default [] (pathParamsOf platform route !! k).
Proof.
  intros route path platform Hs Hc Hnd Hcatch Hne.
  destruct (route_segments slots catch Hs Hc) as [Hr Hp].
  eexists. split; [unfold route, path, matchRoute; rewrite !split_rooted by done; by apply match_slots|].
  rewrite bind_all_values, lookup_empty. cbn [default from_option app]. f_equal.
  rewrite values_of_app. unfold pathParamsOf. rewrite map_lookup_imap. subst platform.
  assert (option_list ((list_to_map (platform_bindings slots catch) : gmap string string) !! k) =
    values_of (omap slot_binding slots) k ++ values_of (match catch with
      | Some (n, vs) => [(n, join vs "/")] | None => [] end) k) as Hv
    by (rewrite <- values_of_app; symmetry; by apply values_of_map).
  rewrite Hcatch. destruct catch as [[n vs]|]; simpl.
  - rewrite values_of_pairs. simpl in Hv.
    destruct (decide (n = k)) as [->|Hnk].
    + assert (values_of (omap slot_binding slots) k = []) as Hnil.
      { assert (k ∉ (omap slot_binding slots).*1) as Hk.
        { unfold platform_bindings in Hnd. rewrite fmap_app, NoDup_app in Hnd.
          destruct Hnd as (_ & Hd & _). intros Hin. apply (Hd k Hin). by left. }
        clear -Hk. induction (omap slot_binding slots) as [|[m v] bs IH]; [done|].
        rewrite fmap_cons, not_elem_of_cons in Hk. destruct Hk as [Hm Hk]. rewrite values_of_cons.
        destruct (decide (m = k)); [by subst|]. by apply IH. }
      rewrite Hnil in *. destruct (list_to_map _ !! k) as [v|]; [|done]. simpl in *.
      injection Hv as ->. rewrite bool_decide_eq_true_2 by done. symmetry.
      apply split_join; [by eapply Hne|]. destruct Hc as [_ Hc].
      eapply Forall_impl; [exact Hc|]. by intros ? [_ ?].
    + rewrite app_nil_r in *. destruct (list_to_map _ !! k) as [v|]; simpl in *; [|done].
      rewrite bool_decide_eq_false_2 by congruence. done.
  - rewrite app_nil_r in *. destruct (list_to_map _ !! k) as [v|]; simpl in *; [|done].
    by rewrite <- Hv.
Qed.

(** ** Witnesses *)

(** One order to range over a map in. *)
Definition key_order (A : Type) (m : gmap string A) : list string := elements (dom m).

Lemma key_order_keys A (m : gmap string A) : key_order A m ≡ₚ elements (dom m).
Proof. done. Qed.

Definition sample_event : HTTPEvent :=
  MkHTTPEvent "GET /files/{path+}" "/files/a/b" (query_of [("tag", "x y"); ("tag", "z")]) [] ∅ ∅
    {[ "path" := "a/b" ]} "get" "10.0.0.1" "r1" "hello" false.

Definition sample_message : SQSMessage :=
  MkSQSMessage "m1" "h1" "payload" "" None None "arn:aws:sqs:eu-west-2:1:orders" "aws:sqs" "eu-west-2".

Definition sample_ws : WSEvent := MkWSEvent "$default" "conn" "" "r1" "api.example.com" "live" "ping".

(** Every payload read as the samples, and every body as asking for a receipt. *)
Definition sample_decoders : decoders :=
  MkDecoders (λ _, Ok sample_event) (λ _, Ok sample_ws) (λ _, Ok [sample_message])
    (λ _, Err (EString "no event")) (λ _, Err (EString "no envelope")) (λ _, Ok [])
    (λ _, Err (EString "no record")) (λ _, Ok (MkClientRequest true "m7"))
    (λ _, Err (EString "no envelope")) (λ _, false).

Definition sample_mapper : LambdaMapper := NewMapper (λ _, "").

Lemma FromResponse_delivers_witness :
  delivered (FromResponseEvent key_order (Some (MkResponse 200 ∅ (String (ascii_of_nat 255) ""))))
    = Some (String (ascii_of_nat 255) "").
Proof.
  exact (proj1 (proj2 (FromResponse_delivers key_order key_order_keys
    (MkResponse 200 ∅ (String (ascii_of_nat 255) ""))))).
Defined.

Lemma LambdaToRequest_keeps_witness :
  ∃ r, LambdaToRequest sample_decoders key_order sample_mapper "{}" = Ok (Some r) ∧
    r.(RequestBody) = "hello" ∧ default [] (r.(QueryParams) !! "tag") = ["x y"; "z"].
Proof.
  destruct (LambdaToRequest_keeps sample_decoders key_order sample_mapper "{}" sample_event
    [("tag", "x y"); ("tag", "z")] "hello" eq_refl eq_refl ltac:(discriminate) eq_refl)
    as (r & Hr & Hb & Hq & _).
  exists r. split; [exact Hr|]. split; [exact Hb|]. exact (Hq "tag").
Defined.

Lemma headersOf_keeps_witness :
  names_distinct {[ "Accept" := "a, b" ]} ∧
  headersOf key_order sample_mapper {[ "Accept" := "a, b" ]} [] !! "accept" = Some ["a"; "b"].
Proof.
  assert (names_distinct {[ "Accept" := "a, b" ]}) as Hd.
  { intros n1 n2. rewrite !lookup_singleton_is_Some. by intros <- <-. }
  split; [exact Hd|]. etransitivity.
  - apply (proj1 (headersOf_keeps key_order key_order_keys sample_mapper _ [] Hd) "Accept" "a, b");
      [reflexivity|by left].
  - vm_compute. reflexivity.
Defined.

Lemma LambdaToConsumerBatch_spec_witness :
  ∃ b, LambdaToConsumerBatch sample_decoders "{}" "source::orders::sync" = Ok (Some b) ∧
    (RecordMessageID <$> b.(Records)) = ["m1"] ∧ b.(BatchSourceID) = "orders".
Proof.
  destruct (LambdaToConsumerBatch_spec sample_decoders "{}" "source::orders::sync" [sample_message]
    eq_refl) as (b & Hb & Hids & Hsrc & _).
  exists b. split; [exact Hb|]. split; [exact Hids|]. exact (Hsrc "orders" eq_refl).
Defined.

(** The world counts what is pushed. *)
Lemma client_acknowledged_witness :
  ∃ s w', received (LambdaAdapter sample_decoders key_order (λ _ _ n, (None, S n)) (λ _, 0%Z) (λ _, ""))
      Background KindWebSocket "{}" (MkLambdaWorld ∅ 0) = (WithWebSocketSender Background s, w') ∧
    w'.(outside) = 1.
Proof.
  assert (senders_wf (MkLambdaWorld ∅ 0)) as Hwf by (split; intros; simplify_map_eq).
  destruct (client_acknowledged sample_decoders key_order (λ _ _ n, (None, S n)) (λ _, 0%Z) (λ _, "")
    Background "{}" sample_ws (MkLambdaWorld ∅ 0) Hwf eq_refl ltac:(left; discriminate))
    as (s & w' & Hr & _ & _ & _ & msg & err & _ & _ & _ & Hp).
  exists s, w'. split; [exact Hr|]. injection Hp as _ Hp. symmetry. exact Hp.
Defined.

Lemma path_params_agree_witness :
  ∃ params, matchRoute "/orders/{id}/files/{*path}" "/orders/a%20b/files/x/y" = Some params ∧
    default [] (params !! "id") = ["a b"].
Proof.
  destruct (path_params_agree [Fixed "orders"; Bound "id" "a%20b"; Fixed "files"]
    (Some ("path", ["x"; "y"])) "id") as (params & Hm & Hp).
  - repeat constructor; vm_compute; done.
  - split; [done|]. repeat constructor; vm_compute; done.
  - apply (bool_decide_unpack _). vm_compute. exact I.
  - vm_compute. reflexivity.
  - by intros n vs [= <- <-].
  - exists params. split; [exact Hm|]. rewrite Hp. vm_compute. reflexivity.
Defined.
