(* ===== verification/Values.v ===== *)
(** * Go values as a document store sees them

    An item of a store is written as JSON and read back as [any], so what a condition or
    an update meets is one of the six shapes [encoding/json] decodes into, or a value of
    some other Go type a caller wrote.  [value] is such a value as a tree.  [any] is the
    same thing in memory, where a map is a reference into a [heap]: two items that share
    a nested map share its changes.  A float64 is Rocq's own specification of binary64;
    how one is written as text, and read back, is the standard library's and is the
    class [FloatText]. *)

From S2P Require Import Prelude GoStrings Json Errors.
From Stdlib Require Import SpecFloat.
From stdpp Require Import options.

(** ** float64 *)

Definition float64 : Type := spec_float.
Definition feq : float64 → float64 → bool := SFeqb.
Definition flt : float64 → float64 → bool := SFltb.
Definition fadd : float64 → float64 → float64 := SFadd 53 1024.

(** The conversion [float64(n)], to nearest even. *)
Definition float_of_Z (n : Z) : float64 := binary_normalize 53 1024 n 0 false.

Definition finite (f : float64) : bool :=
  match f with S754_zero _ | S754_finite _ _ _ => true | _ => false end.

(** The [%v] verb, the number [json.Marshal] writes, and the number [json.Unmarshal]
    reads, which is refused where a float64 cannot hold it. *)
Class FloatText : Type := {
  sprint_float : float64 → string;
  json_float : float64 → string;
  parse_float : string → option float64;
}.

(** ** Values as trees *)

(** A value of any other type: the float64 [reflect] reads off one of a numeric kind,
    what [fmt.Sprint] writes, and what [json.Marshal] answers. *)
Record opaque : Type := MkOpaque {
  opaque_number : option float64;
  opaque_text : string;
  opaque_json : result error json;
}.

(** A map lists its members in key order, the order [fmt] and [encoding/json] write. *)
Inductive value : Type :=
  | VNil
  | VBool (b : bool)
  | VFloat (f : float64)
  | VString (s : string)
  | VList (items : list value)
  | VMap (members : list (string * value))
  | VOpaque (o : opaque).

(** A Go [int] given by a caller. *)
Definition VInt (n : Z) : value :=
  VOpaque (MkOpaque (Some (float_of_Z n)) (itoa n) (Ok (JNum (itoa n)))).

(** Members by key.  A map with a repeated key in its text has the last of them. *)
Definition members_of {A} (ms : list (string * A)) : gmap string A := list_to_map (reverse ms).

Definition entries {A} (m : gmap string A) : list (string * A) :=
  omap (λ k, pair k <$> m !! k) (sort_strings (keys m)).

Section text.
Context `{FloatText}.

(** [fmt.Sprint] of one value. *)
Fixpoint sprint (v : value) : string :=
  match v with
  | VNil => "<nil>"
  | VBool true => "true"
  | VBool false => "false"
  | VFloat f => sprint_float f
  | VString s => s
  | VList l => "[" +:+ join (sprint <$> l) " " +:+ "]"
  | VMap ms => "map[" +:+ join ((λ '(k, v), k +:+ ":" +:+ sprint v) <$> ms) " " +:+ "]"
  | VOpaque o => o.(opaque_text)
  end.

Definition unsupported (f : float64) : error :=
  EString ("json: unsupported value: " +:+ sprint_float f).

(** [json.Marshal]. *)
Fixpoint marshal (v : value) : result error json :=
  match v with
  | VNil => Ok JNull
  | VBool b => Ok (JBool b)
  | VFloat f => if finite f then Ok (JNum (json_float f)) else Err (unsupported f)
  | VString s => Ok (JStr s)
  | VList l =>
      let! js := (fix go l := match l with
                  | [] => Ok []
                  | v :: l => let! j := marshal v in let! js := go l in Ok (j :: js)
                  end) l in Ok (JArr js)
  | VMap ms =>
      let! js := (fix go ms := match ms with
                  | [] => Ok []
                  | (k, v) :: ms =>
                      let! j := marshal v in let! js := go ms in Ok ((k, j) :: js)
                  end) ms in Ok (JObj js)
  | VOpaque o => o.(opaque_json)
  end.

(** [json.Unmarshal] into an [any]. *)
Fixpoint unmarshal (j : json) : option value :=
  match j with
  | JNull => Some VNil
  | JBool b => Some (VBool b)
  | JNum text => VFloat <$> parse_float text
  | JStr s => Some (VString s)
  | JArr js =>
      VList <$> (fix go js := match js with
                 | [] => Some []
                 | j :: js => v ← unmarshal j; vs ← go js; Some (v :: vs)
                 end) js
  | JObj ms =>
      (λ vs, VMap (entries (members_of vs))) <$>
      (fix go ms := match ms with
       | [] => Some []
       | (k, j) :: ms => v ← unmarshal j; vs ← go ms; Some ((k, v) :: vs)
       end) ms
  end.

End text.

(** ** Values in memory *)

Abbreviation loc := nat (only parsing).

Inductive any : Type :=
  | ANil
  | ABool (b : bool)
  | AFloat (f : float64)
  | AString (s : string)
  | AList (items : list any)
  | AMap (l : loc)
  | AOpaque (o : opaque).

(** A [map[string]any], and the maps allocated so far, each at its index. *)
Abbreviation object := (gmap string any) (only parsing).
Abbreviation heap := (list (gmap string any)) (only parsing).

(** What a value is, read through the heap.  Each map passed through takes one unit of
    fuel, and [reify_total] is that the size of the heap is enough. *)
Fixpoint reify (fuel : nat) (h : heap) : any → option value :=
  fix go a :=
    match a with
    | ANil => Some VNil
    | ABool b => Some (VBool b)
    | AFloat f => Some (VFloat f)
    | AString s => Some (VString s)
    | AList l =>
        VList <$> (fix gos l := match l with
                   | [] => Some []
                   | a :: l => v ← go a; vs ← gos l; Some (v :: vs)
                   end) l
    | AMap l =>
        match fuel with
        | O => None
        | S fuel =>
            obj ← h !! l;
            VMap <$> mapM (λ '(k, a), pair k <$> reify fuel h a) (entries obj)
        end
    | AOpaque o => Some (VOpaque o)
    end.

(** The members of one map. *)
Definition reify_object (h : heap) (obj : object) : option (list (string * value)) :=
  mapM (λ '(k, a), pair k <$> reify (length h) h a) (entries obj).

(** A tree put in memory: every map of it is allocated before the maps inside it. *)
Fixpoint alloc (v : value) (h : heap) : any * heap :=
  match v with
  | VNil => (ANil, h)
  | VBool b => (ABool b, h)
  | VFloat f => (AFloat f, h)
  | VString s => (AString s, h)
  | VList l =>
      let '(l, h) := (fix go l h := match l with
                      | [] => ([], h)
                      | v :: l => let '(a, h) := alloc v h in
                                  let '(l, h) := go l h in (a :: l, h)
                      end) l h in (AList l, h)
  | VMap ms =>
      let l := length h in
      let '(ms, h) := (fix go ms h := match ms with
                       | [] => ([], h)
                       | (k, v) :: ms => let '(a, h) := alloc v h in
                                         let '(ms, h) := go ms h in ((k, a) :: ms, h)
                       end) ms (h ++ [∅]) in (AMap l, <[l := members_of ms]> h)
  | VOpaque o => (AOpaque o, h)
  end.

(** ** Entries *)

Section entries.
Context {A : Type}.
Implicit Types (m : gmap string A).

Lemma elem_of_entries m k a : (k, a) ∈ entries m ↔ m !! k = Some a.
Proof.
  unfold entries. rewrite list_elem_of_omap. split.
  - intros (k' & Hk & Hm). destruct (m !! k') eqn:E; simpl in Hm; by simplify_eq.
  - intros Hm. exists k. rewrite Hm. split; [|done].
    apply elem_of_sort_strings, elem_of_keys. eauto.
Qed.

Lemma entries_fst m : (entries m).*1 = sort_strings (keys m).
Proof.
  unfold entries. apply fmap_omap_key, Forall_forall. intros k Hk.
  apply elem_of_sort_strings, elem_of_keys in Hk as [a Ha].
  exists (k, a). by rewrite Ha.
Qed.

Lemma NoDup_entries_fst m : NoDup (entries m).*1.
Proof. rewrite entries_fst. auto with go. Qed.

Lemma NoDup_entries m : NoDup (entries m).
Proof. eapply NoDup_fmap_1, NoDup_entries_fst. Qed.

Lemma members_of_lookup (ms : list (string * A)) k a :
  NoDup ms.*1 → members_of ms !! k = Some a ↔ (k, a) ∈ ms.
Proof.
  intros Hn. unfold members_of.
  rewrite <- elem_of_list_to_map by (by rewrite fmap_reverse, reverse_Permutation).
  apply elem_of_reverse.
Qed.

Lemma members_of_entries m : members_of (entries m) = m.
Proof.
  apply map_eq. intros k. apply option_eq. intros a.
  by rewrite members_of_lookup, elem_of_entries by apply NoDup_entries_fst.
Qed.
End entries.

Lemma members_of_in {A} (ms : list (string * A)) k a :
  members_of ms !! k = Some a → (k, a) ∈ ms.
Proof. intros Hk%elem_of_list_to_map_2. by apply elem_of_reverse. Qed.

Lemma members_of_fmap {A B} (f : A → B) (ms : list (string * A)) :
  members_of (prod_map id f <$> ms) = f <$> members_of ms.
Proof.
  unfold members_of. by rewrite <- fmap_reverse, list_to_map_fmap.
Qed.

Lemma entries_fmap {A B} (f : A → B) (m : gmap string A) :
  entries (f <$> m) = prod_map id f <$> entries m.
Proof.
  unfold entries.
  assert (sort_strings (keys (f <$> m)) = sort_strings (keys m)) as ->.
  { apply sort_strings_unique, NoDup_Permutation; auto with go.
    intros k. by rewrite !elem_of_keys, lookup_fmap, fmap_is_Some. }
  induction (sort_strings (keys m)) as [|k ks IH]; [done|].
  cbn. rewrite lookup_fmap. destruct (m !! k); cbn; [f_equal|]; exact IH.
Qed.

(** ** The nested recursions as maps over lists *)

Section value_ind.
Context (P : value → Prop).
Context (Pnil : P VNil) (Pbool : ∀ b, P (VBool b)) (Pfloat : ∀ f, P (VFloat f))
  (Pstring : ∀ s, P (VString s)) (Popaque : ∀ o, P (VOpaque o))
  (Plist : ∀ l, Forall P l → P (VList l))
  (Pmap : ∀ ms, Forall (λ kv, P kv.2) ms → P (VMap ms)).

Fixpoint value_ind' (v : value) : P v :=
  match v with
  | VNil => Pnil
  | VBool b => Pbool b
  | VFloat f => Pfloat f
  | VString s => Pstring s
  | VList l => Plist l ((fix go l : Forall P l := match l with
                         | [] => Forall_nil_2 P
                         | v :: l => Forall_cons_2 P v l (value_ind' v) (go l)
                         end) l)
  | VMap ms => Pmap ms ((fix go ms : Forall (λ kv, P kv.2) ms := match ms with
                         | [] => Forall_nil_2 _
                         | kv :: ms => Forall_cons_2 _ kv ms (value_ind' kv.2) (go ms)
                         end) ms)
  | VOpaque o => Popaque o
  end.
End value_ind.

Section any_ind.
Context (P : any → Prop).
Context (Pnil : P ANil) (Pbool : ∀ b, P (ABool b)) (Pfloat : ∀ f, P (AFloat f))
  (Pstring : ∀ s, P (AString s)) (Popaque : ∀ o, P (AOpaque o))
  (Plist : ∀ l, Forall P l → P (AList l)) (Pmap : ∀ l, P (AMap l)).

Fixpoint any_ind' (a : any) : P a :=
  match a with
  | ANil => Pnil
  | ABool b => Pbool b
  | AFloat f => Pfloat f
  | AString s => Pstring s
  | AList l => Plist l ((fix go l : Forall P l := match l with
                         | [] => Forall_nil_2 P
                         | a :: l => Forall_cons_2 P a l (any_ind' a) (go l)
                         end) l)
  | AMap l => Pmap l
  | AOpaque o => Popaque o
  end.
End any_ind.

Lemma marshal_list `{FloatText} l : marshal (VList l) = let! js := try_map marshal l in Ok (JArr js).
Proof.
  cbn [marshal]. set (go := fix go (l : list value) : result error (list json) := _).
  assert (go l = try_map marshal l) as ->; [|done].
  induction l as [|v l IH]; [done|]. simpl. by rewrite IH.
Qed.

Definition marshal_member `{FloatText} (kv : string * value) : result error (string * json) :=
  let! j := marshal kv.2 in Ok (kv.1, j).

Lemma marshal_map `{FloatText} ms :
  marshal (VMap ms) = let! js := try_map marshal_member ms in Ok (JObj js).
Proof.
  cbn [marshal]. set (go := fix go (ms : list (string * value)) {struct ms} := _).
  assert (go ms = try_map marshal_member ms) as ->; [|done].
  induction ms as [|[k v] ms IH]; [done|].
  simpl. unfold marshal_member at 1. simpl. destruct (marshal v); [|done]. by rewrite IH.
Qed.

Lemma reify_list fuel h l : reify fuel h (AList l) = VList <$> mapM (reify fuel h) l.
Proof.
  destruct fuel; simpl; f_equal; induction l as [|a l IH]; simpl; try done;
    destruct (reify _ h a) eqn:E; unfold reify in E; simpl in E; rewrite ?E; simpl; by rewrite ?IH.
Qed.

Definition reify_member fuel h (ka : string * any) : option (string * value) :=
  pair ka.1 <$> reify fuel h ka.2.

Lemma reify_member_pair fuel h k a : reify_member fuel h (k, a) = pair k <$> reify fuel h a.
Proof. done. Qed.

Lemma mapM_ext_in {A B} (f g : A → option B) l :
  (∀ x, x ∈ l → f x = g x) → mapM f l = mapM g l.
Proof.
  induction l as [|x l IH]; intros Hfg; [done|]. cbn.
  rewrite (Hfg x) by left. destruct (g x); [|done]. cbn.
  rewrite IH; [done|]. intros. apply Hfg. by right.
Qed.

Lemma reify_map fuel h l :
  reify (S fuel) h (AMap l) =
  (obj ← h !! l; VMap <$> mapM (reify_member fuel h) (entries obj)).
Proof.
  simpl. destruct (h !! l) as [obj|]; [|done]. cbn. f_equal.
  apply mapM_ext_in. by intros [k a] _.
Qed.

Lemma reify_object_eq h obj :
  reify_object h obj = mapM (reify_member (length h) h) (entries obj).
Proof. apply mapM_ext_in. by intros [k a] _. Qed.

Fixpoint alloc_list (vs : list value) (h : heap) : list any * heap :=
  match vs with
  | [] => ([], h)
  | v :: vs => let '(a, h) := alloc v h in
               let '(l, h) := alloc_list vs h in (a :: l, h)
  end.

Fixpoint alloc_members (ms : list (string * value)) (h : heap) : list (string * any) * heap :=
  match ms with
  | [] => ([], h)
  | (k, v) :: ms => let '(a, h) := alloc v h in
                    let '(ms, h) := alloc_members ms h in ((k, a) :: ms, h)
  end.

Lemma alloc_list_eq l h :
  alloc (VList l) h = let '(l, h) := alloc_list l h in (AList l, h).
Proof.
  simpl. set (go := fix go (l : list value) (h : heap) {struct l} : list any * heap := _).
  assert (go l h = alloc_list l h) as ->; [|done].
  revert h. induction l as [|v l IH]; intros h; [done|]. simpl.
  destruct (alloc v h) as [a h']. by rewrite IH.
Qed.

Lemma alloc_map_eq ms h :
  alloc (VMap ms) h =
  let '(ms, h') := alloc_members ms (h ++ [∅]) in
  (AMap (length h), <[length h := members_of ms]> h').
Proof.
  simpl. set (go := fix go (ms : list (string * value)) (h : heap) {struct ms} := _).
  assert (go ms (h ++ [∅]) = alloc_members ms (h ++ [∅])) as ->; [|done].
  generalize (h ++ [∅]). induction ms as [|[k v] ms IH]; intros h'; [done|]. simpl.
  destruct (alloc v h') as [a h'']. by rewrite IH.
Qed.

(** ** Normal trees, ordered heaps *)

(** Every map of the tree lists each member once, in order. *)
Fixpoint normal (v : value) : Prop :=
  match v with
  | VList l => (fix go l := match l with [] => True | v :: l => normal v ∧ go l end) l
  | VMap ms =>
      ms = entries (members_of ms) ∧
      (fix go (ms : list (string * value)) :=
         match ms with [] => True | kv :: ms => normal kv.2 ∧ go ms end) ms
  | _ => True
  end.

Lemma normal_list l : normal (VList l) ↔ Forall normal l.
Proof. simpl. induction l; [done|]. by rewrite Forall_cons, <- IHl. Qed.

Lemma normal_map ms :
  normal (VMap ms) ↔ ms = entries (members_of ms) ∧ Forall (λ kv, normal kv.2) ms.
Proof.
  assert (∀ ms : list (string * value),
    (fix go (ms : list (string * value)) :=
      match ms with [] => True | kv :: ms => normal kv.2 ∧ go ms end) ms ↔
    Forall (λ kv, normal kv.2) ms) as Hgo.
  { induction ms0; [done|]. by rewrite Forall_cons, <- IHms0. }
  simpl. by rewrite Hgo.
Qed.

Lemma entries_members_of {A} (ms : list (string * A)) :
  NoDup ms.*1 → ms.*1 = sort_strings (ms.*1) → entries (members_of ms) = ms.
Proof.
  intros Hn Hs. unfold entries.
  assert (sort_strings (keys (members_of ms)) = ms.*1) as ->.
  { rewrite Hs. apply sort_strings_unique, NoDup_Permutation; auto with go.
    intros k. rewrite elem_of_keys, list_elem_of_fmap. split.
    - intros [a Ha]. exists (k, a). by apply members_of_lookup in Ha.
    - intros ([k' a] & -> & Hin). exists a. by apply members_of_lookup. }
  assert (∀ k a, (k, a) ∈ ms → members_of ms !! k = Some a) as Hl.
  { intros k a. by apply members_of_lookup. }
  revert Hl. generalize (members_of ms). clear. intros m Hl.
  induction ms as [|[k a] ms IH]; [done|]. cbn.
  rewrite (Hl k a) by left. cbn. rewrite IH; [done|]. intros. apply Hl. by right.
Qed.

Lemma normal_map_fst {A} (ms : list (string * A)) :
  ms = entries (members_of ms) → NoDup ms.*1 ∧ ms.*1 = sort_strings (ms.*1).
Proof.
  intros He. rewrite He. split; [apply NoDup_entries_fst|].
  rewrite entries_fst. symmetry. apply sort_strings_id, sort_strings_sorted.
Qed.

(** The maps a value refers to itself. *)
Fixpoint refs (a : any) : list loc :=
  match a with
  | AList l => (fix go l := match l with [] => [] | a :: l => refs a ++ go l end) l
  | AMap l => [l]
  | _ => []
  end.

Lemma refs_list l : refs (AList l) = flat_map refs l.
Proof. done. Qed.

(** A map, from one on, refers to later ones only; where all do, nothing is cyclic. *)
Definition ordered_from (n : nat) (h : heap) : Prop :=
  ∀ l obj k a r, n ≤ l → h !! l = Some obj → obj !! k = Some a → r ∈ refs a → l < r < length h.
Definition ordered (h : heap) : Prop := ordered_from 0 h.

(** Everything a value refers to is in the heap. *)
Definition closed (h : heap) (a : any) : Prop := ∀ r, r ∈ refs a → r < length h.
Definition closed_object (h : heap) (obj : object) : Prop :=
  ∀ k a, obj !! k = Some a → closed h a.

(** Everything a map refers to is in the heap, itself and earlier ones included. *)
Definition closed_heap (h : heap) : Prop := ∀ l obj, h !! l = Some obj → closed_object h obj.

Lemma ordered_nil : ordered [].
Proof. intros [|l] obj k a r _; by intros ?. Qed.

Lemma closed_extend h h' a : length h ≤ length h' → closed h a → closed h' a.
Proof. intros Hl Hc r Hr. specialize (Hc r Hr). lia. Qed.

Lemma elem_of_flat_map {A B} (f : A → list B) l y :
  y ∈ flat_map f l ↔ ∃ x, x ∈ l ∧ y ∈ f x.
Proof.
  induction l as [|x l IH]; simpl.
  - split; [by intros ?%not_elem_of_nil|]. intros (? & []%not_elem_of_nil & _).
  - rewrite elem_of_app, IH. setoid_rewrite elem_of_cons. naive_solver.
Qed.

Lemma mapM_mono {A B} (f g : A → option B) l ys :
  (∀ x y, x ∈ l → f x = Some y → g x = Some y) → mapM f l = Some ys → mapM g l = Some ys.
Proof.
  revert ys. induction l as [|x l IH]; intros ys Hfg; [done|]. cbn.
  destruct (f x) as [y|] eqn:Ef; [|done]. cbn.
  destruct (mapM f l) as [ys'|] eqn:Em; [|done]. cbn. intros [= <-].
  rewrite (Hfg x y) by (done || left). cbn. erewrite IH; [done| |done].
  intros. apply Hfg; [by right|done].
Qed.

Lemma fmap_mapM_mono {A B C} (c : list B → C) (f g : A → option B) l v :
  (∀ x y, x ∈ l → f x = Some y → g x = Some y) →
  c <$> mapM f l = Some v → c <$> mapM g l = Some v.
Proof.
  intros Hfg (vs & Hvs & ->)%fmap_Some. by rewrite (mapM_mono f g l vs).
Qed.

Lemma mapM_cons {A B} (f : A → option B) x l :
  mapM f (x :: l) = (y ← f x; ys ← mapM f l; Some (y :: ys)).
Proof. done. Qed.

(** What a value is depends on the maps it can reach, which where the heap is ordered lie at or
    after the ones it refers to. *)
Lemma reify_local n h h' fuel fuel' a v :
  ordered_from n h → fuel ≤ fuel' →
  (∀ l obj, n ≤ l → h !! l = Some obj → h' !! l = Some obj) →
  (∀ r, r ∈ refs a → n ≤ r) →
  reify fuel h a = Some v → reify fuel' h' a = Some v.
Proof.
  intros Ho Hle Hh. revert fuel' a v Hle.
  induction fuel as [|fuel IHf]; intros fuel' a v Hle.
  all: revert v; induction a as [| | | | |l IHl|l] using any_ind'; intros v Hr;
    try by destruct fuel'.
  1,2: rewrite !reify_list; apply fmap_mapM_mono; rewrite Forall_forall in IHl;
    intros x y Hx; apply (IHl x Hx); intros r Hin; apply Hr;
    rewrite refs_list, elem_of_flat_map; by eauto.
  - destruct fuel' as [|fuel']; [lia|]. rewrite !reify_map.
    destruct (h !! l) as [obj|] eqn:El; [|done].
    assert (n ≤ l) by (apply Hr; left). rewrite (Hh l obj) by done. cbn.
    apply fmap_mapM_mono. intros [k a] kv Hin%elem_of_entries. unfold reify_member. simpl.
    intros (w & Hw & ->)%fmap_Some.
    rewrite (IHf fuel' a w); [done|lia| |done].
    intros r Hra. specialize (Ho l obj k a r ltac:(lia) El Hin Hra). lia.
Qed.

(** The size of the heap is fuel enough: reading a value never fails. *)
Lemma reify_total h fuel a :
  ordered h → (∀ r, r ∈ refs a → length h ≤ r + fuel ∧ r < length h) →
  is_Some (reify fuel h a).
Proof.
  intros Ho. revert a. induction fuel as [|fuel IHf]; intros a.
  all: induction a as [| | | | |l IHl|l] using any_ind'; intros Hr;
    rewrite ?reify_list; try (simpl; by eauto).
  1,3: apply fmap_is_Some, mapM_is_Some; rewrite Forall_forall in IHl |- *;
    intros x Hx; apply IHl; [done|]; intros r Hin; apply Hr;
    rewrite refs_list, elem_of_flat_map; by eauto.
  - specialize (Hr l ltac:(left)). lia.
  - rewrite reify_map. destruct (Hr l ltac:(left)) as [Hl1 Hl2].
    apply lookup_lt_is_Some in Hl2 as [obj Hobj]. rewrite Hobj. cbn.
    apply fmap_is_Some, mapM_is_Some, Forall_forall. intros [k a] Hin%elem_of_entries.
    unfold reify_member. simpl. apply fmap_is_Some, IHf. intros r Hra.
    specialize (Ho l obj k a r ltac:(lia) Hobj Hin Hra). lia.
Qed.

Lemma reify_object_total h obj :
  ordered h → closed_object h obj → is_Some (reify_object h obj).
Proof.
  intros Ho Hc. rewrite reify_object_eq. apply mapM_is_Some, Forall_forall.
  intros [k a] Hin%elem_of_entries. apply fmap_is_Some, reify_total; [done|].
  intros r Hr. specialize (Hc k a Hin r Hr). simpl in *. lia.
Qed.

(** *** Fuel

    A value that is a tree is read with as much fuel as there are maps, however the maps refer
    to one another: the maps read with a unit more are more, or there are no more to come. *)

Lemma reify_some fuel h a : is_Some (reify fuel h a) ↔ ∀ r, r ∈ refs a → is_Some (reify fuel h (AMap r)).
Proof.
  induction a as [| | | | |l IHl|l] using any_ind'.
  1-5: split; [intros _ r Hr; by apply not_elem_of_nil in Hr|intros _; destruct fuel; by eexists].
  - rewrite reify_list, fmap_is_Some, mapM_is_Some, Forall_forall, refs_list. rewrite Forall_forall in IHl. split.
    + intros Hl r (b & Hb & Hr)%elem_of_flat_map. apply (proj1 (IHl b Hb)); [by apply Hl|done].
    + intros Hr b Hb. apply IHl; [done|]. intros r Hin. apply Hr, elem_of_flat_map. eauto.
  - split; [intros Hl r ->%list_elem_of_singleton; done|]. intros Hr. apply Hr. by left.
Qed.

Lemma reify_map_some fuel h l :
  is_Some (reify (S fuel) h (AMap l)) ↔
  ∃ obj, h !! l = Some obj ∧ ∀ k a r, obj !! k = Some a → r ∈ refs a → is_Some (reify fuel h (AMap r)).
Proof.
  rewrite reify_map. destruct (h !! l) as [obj|]; cbn; [|split; [by intros []|by intros (? & ? & _)]].
  rewrite fmap_is_Some, mapM_is_Some, Forall_forall. split.
  - intros Hall. exists obj. split; [done|]. intros k a r Hk Hr.
    apply elem_of_entries in Hk. apply Hall in Hk. apply fmap_is_Some in Hk. by eapply reify_some in Hk.
  - intros (? & [= <-] & Hall) [k a] Hin%elem_of_entries. apply fmap_is_Some, reify_some. eauto.
Qed.

Lemma reify_mono h fuel fuel' a v : fuel ≤ fuel' → reify fuel h a = Some v → reify fuel' h a = Some v.
Proof.
  revert fuel' a v. induction fuel as [|fuel IHf]; intros fuel' a v Hle.
  all: revert v; induction a as [| | | | |l IHl|l] using any_ind'; intros v; try by destruct fuel'.
  1,2: rewrite !reify_list; apply fmap_mapM_mono; rewrite Forall_forall in IHl; intros x y Hx; by apply IHl.
  destruct fuel' as [|fuel']; [lia|]. rewrite !reify_map.
  destruct (h !! l) as [obj|]; [|done]. cbn. apply fmap_mapM_mono. intros [k a] kv _.
  unfold reify_member. simpl. intros (w & Hw & ->)%fmap_Some. by rewrite (IHf fuel' a w) by (done || lia).
Qed.

(** The maps that are trees of at most so many levels. *)
Definition trees (h : heap) (fuel : nat) : gset nat :=
  list_to_set (List.filter (λ l, is_some (reify fuel h (AMap l))) (seq 0 (length h))).

Lemma elem_of_trees h fuel l : l ∈ trees h fuel ↔ is_Some (reify fuel h (AMap l)).
Proof.
  unfold trees. rewrite elem_of_list_to_set, list_elem_of_In, filter_In, in_seq, is_some_true. split; [tauto|].
  intros Hl. split; [|done]. split; [lia|]. destruct fuel; [by destruct Hl|].
  apply reify_map_some in Hl as (obj & Hobj & _). apply lookup_lt_Some in Hobj. lia.
Qed.

Lemma trees_mono h n m : n ≤ m → trees h n ⊆ trees h m.
Proof. intros Hle l. rewrite !elem_of_trees. intros [v Hv]. exists v. by eapply reify_mono. Qed.

Lemma trees_stable h n m : trees h n = trees h (S n) → n ≤ m → trees h m = trees h n.
Proof.
  intros Hn Hle. induction Hle as [|m _ IH]; [done|]. apply set_eq. intros l. rewrite Hn, !elem_of_trees, !reify_map_some.
  setoid_rewrite <- elem_of_trees. by rewrite IH.
Qed.

Lemma trees_size h n : trees h n = trees h (S n) ∨ n < size (trees h (S n)).
Proof.
  induction n as [|n IH].
  - destruct (decide (trees h 0 = trees h 1)) as [|Hne]; [by left|right].
    destruct (decide (size (trees h 1) = 0)) as [Hz|]; [|lia]. destruct Hne.
    apply set_subseteq_size_eq; [apply trees_mono; lia|lia].
  - destruct (decide (trees h (S n) = trees h (S (S n)))) as [|Hne]; [by left|right].
    destruct IH as [IH|IH].
    { destruct Hne. rewrite (trees_stable h n (S (S n))) by (done || lia). by rewrite (trees_stable h n (S n)) by (done || lia). }
    pose proof (trees_mono h (S n) (S (S n)) ltac:(lia)) as Hm. pose proof (subseteq_size _ _ Hm).
    destruct (decide (size (trees h (S (S n))) = size (trees h (S n)))); [|lia].
    destruct Hne. by apply set_subseteq_size_eq; [|lia].
Qed.

Lemma trees_all h m : length h ≤ m → trees h m = trees h (length h).
Proof.
  intros Hle. assert (trees h (length h) = trees h (S (length h))) as Hst; [|by apply trees_stable].
  destruct (trees_size h (length h)) as [|Hlt]; [done|exfalso].
  assert (size (trees h (S (length h))) ≤ length h) as Hb; [|lia].
  rewrite <- (length_seq (length h) 0) at 2. rewrite <- (size_list_to_set (C := gset nat) (seq 0 (length h))) by apply NoDup_seq.
  apply subseteq_size. intros l. rewrite elem_of_trees, elem_of_list_to_set, elem_of_seq. rewrite reify_map_some.
  intros (obj & Hobj & _). apply lookup_lt_Some in Hobj. lia.
Qed.

Lemma reify_fuel h fuel a : length h ≤ fuel → reify fuel h a = reify (length h) h a.
Proof.
  intros Hle. destruct (reify (length h) h a) as [v|] eqn:E; [by eapply reify_mono|].
  destruct (reify fuel h a) as [v|] eqn:E'; [exfalso|done].
  assert (is_Some (reify (length h) h a)) as [w Hw]; [|congruence].
  apply reify_some. intros r Hr. apply elem_of_trees. rewrite <- (trees_all h fuel) by done. apply elem_of_trees.
  revert r Hr. apply reify_some. eauto.
Qed.

(** ** Allocating a tree *)

Definition extends (h h' : heap) : Prop := ∀ l obj, h !! l = Some obj → h' !! l = Some obj.

#[export] Instance extends_preorder : PreOrder extends.
Proof. split; [by intros h l obj|]. intros h1 h2 h3 H1 H2 l obj Hl. by apply H2, H1. Qed.

Lemma extends_app h o : extends h (h ++ o).
Proof. intros l obj Hl. by apply lookup_app_l_Some. Qed.

Lemma extends_length h h' : extends h h' → length h ≤ length h'.
Proof.
  intros He. destruct (decide (length h ≤ length h')) as [|Hn]; [done|].
  destruct (lookup_lt_is_Some_2 h (length h')) as [obj Hobj]; [lia|].
  specialize (He _ _ Hobj). apply lookup_lt_Some in He. lia.
Qed.

Lemma extends_insert h h' o n : length h ≤ n → extends h h' → extends h (<[n := o]> h').
Proof.
  intros Hn He l obj Hl. rewrite list_lookup_insert_ne; [by apply He|].
  apply lookup_lt_Some in Hl. lia.
Qed.

#[export] Hint Resolve extends_app : go.

(** What is added to a heap that keeps to it keeps to it. *)
Lemma ordered_from_trans n h h' :
  ordered_from n h → extends h h' → ordered_from (length h) h' → ordered_from n h'.
Proof.
  intros Ho He Ho' l obj k a r Hl Hobj Hk Hr. destruct (decide (length h ≤ l)) as [|Hlt]; [by eapply Ho'|].
  destruct (lookup_lt_is_Some_2 h l) as [obj' Hobj']; [lia|]. pose proof (He _ _ Hobj') as Heq. simplify_eq.
  specialize (Ho l _ k a r Hl Hobj' Hk Hr). apply extends_length in He. lia.
Qed.

Lemma closed_heap_extend h h' :
  closed_heap h → extends h h' → ordered_from (length h) h' → closed_heap h'.
Proof.
  intros Hc He Ho' l obj Hobj k a Hk r Hr. destruct (decide (length h ≤ l)) as [|Hlt].
  { specialize (Ho' l obj k a r ltac:(done) Hobj Hk Hr). lia. }
  destruct (lookup_lt_is_Some_2 h l) as [obj' Hobj']; [lia|]. pose proof (He _ _ Hobj') as Heq. simplify_eq.
  specialize (Hc l _ Hobj' k a Hk r Hr). apply extends_length in He. lia.
Qed.

(** What a closed value is does not depend on what is added to the heap. *)
Lemma reify_extends h h' a :
  closed_heap h → closed h a → extends h h' → reify (length h') h' a = reify (length h) h a.
Proof.
  intros Hh Ha He. rewrite <- (reify_fuel h (length h')) by by apply extends_length.
  generalize (length h') as fuel. intros fuel. revert a Ha. induction fuel as [|fuel IHf]; intros a.
  all: induction a as [| | | | |l IHl|l] using any_ind'; intros Ha; try done.
  1: rewrite !reify_list; f_equal; apply mapM_ext_in; rewrite Forall_forall in IHl; intros x Hx;
    apply IHl; [done|]; intros r Hr; apply Ha; rewrite refs_list, elem_of_flat_map; by eauto.
  rewrite !reify_map. destruct (lookup_lt_is_Some_2 h l) as [obj Hobj]; [apply Ha; by left|].
  rewrite Hobj, (He _ _ Hobj). cbn. f_equal. apply mapM_ext_in. intros [k a] Hin%elem_of_entries.
  unfold reify_member. cbn. rewrite IHf; [done|]. intros r Hr. by eapply Hh.
Qed.

Lemma ordered_app n h : ordered_from n h → ordered_from n (h ++ [∅]).
Proof.
  intros Ho l obj k a r Hn [Hl|[_ Hl]]%lookup_app_Some Hk Hr.
  - rewrite length_app. specialize (Ho l obj k a r Hn Hl Hk Hr). simpl. lia.
  - apply list_lookup_singleton_Some in Hl as [_ <-]. by rewrite lookup_empty in Hk.
Qed.

(** What allocating a tree [v] in [h] leaves: [a] refers to new maps only, and reads back
    as [v]. *)
Definition allocated (h : heap) (v : value) (a : any) (h' : heap) : Prop :=
  extends h h' ∧ ordered_from (length h) h' ∧ (∀ r, r ∈ refs a → length h ≤ r < length h') ∧
  (normal v → ∀ fuel, length h' ≤ length h + fuel → reify fuel h' a = Some v).

Lemma ordered_from_end h : ordered_from (length h) h.
Proof. intros l obj k a r Hl Hobj. apply lookup_lt_Some in Hobj. lia. Qed.

Lemma allocated_leaf h v a :
  refs a = [] → (∀ fuel, reify fuel h a = Some v) → allocated h v a h.
Proof.
  intros Hr Hv. split_and!; [done|apply ordered_from_end| |done].
  intros r. rewrite Hr. by intros ?%not_elem_of_nil.
Qed.

Definition allocates (v : value) : Prop :=
  ∀ h a h', alloc v h = (a, h') → allocated h v a h'.

Lemma alloc_list_spec vs h l h' :
  Forall allocates vs → alloc_list vs h = (l, h') →
  extends h h' ∧ ordered_from (length h) h' ∧ (∀ a r, a ∈ l → r ∈ refs a → length h ≤ r < length h') ∧
  length l = length vs ∧
  (Forall normal vs →
   ∀ fuel, length h' ≤ length h + fuel → mapM (reify fuel h') l = Some vs).
Proof.
  intros Hall. revert h l h'. induction Hall as [|v vs Hv _ IH]; simpl; intros h l h' Hl.
  { simplify_eq. split_and!; try done; [apply ordered_from_end|]. by intros a r ?%not_elem_of_nil. }
  destruct (alloc v h) as [a h1] eqn:Ea. destruct (alloc_list vs h1) as [l1 h2] eqn:El.
  simplify_eq.
  destruct (Hv _ _ _ Ea) as (E1 & O1 & R1 & V1).
  destruct (IH _ _ _ El) as (E2 & O2 & R2 & L2 & V2).
  pose proof (extends_length _ _ E1). pose proof (extends_length _ _ E2).
  split_and!; [by etrans|by eapply ordered_from_trans| |simpl; by f_equal|].
  - intros b r [->|Hb]%elem_of_cons Hr.
    + specialize (R1 r Hr). lia.
    + specialize (R2 b r Hb Hr). lia.
  - intros [Hn Hns]%Forall_cons fuel Hf. cbn.
    rewrite (reify_local (length h) h1 h' fuel fuel a v); [|done|done|auto|apply R1|apply V1; [done|lia]].
    cbn. by rewrite V2 by (done || lia).
Qed.

Lemma alloc_members_list ms h :
  alloc_members ms h =
  (zip ms.*1 (alloc_list ms.*2 h).1, (alloc_list ms.*2 h).2).
Proof.
  revert h. induction ms as [|[k v] ms IH]; intros h; [done|]. simpl.
  destruct (alloc v h) as [a h1]. rewrite IH. cbn.
  by destruct (alloc_list _ h1).
Qed.

Lemma mapM_zip fuel h ks l vs :
  length ks = length l → mapM (reify fuel h) l = Some vs →
  mapM (reify_member fuel h) (zip ks l) = Some (zip ks vs).
Proof.
  revert l vs. induction ks as [|k ks IH]; intros [|a l] vs Hlen; try done.
  injection Hlen as Hlen. change (zip (k :: ks) (a :: l)) with ((k, a) :: zip ks l).
  rewrite !mapM_cons, reify_member_pair.
  destruct (reify fuel h a) as [v|]; [|done]. cbn [fmap option_fmap option_map mbind option_bind].
  destruct (mapM (reify fuel h) l) as [vs'|] eqn:E; [|done].
  cbn [mbind option_bind]. intros [= <-]. by rewrite (IH l vs').
Qed.

Lemma zip_fst_snd {A B} (l : list (A * B)) : zip l.*1 l.*2 = l.
Proof.
  induction l as [|[a b] l IH]; [done|]. rewrite !fmap_cons.
  change (zip (?x :: ?xs) (?y :: ?ys)) with ((x, y) :: zip xs ys). by rewrite IH.
Qed.

Lemma zip_refs ks (l : list any) k b r n m :
  (∀ a r, a ∈ l → r ∈ refs a → n ≤ r < m) →
  members_of (zip ks l) !! k = Some b → r ∈ refs b → n ≤ r < m.
Proof. intros Hl Hk%members_of_in%elem_of_zip_r. by apply Hl. Qed.

Lemma alloc_spec v : allocates v.
Proof.
  induction v as [|b|f|s|o|l IHl|ms IHms] using value_ind'; intros h a h' Ha.
  1-5: injection Ha as <- <-; apply allocated_leaf; [done|by intros []].
  - rewrite alloc_list_eq in Ha.
    destruct (alloc_list l h) as [as_ h1] eqn:E. simplify_eq.
    destruct (alloc_list_spec _ _ _ _ IHl E) as (E1 & O1 & R1 & _ & V1).
    split_and!; [done|done| |].
    + intros r. rewrite refs_list, elem_of_flat_map. intros (b & Hb & Hr). eauto.
    + intros Hn%normal_list fuel Hf. by rewrite reify_list, V1.
  - rewrite alloc_map_eq, alloc_members_list in Ha.
    destruct (alloc_list ms.*2 (h ++ [∅])) as [l h1] eqn:E. simpl in Ha. simplify_eq.
    apply (Forall_fmap snd allocates) in IHms.
    destruct (alloc_list_spec _ _ _ _ IHms E) as (E1 & O1 & R1 & L1 & V1).
    rewrite length_app in O1, R1, V1. simpl in O1, R1, V1. rewrite !length_fmap in L1.
    assert (extends h h1) as E0 by (etrans; [apply extends_app|done]).
    pose proof (extends_length _ _ E1) as Hlen. rewrite length_app in Hlen. simpl in Hlen.
    split_and!.
    + by apply extends_insert.
    + intros n obj k b r Hle Hn' Hk Hr. rewrite length_insert.
      apply list_lookup_insert_Some in Hn' as [(<- & <- & _)|[Hne Hn']].
      * pose proof (zip_refs _ _ _ _ _ _ _ R1 Hk Hr). lia.
      * specialize (O1 n obj k b r ltac:(lia) Hn' Hk Hr). lia.
    + intros r. simpl. rewrite length_insert, list_elem_of_singleton. lia.
    + intros [Hent Hn]%normal_map fuel. rewrite length_insert. intros Hf.
      destruct fuel as [|fuel]; [lia|].
      rewrite reify_map, list_lookup_insert_eq by lia. cbn.
      destruct (normal_map_fst ms Hent) as [Hnd Hsort].
      assert (length ms.*1 = length l) as Hll by (rewrite length_fmap; lia).
      assert ((zip ms.*1 l).*1 = ms.*1) as Hfst by (apply fst_zip; lia).
      assert (entries (members_of (zip ms.*1 l)) = zip ms.*1 l) as Hentz.
      { apply entries_members_of; by rewrite Hfst. }
      rewrite Hentz. apply fmap_mapM_mono with (f := reify_member fuel h1).
      * intros [k b] kv Hin. unfold reify_member. simpl. intros (w & Hw & ->)%fmap_Some.
        rewrite (reify_local (S (length h)) h1 _ fuel fuel b w); try done.
        -- by replace (S (length h)) with (length h + 1) by lia.
        -- intros n obj Hle Hobj. rewrite list_lookup_insert_ne by lia. done.
        -- intros r Hr. apply elem_of_zip_r in Hin. specialize (R1 b r Hin Hr). lia.
      * apply (Forall_fmap snd normal) in Hn.
        rewrite (mapM_zip fuel h1 _ _ ms.*2); [|done|apply V1; [done|lia]].
        by rewrite zip_fst_snd.
Qed.

(** The members of a map put in memory, the map itself being the caller's. *)
Definition alloc_root (ms : list (string * value)) (h : heap) : object * heap :=
  let '(ms, h) := alloc_members ms h in (members_of ms, h).

Lemma alloc_root_spec ms h obj h' :
  alloc_root ms h = (obj, h') →
  extends h h' ∧ ordered_from (length h) h' ∧ closed_object h' obj ∧
  (normal (VMap ms) → reify_object h' obj = Some ms).
Proof.
  unfold alloc_root. rewrite alloc_members_list.
  destruct (alloc_list ms.*2 h) as [l h1] eqn:E. simpl. intros [= <- <-].
  assert (Forall allocates ms.*2) as Hall by (apply Forall_forall; auto using alloc_spec).
  destruct (alloc_list_spec _ _ _ _ Hall E) as (E1 & O1 & R1 & L1 & V1).
  rewrite length_fmap in L1.
  split_and!; [done|done| |].
  - intros k a Hk r Hr. pose proof (zip_refs _ _ _ _ _ _ _ R1 Hk Hr). lia.
  - intros [Hent Hn]%normal_map. destruct (normal_map_fst ms Hent) as [Hnd Hsort].
    assert (length ms.*1 = length l) as Hll by (rewrite length_fmap; lia).
    assert ((zip ms.*1 l).*1 = ms.*1) as Hfst by (apply fst_zip; lia).
    rewrite reify_object_eq, entries_members_of by (by rewrite Hfst).
    apply (Forall_fmap snd normal) in Hn.
    by rewrite (mapM_zip _ _ _ _ ms.*2), zip_fst_snd by (done || (apply V1; [done|lia])).
Qed.

Lemma entries_normal (m : gmap string value) :
  (∀ k v, m !! k = Some v → normal v) → normal (VMap (entries m)).
Proof.
  intros Hm. apply normal_map. rewrite members_of_entries. split; [done|].
  apply Forall_forall. intros [k v] Hin%elem_of_entries. by apply (Hm k).
Qed.

Definition unmarshal_member `{FloatText} (kj : string * json) : option (string * value) :=
  pair kj.1 <$> unmarshal kj.2.

Lemma unmarshal_list `{FloatText} js : unmarshal (JArr js) = VList <$> mapM unmarshal js.
Proof.
  cbn [unmarshal]. set (go := fix go (js : list json) : option (list value) := _).
  assert (go js = mapM unmarshal js) as ->; [|done].
  induction js as [|j js IH]; [done|].
  by rewrite mapM_cons, <- IH.
Qed.

Lemma unmarshal_map `{FloatText} ms :
  unmarshal (JObj ms) = (λ vs, VMap (entries (members_of vs))) <$> mapM unmarshal_member ms.
Proof.
  cbn [unmarshal]. set (go := fix go (ms : list (string * json)) {struct ms} := _).
  assert (go ms = mapM unmarshal_member ms) as ->; [|done].
  induction ms as [|[k j] ms IH]; [done|].
  rewrite mapM_cons, <- IH. unfold unmarshal_member at 1. simpl.
  by destruct (unmarshal j).
Qed.

Lemma mapM_elem_of {A B} (f : A → option B) l ys y :
  mapM f l = Some ys → y ∈ ys → ∃ x, x ∈ l ∧ f x = Some y.
Proof.
  intros H%mapM_Some (i & Hi)%list_elem_of_lookup.
  destruct (Forall2_lookup_r _ _ _ _ _ H Hi) as (x & Hx & Hf).
  exists x. split; [by eapply list_elem_of_lookup_2|done].
Qed.

Lemma unmarshal_normal `{FloatText} j v : unmarshal j = Some v → normal v.
Proof.
  revert v. induction j as [|b|s|s|l IHl|ms IHms] using json_ind'; intros v Hv.
  1,2,4: by injection Hv as <-.
  - simpl in Hv. by apply fmap_Some in Hv as (f & _ & ->).
  - rewrite unmarshal_list in Hv. apply fmap_Some in Hv as (vs & Hvs & ->).
    apply normal_list. rewrite Forall_forall in IHl.
    apply Forall_forall. intros x Hx.
    destruct (mapM_elem_of _ _ _ _ Hvs Hx) as (j & Hj & Hjx). eauto.
  - rewrite unmarshal_map in Hv. apply fmap_Some in Hv as (vs & Hvs & ->).
    apply entries_normal. intros k w Hk%members_of_in.
    destruct (mapM_elem_of _ _ _ _ Hvs Hk) as ([k' j] & Hj & Hjx).
    unfold unmarshal_member in Hjx. simpl in Hjx.
    apply fmap_Some in Hjx as (w' & Hw & [= <- <-]).
    rewrite Forall_forall in IHms. by apply (IHms (k, j)).
Qed.
