(* ===== verification/Store.v ===== *)
(** * The datastore contract

    Models [resources/datastore]: keys, revisions, conditions, updates, batches, and the
    loops [Items] and [Scanned] that read a listing through.  An operator and an update's
    kind are strings, as the Go types are, so a value built by hand with none of the
    declared ones is a value of the model. *)

From S2P Require Import Prelude GoStrings Errors Layer Values.
From stdpp Require Import options.

(** ** Errors *)

Definition ErrInvalidCondition : error := EString "celerity: invalid condition".
Definition ErrTooManyOperations : error :=
  EString "celerity: too many operations in one request".
Definition ErrInvalidUpdate : error := EString "celerity: invalid update".
Definition ErrWrongPartition : error :=
  EString "celerity: operation outside the write's partition".
Definition ErrNotFound : error := EString "celerity: not found".
Definition ErrConditionFailed : error := EString "celerity: condition not met".
Definition ErrInvalidRevision : error :=
  EString "celerity: revision did not come from a read".
Definition ErrInvalidCursor : error :=
  EString "celerity: cursor did not come from this store".

(** ** Keys and revisions *)

Record Key : Type := MkKey { Partition : string; Sort : string }.

#[export] Instance Key_eq_dec : EqDecision Key.
Proof. solve_decision. Defined.

#[export] Instance Key_countable : Countable Key.
Proof.
  refine (inj_countable' (λ k, (Partition k, Sort k)) (λ '(p, s), MkKey p s) _).
  by intros [].
Defined.

Record Revision : Type := MkRevision { rev_value : string; rev_known : bool }.

#[export] Instance Revision_eq_dec : EqDecision Revision.
Proof. solve_decision. Defined.

Definition zeroRevision : Revision := MkRevision "" false.
Definition Unrevisioned : Revision := MkRevision "" true.
Definition NewRevision (value : string) : Revision := MkRevision value true.

(** [Revision.Value] and [Revision.Known]. *)
Definition RevisionValue (r : Revision) : string * bool :=
  (r.(rev_value), negb (bool_decide (r.(rev_value) = ""))).
Definition Known (r : Revision) : bool := r.(rev_known).

Definition RevisionField : string := "_celerity_rev".

(** ** Conditions *)

Definition OpEqual : string := "eq".
Definition OpNotEqual : string := "ne".
Definition OpLess : string := "lt".
Definition OpLessOrEqual : string := "le".
Definition OpGreater : string := "gt".
Definition OpGreaterOrEqual : string := "ge".
Definition OpBetween : string := "between".
Definition OpStartsWith : string := "startsWith".
Definition OpContains : string := "contains".
Definition OpExists : string := "exists".
Definition OpNotExists : string := "notExists".
Definition OpAnd : string := "and".
Definition OpOr : string := "or".

Inductive Condition : Type := MkCondition {
  Op : string;
  Name : string;
  Value : value;
  High : value;
  Of : list Condition;
}.

Definition Eq (name : string) (v : value) : Condition := MkCondition OpEqual name v VNil [].
Definition Ne (name : string) (v : value) : Condition := MkCondition OpNotEqual name v VNil [].
Definition Lt (name : string) (v : value) : Condition := MkCondition OpLess name v VNil [].
Definition Le (name : string) (v : value) : Condition :=
  MkCondition OpLessOrEqual name v VNil [].
Definition Gt (name : string) (v : value) : Condition := MkCondition OpGreater name v VNil [].
Definition Ge (name : string) (v : value) : Condition :=
  MkCondition OpGreaterOrEqual name v VNil [].
Definition Between (name : string) (low high : value) : Condition :=
  MkCondition OpBetween name low high [].
Definition StartsWith (name prefix : string) : Condition :=
  MkCondition OpStartsWith name (VString prefix) VNil [].
Definition Contains (name : string) (v : value) : Condition :=
  MkCondition OpContains name v VNil [].
Definition Exists (name : string) : Condition := MkCondition OpExists name VNil VNil [].
Definition NotExists (name : string) : Condition := MkCondition OpNotExists name VNil VNil [].
Definition All (conditions : list Condition) : Condition :=
  MkCondition OpAnd "" VNil VNil conditions.
Definition Any (conditions : list Condition) : Condition :=
  MkCondition OpOr "" VNil VNil conditions.

Section condition_ind.
Context (P : Condition → Prop).
Context (Pc : ∀ op name v high ofs, Forall P ofs → P (MkCondition op name v high ofs)).

Fixpoint Condition_ind' (c : Condition) : P c :=
  match c with
  | MkCondition op name v high ofs =>
      Pc op name v high ofs ((fix go l : Forall P l := match l with
                              | [] => Forall_nil_2 P
                              | c :: l => Forall_cons_2 P c l (Condition_ind' c) (go l)
                              end) ofs)
  end.
End condition_ind.

Record SortCondition : Type := MkSort {
  SortOp : string;
  SortValue : string;
  SortHigh : string;
}.

Definition SortEqual (v : string) : SortCondition := MkSort OpEqual v "".
Definition SortLess (v : string) : SortCondition := MkSort OpLess v "".
Definition SortLessOrEqual (v : string) : SortCondition := MkSort OpLessOrEqual v "".
Definition SortGreater (v : string) : SortCondition := MkSort OpGreater v "".
Definition SortGreaterOrEqual (v : string) : SortCondition := MkSort OpGreaterOrEqual v "".
Definition SortBetween (low high : string) : SortCondition := MkSort OpBetween low high.
Definition SortStartsWith (prefix : string) : SortCondition := MkSort OpStartsWith prefix "".

(** ** What a write may require *)

Record WriteOptions : Type := MkWriteOptions {
  optCondition : option Condition;
  optRevision : option Revision;
}.

Definition noOptions : WriteOptions := MkWriteOptions None None.

Definition WriteOption : Type := WriteOptions → WriteOptions.

Definition If (condition : Condition) : WriteOption :=
  λ o, MkWriteOptions (Some condition) o.(optRevision).
Definition IfUnchanged (revision : Revision) : WriteOption :=
  λ o, MkWriteOptions o.(optCondition) (Some revision).

Definition ResolveWriteOptions (opts : list WriteOption) : WriteOptions :=
  foldl (λ options opt, opt options) noOptions opts.

(** ** Updates *)

Definition MaxUpdates : nat := 10.

Definition UpdateSet : string := "set".
Definition UpdateRemove : string := "remove".
Definition UpdateIncrement : string := "increment".

(** The value of a set is a Go value: its contents, and where it is a map that somebody holds
    already, given before or kept by the caller, which of the maps in memory it is. *)
Record Update : Type := MkUpdate {
  Kind : string;
  Path : string;
  SetValue : value;
  SetHeld : option loc;
  By : float64;
}.

Definition fzero : float64 := float_of_Z 0.

Definition Set_ (path : string) (v : value) : Update := MkUpdate UpdateSet path v None fzero.
Definition Set_held (path : string) (v : value) (l : loc) : Update := MkUpdate UpdateSet path v (Some l) fzero.
Definition Remove (path : string) : Update := MkUpdate UpdateRemove path VNil None fzero.
Definition Increment (path : string) (by_ : float64) : Update :=
  MkUpdate UpdateIncrement path VNil None by_.

(** ** Batches and atomic writes

    An item is what [json.Marshal] makes of it. *)

Definition item : Type := result error Json.json.

Record BatchOp : Type := MkBatchOp {
  batchKey : Key;
  batchItem : item;
  remove : bool;
}.

Definition PutOp (key : Key) (it : item) : BatchOp := MkBatchOp key it false.
Definition DeleteOp (key : Key) : BatchOp := MkBatchOp key (Ok Json.JNull) true.

Definition MaxAtomicOps : nat := 100.

Inductive atomicKind : Type := atomicPut | atomicUpdate | atomicDelete.

Record AtomicOp : Type := MkAtomicOp {
  opKey : Key;
  opItem : item;
  opUpdates : list Update;
  opOptions : WriteOptions;
  kind : atomicKind;
}.

Definition AtomicPut (key : Key) (it : item) (opts : list WriteOption) : AtomicOp :=
  MkAtomicOp key it [] (ResolveWriteOptions opts) atomicPut.
Definition AtomicUpdate (key : Key) (updates : list Update) (opts : list WriteOption) :
    AtomicOp :=
  MkAtomicOp key (Ok Json.JNull) updates (ResolveWriteOptions opts) atomicUpdate.
Definition AtomicDelete (key : Key) (opts : list WriteOption) : AtomicOp :=
  MkAtomicOp key (Ok Json.JNull) [] (ResolveWriteOptions opts) atomicDelete.

(** ** Listings *)

Definition Cursor : Type := string.
Definition More (c : Cursor) : bool := negb (bool_decide (c = "")).

Record Query : Type := MkQuery {
  qPartition : string;
  qSort : option SortCondition;
  qFilter : option Condition;
  qIndex : string;
  qProject : list string;
  qDescending : bool;
  qLimit : Z;
  qCursor : string;
}.

Record Scan : Type := MkScan {
  sFilter : option Condition;
  sProject : list string;
  sLimit : Z;
  sCursor : string;
}.

Definition query_at (q : Query) (c : Cursor) : Query :=
  MkQuery q.(qPartition) q.(qSort) q.(qFilter) q.(qIndex) q.(qProject) q.(qDescending)
    q.(qLimit) c.

Definition scan_at (s : Scan) (c : Cursor) : Scan :=
  MkScan s.(sFilter) s.(sProject) s.(sLimit) c.

(** The loop of [Items] and of [Scanned], which differ in what [fetch] is.  [W] is the
    world the body of the range runs in, the store with it: [yield] is given an item, or the
    error that ended the listing, and answers whether to go on, having changed what it
    changes.  Each page takes one unit of fuel. *)
Section listing.
Context {W T : Type}.
Context (fetch : Cursor → W → outcome (list T * Cursor) * W).
Context (yield : result error T → W → bool * W).

(** [for _, item := range page { if !yield(item, nil) { return } }]. *)
Fixpoint yield_page (page : list T) (w : W) : bool * W :=
  match page with
  | [] => (true, w)
  | it :: page =>
      let '(go, w) := yield (Ok it) w in if go then yield_page page w else (false, w)
  end.

Fixpoint listing (fuel : nat) (cursor : Cursor) (w : W) : option (outcome unit * W) :=
  match fuel with
  | O => None
  | Datatypes.S fuel =>
      match fetch cursor w with
      | (Panicked v, w) => Some (Panicked v, w)
      | (Returned _ (Some err), w) => Some (Returned () None, (yield (Err err) w).2)
      | (Returned (page, cursor) None, w) =>
          let '(go, w) := yield_page page w in
          if negb go then Some (Returned () None, w)
          else if negb (More cursor) then Some (Returned () None, w)
          else listing fuel cursor w
      end
  end.
End listing.

Definition Items {W T} (query : Query → W → outcome (list T * Cursor) * W)
    (yield : result error T → W → bool * W) (fuel : nat) (q : Query) (w : W) :=
  listing (λ c, query (query_at q c)) yield fuel q.(qCursor) w.

Definition Scanned {W T} (scan : Scan → W → outcome (list T * Cursor) * W)
    (yield : result error T → W → bool * W) (fuel : nat) (sc : Scan) (w : W) :=
  listing (λ c, scan (scan_at sc c)) yield fuel sc.(sCursor) w.

(** ** Handing revisions to the items of a page

    What the destination is to [reflect]: whether its element type is a
    [RevisionReceiver], and what its [SetRevision] does to an element. *)
Definition DeliverRevisions {T} (setRevision : option (Revision → T → T))
    (revisions : list Revision) (out : list T) : list T :=
  match setRevision with
  | None => out
  | Some set => zip_with (λ r it, set r it) revisions (take (length revisions) out)
                  ++ drop (length revisions) out
  end.
