(* ===== verification/Matching.v ===== *)
(** * Conditions evaluated against an item

    Models [celeritytest/condition.go], the evaluation the in-memory data store does.  An
    item's fields are the members of a map; an item that is not there has none. *)

From S2P Require Import Prelude GoStrings Json Errors Values Store.
From stdpp Require Import options.

Section matching.
Context `{FloatText}.

Definition fields : Type := gmap string value.

(** [asNumber], by the kind [reflect] gives the value. *)
Definition asNumber (v : value) : option float64 :=
  match v with
  | VFloat f => Some f
  | VOpaque o => o.(opaque_number)
  | _ => None
  end.

Definition numbers (stored want : value) : option (float64 * float64) :=
  match asNumber stored, asNumber want with
  | Some x, Some y => Some (x, y)
  | _, _ => None
  end.

Definition equal (stored want : value) : bool :=
  match numbers stored want with
  | Some (x, y) => feq x y
  | None => bool_decide (sprint stored = sprint want)
  end.

(** [strings.Compare]. *)
Definition string_order (a b : string) : Z :=
  if String.ltb a b then -1 else if String.ltb b a then 1 else 0.

Definition order (stored want : value) : option Z :=
  match numbers stored want with
  | Some (x, y) => Some (if flt x y then -1 else if flt y x then 1 else 0)%Z
  | None =>
      match stored, want with
      | VString x, VString y => Some (string_order x y)
      | _, _ => None
      end
  end.

(** [contains]: a substring of a string, or a member of a list. *)
Definition contains_value (stored want : value) : bool :=
  match stored with
  | VString held => match want with VString text => contains held text | _ => false end
  | VList held => existsb (λ member, equal member want) held
  | _ => false
  end.

Definition invalid_condition (op : string) : error :=
  EWrap ("celerity: celerity: invalid condition: " +:+ go_quote op) ErrInvalidCondition.

(** The four orders, once the two have been ordered. *)
Definition directed (op : string) (direction : Z) : result error bool :=
  (if bool_decide (op = OpLess) then Ok (direction <? 0)
   else if bool_decide (op = OpLessOrEqual) then Ok (direction <=? 0)
   else if bool_decide (op = OpGreater) then Ok (0 <? direction)
   else if bool_decide (op = OpGreaterOrEqual) then Ok (0 <=? direction)
   else Err (invalid_condition op))%Z.

Definition compare (op : string) (want high v : value) : result error bool :=
  if bool_decide (op = OpEqual) then Ok (equal v want)
  else if bool_decide (op = OpNotEqual) then Ok (negb (equal v want))
  else if bool_decide (op = OpStartsWith) then
    Ok (match v with VString text => has_prefix text (sprint want) | _ => false end)
  else if bool_decide (op = OpContains) then Ok (contains_value v want)
  else if bool_decide (op = OpBetween) then
    Ok (match order v want, order v high with
        | Some low, Some high => (0 <=? low)%Z && (high <=? 0)%Z
        | _, _ => false
        end)
  else match order v want with
       | None => Ok false
       | Some direction => directed op direction
       end.

(** [matches], with [all] and [anyOf], which call it. *)
Fixpoint matches (c : Condition) (held : fields) : result error bool :=
  let '(MkCondition op name want high ofs) := c in
  let all := fix all cs := match cs with
    | [] => Ok true
    | c :: cs => match matches c held with
                 | Err err => Err err
                 | Ok false => Ok false
                 | Ok true => all cs
                 end
    end in
  let anyOf := fix anyOf cs := match cs with
    | [] => Ok false
    | c :: cs => match matches c held with
                 | Err err => Err err
                 | Ok true => Ok true
                 | Ok false => anyOf cs
                 end
    end in
  if bool_decide (op = OpAnd) then all ofs
  else if bool_decide (op = OpOr) then anyOf ofs
  else if bool_decide (op = OpExists) then Ok (is_some (held !! name))
  else if bool_decide (op = OpNotExists) then Ok (negb (is_some (held !! name)))
  else match held !! name with
       | None => Ok false
       | Some v => compare op want high v
       end.

Definition filtered (condition : option Condition) (held : fields) : result error bool :=
  match condition with None => Ok true | Some c => matches c held end.
End matching.

Definition sortMatches (c : SortCondition) (sortKey : string) : bool :=
  let op := c.(SortOp) in
  if bool_decide (op = OpEqual) then bool_decide (sortKey = c.(SortValue))
  else if bool_decide (op = OpLess) then String.ltb sortKey c.(SortValue)
  else if bool_decide (op = OpLessOrEqual) then String.leb sortKey c.(SortValue)
  else if bool_decide (op = OpGreater) then String.ltb c.(SortValue) sortKey
  else if bool_decide (op = OpGreaterOrEqual) then String.leb c.(SortValue) sortKey
  else if bool_decide (op = OpBetween) then
    String.leb c.(SortValue) sortKey && String.leb sortKey c.(SortHigh)
  else if bool_decide (op = OpStartsWith) then has_prefix sortKey c.(SortValue)
  else false.
