(* ===== verification/Memory.v ===== *)
(** * The in-memory data store

    Models [celeritytest/datastore.go].  A stored item is its encoded document and the
    same thing decoded, for conditions and filters to read; the maps nested in the decoded
    form are references into the store's heap, which an update shares with the item it
    replaces, and which a caller shares that gives a map of its own: the heap has the maps of
    callers too, and a caller may write to one between two operations.  A slice a caller gives
    is stored as it then was: what is written to its elements afterwards is not modelled.
    Every operation answers the store it leaves, a failed one included. *)

From S2P Require Import Prelude GoStrings Json Errors Layer Bind Frames Values Store Matching.
From stdpp Require Import options.

Record storedItem : Type := MkStored {
  encoded : json;
  item_fields : object;
  revision : string;
}.

Record Datastore : Type := MkDatastore {
  ref : string;                                       (* [Ref.String] *)
  items : gmap string (gmap string storedItem);
  revisions : nat;
  memory : heap;
}.

Definition NewDatastore (name : string) : Datastore :=
  MkDatastore ("datastore " +:+ go_quote name) ∅ 0 [].

Definition with_memory (d : Datastore) (h : heap) : Datastore :=
  MkDatastore d.(ref) d.(items) d.(revisions) h.

Definition with_items (d : Datastore) (its : gmap string (gmap string storedItem)) : Datastore :=
  MkDatastore d.(ref) its d.(revisions) d.(memory).

Definition lookup_item (d : Datastore) (key : Key) : option storedItem :=
  m ← d.(items) !! key.(Partition); m !! key.(Sort).

(** [Len]. *)
Definition Len (d : Datastore) : nat :=
  sum_list ((λ pm, size (pm.2 : gmap string storedItem)) <$> map_to_list d.(items)).

(** The [%v] verb on a key. *)
Definition key_text (k : Key) : string :=
  "{" +:+ k.(Partition) +:+ " " +:+ k.(Sort) +:+ "}".

Definition absent (d : Datastore) (key : Key) : error :=
  EWrap ("celerity: " +:+ d.(ref) +:+ " holds no item " +:+ key_text key +:+ ": " +:+
         error_text ErrNotFound) ErrNotFound.

Definition refused (d : Datastore) (key : Key) : error :=
  EWrap ("celerity: " +:+ d.(ref) +:+ " refused a write to " +:+ key_text key +:+ ": " +:+
         error_text ErrConditionFailed) ErrConditionFailed.

(** [store]. *)
Definition put_in (its : gmap string (gmap string storedItem)) (key : Key) (it : storedItem) :=
  <[key.(Partition) := <[key.(Sort) := it]> (default ∅ (its !! key.(Partition)))]> its.

Definition store (d : Datastore) (key : Key) (it : storedItem) : Datastore :=
  with_items d (put_in d.(items) key it).

Definition delete_in (its : gmap string (gmap string storedItem)) (key : Key) :=
  match its !! key.(Partition) with
  | None => its
  | Some m => <[key.(Partition) := delete key.(Sort) m]> its
  end.

Section datastore.
Context `{FloatText}.

(** An item's fields as conditions and filters read them.  A field that has come to hold
    itself is no tree, and is left out: what Go does with it ends the program where it is
    compared, which prints it. *)
Definition fields_in (h : heap) (obj : object) : fields := omap (reify (length h) h) obj.

(** [check], the preconditions a write asked for: the error it answers. *)
Definition check (d : Datastore) (key : Key) (existing : option storedItem)
    (options : WriteOptions) : option error :=
  let revision_error :=
    match options.(optRevision) with
    | None => None
    | Some r =>
        if negb (Known r) then Some ErrInvalidRevision
        else match existing with
             | None => Some (refused d key)
             | Some it =>
                 if bool_decide (it.(revision) = (RevisionValue r).1) then None
                 else Some (refused d key)
             end
    end in
  match revision_error with
  | Some err => Some err
  | None =>
      match options.(optCondition) with
      | None => None
      | Some c =>
          let held := match existing with
                      | None => ∅
                      | Some it => fields_in d.(memory) it.(item_fields)
                      end in
          match matches c held with
          | Err err => Some err
          | Ok true => None
          | Ok false => Some (refused d key)
          end
      end
  end.

(** [json.Unmarshal] of a document into a [map[string]any]: [null] leaves it nil, which
    holds nothing, and anything but an object is refused. *)
Definition decode_fields (j : json) (h : heap) : option (object * heap) :=
  match j with
  | JNull => Some (∅, h)
  | JObj _ => match unmarshal j with Some (VMap ms) => Some (alloc_root ms h) | _ => None end
  | _ => None
  end.

(** The revision a write makes, from the count before it. *)
Definition next_revision (d : Datastore) : string := "r" +:+ pretty (S d.(revisions)).

Definition stamped (d : Datastore) (h : heap) : Datastore :=
  MkDatastore d.(ref) d.(items) (S d.(revisions)) h.

Definition put (d : Datastore) (key : Key) (it : item) (options : WriteOptions) :
    result error Revision * Datastore :=
  match check d key (lookup_item d key) options with
  | Some err => (Err err, d)
  | None =>
      match it with
      | Err err =>
          (Err (EWrap ("celerity: writing " +:+ d.(ref) +:+ " " +:+ key_text key +:+ ": " +:+
                       error_text err) err), d)
      | Ok doc =>
          match decode_fields doc d.(memory) with
          | None =>
              (Err (EString ("celerity: " +:+ d.(ref) +:+ " holds objects, and " +:+
                             key_text key +:+ " was written as " +:+ json_text doc)), d)
          | Some (obj, h) =>
              let rev := next_revision d in
              (Ok (NewRevision rev), store (stamped d h) key (MkStored doc obj rev))
          end
      end
  end.

Definition Put (d : Datastore) (key : Key) (it : item) (opts : list WriteOption) :=
  put d key it (ResolveWriteOptions opts).

Definition Seed (d : Datastore) (key : Key) (it : item) : option error * Datastore :=
  match Put d key it [] with (Ok _, d) => (None, d) | (Err err, d) => (Some err, d) end.

(** [remove]. *)
Definition remove_item (d : Datastore) (key : Key) (options : WriteOptions) :
    option error * Datastore :=
  match check d key (lookup_item d key) options with
  | Some err => (Some err, d)
  | None => (None, with_items d (delete_in d.(items) key))
  end.

Definition Delete (d : Datastore) (key : Key) (opts : list WriteOption) :=
  remove_item d key (ResolveWriteOptions opts).

(** ** Updates

    The fields being written: the new item's own map, and the heap its nested maps are
    in.  [None] names the former, and a location one of the latter. *)
Record graph : Type := MkGraph { root : object; nested : heap }.

Definition read (g : graph) (parent : option loc) : object :=
  match parent with
  | None => g.(root)
  | Some l => default ∅ (g.(nested) !! l)
  end.

Definition write (g : graph) (parent : option loc) (obj : object) : graph :=
  match parent with
  | None => MkGraph obj g.(nested)
  | Some l => MkGraph g.(root) (<[l := obj]> g.(nested))
  end.

(** [walk]: the map holding the field a path names, the objects on the way created. *)
Fixpoint walk (segments : list string) (parent : option loc) (g : graph) :
    option loc * string * graph :=
  match segments with
  | [] => (parent, "", g)
  | [leaf] => (parent, leaf, g)
  | segment :: rest =>
      match read g parent !! segment with
      | Some (AMap l) => walk rest (Some l) g
      | _ =>
          let l := length g.(nested) in
          let g := MkGraph g.(root) (g.(nested) ++ [∅]) in
          walk rest (Some l) (write g parent (<[segment := AMap l]> (read g parent)))
      end
  end.

Definition path_segments (path : string) : list string := split_on "." path.

(** A Go value where it is stored: a map that is in memory is stored as that map, and any other
    value is put there. *)
Definition place (v : value) (held : option loc) (h : heap) : any * heap :=
  match held with
  | Some l => if bool_decide (l < length h) then (AMap l, h) else alloc v h
  | None => alloc v h
  end.

Definition apply (change : Update) (g : graph) : option error * graph :=
  if bool_decide (change.(Path) = "") then (Some ErrInvalidUpdate, g)
  else
    let '(parent, leaf, g) := walk (path_segments change.(Path)) None g in
    if bool_decide (change.(Kind) = UpdateSet) then
      let '(a, h) := place change.(SetValue) change.(SetHeld) g.(nested) in
      let g := MkGraph g.(root) h in
      (None, write g parent (<[leaf := a]> (read g parent)))
    else if bool_decide (change.(Kind) = UpdateRemove) then
      (None, write g parent (delete leaf (read g parent)))
    else if bool_decide (change.(Kind) = UpdateIncrement) then
      let current := match read g parent !! leaf with Some (AFloat f) => f | _ => fzero end in
      (None, write g parent (<[leaf := AFloat (fadd current change.(By))]> (read g parent)))
    else (Some ErrInvalidUpdate, g).

Fixpoint apply_all (changes : list Update) (g : graph) : option error * graph :=
  match changes with
  | [] => (None, g)
  | change :: changes =>
      match apply change g with
      | (Some err, g) => (Some err, g)
      | (None, g) => apply_all changes g
      end
  end.

(** [json.Marshal(fields)]. *)
Definition marshal_graph (g : graph) : result error json :=
  match reify_object g.(nested) g.(root) with
  | Some ms => marshal (VMap ms)
  | None => Err (EString "json: unsupported value: encountered a cycle")
  end.

Definition update (d : Datastore) (key : Key) (updates : list Update) (options : WriteOptions) :
    result error Revision * Datastore :=
  if (MaxUpdates <? length updates)%nat then (Err ErrTooManyOperations, d)
  else match lookup_item d key with
  | None => (Err (absent d key), d)
  | Some existing =>
      match check d key (Some existing) options with
      | Some err => (Err err, d)
      | None =>
          match apply_all updates (MkGraph existing.(item_fields) d.(memory)) with
          | (Some err, g) => (Err err, with_memory d g.(nested))
          | (None, g) =>
              match marshal_graph g with
              | Err err => (Err err, with_memory d g.(nested))
              | Ok doc =>
                  let rev := next_revision d in
                  (Ok (NewRevision rev),
                   store (stamped d g.(nested)) key (MkStored doc g.(root) rev))
              end
          end
      end
  end.

Definition Update_ (d : Datastore) (key : Key) (updates : list Update)
    (opts : list WriteOption) :=
  update d key updates (ResolveWriteOptions opts).

(** ** Batches and atomic writes *)

Definition apply_batch (op : BatchOp) (d : Datastore) : option error * Datastore :=
  if op.(remove) then remove_item d op.(batchKey) noOptions
  else match put d op.(batchKey) op.(batchItem) noOptions with
       | (Ok _, d) => (None, d)
       | (Err err, d) => (Some err, d)
       end.

(** [BatchWrite]: the operations that could not be applied, and no error. *)
Fixpoint BatchWrite (ops : list BatchOp) (d : Datastore) : list BatchOp * Datastore :=
  match ops with
  | [] => ([], d)
  | op :: ops =>
      let '(err, d) := apply_batch op d in
      let '(unapplied, d) := BatchWrite ops d in
      (match err with Some _ => op :: unapplied | None => unapplied end, d)
  end.

Definition applyAtomic (op : AtomicOp) (d : Datastore) : option error * Datastore :=
  match op.(kind) with
  | atomicPut =>
      match put d op.(opKey) op.(opItem) op.(opOptions) with
      | (Ok _, d) => (None, d)
      | (Err err, d) => (Some err, d)
      end
  | atomicUpdate =>
      match update d op.(opKey) op.(opUpdates) op.(opOptions) with
      | (Ok _, d) => (None, d)
      | (Err err, d) => (Some err, d)
      end
  | atomicDelete => remove_item d op.(opKey) op.(opOptions)
  end.

Fixpoint apply_atomics (ops : list AtomicOp) (d : Datastore) : option error * Datastore :=
  match ops with
  | [] => (None, d)
  | op :: ops =>
      match applyAtomic op d with
      | (Some err, d) => (Some err, d)
      | (None, d) => apply_atomics ops d
      end
  end.

(** [Atomically].  [snapshot] copies the two levels of [items] and no item, so what is
    restored is those: the count of revisions and the maps nested in items are as the
    operations before the failure left them. *)
Definition Atomically (d : Datastore) (partition : string) (ops : list AtomicOp) :
    option error * Datastore :=
  if (MaxAtomicOps <? length ops)%nat then (Some ErrTooManyOperations, d)
  else if existsb (λ op, negb (bool_decide (op.(opKey).(Partition) = partition))) ops then
    (Some ErrWrongPartition, d)
  else
    let restore := d.(items) in
    match apply_atomics ops d with
    | (Some err, d) => (Some err, with_items d restore)
    | (None, d) => (None, d)
    end.

(** ** Reading *)

Section reading.
Context {T : Type} (decode : json → result error T) (out_type : string)
  (setRevision : option (Revision → T → T)).

Definition Get (d : Datastore) (key : Key) : result error (T * Revision) :=
  match lookup_item d key with
  | None => Err (absent d key)
  | Some it =>
      match decode it.(encoded) with
      | Err err =>
          Err (EWrap ("celerity: reading " +:+ d.(ref) +:+ " " +:+ key_text key +:+ " as " +:+
                      out_type +:+ ": " +:+ error_text err) err)
      | Ok v => Ok (v, NewRevision it.(revision))
      end
  end.

(** [projected]. *)
Definition projected (h : heap) (it : storedItem) (project : list string) : result error json :=
  match project with
  | [] => Ok it.(encoded)
  | _ =>
      let held := fields_in h it.(item_fields) in
      marshal (VMap (entries (members_of
        (omap (λ name, pair name <$> held !! name) project))))
  end.

(** [fill]: the page is decoded element by element into the destination's type. *)
Definition fill (page : list json) : result error (list T) :=
  match try_map decode page with
  | Err err => Err (EWrap ("celerity: reading a page as " +:+ out_type +:+ ": " +:+
                           error_text err) err)
  | Ok out => Ok out
  end.

(** [fmt.Sscanf(cursor, "%d", &start)] into an [int]: blanks are skipped, a sign and at
    least one digit are read, and what follows them is left unread. *)
Fixpoint skip_space (s : string) : option string :=
  match s with
  | String c rest =>
      let n := nat_of_ascii c in
      if n =? 10 then None
      else if (n =? 13) && has_prefix rest newline then None
      else if (n =? 32) || ((9 <=? n) && (n <=? 13)) then skip_space rest
      else Some s
  | "" => Some ""
  end.

Fixpoint digits_prefix (s : string) : string :=
  match s with
  | String c rest => if is_some (digit c) then String c (digits_prefix rest) else ""
  | "" => ""
  end.

Definition scan_int (s : string) : result error Z :=
  match skip_space s with
  | None => Err (EString "unexpected newline")
  | Some s =>
      let '(sign, rest) := match s with
        | String "+" rest => ("+", rest)
        | String "-" rest => ("-", rest)
        | _ => ("", s)
        end in
      let token := digits_prefix rest in
      if bool_decide (token = "") then Err (EString "expected integer")
      else ParseInt (sign +:+ token) 64
  end.

Definition paged : Type := outcome (list T * Cursor).
Definition refused_page (err : error) : paged := Returned ([], "") (Some err).
Definition slice_panic : paged := Panicked (PanicText "runtime error: slice bounds out of range").

Definition page (h : heap) (matched : list storedItem) (limit : Z) (cursor : string)
    (project : list string) : paged :=
  match (if bool_decide (cursor = "") then Ok 0%Z else scan_int cursor) with
  | Err _ => refused_page ErrInvalidCursor
  | Ok start =>
      let size := Z.of_nat (length matched) in
      if (size <? start)%Z then refused_page ErrInvalidCursor
      else
        let stop := if (0 <? limit)%Z then Z.min (to_int64 (start + limit)) size else size in
        if (start <? 0)%Z || (stop <? start)%Z then slice_panic
        else
          let chosen := slice (Z.to_nat start) (Z.to_nat stop) matched in
          match (let! docs := try_map (λ it, projected h it project) chosen in fill docs) with
          | Err err => refused_page err
          | Ok out =>
              let out := DeliverRevisions setRevision
                           ((λ it, NewRevision it.(revision)) <$> chosen) out in
              Returned (out, if (stop <? size)%Z then itoa stop else "") None
          end
  end.

(** The loops that keep what a filter matches. *)
Fixpoint select (d : Datastore) (filter : option Condition) (its : list storedItem) :
    result error (list storedItem) :=
  match its with
  | [] => Ok []
  | it :: its =>
      let! keep := filtered filter (fields_in d.(memory) it.(item_fields)) in
      let! kept := select d filter its in
      Ok (if (keep : bool) then it :: kept else kept)
  end.

Definition sorted_items (m : gmap string storedItem) : list (string * storedItem) := entries m.

(** The items a query reads, in its order, before its filter. *)
Definition query_items (d : Datastore) (q : Query) : list storedItem :=
  let sorted := sorted_items (default ∅ (d.(items) !! q.(qPartition))) in
  let ordered := if q.(qDescending) then reverse sorted else sorted in
  snd <$> filter (λ ks, match q.(qSort) with
                        | None => true
                        | Some c => sortMatches c ks.1
                        end = true) ordered.

Definition scan_items (d : Datastore) : list storedItem :=
  (entries d.(items)) ≫= λ pm, snd <$> sorted_items pm.2.

Definition QueryPage (q : Query) (d : Datastore) : paged :=
  match select d q.(qFilter) (query_items d q) with
  | Err err => refused_page err
  | Ok matched => page d.(memory) matched q.(qLimit) q.(qCursor) q.(qProject)
  end.

Definition ScanPage (s : Scan) (d : Datastore) : paged :=
  match select d s.(sFilter) (scan_items d) with
  | Err err => refused_page err
  | Ok matched => page d.(memory) matched s.(sLimit) s.(sCursor) s.(sProject)
  end.

(** [BatchGet]: the items found, and the keys that hold none. *)
Definition BatchGet (d : Datastore) (ks : list Key) : result error (list T * list Key) :=
  let found := omap (lookup_item d) ks in
  let! out := fill (encoded <$> found) in
  Ok (DeliverRevisions setRevision ((λ it, NewRevision it.(revision)) <$> found) out,
      base.filter (λ k, lookup_item d k = None) ks).
End reading.
End datastore.

(** ** What the maps in memory refer to

    Maps refer to maps that are there.  Where every map is given once they refer to later ones
    too ([once]), and are a finite forest. *)

Section shape.
Context (once : bool).

(** The least a map may refer to. *)
Definition least (parent : option loc) : nat :=
  if once then match parent with None => 0 | Some l => S l end else 0.
Definition arranged (h : heap) : Prop :=
  ∀ l obj k a r, h !! l = Some obj → obj !! k = Some a → r ∈ refs a → least (Some l) ≤ r < length h.

Lemma arranged_closed h : arranged h → closed_heap h.
Proof. intros Ha l obj Hl k a Hk r Hr. by destruct (Ha l obj k a r Hl Hk Hr). Qed.

(** What is put beside a heap keeps to it. *)
Lemma arranged_extend h h' : arranged h → extends h h' → ordered_from (length h) h' → arranged h'.
Proof.
  intros Ha He Ho l obj k a r Hl Hk Hr. destruct (decide (length h ≤ l)) as [Hle|Hlt].
  { specialize (Ho l obj k a r Hle Hl Hk Hr). unfold least. destruct once; lia. }
  destruct (lookup_lt_is_Some_2 h l) as [obj' Hobj']; [lia|]. pose proof (He _ _ Hobj') as Heq. simplify_eq.
  specialize (Ha l _ k a r Hobj' Hk Hr). apply extends_length in He. lia.
Qed.

Lemma arranged_app h : arranged h → arranged (h ++ [∅]).
Proof.
  intros Ha. eapply arranged_extend; [done|apply extends_app|]. apply ordered_app, ordered_from_end.
Qed.

Definition graph_ok (g : graph) : Prop := arranged g.(nested) ∧ closed_object g.(nested) g.(root).

(** A map that may be written: the root, or one in the heap. *)
Definition in_graph (g : graph) (parent : option loc) : Prop :=
  match parent with None => True | Some l => l < length g.(nested) end.

(** The values a write may put in [parent]. *)
Definition writable (g : graph) (parent : option loc) (a : any) : Prop :=
  ∀ r, r ∈ refs a → least parent ≤ r < length g.(nested).

Lemma length_write g parent obj : length (write g parent obj).(nested) = length g.(nested).
Proof using Type. destruct parent; simpl; [apply length_insert|done]. Qed.

Lemma read_closed g parent k a :
  graph_ok g → in_graph g parent → read g parent !! k = Some a → writable g parent a.
Proof using Type.
  intros [Ho Hc] Hin Hk r Hr. destruct parent as [l|]; simpl in *.
  - destruct (g.(nested) !! l) as [obj|] eqn:El; simpl in Hk; [|by rewrite lookup_empty in Hk].
    by eapply Ho.
  - specialize (Hc k a Hk r Hr). unfold least. destruct once; lia.
Qed.

Lemma write_ok g parent obj :
  graph_ok g → in_graph g parent →
  (∀ k a, obj !! k = Some a → writable g parent a) → graph_ok (write g parent obj).
Proof using Type.
  intros [Ho Hc] Hin Hw. split.
  - destruct parent as [l|]; [|done]. simpl. intros n o k a r Hn Hk Hr. rewrite length_insert.
    apply list_lookup_insert_Some in Hn as [(<- & <- & _)|[_ Hn]]; [by eapply Hw|by eapply Ho].
  - intros k a Hk r Hr. rewrite length_write. destruct parent as [l|]; simpl in Hk.
    + by apply (Hc k a Hk).
    + specialize (Hw k a Hk r Hr). lia.
Qed.

Lemma write_insert_ok g parent k a :
  graph_ok g → in_graph g parent → writable g parent a →
  graph_ok (write g parent (<[k := a]> (read g parent))).
Proof using Type.
  intros Hg Hin Ha. apply write_ok; [done|done|].
  intros k' a' [[<- <-]|[_ Hk']]%lookup_insert_Some; [done|]. by eapply read_closed.
Qed.

Lemma write_delete_ok g parent k :
  graph_ok g → in_graph g parent → graph_ok (write g parent (delete k (read g parent))).
Proof using Type.
  intros Hg Hin. apply write_ok; [done|done|].
  intros k' a' [_ Hk']%lookup_delete_Some. by eapply read_closed.
Qed.

Lemma grow_ok g h :
  graph_ok g → length g.(nested) ≤ length h → arranged h → graph_ok (MkGraph g.(root) h).
Proof using Type.
  intros [Ho Hc] Hl Hh. split; [done|].
  intros k a Hk. simpl in *. eapply closed_extend; [exact Hl|]. by apply (Hc k).
Qed.

Lemma walk_ok segments parent g parent' leaf g' :
  graph_ok g → in_graph g parent → walk segments parent g = (parent', leaf, g') →
  graph_ok g' ∧ in_graph g' parent' ∧ length g.(nested) ≤ length g'.(nested).
Proof using Type.
  revert parent g. induction segments as [|s rest IH]; intros parent g Hg Hin Hw.
  { simpl in Hw. simplify_eq. done. }
  destruct rest as [|s' rest]; [simpl in Hw; by simplify_eq|].
  assert (∀ l g1, graph_ok g1 → in_graph g1 (Some l) → length g.(nested) ≤ length g1.(nested) →
    walk (s' :: rest) (Some l) g1 = (parent', leaf, g') →
    graph_ok g' ∧ in_graph g' parent' ∧ length g.(nested) ≤ length g'.(nested)) as Hstep.
  { intros l g1 Hg1 Hin1 Hl Hw1. destruct (IH _ _ Hg1 Hin1 Hw1) as (? & ? & ?).
    split_and!; [done|done|lia]. }
  set (g1 := MkGraph g.(root) (g.(nested) ++ [∅])) in *.
  assert (length g1.(nested) = S (length g.(nested))) as Hg1l.
  { subst g1. simpl. rewrite length_app. simpl. lia. }
  assert (graph_ok g1) as Hg1.
  { subst g1. apply grow_ok; [done| |apply arranged_app, Hg]. rewrite length_app. lia. }
  assert (in_graph g1 parent) as Hin1.
  { destruct parent; simpl in *; [rewrite length_app; simpl; lia|done]. }
  assert (graph_ok (write g1 parent (<[s := AMap (length g.(nested))]> (read g1 parent)))) as Hnew.
  { apply write_insert_ok; [done|done|].
    intros r ->%list_elem_of_singleton. rewrite Hg1l. unfold least.
    destruct once, parent; simpl in Hin; lia. }
  assert (∀ l, read g parent !! s = Some (AMap l) → l < length g.(nested)) as Hold.
  { intros l Hl. apply (read_closed g parent s _ Hg Hin Hl l). by left. }
  change (walk (s :: s' :: rest) parent g) with
    (match read g parent !! s with
     | Some (AMap l) => walk (s' :: rest) (Some l) g
     | _ => walk (s' :: rest) (Some (length g.(nested)))
              (write g1 parent (<[s := AMap (length g.(nested))]> (read g1 parent)))
     end) in Hw.
  clearbody g1. destruct (read g parent !! s) as [[]|]; try
    (eapply Hstep; [exact Hnew| | |exact Hw]; cbn [in_graph]; rewrite length_write, Hg1l; lia).
  eapply Hstep; [exact Hg| |done|exact Hw]. by apply Hold.
Qed.

(** A value that is given once is not one of the maps that are there. *)
Definition given (held : option loc) : Prop := once = true → held = None.

Lemma place_ok v held h a h' :
  given held → place v held h = (a, h') →
  extends h h' ∧ ordered_from (length h) h' ∧
  ∀ r, r ∈ refs a → (if once then length h else 0) ≤ r < length h'.
Proof using Type.
  unfold given. intros Hg. unfold place. destruct held as [l|].
  - destruct once; [by specialize (Hg eq_refl)|]. case_bool_decide.
    + intros [= <- <-]. split_and!; [done|apply ordered_from_end|]. intros r ->%list_elem_of_singleton. lia.
    + intros Ha. destruct (alloc_spec _ _ _ _ Ha) as (E & O & R & _). split_and!; [done|done|].
      intros r Hr. specialize (R r Hr). lia.
  - intros Ha. destruct (alloc_spec _ _ _ _ Ha) as (E & O & R & _). split_and!; [done|done|].
    intros r Hr. specialize (R r Hr). destruct once; lia.
Qed.

Lemma apply_ok change g err g' :
  given change.(SetHeld) → graph_ok g → apply change g = (err, g') →
  graph_ok g' ∧ length g.(nested) ≤ length g'.(nested).
Proof using Type.
  unfold apply. intros Hgiven Hg Ha. case_bool_decide; [by simplify_eq|].
  destruct (walk (path_segments change.(Path)) None g) as [[parent leaf] g1] eqn:Ew.
  assert (in_graph g None) as Hin0 by done.
  destruct (walk_ok _ _ _ _ _ _ Hg Hin0 Ew) as (Hg1 & Hin1 & Hl1).
  repeat case_bool_decide; simplify_eq.
  - destruct (place _ _ g1.(nested)) as [a h] eqn:Ea. simplify_eq.
    destruct (place_ok _ _ _ _ _ Hgiven Ea) as (E & O & R).
    pose proof (extends_length _ _ E).
    assert (graph_ok (MkGraph g1.(root) h)) as Hg2
      by (apply grow_ok; [done|done|]; eapply arranged_extend; [apply Hg1|done|done]).
    rewrite length_write. split; [|simpl; lia].
    apply write_insert_ok; [done| |].
    + destruct parent; simpl in *; [lia|done].
    + intros r Hr. specialize (R r Hr). unfold least. destruct once, parent; simpl in *; lia.
  - rewrite length_write. split; [by apply write_delete_ok|lia].
  - rewrite length_write. split; [|lia]. apply write_insert_ok; [done|done|].
    by intros r ?%not_elem_of_nil.
  - done.
Qed.

Lemma apply_all_ok changes g err g' :
  Forall (λ change, given change.(SetHeld)) changes → graph_ok g → apply_all changes g = (err, g') →
  graph_ok g' ∧ length g.(nested) ≤ length g'.(nested).
Proof using Type.
  intros Hgiven. revert g. induction Hgiven as [|change changes Hch _ IH]; simpl; intros g Hg Ha.
  { by simplify_eq. }
  destruct (apply change g) as [[e|] g1] eqn:E1; destruct (apply_ok _ _ _ _ Hch Hg E1) as [Hg1 Hl1];
    simplify_eq; [done|].
  destruct (IH _ Hg1 Ha) as [? ?]. split; [done|lia].
Qed.
End shape.

(** ** What the operations do to the store *)

Lemma lookup_put_in its key it key' :
  (m ← put_in its key it !! key'.(Partition); m !! key'.(Sort)) =
  if decide (key' = key) then Some it else (m ← its !! key'.(Partition); m !! key'.(Sort)).
Proof.
  unfold put_in. destruct key as [p s], key' as [p' s']. simpl.
  destruct (decide (p' = p)) as [->|Hp].
  - rewrite lookup_insert_eq. cbn. destruct (decide (s' = s)) as [->|Hs].
    + by rewrite lookup_insert_eq, decide_True.
    + rewrite lookup_insert_ne, decide_False by congruence.
      destruct (its !! p); cbn; [done|apply lookup_empty].
  - by rewrite lookup_insert_ne, decide_False by congruence.
Qed.

Lemma lookup_delete_in its key key' :
  (m ← delete_in its key !! key'.(Partition); m !! key'.(Sort)) =
  if decide (key' = key) then None else (m ← its !! key'.(Partition); m !! key'.(Sort)).
Proof.
  unfold delete_in. destruct key as [p s], key' as [p' s']. simpl.
  destruct (its !! p) as [m|] eqn:E.
  - destruct (decide (p' = p)) as [->|Hp].
    + rewrite lookup_insert_eq, E. cbn. destruct (decide (s' = s)) as [->|Hs].
      * by rewrite lookup_delete_eq, decide_True.
      * by rewrite lookup_delete_ne, decide_False by congruence.
    + by rewrite lookup_insert_ne, decide_False by congruence.
  - destruct (decide _) as [[= -> ->]|]; [by rewrite E|done].
Qed.

Lemma lookup_store d key it key' :
  lookup_item (store d key it) key' = if decide (key' = key) then Some it else lookup_item d key'.
Proof. apply lookup_put_in. Qed.

Lemma lookup_removed d key key' :
  lookup_item (with_items d (delete_in d.(items) key)) key' =
  if decide (key' = key) then None else lookup_item d key'.
Proof. apply lookup_delete_in. Qed.

Definition rev_text (n : nat) : string := "r" +:+ pretty n.

Lemma rev_text_inj n m : rev_text n = rev_text m → n = m.
Proof. unfold rev_text. intros E%(inj (String.app "r")). by apply (inj pretty) in E. Qed.

Section stores.
Context (once : bool).

(** What an operation may do: the maps in memory are added to and refer to maps that are there,
    and an item that was not there carries a revision never given before. *)
Record grows (d d' : Datastore) : Prop := MkGrows {
  grows_ref : d'.(ref) = d.(ref);
  grows_memory : length d.(memory) ≤ length d'.(memory);
  grows_arranged : arranged once d'.(memory);
  grows_revisions : d.(revisions) ≤ d'.(revisions);
  grows_items : ∀ key it, lookup_item d' key = Some it →
    lookup_item d key = Some it ∨
    (closed_object d'.(memory) it.(item_fields) ∧
     ∃ n, d.(revisions) < n ≤ d'.(revisions) ∧ it.(revision) = rev_text n);
}.

(** Items refer to maps in memory, which refer to such maps, and carry a revision that was
    given. *)
Record well_formed (d : Datastore) : Prop := MkWellFormed {
  wf_arranged : arranged once d.(memory);
  wf_closed : ∀ key it, lookup_item d key = Some it → closed_object d.(memory) it.(item_fields);
  wf_revision : ∀ key it, lookup_item d key = Some it →
    ∃ n, n ≤ d.(revisions) ∧ it.(revision) = rev_text n;
}.

Lemma grows_refl d : arranged once d.(memory) → grows d d.
Proof. intros. split; auto. Qed.

Lemma grows_trans d1 d2 d3 : grows d1 d2 → grows d2 d3 → grows d1 d3.
Proof.
  intros [R1 M1 O1 V1 I1] [R2 M2 O2 V2 I2]. split; [congruence|lia|done|lia|].
  intros key it [Hit|[Hc (n & Hn & ->)]]%I2.
  - destruct (I1 key it Hit) as [|[Hc (n & Hn & ->)]]; [by left|right].
    split; [intros k a Hk; by eapply closed_extend, Hc|]. exists n. split; [lia|done].
  - right. split; [done|]. exists n. split; [lia|done].
Qed.

Lemma grows_well_formed d d' : well_formed d → grows d d' → well_formed d'.
Proof.
  intros [Ho Hc Hr] [R M O V I]. split; [done| |]; intros key it Hit;
    destruct (I key it Hit) as [Hold|[Hcl (n & Hn & Hrev)]].
  - intros k a Hk. eapply closed_extend; [done|]. by eapply Hc.
  - done.
  - destruct (Hr key it Hold) as (n & Hn & ->). exists n. split; [lia|done].
  - exists n. split; [lia|done].
Qed.

Lemma grows_with_memory d h :
  length d.(memory) ≤ length h → arranged once h → grows d (with_memory d h).
Proof. intros. split; simpl; auto. Qed.

Lemma grows_stored d h key doc obj :
  length d.(memory) ≤ length h → arranged once h → closed_object h obj →
  grows d (store (stamped d h) key (MkStored doc obj (next_revision d))).
Proof.
  intros Hl Ho Hc. split; simpl; [done|done|done|lia|].
  intros key' it. rewrite lookup_store. case_decide; [|by left].
  intros [= <-]. right. split; [done|]. exists (S d.(revisions)). split; [lia|done].
Qed.

Context `{FloatText}.

Lemma decode_fields_ok j h obj h' :
  decode_fields j h = Some (obj, h') →
  extends h h' ∧ ordered_from (length h) h' ∧ closed_object h' obj.
Proof using Type.
  unfold decode_fields. destruct j; try done.
  - intros [= <- <-]. split_and!; [done|apply ordered_from_end|]. intros k a Hk. by rewrite lookup_empty in Hk.
  - destruct (unmarshal _) as [[]|]; try done. intros [= E].
    by destruct (alloc_root_spec _ _ _ _ E) as (? & ? & ? & _).
Qed.

Lemma put_grows d key it o r d' : well_formed d → put d key it o = (r, d') → grows d d'.
Proof.
  intros Hw. pose proof (grows_refl d (wf_arranged d Hw)) as Hrefl. unfold put.
  destruct (check _ _ _ _); [by intros [= <- <-]|]. destruct it as [doc|]; [|by intros [= <- <-]].
  destruct (decode_fields doc d.(memory)) as [[obj h]|] eqn:E; intros [= <- <-]; [|done].
  apply decode_fields_ok in E as (E & O & C).
  by apply grows_stored; [apply extends_length|eapply arranged_extend; [apply Hw|..]|].
Qed.

Lemma remove_grows d key o r d' :
  well_formed d → remove_item d key o = (r, d') → grows d d'.
Proof.
  intros Hw. unfold remove_item.
  destruct (check _ _ _ _); intros [= <- <-]; [apply grows_refl, Hw|].
  split; simpl; try done; [apply Hw|].
  intros key' it. rewrite lookup_removed. case_decide; [done|by left].
Qed.

Lemma item_graph_ok d key it :
  well_formed d → lookup_item d key = Some it → graph_ok once (MkGraph it.(item_fields) d.(memory)).
Proof. intros Hw Hit. split; [apply Hw|by eapply wf_closed]. Qed.

(** Every map these updates set is given once. *)
Definition all_given (ups : list Update) : Prop := Forall (λ u, given once u.(SetHeld)) ups.
Definition op_given (op : AtomicOp) : Prop := all_given op.(opUpdates).

Lemma update_grows d key ups o r d' :
  all_given ups → well_formed d → update d key ups o = (r, d') → grows d d'.
Proof using Type.
  intros Hgiven Hw. pose proof (grows_refl d (wf_arranged d Hw)) as Hrefl. unfold update.
  case_match; [by intros [= <- <-]|].
  destruct (lookup_item d key) as [it|] eqn:Eit; [|by intros [= <- <-]].
  destruct (check _ _ _ _); [by intros [= <- <-]|].
  destruct (apply_all ups _) as [[err|] g] eqn:Eg;
    destruct (apply_all_ok once _ _ _ _ Hgiven (item_graph_ok _ _ _ Hw Eit) Eg) as [[Ho Hc] Hl].
  - intros [= <- <-]. by apply grows_with_memory.
  - destruct (marshal_graph g); intros [= <- <-]; [by apply grows_stored|].
    by apply grows_with_memory.
Qed.

Lemma batch_grows op d err d' : well_formed d → apply_batch op d = (err, d') → grows d d'.
Proof.
  intros Hw. unfold apply_batch. destruct (remove op); [by apply remove_grows|].
  destruct (put d _ _ _) as [[] d1] eqn:E; intros [= <- <-]; by eapply put_grows.
Qed.

Lemma BatchWrite_grows ops d un d' : well_formed d → BatchWrite ops d = (un, d') → grows d d'.
Proof.
  revert d un. induction ops as [|op ops IH]; simpl; intros d un Hw Hb.
  { simplify_eq. apply grows_refl, Hw. }
  destruct (apply_batch op d) as [err d1] eqn:E1. destruct (BatchWrite ops d1) as [un1 d2] eqn:E2.
  apply batch_grows in E1; [|done]. simplify_eq.
  eapply grows_trans; [done|]. eapply IH; [by eapply grows_well_formed|done].
Qed.

Lemma atomic_grows op d err d' : op_given op → well_formed d → applyAtomic op d = (err, d') → grows d d'.
Proof using Type.
  intros Hgiven Hw. unfold applyAtomic. destruct (kind op); [| |by apply remove_grows].
  - destruct (put d _ _ _) as [[] d1] eqn:E; intros [= <- <-]; by eapply put_grows.
  - destruct (update d _ _ _) as [[] d1] eqn:E; intros [= <- <-]; by eapply update_grows.
Qed.

Lemma atomics_grows ops d err d' :
  Forall op_given ops → well_formed d → apply_atomics ops d = (err, d') → grows d d'.
Proof using Type.
  intros Hgiven. revert d. induction Hgiven as [|op ops Hop _ IH]; simpl; intros d Hw Ha.
  { simplify_eq. apply grows_refl, Hw. }
  destruct (applyAtomic op d) as [[e|] d1] eqn:E1; apply atomic_grows in E1; simplify_eq; try done.
  eapply grows_trans; [done|]. eapply IH; [by eapply grows_well_formed|done].
Qed.

Lemma lookup_restored d d' key : lookup_item (with_items d' d.(items)) key = lookup_item d key.
Proof. done. Qed.

Lemma Atomically_grows d p ops err d' :
  Forall op_given ops → well_formed d → Atomically d p ops = (err, d') → grows d d'.
Proof using Type.
  intros Hgiven Hw. pose proof (grows_refl d (wf_arranged d Hw)) as Hrefl. unfold Atomically.
  case_match; [by intros [= <- <-]|]. case_match; [by intros [= <- <-]|].
  destruct (apply_atomics ops d) as [[e|] d1] eqn:E; apply atomics_grows in E as G; try done;
    intros [= <- <-]; [|done].
  destruct G. split; simpl; try done. intros key it. rewrite lookup_restored. by left.
Qed.

(** ** Runs *)

(** A call, or what a caller does to a map it holds between two calls: it writes a value under a
    key, which may be a map that is held too, or takes the key out. *)
Inductive request : Type :=
  | RPut (key : Key) (it : item) (opts : list WriteOption)
  | RDelete (key : Key) (opts : list WriteOption)
  | RUpdate (key : Key) (updates : list Update) (opts : list WriteOption)
  | RBatchWrite (ops : list BatchOp)
  | RAtomically (partition : string) (ops : list AtomicOp)
  | RCaller (l : loc) (k : string) (v : option (value * option loc)).

Definition caller_writes (l : loc) (k : string) (v : option (value * option loc)) (h : heap) : heap :=
  match v with
  | None => match h !! l with Some obj => <[l := delete k obj]> h | None => h end
  | Some (v, held) =>
      let '(a, h) := place v held h in
      match h !! l with Some obj => <[l := <[k := a]> obj]> h | None => h end
  end.

(** The store a call leaves, whatever it answers. *)
Definition serve (r : request) (d : Datastore) : Datastore :=
  match r with
  | RPut key it opts => (Put d key it opts).2
  | RDelete key opts => (Delete d key opts).2
  | RUpdate key updates opts => (Update_ d key updates opts).2
  | RBatchWrite ops => (BatchWrite ops d).2
  | RAtomically partition ops => (Atomically d partition ops).2
  | RCaller l k v => with_memory d (caller_writes l k v d.(memory))
  end.

Definition run (rs : list request) (d : Datastore) : Datastore := foldl (λ d r, serve r d) d rs.

(** A request that gives every map once, and a caller that keeps none to write to. *)
Definition given_request (r : request) : Prop :=
  match r with
  | RUpdate _ ups _ => all_given ups
  | RAtomically _ ops => Forall op_given ops
  | RCaller _ _ _ => once = false
  | _ => True
  end.

Lemma caller_writes_arranged l k v h :
  once = false → arranged once h →
  arranged once (caller_writes l k v h) ∧ length h ≤ length (caller_writes l k v h).
Proof using Type.
  intros -> Ha. unfold caller_writes. destruct v as [[v held]|].
  - destruct (place v held h) as [a h1] eqn:E.
    destruct (place_ok false _ _ _ _ _ ltac:(done) E) as (X & O & R). pose proof (extends_length _ _ X) as Hl.
    pose proof (arranged_extend false _ _ Ha X O) as Ha1. destruct (h1 !! l) as [obj|] eqn:El; [|done].
    rewrite length_insert. split; [|done]. intros n o k' b r Hn Hk Hr. rewrite length_insert.
    apply list_lookup_insert_Some in Hn as [(<- & <- & _)|[_ Hn]]; [|by eapply Ha1].
    apply lookup_insert_Some in Hk as [[<- <-]|[_ Hk]]; [by apply R|]. by eapply Ha1.
  - destruct (h !! l) as [obj|] eqn:El; [|done]. rewrite length_insert. split; [|done].
    intros n o k' b r Hn Hk Hr. rewrite length_insert.
    apply list_lookup_insert_Some in Hn as [(<- & <- & _)|[_ Hn]]; [|by eapply Ha].
    apply lookup_delete_Some in Hk as [_ Hk]. by eapply Ha.
Qed.

Lemma serve_grows r d : given_request r → well_formed d → grows d (serve r d).
Proof using Type.
  intros Hg Hw. destruct r; simpl in *.
  - eapply put_grows; [done|]. apply surjective_pairing.
  - eapply remove_grows; [done|]. apply surjective_pairing.
  - eapply update_grows; [done|done|]. apply surjective_pairing.
  - eapply BatchWrite_grows; [done|]. apply surjective_pairing.
  - eapply Atomically_grows; [done|done|]. apply surjective_pairing.
  - destruct (caller_writes_arranged l k v d.(memory) Hg (wf_arranged d Hw)). by apply grows_with_memory.
Qed.

Lemma run_grows rs d : Forall given_request rs → well_formed d → grows d (run rs d).
Proof using Type.
  intros Hg. revert d. induction Hg as [|r rs Hr _ IH]; simpl; intros d Hw; [apply grows_refl, Hw|].
  pose proof (serve_grows r d Hr Hw) as G. eapply grows_trans; [done|].
  apply IH. by eapply grows_well_formed.
Qed.

Lemma NewDatastore_well_formed name : well_formed (NewDatastore name).
Proof using Type.
  split; [by intros [|l] obj k a r| |]; intros key it; unfold lookup_item; simpl;
    by rewrite lookup_empty.
Qed.

Lemma given_well_formed name rs : Forall given_request rs → well_formed (run rs (NewDatastore name)).
Proof using Type.
  intros Hg. eapply grows_well_formed; [apply NewDatastore_well_formed|].
  apply run_grows; [done|apply NewDatastore_well_formed].
Qed.
End stores.

Section steps.
Context `{FloatText}.
Abbreviation sound := (well_formed false).

(** Whatever maps callers share and keep. *)
Lemma any_given rs : Forall (given_request false) rs.
Proof using Type.
  apply Forall_forall. intros r _. destruct r; simpl; try done;
    repeat (apply Forall_forall; intros ? _; unfold op_given, all_given); done.
Qed.
Lemma any_op_given op : op_given false op.
Proof using Type. by apply Forall_forall. Qed.

Lemma reachable_well_formed name rs : sound (run rs (NewDatastore name)).
Proof using Type. apply given_well_formed, any_given. Qed.

(** What conditions read of an object that is a tree. *)
Lemma fields_in_tree h obj ms : reify_object h obj = Some ms → fields_in h obj = members_of ms.
Proof using Type.
  unfold fields_in. rewrite reify_object_eq. intros Hms. apply map_eq. intros k. rewrite lookup_omap.
  assert (ms.*1 = (entries obj).*1) as Hkeys.
  { revert ms Hms. induction (entries obj) as [|[k' a] es IH]; intros ms; [by intros [= <-]|].
    rewrite mapM_cons, reify_member_pair. destruct (reify _ h a); [|done]. cbn.
    destruct (mapM _ es) as [ms'|]; [|done]. cbn. intros [= <-]. rewrite !fmap_cons. by rewrite (IH ms'). }
  assert (NoDup ms.*1) as Hnd by (rewrite Hkeys; apply NoDup_entries_fst).
  apply option_eq. intros v. rewrite members_of_lookup by done. split.
  - intros Hv. destruct (obj !! k) as [a|] eqn:Ek; [|done]. cbn in Hv.
    apply elem_of_entries in Ek. apply list_elem_of_split in Ek as (l1 & l2 & He). rewrite He in Hms.
    apply mapM_Some in Hms. apply Forall2_app_inv_l in Hms as (ms1 & ms2 & _ & Hms & ->).
    apply Forall2_cons_inv_l in Hms as (kv & ms2' & Hkv & _ & ->). rewrite reify_member_pair, Hv in Hkv.
    injection Hkv as <-. apply elem_of_app. right. by left.
  - intros Hv. destruct (mapM_elem_of _ _ _ _ Hms Hv) as ([k' a] & Hin & Hkv). unfold reify_member in Hkv.
    apply fmap_Some in Hkv as (w & Hw & [= <- <-]). apply elem_of_entries in Hin. rewrite Hin. exact Hw.
Qed.

(** What holds of a revision is what holds of the item that carries it. *)
Lemma revision_unique d rs key it it' :
  sound d → lookup_item d key = Some it → lookup_item (run rs d) key = Some it' →
  it'.(revision) = it.(revision) → it' = it.
Proof.
  intros Hw Hit Hit' Hrev.
  destruct (grows_items _ _ _ (run_grows false rs d (any_given rs) Hw) key it' Hit') as [Hold|[_ (n & Hn & Hr)]].
  { congruence. }
  destruct (wf_revision _ _ Hw key it Hit) as (m & Hm & Hr').
  rewrite Hr, Hr' in Hrev. apply rev_text_inj in Hrev. lia.
Qed.

Lemma check_revision d key existing o r :
  o.(optRevision) = Some (NewRevision r) →
  check d key existing o = None → ∃ it, existing = Some it ∧ it.(revision) = r.
Proof.
  unfold check. intros ->. simpl. destruct existing as [it|]; [|done].
  case_bool_decide; [|done]. eauto.
Qed.

(** The check of a revision comes before the condition's, so it alone decides the error. *)
Lemma check_revision_refused d key existing o r :
  o.(optRevision) = Some (NewRevision r) →
  (∀ it, existing = Some it → it.(revision) ≠ r) → check d key existing o = Some (refused d key).
Proof.
  unfold check. intros ->. simpl. destruct existing as [it|]; [|done]. intros Hne.
  rewrite bool_decide_eq_false_2; [done|]. by apply Hne.
Qed.

(** C4: a write made conditional on the revision of an item that was read, whatever
    happened in between, is refused with the condition error and changes nothing unless
    the item under the key is the very one that was read: no update is lost. *)
Theorem IfUnchanged_prevents_lost_updates name before d rs key it it' opts updates :
  d = run before (NewDatastore name) →
  lookup_item d key = Some it →
  (ResolveWriteOptions opts).(optRevision) = Some (NewRevision it.(revision)) →
  lookup_item (run rs d) key ≠ Some it →
  Put (run rs d) key it' opts = (Err (refused (run rs d) key), run rs d) ∧
  Delete (run rs d) key opts = (Some (refused (run rs d) key), run rs d) ∧
  ∃ err, Update_ (run rs d) key updates opts = (Err err, run rs d).
Proof.
  intros -> Hit Hopt Hne. pose proof (reachable_well_formed name before) as Hw.
  set (d := run before (NewDatastore name)) in *. set (d' := run rs d) in *.
  assert (∀ existing, existing = lookup_item d' key →
            check d' key existing (ResolveWriteOptions opts) = Some (refused d' key)) as Hck.
  { intros existing He. apply (check_revision_refused _ _ _ _ _ Hopt).
    intros it1 -> Hrev. apply Hne. rewrite <- He. f_equal. by apply (revision_unique d rs key). }
  unfold Put, put, Delete, remove_item, Update_, update. rewrite Hck by done.
  split_and!; [done|done|]. case_match; [by eexists|].
  destruct (lookup_item d' key) as [it1|]; [|by eexists]. rewrite Hck by done. by eexists.
Qed.

(** C35: every store the operations can make holds finite documents.  Where every map is given
    once, to one set, and is not kept to be written to, the decoded form of each item, read
    through maps that updates share, is a tree, and what conditions and filters read of it is
    all of it; and the revision of each item, however maps are given, is one that was given.
    A caller that sets one map twice, the second time inside itself, makes an item that is no
    document ([a_map_within_itself]). *)
Theorem items_are_documents name rs d key it :
  d = run rs (NewDatastore name) →
  lookup_item d key = Some it →
  (Forall (given_request true) rs →
   ∃ ms, reify_object d.(memory) it.(item_fields) = Some ms ∧
     fields_in d.(memory) it.(item_fields) = members_of ms) ∧
  ∃ n, n ≤ d.(revisions) ∧ it.(revision) = rev_text n.
Proof.
  intros -> Hit. split.
  - intros Hg. pose proof (given_well_formed true name rs Hg) as Hw.
    destruct (reify_object_total (run rs (NewDatastore name)).(memory) it.(item_fields)) as [ms Hms].
    + intros l obj k a r _ Hl Hk Hr. by eapply (wf_arranged true _ Hw).
    + by eapply wf_closed.
    + exists ms. split; [done|]. by apply fields_in_tree.
  - eapply wf_revision; [apply reachable_well_formed|done].
Qed.

(** ** What failed writes leave behind *)

(** Maps in memory are only ever added to. *)
Definition keeps (d d' : Datastore) : Prop := extends d.(memory) d'.(memory).

Lemma fields_in_extends h h' obj :
  closed_heap h → closed_object h obj → extends h h' → fields_in h' obj = fields_in h obj.
Proof.
  intros Hh Hc He. unfold fields_in. apply map_eq. intros k. rewrite !lookup_omap.
  destruct (obj !! k) as [a|] eqn:Ek; [|done]. cbn. apply reify_extends; [done|by eapply Hc|done].
Qed.

(** An update whose path names a field of the item itself. *)
Definition flat (change : Update) : bool := no_byte "." change.(Path).
Definition flat_op (op : AtomicOp) : bool := forallb flat op.(opUpdates).

Lemma apply_flat_extends change g err g' :
  flat change = true → apply change g = (err, g') → extends g.(nested) g'.(nested).
Proof.
  intros Hf. unfold apply, path_segments. rewrite split_on_single by done. simpl.
  repeat case_bool_decide; try by intros [= <- <-].
  destruct (place _ _ g.(nested)) as [a h] eqn:Ea. intros [= <- <-].
  by destruct (place_ok false _ _ _ _ _ ltac:(done) Ea).
Qed.

Lemma apply_all_flat_extends changes g err g' :
  forallb flat changes = true → apply_all changes g = (err, g') →
  extends g.(nested) g'.(nested).
Proof.
  revert g. induction changes as [|change changes IH]; simpl; intros g Hf Ha.
  { by simplify_eq. }
  apply andb_prop in Hf as [Hf1 Hf2].
  destruct (apply change g) as [[e|] g1] eqn:E1;
    pose proof (apply_flat_extends _ _ _ _ Hf1 E1) as X1; simplify_eq; [done|].
  etrans; [done|]. by apply (IH g1).
Qed.

Lemma decode_put_keeps d key it o r d' :
  sound d → put d key it o = (r, d') → keeps d d'.
Proof.
  intros Hw. unfold put, keeps. destruct (check _ _ _ _); [by intros [= <- <-]|].
  destruct it as [doc|]; [|by intros [= <- <-]].
  destruct (decode_fields doc d.(memory)) as [[obj h]|] eqn:E; intros [= <- <-]; [|done].
  by apply decode_fields_ok in E as (E & _ & _).
Qed.

Lemma update_flat_keeps d key ups o r d' :
  sound d → forallb flat ups = true → update d key ups o = (r, d') → keeps d d'.
Proof.
  intros Hw Hf. unfold update, keeps. case_match; [by intros [= <- <-]|].
  destruct (lookup_item d key) as [it|] eqn:Eit; [|by intros [= <- <-]].
  destruct (check _ _ _ _); [by intros [= <- <-]|].
  destruct (apply_all ups _) as [[err|] g] eqn:Eg;
    pose proof (apply_all_flat_extends _ _ _ _ Hf Eg) as X.
  - by intros [= <- <-].
  - by destruct (marshal_graph g); intros [= <- <-].
Qed.

Lemma remove_keeps d key o r d' : remove_item d key o = (r, d') → keeps d d'.
Proof. unfold remove_item, keeps. destruct (check _ _ _ _); by intros [= <- <-]. Qed.

Lemma atomics_flat_keeps ops d err d' :
  sound d → forallb flat_op ops = true → apply_atomics ops d = (err, d') → keeps d d'.
Proof.
  revert d. induction ops as [|op ops IH]; simpl; intros d Hw Hf Ha.
  { simplify_eq. by unfold keeps. }
  apply andb_prop in Hf as [Hf1 Hf2].
  assert (∀ e d1, applyAtomic op d = (e, d1) → keeps d d1) as Hk.
  { intros e d1. unfold applyAtomic. destruct (kind op); [| |apply remove_keeps].
    - destruct (put d _ _ _) as [[] d2] eqn:E; intros [= <- <-]; by eapply decode_put_keeps.
    - destruct (update d _ _ _) as [[] d2] eqn:E; intros [= <- <-]; by eapply update_flat_keeps. }
  destruct (applyAtomic op d) as [[e|] d1] eqn:E1; pose proof (Hk _ _ eq_refl); simplify_eq; [done|].
  unfold keeps in *. etrans; [done|]. apply (IH d1); try done.
  eapply grows_well_formed; [done|]. eapply atomic_grows; [apply any_op_given|done..].
Qed.

(** C12: an atomic write applies every operation or none.  One that succeeds has applied
    them in order; one that fails leaves every item what it was, document and revision,
    and what conditions and filters read of it too, where its updates name fields of the
    item itself. *)
Theorem Atomically_all_or_nothing name rs d partition ops err d' :
  d = run rs (NewDatastore name) →
  forallb flat_op ops = true →
  Atomically d partition ops = (err, d') →
  match err with
  | None =>
      length ops ≤ MaxAtomicOps ∧ Forall (λ op, op.(opKey).(Partition) = partition) ops ∧
      apply_atomics ops d = (None, d')
  | Some _ =>
      d'.(items) = d.(items) ∧
      ∀ key it, lookup_item d key = Some it →
        fields_in d'.(memory) it.(item_fields) = fields_in d.(memory) it.(item_fields)
  end.
Proof.
  intros -> Hf. pose proof (reachable_well_formed name rs) as Hw.
  set (d := run rs (NewDatastore name)) in *. unfold Atomically.
  destruct (Nat.ltb_spec MaxAtomicOps (length ops)); [by intros [= <- <-]|].
  destruct (existsb _ ops) eqn:Ep; [by intros [= <- <-]|].
  destruct (apply_atomics ops d) as [[e|] d1] eqn:E; intros [= <- <-].
  - split; [done|]. intros key it Hit. apply fields_in_extends;
      [apply (arranged_closed false), (wf_arranged _ _ Hw)|by eapply wf_closed|].
    by apply (atomics_flat_keeps ops d (Some e) d1).
  - split_and!; [lia| |done]. apply Forall_forall. intros op Hop.
    apply not_true_iff_false in Ep. rewrite existsb_exists in Ep.
    destruct (decide (op.(opKey).(Partition) = partition)) as [|Hne]; [done|].
    destruct Ep. exists op. split; [by apply list_elem_of_In|].
    by rewrite bool_decide_eq_false_2.
Qed.

(** ** Puts and batches *)

(** What [json.Marshal] and [json.Unmarshal] agree is an object. *)
Definition storable (it : item) : option (json * fields) :=
  match it with
  | Ok JNull => Some (JNull, ∅)
  | Ok (JObj ms as doc) =>
      match unmarshal doc with Some (VMap vs) => Some (doc, members_of vs) | _ => None end
  | _ => None
  end.

Lemma decode_fields_storable doc h :
  match storable (Ok doc) with
  | None => decode_fields doc h = None
  | Some (doc', held) =>
      doc' = doc ∧ ∃ obj h', decode_fields doc h = Some (obj, h') ∧ fields_in h' obj = held
  end.
Proof.
  unfold storable, decode_fields. destruct doc; try done.
  { split; [done|]. exists ∅, h. split; [done|]. by apply omap_empty. }
  destruct (unmarshal _) as [[]|] eqn:Eu; try done.
  destruct (alloc_root members0 h) as [obj h'] eqn:Ea.
  split; [done|]. exists obj, h'. split; [done|].
  destruct (alloc_root_spec _ _ _ _ Ea) as (_ & _ & _ & Hr).
  apply fields_in_tree, Hr. by eapply unmarshal_normal.
Qed.

(** What a put does where its preconditions hold. *)
Lemma put_checked d key it o :
  sound d → check d key (lookup_item d key) o = None →
  match storable it with
  | None => ∃ err, put d key it o = (Err err, d)
  | Some (doc, held) => ∃ stored d',
      put d key it o = (Ok (NewRevision (next_revision d)), d') ∧
      stored.(encoded) = doc ∧ stored.(revision) = next_revision d ∧
      fields_in d'.(memory) stored.(item_fields) = held ∧
      ∀ key', lookup_item d' key' = if decide (key' = key) then Some stored
                                    else lookup_item d key'
  end.
Proof.
  intros Hw Hck. unfold put. rewrite Hck. destruct it as [doc|err]; [|by eexists].
  pose proof (decode_fields_storable doc d.(memory)) as Hd.
  destruct (storable (Ok doc)) as [[doc' held]|]; [|rewrite Hd; by eexists].
  destruct Hd as (-> & obj & h & -> & Hf). exists (MkStored doc obj (next_revision d)). eexists.
  split; [done|]. split_and!; [done|done|exact Hf|]. intros key'. by rewrite lookup_store.
Qed.

(** A put whose preconditions hold stores exactly what was written under a revision no
    item of the store carries, leaves every other item alone, and what conditions read of
    the new item is what its document decodes to; one that does not encode to an object
    writes nothing. *)
Lemma Put_stores name rs d key it opts :
  d = run rs (NewDatastore name) →
  check d key (lookup_item d key) (ResolveWriteOptions opts) = None →
  match storable it with
  | None => ∃ err, Put d key it opts = (Err err, d)
  | Some (doc, held) => ∃ stored d',
      Put d key it opts = (Ok (NewRevision stored.(revision)), d') ∧
      stored.(encoded) = doc ∧
      (∀ key' old, lookup_item d key' = Some old → old.(revision) ≠ stored.(revision)) ∧
      fields_in d'.(memory) stored.(item_fields) = held ∧
      ∀ key', lookup_item d' key' = if decide (key' = key) then Some stored
                                    else lookup_item d key'
  end.
Proof.
  intros -> Hck. pose proof (reachable_well_formed name rs) as Hw.
  pose proof (put_checked _ key it _ Hw Hck) as Hp.
  destruct (storable it) as [[doc held]|]; [|done].
  destruct Hp as (stored & d' & Hput & Hd & Hr & Hf & Hl).
  exists stored, d'. rewrite Hr. split_and!; try done.
  intros key' old Hold Heq.
  destruct (wf_revision _ _ Hw key' old Hold) as (n & Hn & Hrev).
  rewrite Hrev in Heq. apply rev_text_inj in Heq. lia.
Qed.

Definition batch_fails (op : BatchOp) : Prop := op.(remove) = false ∧ storable op.(batchItem) = None.

#[local] Instance batch_fails_dec op : base.Decision (batch_fails op).
Proof. unfold batch_fails. apply _. Defined.

(** What the operations make of one key's document. *)
Definition batch_effect (key : Key) (cur : option json) (op : BatchOp) : option json :=
  if decide (op.(batchKey) = key) then
    if op.(remove) then None
    else match storable op.(batchItem) with Some (doc, _) => Some doc | None => cur end
  else cur.

Lemma apply_batch_spec op d err d' :
  sound d → apply_batch op d = (err, d') →
  (is_Some err ↔ batch_fails op) ∧
  ∀ key, encoded <$> lookup_item d' key = batch_effect key (encoded <$> lookup_item d key) op.
Proof.
  intros Hw. unfold apply_batch, batch_fails, batch_effect. destruct (remove op).
  - unfold remove_item. simpl. intros [= <- <-]. split; [split; [by intros []|by intros []]|].
    intros key. rewrite lookup_removed. repeat case_decide; done || congruence.
  - pose proof (put_checked d op.(batchKey) op.(batchItem) noOptions Hw eq_refl) as Hp.
    destruct (storable op.(batchItem)) as [[doc held]|].
    + destruct Hp as (stored & d1 & -> & Hd & _ & _ & Hl). intros [= <- <-].
      split; [split; [by intros []|by intros []]|]. intros key. rewrite Hl.
      repeat case_decide; try congruence. simpl. by rewrite Hd.
    + destruct Hp as (e & ->). intros [= <- <-]. split; [split; [done|by eexists]|].
      intros key. by case_decide.
Qed.

(** A batch write hands back exactly the puts whose items are not objects, in order,
    and leaves under each key what the last of the others to name it says. *)
Lemma BatchWrite_hands_back name rs d ops unapplied d' :
  d = run rs (NewDatastore name) →
  BatchWrite ops d = (unapplied, d') →
  unapplied = base.filter batch_fails ops ∧
  ∀ key, encoded <$> lookup_item d' key =
         foldl (batch_effect key) (encoded <$> lookup_item d key) ops.
Proof.
  intros -> Hb. pose proof (reachable_well_formed name rs) as Hw.
  revert Hb Hw. generalize (run rs (NewDatastore name)). clear.
  revert unapplied. induction ops as [|op ops IH]; simpl; intros un d Hb Hw.
  { by simplify_eq. }
  destruct (apply_batch op d) as [err d1] eqn:E1. destruct (BatchWrite ops d1) as [un1 d2] eqn:E2.
  injection Hb as <- ->.
  destruct (apply_batch_spec _ _ _ _ Hw E1) as [Herr Heff].
  destruct (IH _ _ E2) as [-> Hrest]; [by eapply grows_well_formed, batch_grows|].
  split.
  - destruct err as [e|].
    + rewrite filter_cons_True by (apply Herr; by eexists). done.
    + rewrite filter_cons_False; [done|]. intros Hf%Herr. by destruct Hf.
  - intros key. by rewrite Hrest, Heff.
Qed.
End steps.

(** ** Witnesses

    [WholeText] writes a float64 that is a whole number as its digits, and reads digits;
    any other it writes as mantissa and exponent, as the [%b] verb does. *)

Definition whole (f : float64) : option Z :=
  match f with
  | SpecFloat.S754_zero _ => Some 0%Z
  | SpecFloat.S754_finite neg m e =>
      let n := if (0 <=? e)%Z then Some (Z.pos m * 2 ^ e)%Z
               else if (Z.pos m mod 2 ^ (- e) =? 0)%Z then Some (Z.pos m / 2 ^ (- e))%Z
               else None in
      (λ n, if neg then - n else n)%Z <$> n
  | _ => None
  end.

Definition whole_text (f : float64) : string :=
  match whole f with
  | Some n => itoa n
  | None =>
      match f with
      | SpecFloat.S754_finite neg m e =>
          (if neg then "-" else "") +:+ itoa (Z.pos m) +:+ "p" +:+ itoa e
      | SpecFloat.S754_infinity true => "-Inf"
      | SpecFloat.S754_infinity false => "+Inf"
      | _ => "NaN"
      end
  end.

Definition WholeText : FloatText := {|
  sprint_float := whole_text;
  json_float := whole_text;
  parse_float s := match ParseInt s 64 with Ok n => Some (float_of_Z n) | Err _ => None end;
|}.

Section examples.
#[local] Existing Instance WholeText.

Definition order_key : Key := MkKey "c1" "o1".
Definition order_doc : json :=
  JObj [("count", JNum "2"); ("profile", JObj [("theme", JStr "dark")])].
Definition seeded : list request := [RPut order_key (Ok order_doc) []].
Definition seeded_store : Datastore := run seeded (NewDatastore "orders").

Definition order_stored : storedItem :=
  default (MkStored JNull ∅ "") (lookup_item seeded_store order_key).

Lemma IfUnchanged_prevents_lost_updates_witness :
  Put (run [RUpdate order_key [Set_ "count" (VInt 3)] []] seeded_store) order_key (Ok JNull)
      [IfUnchanged (NewRevision "r1")] =
  (Err (refused (run [RUpdate order_key [Set_ "count" (VInt 3)] []] seeded_store) order_key),
   run [RUpdate order_key [Set_ "count" (VInt 3)] []] seeded_store).
Proof.
  refine (proj1 (IfUnchanged_prevents_lost_updates "orders" seeded seeded_store
    [RUpdate order_key [Set_ "count" (VInt 3)] []] order_key order_stored (Ok JNull)
    [IfUnchanged (NewRevision "r1")] [] eq_refl _ _ _)).
  - by vm_compute.
  - by vm_compute.
  - intros E. apply (f_equal (fmap revision)) in E. by vm_compute in E.
Defined.

Lemma items_are_documents_witness :
  ∃ ms, reify_object seeded_store.(memory) order_stored.(item_fields) = Some ms ∧
    fields_in seeded_store.(memory) order_stored.(item_fields) = members_of ms.
Proof.
  refine (proj1 (items_are_documents "orders" seeded seeded_store order_key order_stored
    eq_refl _) _); [by vm_compute|]. by repeat constructor.
Defined.

(** The caller's map is given to one field and then, within it, to another: the update that
    makes the cycle fails in encoding, and the item that is stored has it already. *)
Lemma a_map_within_itself :
  let d := run [RPut order_key (Ok (JObj [])) []; RUpdate order_key [Set_ "a" (VMap [])] []] (NewDatastore "orders") in
  let again := Update_ d order_key [Set_held "a.b" (VMap []) 0] [] in
  again.1 = Err (EString "json: unsupported value: encountered a cycle") ∧
  ((λ it, (it.(encoded), reify_object again.2.(memory) it.(item_fields))) <$> lookup_item again.2 order_key) =
    Some (JObj [("a", JObj [])], None).
Proof. by vm_compute. Qed.

(** And what the caller writes to a map it has given is in the item, as conditions read it, and
    not in its document. *)
Lemma a_map_the_caller_keeps :
  let d := run [RPut order_key (Ok (JObj [])) []; RUpdate order_key [Set_ "a" (VMap [])] [];
                RCaller 0 "b" (Some (VString "c", None))] (NewDatastore "orders") in
  ((λ it, (it.(encoded), fields_in d.(memory) it.(item_fields) !! "a")) <$> lookup_item d order_key) =
    Some (JObj [("a", JObj [])], Some (VMap [("b", VString "c")])).
Proof. by vm_compute. Qed.

Definition refused_batch : list AtomicOp :=
  [AtomicPut order_key (Ok (JObj [])) [];
   AtomicDelete (MkKey "c1" "o2") [If (Exists "status")]].

Lemma Atomically_all_or_nothing_witness :
  (Atomically seeded_store "c1" refused_batch).2.(items) = seeded_store.(items).
Proof.
  refine (proj1 (Atomically_all_or_nothing "orders" seeded seeded_store "c1" refused_batch
    (Some _) _ eq_refl eq_refl _)).
  by vm_compute.
Defined.

Lemma Put_stores_witness :
  ∃ stored d', Put seeded_store (MkKey "c1" "o2") (Ok (JObj [("n", JNum "7")])) [] =
    (Ok (NewRevision stored.(revision)), d') ∧ stored.(encoded) = JObj [("n", JNum "7")].
Proof.
  destruct (Put_stores "orders" seeded seeded_store (MkKey "c1" "o2")
    (Ok (JObj [("n", JNum "7")])) [] eq_refl eq_refl) as (stored & d' & ? & ? & _).
  by exists stored, d'.
Defined.

Lemma BatchWrite_hands_back_witness :
  (BatchWrite [PutOp order_key (Ok (JArr [])); DeleteOp order_key] seeded_store).1 =
  [PutOp order_key (Ok (JArr []))].
Proof.
  refine (eq_trans (proj1 (BatchWrite_hands_back "orders" seeded seeded_store
    [PutOp order_key (Ok (JArr [])); DeleteOp order_key] _ _ eq_refl _)) _).
  - apply surjective_pairing.
  - by vm_compute.
Defined.

End examples.

(** ** Where the double and its contract part *)

(** What a whole read and a read projected to some fields show of an item. *)
Definition shown `{FloatText} (d : Datastore) (key : Key) (project : list string) :
    option (json * result error json) :=
  (λ it, (it.(encoded), projected d.(memory) it project)) <$> lookup_item d key.

(** An atomic write that is refused can leave its changes behind.  Here an update of a
    nested field is followed by a delete that is refused: a read of the item shows it as
    it was, and a read projected to the field, as a condition on it would, shows the change. *)
Lemma Atomically_leaks_nested_changes `{FloatText} :
  let key := MkKey "c1" "o1" in
  let doc theme := JObj [("profile", JObj [("theme", JStr theme)])] in
  let d := (Put (NewDatastore "orders") key (Ok (doc "dark")) []).2 in
  let answer := Atomically d "c1"
    [AtomicUpdate key [Set_ "profile.theme" (VString "light")] [];
     AtomicDelete (MkKey "c1" "o2") [If (Exists "status")]] in
  answer.1 = Some (refused d (MkKey "c1" "o2")) ∧
  shown d key ["profile"] = Some (doc "dark", Ok (doc "dark")) ∧
  shown answer.2 key ["profile"] = Some (doc "dark", Ok (doc "light")).
Proof. split_and!; vm_compute; reflexivity. Qed.

(** A number a handler sets and then increments counts from zero: the double keeps the
    Go int it was given, and an increment reads only a float64. *)
Lemma Increment_forgets_an_int `{FloatText} :
  let key := MkKey "c1" "o1" in
  let set := (Update_ (Put (NewDatastore "orders") key (Ok (JObj [])) []).2 key
               [Set_ "count" (VInt 5)] []).2 in
  encoded <$> lookup_item set key = Some (JObj [("count", JNum "5")]) ∧
  encoded <$> lookup_item (Update_ set key [Increment "count" (float_of_Z 1)] []).2 key =
    Some (JObj [("count", JNum (json_float (float_of_Z 1)))]).
Proof. split; vm_compute; reflexivity. Qed.
