(* ===== verification/Paging.v ===== *)
(** * Reading a listing through

    [Items] and [Scanned] of [resources/datastore/listing.go] over the in-memory store:
    a page's cursor is where the next starts, every page but the last makes progress, and
    the pages together are what one unlimited read answers. *)

From S2P Require Import Prelude GoStrings Json Errors Layer Bind Frames Values Store Matching Memory.
From stdpp Require Import options.

(** ** A number's text reads back as the number *)

Lemma parse_digits_app M n a b :
  parse_digits M n (a +:+ b) =
  let! m := parse_digits M n a in parse_digits M m b.
Proof.
  revert n. induction a as [|c a IH]; intros n; [done|]. rewrite append_cons. simpl.
  destruct (digit c); [|done]. case_match; [done|]. apply IH.
Qed.

Lemma pretty_N_go_app x s : pretty_N_go x s = pretty_N_go x "" +:+ s.
Proof.
  revert s. induction (N.lt_wf_0 x) as [x _ IH]; intros s.
  destruct (decide (x = 0)%N) as [->|Hx]; [by rewrite !pretty_N_go_0|].
  rewrite !(pretty_N_go_step x) by lia.
  assert (x `div` 10 < x)%N as Hlt by (apply N.div_lt; lia).
  rewrite (IH _ Hlt (String _ s)), (IH _ Hlt (String _ "")). by rewrite append_assoc.
Qed.

Lemma digit_char x : digit (pretty_N_char (x `mod` 10)) = Some (Z.of_N (x `mod` 10)).
Proof.
  assert (x `mod` 10 < 10)%N by (apply N.mod_lt; lia).
  generalize dependent (x `mod` 10)%N. intros d Hd.
  assert (d = 0 ∨ d = 1 ∨ d = 2 ∨ d = 3 ∨ d = 4 ∨ d = 5 ∨ d = 6 ∨ d = 7 ∨ d = 8 ∨ d = 9)%N
    as Hcase by lia.
  by repeat destruct Hcase as [->|Hcase]; [..|subst].
Qed.

Lemma parse_pretty_go M x :
  (Z.of_N x ≤ M)%Z → parse_digits M 0 (pretty_N_go x "") = Ok (Z.of_N x).
Proof.
  induction (N.lt_wf_0 x) as [x _ IH]; intros Hx.
  destruct (decide (x = 0)%N) as [->|Hx0]; [by rewrite pretty_N_go_0|].
  rewrite pretty_N_go_step, pretty_N_go_app by lia.
  assert (x `div` 10 < x)%N as Hlt by (apply N.div_lt; lia).
  rewrite parse_digits_app, IH by lia. simpl. rewrite digit_char.
  pose proof (N.div_mod x 10 ltac:(lia)) as Hdm.
  assert (Z.of_N (x `div` 10) * 10 + Z.of_N (x `mod` 10) = Z.of_N x)%Z as -> by lia.
  destruct (Z.ltb_spec M (Z.of_N x)); [lia|done].
Qed.

Lemma pretty_go_digits x :
  digits_prefix (pretty_N_go x "") = pretty_N_go x "" ∧
  (x ≠ 0%N → ∃ c rest, pretty_N_go x "" = String c rest ∧ is_some (digit c) = true).
Proof.
  assert (∀ a b, digits_prefix a = a → digits_prefix b = b →
            digits_prefix (a +:+ b) = a +:+ b) as Happ.
  { induction a as [|c a IHa]; intros b Ha Hb; [done|]. rewrite append_cons. simpl in *.
    destruct (is_some (digit c)); [|done]. injection Ha as Ha. by rewrite IHa. }
  induction (N.lt_wf_0 x) as [x _ IH].
  destruct (decide (x = 0)%N) as [->|Hx0]; [by rewrite pretty_N_go_0|].
  rewrite pretty_N_go_step, pretty_N_go_app by lia.
  destruct (IH (x `div` 10)%N) as [IH1 IH2]; [apply N.div_lt; lia|].
  assert (is_some (digit (pretty_N_char (x `mod` 10))) = true) as Hd by by rewrite digit_char.
  split.
  - apply Happ; [done|]. simpl. by rewrite Hd.
  - intros _. destruct (decide (x `div` 10 = 0)%N) as [->|Hne].
    + rewrite pretty_N_go_0. eauto.
    + destruct (IH2 Hne) as (c & rest & -> & Hc). rewrite append_cons. eauto.
Qed.

Lemma itoa_digits n :
  (0 ≤ n)%Z → ∃ c rest, itoa n = String c rest ∧ is_some (digit c) = true ∧
    digits_prefix (itoa n) = itoa n ∧
    ∀ M, (n ≤ M)%Z → parse_digits M 0 (itoa n) = Ok n.
Proof.
  intros Hn. unfold itoa. destruct n as [|p|p]; [|clear Hn|lia].
  - exists "0"%char, "". split_and!; try done. intros M HM.
    change (parse_digits M 0 (pretty 0%Z)) with
      (if (M <? 0)%Z then Err ErrRange else Ok 0%Z : result error Z).
    destruct (Z.ltb_spec M 0); [lia|done].
  - change (pretty (Z.pos p)) with (pretty (N.pos p)).
    unfold pretty, pretty_N. rewrite decide_False by done.
    destruct (pretty_go_digits (N.pos p)) as [H1 H2]. destruct H2 as (c & rest & Hc & Hd); [done|].
    exists c, rest. split_and!; [done|done|done|]. intros M HM. by apply parse_pretty_go.
Qed.

Lemma digit_not_special c :
  is_some (digit c) = true →
  c ≠ "+"%char ∧ c ≠ "-"%char ∧ (nat_of_ascii c =? 10) = false ∧ (nat_of_ascii c =? 13) = false ∧
  ((nat_of_ascii c =? 32) || ((9 <=? nat_of_ascii c) && (nat_of_ascii c <=? 13))) = false.
Proof. destruct c as [[] [] [] [] [] [] [] []]; vm_compute; intros; try done. Qed.

Lemma scan_int_itoa n : (0 ≤ n < 2 ^ 63)%Z → scan_int (itoa n) = Ok n.
Proof.
  intros [Hn Hmax]. destruct (itoa_digits n Hn) as (c & rest & Hs & Hd & Hp & Hv).
  destruct (digit_not_special c Hd) as (Hplus & Hminus & H10 & H13 & Hsp).
  unfold scan_int. rewrite Hs. cbn [skip_space]. rewrite H10, H13, Hsp. cbn [andb].
  assert (∀ A (f : string → A) (g : string → A) (h : A),
    match String c rest with String "+" r => f r | String "-" r => g r | _ => h end = h) as Hsign.
  { intros A f g h. destruct c as [[] [] [] [] [] [] [] []]; done. }
  rewrite Hsign, <- Hs, Hp. rewrite bool_decide_eq_false_2 by (rewrite Hs; done).
  rewrite append_nil_l. unfold ParseInt, parse_uint.
  rewrite Hs, Hsign, <- Hs. rewrite !bool_decide_eq_false_2 by (rewrite Hs; done).
  rewrite Hv by lia. cbn [negb andb].
  destruct (Z.leb_spec (2 ^ (64 - 1)) n); [lia|]. done.
Qed.

(** ** One page *)

Section paging.
Context `{FloatText} {T : Type} (decode : json → result error T) (out_type : string)
  (setRevision : option (Revision → T → T)).

(** Where a cursor says to start. *)
Definition start_of (c : string) : result error Z :=
  if bool_decide (c = "") then Ok 0%Z else scan_int c.

(** What a reader is given of one item. *)
Definition answer (h : heap) (project : list string) (it : storedItem) : result error T :=
  let! doc := projected h it project in
  let! v := decode doc in
  Ok (match setRevision with Some set => set (NewRevision it.(revision)) v | None => v end).

Definition page_items (h : heap) (project : list string) (chosen : list storedItem) :
    result error (list T) :=
  let! out := (let! docs := try_map (λ it, projected h it project) chosen in
               fill decode out_type docs) in
  Ok (DeliverRevisions setRevision ((λ it, NewRevision it.(revision)) <$> chosen) out).

Lemma DeliverRevisions_cons r rs v vs :
  DeliverRevisions setRevision (r :: rs) (v :: vs) =
  match setRevision with Some set => set r v | None => v end ::
  DeliverRevisions setRevision rs vs.
Proof. by destruct setRevision. Qed.

Lemma page_items_answers h project chosen vs :
  try_map (answer h project) chosen = Ok vs → page_items h project chosen = Ok vs.
Proof.
  unfold page_items, fill. revert vs. induction chosen as [|it its IH]; intros vs; cbn [try_map].
  { intros [= <-]. by destruct setRevision. }
  unfold answer at 1. destruct (projected h it project) as [doc|]; [|done].
  destruct (decode doc) as [v|] eqn:Ev; [|done].
  destruct (try_map (answer h project) its) as [ws|] eqn:Ew; [|done]. intros [= <-].
  specialize (IH _ eq_refl). revert IH.
  destruct (try_map (λ it, projected h it project) its) as [docs|]; [|done].
  cbn [try_map]. rewrite Ev. destruct (try_map decode docs) as [out|]; [|done].
  intros [= IH]. by rewrite fmap_cons, DeliverRevisions_cons, IH.
Qed.

Definition stop_of (limit start size : Z) : Z :=
  if (0 <? limit)%Z then Z.min (to_int64 (start + limit)) size else size.

Lemma page_eq h matched limit c project start :
  start_of c = Ok start →
  let size := Z.of_nat (length matched) in
  let stop := stop_of limit start size in
  (0 ≤ start ≤ stop)%Z → (start ≤ size)%Z →
  page decode out_type setRevision h matched limit c project =
  match page_items h project (slice (Z.to_nat start) (Z.to_nat stop) matched) with
  | Ok out => Returned (out, if (stop <? size)%Z then itoa stop else "") None
  | Err err => refused_page err
  end.
Proof.
  intros Hs size stop Hstop Hsize. unfold page. fold (start_of c). rewrite Hs.
  fold size. fold (stop_of limit start size). fold stop.
  destruct (Z.ltb_spec size start); [lia|]. destruct (Z.ltb_spec start 0); [lia|].
  destruct (Z.ltb_spec stop start); [lia|]. cbn [orb]. unfold page_items.
  by destruct (let! docs := _ in _).
Qed.

(** The widths of Go's [int]. *)
Definition int_range (n : Z) : Prop := (- 2 ^ 63 ≤ n < 2 ^ 63)%Z.

Lemma stop_of_progress limit start size :
  int_range limit → int_range start → (start ≤ stop_of limit start size)%Z →
  (stop_of limit start size < size)%Z →
  (start < stop_of limit start size < 2 ^ 63)%Z.
Proof.
  unfold int_range, stop_of, to_int64. intros Hl Hs. destruct (Z.ltb_spec 0 limit); [|lia].
  intros Hle Hlt. destruct (decide (start + limit < 2 ^ 63)%Z).
  - rewrite Z.mod_small in * by lia. lia.
  - assert ((start + limit + 2 ^ 63) mod 2 ^ 64 = start + limit + 2 ^ 63 - 2 ^ 64)%Z as E.
    { symmetry. apply (Z.mod_unique_pos _ _ 1); lia. }
    rewrite E in *. lia.
Qed.

Lemma start_of_range c start : start_of c = Ok start → int_range start.
Proof.
  unfold start_of, int_range. case_bool_decide; [by intros [= <-]|].
  unfold scan_int. destruct (skip_space c) as [s|]; [|done].
  destruct (match s with String "+" r => _ | String "-" r => _ | _ => _ end) as [sign rest].
  case_bool_decide; [done|]. unfold ParseInt.
  destruct (match sign +:+ digits_prefix rest with String "+" r => _ | String "-" r => _ | _ => _ end)
    as [neg digits].
  case_bool_decide; [done|]. unfold with_num. destruct (parse_uint 64 digits) as [un|] eqn:Eu; [|done].
  assert (0 ≤ un)%Z as Hun.
  { unfold parse_uint in Eu. case_bool_decide; [done|]. revert Eu.
    assert (∀ M n s' r, (0 ≤ n)%Z → parse_digits M n s' = Ok r → (0 ≤ r)%Z) as Hp.
    { clear. intros M n s'. revert n. induction s' as [|a s' IH]; simpl; intros n r Hn.
      { by intros [= <-]. }
      destruct (digit a) as [d|] eqn:Ed; [|done]. destruct (_ <? _)%Z; [done|]. apply IH.
      assert (0 ≤ d)%Z; [|lia]. unfold digit in Ed. case_match; simplify_eq. lia. }
    by apply Hp. }
  change (2 ^ (64 - 1))%Z with (2 ^ 63)%Z.
  destruct neg; cbn [negb andb];
    [destruct (Z.ltb_spec (2 ^ 63) un)|destruct (Z.leb_spec (2 ^ 63) un)];
    intros [= <-]; lia.
Qed.

(** A page that says there is more starts where its cursor says, and the next begins
    further on. *)
Lemma page_more h matched limit c project out c' :
  int_range limit →
  page decode out_type setRevision h matched limit c project = Returned (out, c') None →
  c' ≠ "" →
  ∃ start stop, start_of c = Ok start ∧ c' = itoa stop ∧
    (0 ≤ start < stop)%Z ∧ (stop < Z.of_nat (length matched))%Z ∧ (stop < 2 ^ 63)%Z.
Proof.
  intros Hlim. unfold page. fold (start_of c).
  destruct (start_of c) as [start|] eqn:Es; [|by intros [= <- <-]].
  fold (stop_of limit start (Z.of_nat (length matched))).
  set (size := Z.of_nat (length matched)). set (stop := stop_of limit start size).
  destruct (Z.ltb_spec size start); [by intros [= <- <-]|].
  destruct (Z.ltb_spec start 0); [done|]. destruct (Z.ltb_spec stop start); [done|]. cbn [orb].
  destruct (let! docs := _ in _) as [out'|]; [|by intros [= <- <-]].
  intros [= <- <-]. destruct (Z.ltb_spec stop size) as [Hlt|]; [|done]. intros _.
  exists start, stop. assert (start < stop < 2 ^ 63)%Z as [Hss Hw].
  { apply stop_of_progress; [done| |done|done]. by eapply start_of_range. }
  by split_and!.
Qed.

(** ** The whole listing *)

Section listing.
(** What the body of the range may change, and the store beside it. *)
Context {S : Type}.
Abbreviation world := (S * Datastore)%type.
Context (yield : result error T → world → bool * world).
(** A body that may read the store and writes nothing to it. *)
Definition leaves_the_store : Prop := ∀ r w, (yield r w).2.2 = w.2.
Context (h : heap) (matched : list storedItem) (limit : Z) (project : list string).

Definition fetch_page (c : Cursor) (w : world) : paged * world :=
  (page decode out_type setRevision h matched limit c project, w).

Lemma yield_page_leaves page w : leaves_the_store → (yield_page yield page w).2.2 = w.2.
Proof.
  intros Hy. revert w. induction page as [|it page IH]; intros w; cbn [yield_page]; [done|].
  specialize (Hy (Ok it) w). destruct (yield (Ok it) w) as [[] w'] eqn:E; [|done]. by rewrite IH.
Qed.

Lemma itoa_nonempty n : (0 ≤ n)%Z → itoa n ≠ "".
Proof. intros Hn. destruct (itoa_digits n Hn) as (c & rest & -> & _). done. Qed.

Lemma start_of_itoa n : (0 ≤ n < 2 ^ 63)%Z → start_of (itoa n) = Ok n.
Proof.
  intros Hn. unfold start_of.
  rewrite bool_decide_eq_false_2 by (apply itoa_nonempty; lia). by apply scan_int_itoa.
Qed.

Lemma listing_terminates fuel c w :
  int_range limit →
  (∀ start, start_of c = Ok start → (0 ≤ start)%Z →
     Z.to_nat (Z.of_nat (length matched) - start) < fuel) →
  0 < fuel → is_Some (listing fetch_page yield fuel c w).
Proof.
  intros Hlimit. revert c w. induction fuel as [|fuel IH]; intros c w Hf Hpos; [lia|]. cbn [listing].
  unfold fetch_page at 1. destruct (page _ _ _ _ _ _ _ _) as [[out c'] [err|]|v] eqn:Ep; [eauto| |eauto].
  destruct (yield_page yield out w) as [[] w']; [|eauto]. cbn [negb]. unfold More.
  case_bool_decide as Hc; [eauto|]. cbn [negb].
  destruct (page_more _ _ _ _ _ _ _ Hlimit Ep Hc) as (start & stop & Hst & -> & Hss & Hlt & Hw).
  specialize (Hf start Hst ltac:(lia)). apply IH; [|lia].
  intros start' Hst' Hpos'. rewrite start_of_itoa in Hst' by lia. simplify_eq. lia.
Qed.

Lemma yield_page_app a b w :
  yield_page yield (a ++ b) w =
  let '(go, w) := yield_page yield a w in if (go : bool) then yield_page yield b w else (false, w).
Proof.
  revert w. induction a as [|x a IH]; intros w; cbn [app yield_page]; [done|].
  destruct (yield (Ok x) w) as [[] w']; [apply IH|done].
Qed.

Lemma try_map_slice {A B} (f : A → result error B) l vs a b :
  try_map f l = Ok vs → try_map f (slice a b l) = Ok (slice a b vs).
Proof.
  unfold slice. generalize (b - a). intros n. revert a n vs.
  induction l as [|x l IH]; cbn [try_map]; intros a n vs.
  { intros [= <-]. by rewrite !drop_nil, !take_nil. }
  destruct (f x) as [y|] eqn:Ey; [|done]. destruct (try_map f l) as [ys|] eqn:El; [|done].
  intros [= <-]. destruct a as [|a]; [|by apply (IH a)].
  destruct n as [|n]; [done|]. cbn. rewrite Ey. specialize (IH 0 n ys eq_refl).
  rewrite !drop_0 in IH. by rewrite IH.
Qed.

Lemma length_try_map {A B} (f : A → result error B) l vs :
  try_map f l = Ok vs → length vs = length l.
Proof.
  revert vs. induction l as [|x l IH]; cbn [try_map]; intros vs; [by intros [= <-]|].
  destruct (f x); [|done]. destruct (try_map f l); [|done]. intros [= <-].
  simpl. f_equal. by apply IH.
Qed.

(** From an item on, the pages give the rest of what was matched. *)
Lemma listing_rest fuel c w vs start :
  (limit < 2 ^ 63)%Z → (Z.of_nat (length matched) < 2 ^ 62)%Z →
  try_map (answer h project) matched = Ok vs →
  start_of c = Ok start → (0 ≤ start ≤ Z.of_nat (length matched))%Z →
  (start + limit < 2 ^ 63)%Z →
  Z.to_nat (Z.of_nat (length matched) - start) < fuel →
  listing fetch_page yield fuel c w =
  Some (Returned () None, (yield_page yield (drop (Z.to_nat start) vs) w).2).
Proof.
  intros Hlim Hsize Hvs. revert c w start.
  induction fuel as [|fuel IH]; intros c w start Hst Hrange Hsum Hfuel; [lia|].
  set (size := Z.of_nat (length matched)) in *. set (stop := stop_of limit start size).
  assert (start ≤ stop ≤ size ∧ (stop < size → start < stop ∧ limit < size))%Z as [Hstop Hprog].
  { subst stop. unfold stop_of. destruct (Z.ltb_spec 0 limit); [|lia].
    rewrite to_int64_id by lia. lia. }
  pose proof (length_try_map _ _ _ Hvs) as Hlen.
  cbn [listing]. unfold fetch_page at 1.
  rewrite (page_eq _ _ _ _ _ start Hst); [|fold size stop; lia|fold size; lia].
  fold size stop.
  rewrite (page_items_answers _ _ _ _ (try_map_slice _ _ _ _ _ Hvs)).
  assert (drop (Z.to_nat start) vs =
          slice (Z.to_nat start) (Z.to_nat stop) vs ++ drop (Z.to_nat stop) vs) as ->.
  { unfold slice. rewrite <- (take_drop (Z.to_nat stop - Z.to_nat start) (drop (Z.to_nat start) vs)) at 1.
    f_equal. rewrite drop_drop. f_equal. lia. }
  rewrite yield_page_app.
  destruct (yield_page yield (slice _ _ vs) w) as [[] w']; [|done]. cbn [negb].
  destruct (Z.ltb_spec stop size) as [Hlt|Hge].
  - unfold More. rewrite bool_decide_eq_false_2 by (apply itoa_nonempty; lia). cbn [negb].
    apply IH; [apply start_of_itoa; lia|lia|lia|lia].
  - rewrite drop_ge by lia. done.
Qed.
End listing.

(** ** Queries and scans *)

Section store.
Context {S : Type}.
Abbreviation world := (S * Datastore)%type.
Context (yield : result error T → world → bool * world).
Context (Hyield : leaves_the_store yield).

Definition fetch_query (q : Query) (w : world) : paged * world :=
  (QueryPage decode out_type setRevision q w.2, w).
Definition fetch_scan (s : Scan) (w : world) : paged * world :=
  (ScanPage decode out_type setRevision s w.2, w).

(** Two fetches that agree on the store the body leaves alone list the same. *)
Lemma listing_ext (f g : Cursor → world → paged * world) fuel c w d :
  w.2 = d → (∀ c w, w.2 = d → f c w = g c w) → (∀ c w, (g c w).2 = w) →
  listing f yield fuel c w = listing g yield fuel c w.
Proof using Hyield.
  intros Hw Hfg Hg. revert c w Hw. induction fuel as [|fuel IH]; intros c w Hw; [done|]. cbn [listing].
  rewrite Hfg by done. specialize (Hg c w). destruct (g c w) as [[[out c'] [e|]|v] w']; [done| |done].
  simpl in Hg. subst w'. pose proof (yield_page_leaves yield out w Hyield) as Hleft.
  destruct (yield_page yield out w) as [[] w']; [|done]. destruct (More c'); [|done]. apply IH. by rewrite <- Hw.
Qed.

Lemma select_length d filter its kept : select d filter its = Ok kept → length kept ≤ length its.
Proof.
  revert kept. induction its as [|it its IH]; simpl; intros kept; [by intros [= <-]|].
  destruct (filtered _ _) as [keep|]; [|done]. destruct (select d filter its) as [ks|]; [|done].
  specialize (IH ks eq_refl). intros [= <-]. destruct keep; simpl; lia.
Qed.

(** A listing whose pages are cut from one selection, or fail with its error. *)
Definition fetch_selected (h : heap) (sel : result error (list storedItem)) (limit : Z)
    (project : list string) (c : Cursor) (w : world) : paged * world :=
  (match sel with
   | Err err => refused_page err
   | Ok matched => page decode out_type setRevision h matched limit c project
   end, w).

Lemma selected_terminates h sel limit project n c w :
  int_range limit → (∀ matched, sel = Ok matched → length matched ≤ n) →
  is_Some (listing (fetch_selected h sel limit project) yield (Datatypes.S n) c w).
Proof using Type.
  intros Hlim Hn. destruct sel as [matched|err]; [|by eexists].
  apply (listing_terminates yield h matched limit project); [done| |lia]. intros start _ Hpos.
  specialize (Hn matched eq_refl). lia.
Qed.

Lemma selected_complete h matched limit project fuel w vs :
  (limit < 2 ^ 63)%Z → (Z.of_nat (length matched) < 2 ^ 62)%Z →
  try_map (answer h project) matched = Ok vs →
  length matched < fuel →
  listing (fetch_selected h (Ok matched) limit project) yield fuel "" w =
  Some (Returned () None, (yield_page yield vs w).2).
Proof using Type.
  intros Hlim Hsize Hvs Hfuel.
  by apply (listing_rest yield h matched limit project _ _ _ _ 0); (done || lia).
Qed.

(** C34: a listing read through ends.  Whatever the query, the cursor it starts from, the
    errors on the way, and whatever the body of the range does, as long as it leaves the store
    it reads alone, [Items] asks for no more pages than there are items, and one more.  A body
    that puts items while it ranges is given those too, and may be for ever
    ([a_body_that_puts_reads_on]). *)
Theorem Items_terminates d q s :
  int_range q.(qLimit) →
  is_Some (Items fetch_query yield (Datatypes.S (length (query_items d q))) q (s, d)).
Proof using Hyield.
  intros Hlim. unfold Items.
  rewrite (listing_ext _ (fetch_selected d.(memory) (select d q.(qFilter) (query_items d q))
    q.(qLimit) q.(qProject)) _ _ _ d); [|done|by intros c [? ?] [= ->]|done].
  apply selected_terminates; [done|]. intros matched. apply select_length.
Qed.

(** C24: whatever the size of a page, [Items] gives the body of the range, which leaves the
    store it reads alone, what the filter keeps of the query's items, each once and in order,
    until the body stops. *)
Theorem Items_complete d q s fuel matched vs :
  q.(qCursor) = "" → int_range q.(qLimit) →
  select d q.(qFilter) (query_items d q) = Ok matched →
  (Z.of_nat (length matched) < 2 ^ 62)%Z →
  try_map (answer d.(memory) q.(qProject)) matched = Ok vs →
  length matched < fuel →
  Items fetch_query yield fuel q (s, d) = Some (Returned () None, (yield_page yield vs (s, d)).2).
Proof using Hyield.
  intros Hc Hlim Hsel Hsize Hvs Hfuel. unfold Items. rewrite Hc.
  rewrite (listing_ext _ (fetch_selected d.(memory) (select d q.(qFilter) (query_items d q))
    q.(qLimit) q.(qProject)) _ _ _ d); [|done|by intros c [? ?] [= ->]|done].
  rewrite Hsel. apply selected_complete; [by destruct Hlim|done..].
Qed.

(** The same of a scan. *)
Lemma Scanned_complete d sc s fuel matched vs :
  sc.(sCursor) = "" → int_range sc.(sLimit) →
  select d sc.(sFilter) (scan_items d) = Ok matched →
  (Z.of_nat (length matched) < 2 ^ 62)%Z →
  try_map (answer d.(memory) sc.(sProject)) matched = Ok vs →
  length matched < fuel →
  Scanned fetch_scan yield fuel sc (s, d) = Some (Returned () None, (yield_page yield vs (s, d)).2).
Proof using Hyield.
  intros Hc Hlim Hsel Hsize Hvs Hfuel. unfold Scanned. rewrite Hc.
  rewrite (listing_ext _ (fetch_selected d.(memory) (select d sc.(sFilter) (scan_items d))
    sc.(sLimit) sc.(sProject)) _ _ _ d); [|done|by intros c [? ?] [= ->]|done].
  rewrite Hsel. apply selected_complete; [by destruct Hlim|done..].
Qed.
End store.
End paging.

(** What a query reads before its filter: the items of its partition whose sort key its
    sort condition takes. *)
Lemma elem_of_query_items d q it :
  it ∈ query_items d q ↔
  ∃ sort, lookup_item d (MkKey q.(qPartition) sort) = Some it ∧
    match q.(qSort) with None => true | Some c => sortMatches c sort end = true.
Proof.
  unfold query_items, lookup_item, sorted_items. simpl.
  set (m := default ∅ (d.(items) !! q.(qPartition))).
  assert (∀ sort, m !! sort = (m ← d.(items) !! q.(qPartition); m !! sort)) as Hm.
  { intros sort. subst m. destruct (d.(items) !! q.(qPartition)); [done|]. apply lookup_empty. }
  assert (∀ sort it, (sort, it) ∈ (if q.(qDescending) then reverse (entries m) else entries m) ↔
                     m !! sort = Some it) as Hin.
  { intros sort it'. destruct (qDescending q); rewrite ?elem_of_reverse; apply elem_of_entries. }
  rewrite list_elem_of_fmap. split.
  - intros ([sort it'] & -> & [Hs Hk]%list_elem_of_filter).
    exists sort. rewrite <- Hm. split; [by apply Hin|done].
  - intros (sort & Hk & Hs). exists (sort, it). split; [done|].
    apply list_elem_of_filter. split; [done|]. apply Hin. by rewrite Hm.
Qed.

(** A cursor that is a negative number is not refused: it panics. *)
Lemma negative_cursor_panics `{FloatText} {T} (decode : json → result error T) out_type setRev d q matched :
  q.(qCursor) = "-1" → select d q.(qFilter) (query_items d q) = Ok matched →
  QueryPage decode out_type setRev q d = slice_panic.
Proof.
  intros Hc Hs. unfold QueryPage. rewrite Hs, Hc. unfold page.
  change (if bool_decide ("-1" = "") then Ok 0%Z else scan_int "-1") with
    (Ok (-1)%Z : result error Z).
  cbv beta iota zeta. destruct (Z.ltb_spec (Z.of_nat (length matched)) (-1)); [lia|].
  by destruct (Z.ltb_spec (-1) 0).
Qed.

(** ** Witnesses *)

Section examples.
#[local] Existing Instance WholeText.

Definition three_orders : list request :=
  [RPut (MkKey "c1" "o2") (Ok (JObj [("n", JNum "2")])) [];
   RPut (MkKey "c1" "o1") (Ok (JObj [("n", JNum "1")])) [];
   RPut (MkKey "c1" "o3") (Ok (JObj [("n", JNum "3")])) []].
Definition three_store : Datastore := run three_orders (NewDatastore "orders").
Definition two_at_a_time : Query :=
  MkQuery "c1" None (Some (Ge "n" (VInt 1))) "" [] true 2 "".

(** A body that keeps what it is given, and asks the store nothing. *)
Definition keep (r : result error json) (w : list json * Datastore) : bool * (list json * Datastore) :=
  match r with Ok j => (true, (w.1 ++ [j], w.2)) | Err _ => (false, w) end.
Lemma keep_leaves : leaves_the_store keep.
Proof. by intros [j|e] [s d]. Qed.

(** A body that puts one more order for each it is given. *)
Definition put_another (r : result error json) (w : nat * Datastore) : bool * (nat * Datastore) :=
  (true, (S w.1, run [RPut (MkKey "c1" ("o" +:+ pretty (10 + w.1))) (Ok (JObj [("n", JNum "2")])) []] w.2)).
Definition two_orders : Datastore :=
  run [RPut (MkKey "c1" "o") (Ok (JObj [("n", JNum "1")])) []; RPut (MkKey "c1" "o1") (Ok (JObj [("n", JNum "1")])) []]
    (NewDatastore "orders").
Example a_body_that_puts_reads_on :
  Items (fetch_query Ok "json.RawMessage" None) put_another 20
    (MkQuery "c1" None None "" [] false 1 "") (0, two_orders) = None.
Proof. by vm_compute. Qed.

Lemma Items_terminates_witness :
  is_Some (Items (fetch_query Ok "json.RawMessage" None) keep 4 two_at_a_time ([], three_store)).
Proof.
  change 4 with (S (length (query_items three_store two_at_a_time))).
  apply Items_terminates; [apply keep_leaves|by split].
Defined.

Lemma Items_complete_witness :
  Items (fetch_query Ok "json.RawMessage" None) keep 4 two_at_a_time ([], three_store) =
  Some (Returned () None,
        ([JObj [("n", JNum "3")]; JObj [("n", JNum "2")]; JObj [("n", JNum "1")]], three_store)).
Proof.
  refine (Items_complete Ok "json.RawMessage" None keep keep_leaves three_store two_at_a_time [] 4
    (query_items three_store two_at_a_time)
    [JObj [("n", JNum "3")]; JObj [("n", JNum "2")]; JObj [("n", JNum "1")]]
    eq_refl _ _ _ _ _).
  - by split.
  - by vm_compute.
  - by vm_compute.
  - by vm_compute.
  - vm_compute. lia.
Defined.
End examples.
