(* ===== verification/DynamoKeys.v ===== *)
(** * DynamoDB keys, key schemas and cursors

    Models [resources/aws/datastore/schema.go], [marshal.go] and [cursor.go]: what a table
    calls its keys, how a handler's key becomes attributes and is read back, how a put's
    item and its key are reconciled, and the cursor a page's position travels as. *)

From S2P Require Import Prelude GoStrings Json JsonText Errors Encoding Values Store.
From stdpp Require Import options.

(** ** Attributes *)

(** [types.AttributeValue]: the three kinds a key can be, null, and any other kind, known
    by its Go type. *)
Inductive AttributeValue : Type :=
  | AttrS (s : string)
  | AttrN (n : string)
  | AttrB (b : bytes)
  | AttrNULL
  | AttrOther (go_type : string).

#[export] Instance AttributeValue_eq_dec : EqDecision AttributeValue.
Proof. solve_decision. Defined.

Abbreviation attributes := (gmap string AttributeValue) (only parsing).

Inductive ScalarType : Type := KindS | KindN | KindB | KindUnknown.

(** [value] and [keyText]. *)
Definition key_value (raw : string) (kind : ScalarType) : AttributeValue :=
  match kind with KindN => AttrN raw | KindB => AttrB raw | _ => AttrS raw end.

Definition keyText (attr : option AttributeValue) : string :=
  match attr with Some (AttrS s) | Some (AttrN s) | Some (AttrB s) => s | _ => "" end.

(** ** Key schemas *)

Record attribute : Type := MkAttribute { attr_name : string; attr_kind : ScalarType }.
Definition no_attribute : attribute := MkAttribute "" KindUnknown.

Record keySchema : Type := MkKeySchema { key_partition : attribute; key_sort : attribute }.

Record tableSchema : Type := MkTableSchema {
  table_keys : keySchema;
  indexes : gmap string keySchema;
}.

(** [types.TableDescription], as far as it is read. *)
Record TableDescription : Type := MkTable {
  AttributeDefinitions : list (string * ScalarType);
  KeySchema : list (string * bool);                      (* a name, and whether it hashes *)
  GlobalSecondaryIndexes : list (string * list (string * bool));
  LocalSecondaryIndexes : list (string * list (string * bool));
}.

Definition keySchemaOf (elements : list (string * bool)) (kinds : gmap string ScalarType) :
    keySchema :=
  foldl (λ schema '(name, hash),
    let attr := MkAttribute name (default KindUnknown (kinds !! name)) in
    if (hash : bool) then MkKeySchema attr schema.(key_sort)
    else MkKeySchema schema.(key_partition) attr)
    (MkKeySchema no_attribute no_attribute) elements.

Definition insert_all {A} (m : gmap string A) (l : list (string * A)) : gmap string A :=
  foldl (λ m '(k, a), <[k := a]> m) m l.

Definition schemaOf (table : option TableDescription) : tableSchema :=
  match table with
  | None => MkTableSchema (MkKeySchema no_attribute no_attribute) ∅
  | Some t =>
      let kinds := insert_all ∅ t.(AttributeDefinitions) in
      let index := prod_map id (λ es, keySchemaOf es kinds) in
      MkTableSchema (keySchemaOf t.(KeySchema) kinds)
        (insert_all (insert_all ∅ (index <$> t.(GlobalSecondaryIndexes)))
                    (index <$> t.(LocalSecondaryIndexes)))
  end.

(** [of]. *)
Definition schema_of_index (s : tableSchema) (index : string) : result error keySchema :=
  if bool_decide (index = "") then Ok s.(table_keys)
  else match s.(indexes) !! index with
       | Some schema => Ok schema
       | None => Err (EString ("the table has no index named " +:+ go_quote index))
       end.

Definition no_partition : error := EString "the table declares no partition key".

(** [key]. *)
Definition schema_key (s : tableSchema) (k : Key) (index : string) : result error attributes :=
  let! schema := schema_of_index s index in
  let p := schema.(key_partition) in let so := schema.(key_sort) in
  if bool_decide (p.(attr_name) = "") then Err no_partition
  else
    let attrs := {[ p.(attr_name) := key_value k.(Partition) p.(attr_kind) ]} : attributes in
    if bool_decide (so.(attr_name) = "") then
      if bool_decide (k.(Sort) = "") then Ok attrs
      else Err (EString ("a sort value " +:+ go_quote k.(Sort) +:+ " was given, and the key is "
                         +:+ go_quote p.(attr_name) +:+ " alone"))
    else if bool_decide (k.(Sort) = "") then
      Err (EString ("the key is " +:+ go_quote p.(attr_name) +:+ " and " +:+
                    go_quote so.(attr_name) +:+ ", and no sort value was given"))
    else Ok (<[so.(attr_name) := key_value k.(Sort) so.(attr_kind)]> attrs).

(** [keyOf]. *)
Definition keyOf (ref : string) (s : tableSchema) (attrs : option attributes) : result error Key :=
  match attrs with
  | None => Err (EString ("celerity: " +:+ ref +:+ " answered with a request carrying no key"))
  | Some attrs =>
      Ok (MkKey (keyText (attrs !! s.(table_keys).(key_partition).(attr_name)))
                (keyText (attrs !! s.(table_keys).(key_sort).(attr_name))))
  end.

(** [projection]: what was asked for, then each field a read cannot leave out. *)
Definition projection (s : tableSchema) (schema : keySchema) (wanted : list string) : list string :=
  foldl (λ wanted required,
    if bool_decide (required ≠ "" ∧ required ∉ wanted) then wanted ++ [required] else wanted)
    wanted
    [schema.(key_partition).(attr_name); schema.(key_sort).(attr_name);
     s.(table_keys).(key_partition).(attr_name); s.(table_keys).(key_sort).(attr_name);
     RevisionField].

(** ** The item of a put and its key *)

Definition emptyAttribute (v : AttributeValue) : bool :=
  match v with
  | AttrS s => bool_decide (s = "")
  | AttrN n => bool_decide (n = "") || bool_decide (n = "0")
  | AttrB b => bool_decide (b = "")
  | AttrNULL => true
  | AttrOther _ => false
  end.

Definition sameAttribute (carried key : AttributeValue) : bool :=
  match carried, key with
  | AttrS l, AttrS r | AttrN l, AttrN r | AttrB l, AttrB r => bool_decide (l = r)
  | _, _ => false
  end.

Definition describeAttribute (v : AttributeValue) : string :=
  match v with
  | AttrS s => go_quote s
  | AttrN n => n
  | AttrB b => itoa (Z.of_nat (String.length b)) +:+ " bytes"
  | AttrNULL => "*types.AttributeValueMemberNULL"
  | AttrOther go_type => go_type
  end.

(** [applyKey], over the key's attributes in the order they are ranged over. *)
Fixpoint applyKey (keyAttrs : list (string * AttributeValue)) (attrs : attributes) :
    result error attributes :=
  match keyAttrs with
  | [] => Ok attrs
  | (name, v) :: keyAttrs =>
      let disagrees := match attrs !! name with
        | Some carried => negb (emptyAttribute carried) && negb (sameAttribute carried v)
        | None => false
        end in
      if disagrees then
        Err (EString ("the item's " +:+ go_quote name +:+ " is " +:+
          describeAttribute (default AttrNULL (attrs !! name)) +:+ " and the key says " +:+
          describeAttribute v +:+ ": a put replaces what is under a key rather than moving an " +:+
          "item, so pass the key the item is under"))
      else applyKey keyAttrs (<[name := v]> attrs)
  end.

(** ** Cursors *)

(** *** [base64.RawURLEncoding] *)

Definition url_char (c : ascii) : ascii :=
  if Ascii.eqb c "+" then "-"%char else if Ascii.eqb c "/" then "_"%char else c.

(** The alphabet of a URL read back into the standard one; the two characters that are in
    the standard alphabet alone, and padding, are in neither. *)
Definition std_char (c : ascii) : ascii :=
  if Ascii.eqb c "-" then "+"%char else if Ascii.eqb c "_" then "/"%char
  else if Ascii.eqb c "+" || Ascii.eqb c "/" || Ascii.eqb c pad then ascii_of_nat 0
  else c.

Fixpoint strip_pads (s : string) : string :=
  match s with
  | "" => ""
  | String c s => if Ascii.eqb c pad then "" else String c (strip_pads s)
  end.

Definition url64_encode (s : bytes) : string := str_map url_char (strip_pads (b64_encode s)).

Definition pads (n : nat) : string :=
  match n mod 4 with
  | 2 => String pad (String pad "")
  | 3 => String pad ""
  | _ => ""
  end.

Definition url64_decode (s : string) : option bytes :=
  let s := str_map std_char (drop_breaks s) in
  b64_quanta (s +:+ pads (String.length s)).

(** *** Positions *)

Record keyValue : Type := MkKeyValue { kv_type : string; kv_value : string }.

Definition position_value (v : AttributeValue) : option keyValue :=
  match v with
  | AttrS s => Some (MkKeyValue "S" s)
  | AttrN n => Some (MkKeyValue "N" n)
  | AttrB b => Some (MkKeyValue "B" (b64_encode b))
  | _ => None
  end.

Definition keyValue_json (kv : keyValue) : json :=
  JObj [("t", JStr kv.(kv_type)); ("v", JStr kv.(kv_value))].

(** [encodeCursor]: members of a map are written in key order. *)
Definition encodeCursor (key : attributes) : result error Cursor :=
  if bool_decide (key = ∅) then Ok ""
  else
    let! members := try_map (λ '(name, v),
        match position_value v with
        | Some kv => Ok (name, keyValue_json kv)
        | None => Err (EString
            ("celerity: resuming is not possible: DynamoDB gave a position holding " +:+
             go_quote name +:+ ", which is not a kind of key attribute"))
        end) (Values.entries key) in
    Ok (url64_encode (json_text (JObj members))).

Definition invalidCursor (err : error) : error :=
  EWraps (error_text ErrInvalidCursor +:+ ": " +:+ error_text err) [ErrInvalidCursor; err].

(** [json.Unmarshal] of a member of [keyValue]: names match whatever their case, [null]
    leaves a field alone. *)
Fixpoint read_fields (ms : list (string * json)) (kv : keyValue) : option keyValue :=
  match ms with
  | [] => Some kv
  | (name, j) :: ms =>
      if bool_decide (to_lower name = "t") then
        match j with
        | JStr s => read_fields ms (MkKeyValue s kv.(kv_value))
        | JNull => read_fields ms kv
        | _ => None
        end
      else if bool_decide (to_lower name = "v") then
        match j with
        | JStr s => read_fields ms (MkKeyValue kv.(kv_type) s)
        | JNull => read_fields ms kv
        | _ => None
        end
      else read_fields ms kv
  end.

Definition read_keyValue (j : json) : option keyValue :=
  match j with
  | JObj ms => read_fields ms (MkKeyValue "" "")
  | JNull => Some (MkKeyValue "" "")
  | _ => None
  end.

Definition read_position (j : json) : option (gmap string keyValue) :=
  match j with
  | JObj ms => insert_all ∅ <$> mapM (λ '(name, j), pair name <$> read_keyValue j) ms
  | JNull => Some ∅
  | _ => None
  end.

Section cursors.
(** The errors of encoding/base64 and encoding/json, for a text they refuse. *)
Context (b64_error json_error : string → error).

Definition read_attribute (kv : keyValue) : result error AttributeValue :=
  if bool_decide (kv.(kv_type) = "S") then Ok (AttrS kv.(kv_value))
  else if bool_decide (kv.(kv_type) = "N") then Ok (AttrN kv.(kv_value))
  else if bool_decide (kv.(kv_type) = "B") then
    match b64_decode kv.(kv_value) with
    | Some raw => Ok (AttrB raw)
    | None => Err (invalidCursor (b64_error kv.(kv_value)))
    end
  else Err (invalidCursor (EString (go_quote kv.(kv_type) +:+ " is not a kind of key attribute"))).

(** [decodeCursor]; an empty cursor is no position at all. *)
Definition decodeCursor (cursor : string) : result error (option attributes) :=
  if bool_decide (cursor = "") then Ok None
  else match url64_decode cursor with
  | None => Err (invalidCursor (b64_error cursor))
  | Some text =>
      match parse text ≫= read_position with
      | None => Err (invalidCursor (json_error text))
      | Some position =>
          let! key := try_map (λ '(name, kv), let! a := read_attribute kv in Ok (name, a))
                        (Values.entries position) in
          Ok (Some (list_to_map key))
      end
  end.
End cursors.

(** ** Keys read back *)

(** What a table declares of its keys: a partition key, and a sort key of another name. *)
Definition declared (s : keySchema) : Prop :=
  s.(key_partition).(attr_name) ≠ "" ∧ s.(key_partition).(attr_name) ≠ s.(key_sort).(attr_name).

Lemma keyText_value raw kind : keyText (Some (key_value raw kind)) = raw.
Proof. by destruct kind. Qed.

(** A key a handler gives becomes attributes only where it has a sort value exactly if
    the table has a sort key, and the attributes read back as the key, whatever types the
    table declared. *)
Lemma schema_key_roundtrip ref s k :
  declared s.(table_keys) →
  match schema_key s k "" with
  | Ok attrs =>
      keyOf ref s (Some attrs) = Ok k ∧
      (k.(Sort) = "" ↔ s.(table_keys).(key_sort).(attr_name) = "") ∧
      dom attrs = {[ s.(table_keys).(key_partition).(attr_name) ]} ∪
        (if bool_decide (k.(Sort) = "") then ∅ else {[ s.(table_keys).(key_sort).(attr_name) ]})
  | Err _ => ¬ (k.(Sort) = "" ↔ s.(table_keys).(key_sort).(attr_name) = "")
  end.
Proof.
  intros [Hp Hne]. unfold schema_key, schema_of_index, keyOf. cbn [bool_decide].
  change (bool_decide ("" = "")) with true. cbn iota.
  set (p := s.(table_keys).(key_partition)) in *. set (so := s.(table_keys).(key_sort)) in *.
  rewrite bool_decide_eq_false_2 by done.
  destruct k as [kp ks]. simpl.
  repeat case_bool_decide; simpl; try naive_solver; simplify_eq.
  - rewrite lookup_singleton_eq, lookup_singleton_ne by congruence.
    rewrite keyText_value. split_and!; [done|naive_solver|set_solver].
  - rewrite lookup_insert_eq, lookup_insert_ne, lookup_singleton_eq, !keyText_value by congruence.
    split_and!; [done|naive_solver|set_solver].
Qed.

(** A put's item is stored with its key written over it exactly where each key
    attribute it carries is absent, empty or the key's own, whatever order they are
    taken in. *)
Lemma applyKey_spec keyAttrs attrs :
  NoDup keyAttrs.*1 →
  match applyKey keyAttrs attrs with
  | Ok item => item = list_to_map keyAttrs ∪ attrs ∧
      ∀ name v carried, (name, v) ∈ keyAttrs → attrs !! name = Some carried →
        emptyAttribute carried = true ∨ sameAttribute carried v = true
  | Err _ => ∃ name v carried, (name, v) ∈ keyAttrs ∧ attrs !! name = Some carried ∧
      emptyAttribute carried = false ∧ sameAttribute carried v = false
  end.
Proof.
  revert attrs. induction keyAttrs as [|[name v] ks IH]; intros attrs Hn; simpl.
  { simpl. split; [symmetry; apply (left_id_L ∅ (∪))|]. by intros ??? ?%not_elem_of_nil. }
  apply NoDup_cons in Hn as [Hnin Hn].
  assert (∀ name' v', (name', v') ∈ ks → name' ≠ name) as Hother.
  { intros name' v' Hin ->. apply Hnin, list_elem_of_fmap. by exists (name, v'). }
  specialize (IH (<[name := v]> attrs) Hn).
  destruct (match attrs !! name with Some _ => _ | None => _ end) eqn:Ed.
  { destruct (attrs !! name) as [carried|] eqn:Ec; [|done].
    apply andb_prop in Ed as [He%negb_true_iff Hs%negb_true_iff].
    exists name, v, carried. split_and!; [by left|done..]. }
  destruct (applyKey ks (<[name := v]> attrs)) as [it|err].
  - destruct IH as [-> Hks]. split.
    + rewrite <- insert_union_r, insert_union_l; [done|].
      apply not_elem_of_list_to_map_1. done.
    + intros name' v' carried [[= -> ->]|Hin]%elem_of_cons Hc.
      * rewrite Hc in Ed. destruct (emptyAttribute carried); [by left|].
        destruct (sameAttribute carried v); [by right|done].
      * apply (Hks name' v'); [done|]. rewrite lookup_insert_ne; [done|].
        by apply not_eq_sym, (Hother name' v').
  - destruct IH as (name' & v' & carried & Hin & Hc & He & Hs).
    exists name', v', carried. split_and!; [by right| |done..].
    rewrite lookup_insert_ne in Hc; [done|]. by apply not_eq_sym, (Hother name' v').
Qed.

(** ** Cursors read back *)

Lemma url_char_props n :
  n < 64 →
  std_char (url_char (b64_char n)) = b64_char n ∧ line_break (url_char (b64_char n)) = false.
Proof.
  intros Hn.
  assert (forallb (λ n, Ascii.eqb (std_char (url_char (b64_char n))) (b64_char n) &&
    negb (line_break (url_char (b64_char n)))) (seq 0 64) = true) as Hall
    by (vm_compute; reflexivity).
  rewrite forallb_forall in Hall. specialize (Hall n).
  rewrite andb_true_iff, negb_true_iff in Hall.
  destruct Hall as [?%Ascii.eqb_eq ?]; [apply in_seq; lia|]. done.
Qed.

(** A text of the alphabet alone, which the URL's alphabet rewrites and gives back. *)
Definition sextet_text (x : string) : Prop :=
  str_map std_char (drop_breaks (str_map url_char x)) = x ∧ drop_breaks x = x.

Lemma sextet_text_cons n x : n < 64 → sextet_text x → sextet_text (String (b64_char n) x).
Proof.
  intros Hn [H1 H2]. destruct (url_char_props n Hn) as [Hu Hl].
  split; [|by rewrite drop_breaks_char, H2].
  cbn [str_map drop_breaks]. rewrite Hl. cbn [str_map]. by rewrite Hu, H1.
Qed.

Lemma pads_add n : pads (4 + n) = pads n.
Proof. unfold pads. by rewrite <- (Nat.Div0.add_mod_idemp_l 4 n 4). Qed.

Lemma b64_encode_parts s :
  sextet_text (strip_pads (b64_encode s)) ∧
  strip_pads (b64_encode s) +:+ pads (String.length (strip_pads (b64_encode s))) = b64_encode s.
Proof.
  induction s as [|a|a b|a b c s IH] using string_ind3; [done|..]; cbn [b64_encode];
    pose proof (byte_bound a) as Ha.
  - destruct (sextets0 _ _ Ha Ha) as (H1 & _). destruct (sextets _ _ _ Ha Ha Ha) as (H0 & _).
    cbn [strip_pads]. rewrite !pad_eqb by done. change (Ascii.eqb pad pad) with true. cbn iota.
    split; [by repeat apply sextet_text_cons|done].
  - pose proof (byte_bound b) as Hb.
    destruct (sextets0 _ _ Ha Hb) as (_ & H2 & _). destruct (sextets _ _ _ Ha Hb Hb) as (H0 & H1 & _).
    cbn [strip_pads]. rewrite !pad_eqb by done. change (Ascii.eqb pad pad) with true. cbn iota.
    split; [by repeat apply sextet_text_cons|done].
  - pose proof (byte_bound b) as Hb. pose proof (byte_bound c) as Hc.
    destruct (sextets _ _ _ Ha Hb Hc) as (H0 & H1 & H2 & H3 & _).
    cbn [strip_pads]. rewrite !pad_eqb by done. destruct IH as [IH1 IH2].
    split; [by repeat apply sextet_text_cons|].
    cbn [String.length]. change (S (S (S (S ?n)))) with (4 + n). rewrite pads_add.
    rewrite !append_cons. by rewrite IH2.
Qed.

Lemma drop_breaks_app_pads x n : drop_breaks x = x → drop_breaks (x +:+ pads n) = x +:+ pads n.
Proof.
  intros Hx. assert (∀ y, drop_breaks (x +:+ y) = drop_breaks x +:+ drop_breaks y) as ->.
  { intros y. clear Hx. induction x as [|c x IH]; [done|]. rewrite append_cons. simpl.
    destruct (line_break c); [done|]. by rewrite IH. }
  rewrite Hx. f_equal. unfold pads. by repeat case_match.
Qed.

Lemma url64_roundtrip s : url64_decode (url64_encode s) = Some s.
Proof.
  destruct (b64_encode_parts s) as [[H1 H1'] H2]. unfold url64_decode, url64_encode.
  rewrite H1, H2. pose proof (b64_roundtrip s) as Hr. unfold b64_decode in Hr.
  rewrite <- H2, drop_breaks_app_pads, H2 in Hr; done.
Qed.

Lemma insert_all_members {A} (l : list (string * A)) : insert_all ∅ l = members_of l.
Proof.
  unfold insert_all, members_of.
  assert (∀ m : gmap string A, foldl (λ m '(k, a), <[k := a]> m) m l = list_to_map (reverse l) ∪ m) as ->.
  { induction l as [|[k a] l IH]; intros m; [symmetry; apply (left_id_L ∅ (∪))|].
    simpl. rewrite IH, reverse_cons, list_to_map_app. rewrite <- (assoc_L (∪)). f_equal.
    simpl. rewrite insert_empty. by rewrite insert_union_singleton_l. }
  apply (right_id_L ∅ (∪)).
Qed.

Lemma list_to_map_entries {A} (m : gmap string A) : list_to_map (entries m) = m.
Proof.
  apply map_eq. intros k. apply option_eq. intros a.
  rewrite <- elem_of_list_to_map by apply NoDup_entries_fst. apply elem_of_entries.
Qed.

Definition kv_of (v : AttributeValue) : keyValue := default (MkKeyValue "" "") (position_value v).

Lemma read_keyValue_json kv : read_keyValue (keyValue_json kv) = Some kv.
Proof. by destruct kv. Qed.

Lemma read_attribute_value b64_error v kv :
  position_value v = Some kv → read_attribute b64_error kv = Ok v.
Proof.
  destruct v; simpl; intros [= <-]; try done. unfold read_attribute. simpl. by rewrite b64_roundtrip.
Qed.

Lemma cursor_numerals (l : list (string * keyValue)) :
  numerals (JObj (prod_map id keyValue_json <$> l)).
Proof. induction l as [|[k kv] l IH]; [done|]. split; [done|]. apply IH. Qed.

Lemma try_map_fmap {A B E} (f : A → result E B) (g : A → B) l ys :
  (∀ x y, x ∈ l → f x = Ok y → y = g x) → try_map f l = Ok ys →
  ys = g <$> l ∧ ∀ x, x ∈ l → ∃ y, f x = Ok y.
Proof.
  revert ys. induction l as [|x l IH]; cbn [try_map]; intros ys Hg.
  { intros [= <-]. split; [done|]. by intros x ?%not_elem_of_nil. }
  destruct (f x) as [y|] eqn:Ex; [|done]. destruct (try_map f l) as [ys'|]; [|done].
  intros [= <-]. destruct (IH ys') as [-> Hall]; [|done|].
  { intros x' y' Hin. apply Hg. by right. }
  split; [rewrite fmap_cons; f_equal; apply Hg; [by left|done]|].
  intros x' [->|Hin]%elem_of_cons; eauto.
Qed.

Lemma try_map_total {A B E} (f : A → result E B) (g : A → B) l :
  (∀ x, x ∈ l → f x = Ok (g x)) → try_map f l = Ok (g <$> l).
Proof.
  induction l as [|x l IH]; intros Hf; [done|]. cbn [try_map]. rewrite Hf by left.
  rewrite IH; [done|]. intros. apply Hf. by right.
Qed.

(** The cursor a page's position is given out as reads back as that position, names,
    types and bytes alike; there is no cursor exactly where there is no position, and
    only a position DynamoDB does not give, of another kind of attribute, is refused. *)
Lemma cursor_roundtrip b64_error json_error key :
  match encodeCursor key with
  | Ok cursor =>
      decodeCursor b64_error json_error cursor =
        Ok (if bool_decide (key = ∅) then None else Some key) ∧
      (cursor = "" ↔ key = ∅)
  | Err _ => ∃ name v, key !! name = Some v ∧ position_value v = None
  end.
Proof.
  unfold encodeCursor. case_bool_decide as Hk; [by subst|].
  destruct (try_map _ (entries key)) as [members|err] eqn:Em.
  2:{ clear Hk. assert (∀ name v, (name, v) ∈ entries key → key !! name = Some v) as Hin
        by (intros; by apply elem_of_entries).
      revert Em Hin. induction (entries key) as [|[name v] l IH]; cbn [try_map]; [done|].
      intros Em Hin. destruct (position_value v) as [kv|] eqn:Ev.
      - destruct (try_map _ l); [done|]. apply IH; [done|]. intros. apply Hin. by right.
      - exists name, v. split; [|done]. apply Hin. by left. }
  apply (try_map_fmap _ (λ nv, (nv.1, keyValue_json (kv_of nv.2)))) in Em as [-> Hall].
  2:{ intros [name v] y _. unfold kv_of. simpl. destruct (position_value v); [|done].
      by intros [= <-]. }
  assert (((λ nv, (nv.1, keyValue_json (kv_of nv.2))) <$> entries key) =
          prod_map id keyValue_json <$> entries (kv_of <$> key)) as ->.
  { rewrite entries_fmap, <- list_fmap_compose. apply list_fmap_ext. by intros _ [] _. }
  set (text := json_text _).
  assert (url64_encode text ≠ "") as Hne.
  { intros He. pose proof (url64_roundtrip text) as Hr. rewrite He in Hr.
    change (url64_decode "") with (Some "" : option bytes) in Hr.
    injection Hr as Hr. unfold text in Hr. rewrite json_text_obj in Hr. done. }
  split; [|by split].
  unfold decodeCursor. rewrite !bool_decide_eq_false_2 by done.
  rewrite url64_roundtrip. subst text. rewrite parse_json_text by apply cursor_numerals.
  cbn [mbind option_bind read_position].
  assert (∀ l : list (string * keyValue),
    mapM (λ '(name, j), pair name <$> read_keyValue j) (prod_map id keyValue_json <$> l) = Some l) as ->.
  { induction l as [|[k [t v]] l IH]; [done|]. by rewrite fmap_cons, mapM_cons, IH. }
  cbn [fmap option_fmap option_map]. rewrite insert_all_members, members_of_entries, entries_fmap.
  rewrite (try_map_total _ (λ nkv, (nkv.1, default AttrNULL (key !! nkv.1)))).
  - assert (((λ nkv : string * keyValue, (nkv.1, default AttrNULL (key !! nkv.1))) <$>
             (prod_map id kv_of <$> entries key)) = entries key) as ->.
    { rewrite <- list_fmap_compose. rewrite <- (list_fmap_id (entries key)) at 2.
      apply list_fmap_ext. intros i [name v] Hin%list_elem_of_lookup_2%elem_of_entries.
      simpl. by rewrite Hin. }
    by rewrite list_to_map_entries.
  - intros [name kv] Hin. apply list_elem_of_fmap in Hin as ([name' v] & [= -> ->] & Hin).
    destruct (Hall _ Hin) as [y Hy]. simpl in Hy. apply elem_of_entries in Hin.
    unfold kv_of. destruct (position_value v) as [kv'|] eqn:Ev; [|done]. simpl.
    rewrite (read_attribute_value _ v kv' Ev), Hin. done.
Qed.

(** Whatever a client sends as a cursor, the answer is a position or an error that is
    [ErrInvalidCursor], which a handler answers as a bad request. *)
Lemma decodeCursor_refuses b64_error json_error cursor err :
  decodeCursor b64_error json_error cursor = Err err →
  errors_is (error_text ErrInvalidCursor) err = true.
Proof.
  assert (∀ e, errors_is (error_text ErrInvalidCursor) (invalidCursor e) = true) as Hinv by done.
  unfold decodeCursor. case_bool_decide; [done|].
  destruct (url64_decode cursor) as [text|]; [|by intros [= <-]].
  destruct (parse text ≫= read_position) as [position|]; [|by intros [= <-]].
  assert (∀ (l : list (string * keyValue)) e, try_map (λ '(name, kv), let! a := read_attribute b64_error kv in Ok (name, a)) l
            = Err e → errors_is (error_text ErrInvalidCursor) e = true) as Hall.
  { induction l as [|[name kv] l IH]; cbn [try_map]; intros e; [done|].
    destruct (read_attribute b64_error kv) as [a|e'] eqn:Ea.
    - destruct (try_map _ l); [done|]. intros [= <-]. by apply IH.
    - intros [= <-]. unfold read_attribute in Ea.
      repeat case_bool_decide; simplify_eq; try apply Hinv.
      destruct (b64_decode (kv_value kv)); simplify_eq. apply Hinv. }
  destruct (try_map _ (entries position)) eqn:E; [done|]. intros [= <-]. by apply Hall in E.
Qed.

(** The fields of a projected read: what was asked for, in its order, then what is missing
    of the keys and the revision, once. *)
Lemma projection_spec s schema wanted :
  ∃ added, projection s schema wanted = wanted ++ added ∧ NoDup added ∧
    (∀ x, x ∈ added → x ∉ wanted ∧ x ≠ "") ∧
    RevisionField ∈ projection s schema wanted.
Proof.
  assert (∀ required added,
    NoDup added → (∀ x, x ∈ added → x ∉ wanted ∧ x ≠ "") →
    ∃ more, foldl (λ w r, if bool_decide (r ≠ "" ∧ r ∉ w) then w ++ [r] else w)
              (wanted ++ added) required = wanted ++ more ∧
      NoDup more ∧ (∀ x, x ∈ more → x ∉ wanted ∧ x ≠ "") ∧
      (∀ r, r ∈ added → r ∈ more) ∧
      ∀ r, r ∈ required → r ≠ "" → r ∈ wanted ++ more) as Hgo.
  { induction required as [|r rs IH]; intros added Hn Ha; cbn [foldl].
    { exists added. split_and!; try done. by intros r ?%not_elem_of_nil. }
    case_bool_decide as Hr.
    - destruct Hr as [Hr0 Hrn]. rewrite <- (assoc_L (++)).
      destruct (IH (added ++ [r])) as (more & -> & H1 & H2 & H3 & H4).
      { apply NoDup_app. split_and!; [done|set_solver|apply NoDup_singleton]. }
      { set_solver. }
      exists more. split_and!; [done..|set_solver|].
      intros r' [->|Hr']%elem_of_cons Hne; [|by apply H4]. set_solver.
    - destruct (IH added Hn Ha) as (more & -> & H1 & H2 & H3 & H4).
      exists more. split_and!; [done..|].
      intros r' [->|Hr']%elem_of_cons Hne; [|by apply H4].
      destruct (decide (r ∈ wanted ++ added)); [set_solver|]. by destruct Hr. }
  destruct (Hgo [schema.(key_partition).(attr_name); schema.(key_sort).(attr_name);
     s.(table_keys).(key_partition).(attr_name); s.(table_keys).(key_sort).(attr_name);
     RevisionField] []) as (more & He & Hn & Hm & _ & Hreq); [constructor|set_solver|].
  rewrite app_nil_r in He. exists more. unfold projection. rewrite He.
  split_and!; [done..|]. apply Hreq; [|done]. do 4 right. by left.
Qed.

(** ** Witnesses *)

Definition orders_schema : tableSchema :=
  MkTableSchema (MkKeySchema (MkAttribute "customer" KindS) (MkAttribute "placed" KindN)) ∅.

Lemma schema_key_roundtrip_witness :
  ∃ attrs, schema_key orders_schema (MkKey "c1" "42") "" = Ok attrs ∧
    keyOf "datastore" orders_schema (Some attrs) = Ok (MkKey "c1" "42").
Proof.
  assert (declared orders_schema.(table_keys)) as Hd by done.
  pose proof (schema_key_roundtrip "datastore" orders_schema (MkKey "c1" "42") Hd) as H.
  eexists. split; [reflexivity|]. exact (proj1 H).
Defined.

Definition zero_placed : gmap string AttributeValue :=
  {[ "customer" := AttrS "c1"; "placed" := AttrN "0"; "total" := AttrN "3" ]}.

Lemma applyKey_spec_witness :
  ∃ item, applyKey [("customer", AttrS "c1"); ("placed", AttrN "42")] zero_placed = Ok item ∧
    item = list_to_map [("customer", AttrS "c1"); ("placed", AttrN "42")] ∪ zero_placed.
Proof.
  assert (NoDup [("customer", AttrS "c1"); ("placed", AttrN "42")].*1) as Hn.
  { vm_compute. repeat constructor; set_solver. }
  pose proof (applyKey_spec [("customer", AttrS "c1"); ("placed", AttrN "42")] zero_placed Hn) as H.
  eexists. split; [reflexivity|]. exact (proj1 H).
Defined.

Lemma decodeCursor_refuses_witness :
  errors_is (error_text ErrInvalidCursor)
    (invalidCursor (EString "unexpected end of JSON input")) = true.
Proof.
  apply (decodeCursor_refuses (λ _, EString "illegal base64 data")
    (λ _, EString "unexpected end of JSON input") "ew").
  by vm_compute.
Defined.
