(* ===== verification/DynamoStore.v ===== *)
(** * The data store on DynamoDB

    Models [resources/aws/datastore]: [expressions.go], [update.go], [datastore.go],
    [atomic.go] and [batch.go].  DynamoDB and its client are parameters: a request is the
    value the code builds for it, and an expression the calls it makes of the SDK's
    expression builder.  The store threads the world the requests are made of and the key
    schema it reads once. *)

From S2P Require Import Prelude GoStrings Json JsonText Errors Encoding Values Store Matching DynamoKeys.
From stdpp Require Import options.

(** ** Expressions *)

(** What [expression.Value] is given: a Go value, or an attribute. *)
Inductive operand : Type :=
  | GoValue (v : value)
  | Attribute (a : AttributeValue).

Inductive comparison : Type :=
  | Equal | NotEqual | LessThan | LessThanEqual | GreaterThan | GreaterThanEqual.

(** [expression.ConditionBuilder] and [KeyConditionBuilder], by the calls that build one. *)
Inductive cond : Type :=
  | Compare (c : comparison) (name : string) (v : operand)
  | BetweenOf (name : string) (low high : operand)
  | BeginsWith (name prefix : string)
  | ContainsOf (name substring : string)
  | AttributeExists (name : string)
  | AttributeNotExists (name : string)
  | AndOf (first second : cond) (others : list cond)
  | OrOf (first second : cond) (others : list cond).

(** [expression.UpdateBuilder]: its calls, in order. *)
Inductive action : Type :=
  | SetTo (name : string) (v : operand)
  | RemoveName (name : string)
  | SetPlus (name : string) (otherwise by_ : operand).   (* if_not_exists(name, otherwise) + by *)

(** What [expression.Builder] was given. *)
Record Expression : Type := MkExpression {
  exKeyCondition : option cond;
  exCondition : option cond;
  exFilter : option cond;
  exProjection : list string;
  exUpdate : list action;
}.

Definition emptyExpression : Expression := MkExpression None None None [] [].

(** [keyCondition] and [sortCondition]. *)
Definition sortCondition (attr : attribute) (c : SortCondition) : result error cond :=
  let low := Attribute (key_value c.(SortValue) attr.(attr_kind)) in
  let name := attr.(attr_name) in
  let op := c.(SortOp) in
  if bool_decide (op = OpEqual) then Ok (Compare Equal name low)
  else if bool_decide (op = OpLess) then Ok (Compare LessThan name low)
  else if bool_decide (op = OpLessOrEqual) then Ok (Compare LessThanEqual name low)
  else if bool_decide (op = OpGreater) then Ok (Compare GreaterThan name low)
  else if bool_decide (op = OpGreaterOrEqual) then Ok (Compare GreaterThanEqual name low)
  else if bool_decide (op = OpBetween) then
    Ok (BetweenOf name low (Attribute (key_value c.(SortHigh) attr.(attr_kind))))
  else if bool_decide (op = OpStartsWith) then Ok (BeginsWith name c.(SortValue))
  else Err (EWrap ("a sort key cannot be narrowed by " +:+ go_quote op +:+
    ": it is ordered, and only equal, the four comparisons, between and starts-with use that " +:+
    "order: " +:+ error_text ErrInvalidCondition) ErrInvalidCondition).

Definition keyCondition (schema : keySchema) (q : Query) : result error cond :=
  let p := schema.(key_partition) in
  let partition :=
    Compare Equal p.(attr_name) (Attribute (key_value q.(qPartition) p.(attr_kind))) in
  match q.(qSort) with
  | None => Ok partition
  | Some c =>
      if bool_decide (schema.(key_sort).(attr_name) = "") then
        Err (EString ("the query narrows by sort value, and the key is " +:+
                      go_quote p.(attr_name) +:+ " alone"))
      else let! sort := sortCondition schema.(key_sort) c in Ok (AndOf partition sort [])
  end.

Section expressions.
Context `{FloatText}.

(** [text], for the operators that take a string only. *)
Definition text_of (v : value) : string := match v with VString s => s | _ => sprint v end.

Definition unknown_condition (op : string) : error :=
  EWrap (go_quote op +:+ " is not a condition this store can check, use the helper functions " +:+
         "to build supported conditions: " +:+ error_text ErrInvalidCondition)
        ErrInvalidCondition.

Definition empty_group (op : string) : error :=
  EString ("a " +:+ go_quote op +:+ " combines conditions and was given none, which would read " +:+
           "as a write with no condition at all").

(** The end of [group]. *)
Definition combine (op : string) (built : list cond) : result error cond :=
  match built with
  | [] => Err (empty_group op)
  | [one] => Ok one
  | first :: second :: others =>
      Ok (if bool_decide (op = OpOr) then OrOf first second others else AndOf first second others)
  end.

(** [writeCondition], with [group]. *)
Fixpoint writeCondition (c : Condition) : result error cond :=
  let '(MkCondition op name v high ofs) := c in
  let group := fix group cs := match cs with
    | [] => Ok []
    | c :: cs => let! one := writeCondition c in let! rest := group cs in Ok (one :: rest)
    end in
  if bool_decide (op = OpAnd) || bool_decide (op = OpOr) then
    let! built := group ofs in combine op built
  else if bool_decide (op = OpExists) then Ok (AttributeExists name)
  else if bool_decide (op = OpNotExists) then Ok (AttributeNotExists name)
  else if bool_decide (op = OpEqual) then Ok (Compare Equal name (GoValue v))
  else if bool_decide (op = OpNotEqual) then Ok (Compare NotEqual name (GoValue v))
  else if bool_decide (op = OpLess) then Ok (Compare LessThan name (GoValue v))
  else if bool_decide (op = OpLessOrEqual) then Ok (Compare LessThanEqual name (GoValue v))
  else if bool_decide (op = OpGreater) then Ok (Compare GreaterThan name (GoValue v))
  else if bool_decide (op = OpGreaterOrEqual) then Ok (Compare GreaterThanEqual name (GoValue v))
  else if bool_decide (op = OpBetween) then Ok (BetweenOf name (GoValue v) (GoValue high))
  else if bool_decide (op = OpStartsWith) then Ok (BeginsWith name (text_of v))
  else if bool_decide (op = OpContains) then Ok (ContainsOf name (text_of v))
  else Err (unknown_condition op).

(** [revisionCondition]. *)
Definition revisionCondition (r : Revision) : result error cond :=
  if negb (Known r) then Err ErrInvalidRevision
  else let '(v, carried) := RevisionValue r in
       if carried then Ok (Compare Equal RevisionField (GoValue (VString v)))
       else Ok (AttributeNotExists RevisionField).

(** The conditions of a write: the caller's own, then its revision's. *)
Definition write_conditions (o : WriteOptions) : result error (list cond) :=
  let! own := match o.(optCondition) with
    | Some c => let! built := writeCondition c in Ok [built]
    | None => Ok []
    end in
  let! rev := match o.(optRevision) with
    | Some r => let! built := revisionCondition r in Ok [built]
    | None => Ok []
    end in
  Ok (own ++ rev).

(** [combined.And(condition)], over the rest. *)
Definition and_all (first : cond) (rest : list cond) : cond :=
  foldl (λ combined c, AndOf combined c []) first rest.

(** [Expression.Build]: the error the SDK's builder answers, where it does. *)
Context (Build : Expression → option error).

Definition built (e : Expression) : result error Expression :=
  match Build e with Some err => Err err | None => Ok e end.

(** [writeExpression]; none where the write is unconditional. *)
Definition writeExpression (o : WriteOptions) : result error (option Expression) :=
  let! conditions := write_conditions o in
  match conditions with
  | [] => Ok None
  | first :: rest =>
      let! e := built (MkExpression None (Some (and_all first rest)) None [] []) in Ok (Some e)
  end.

(** [path]: the name an update addresses. *)
Definition update_path (dotted : string) : result error string :=
  if bool_decide (dotted = "") then
    Err (EWrap ("an update names no field: " +:+ error_text ErrInvalidUpdate) ErrInvalidUpdate)
  else if bool_decide ("" ∈ split_on "." dotted) then
    Err (EWrap ("the path " +:+ go_quote dotted +:+ " has an empty segment: " +:+
                error_text ErrInvalidUpdate) ErrInvalidUpdate)
  else Ok dotted.

Definition mutation (u : Update) : result error action :=
  let! name := update_path u.(Path) in
  if bool_decide (u.(Kind) = UpdateSet) then Ok (SetTo name (GoValue u.(SetValue)))
  else if bool_decide (u.(Kind) = UpdateRemove) then Ok (RemoveName name)
  else if bool_decide (u.(Kind) = UpdateIncrement) then
    Ok (SetPlus name (GoValue (VInt 0)) (GoValue (VFloat u.(By))))
  else Err (EWrap (go_quote u.(Kind) +:+ " is not a change any of these stores makes: " +:+
                   error_text ErrInvalidUpdate) ErrInvalidUpdate).

(** [mutations]. *)
Definition mutations (updates : list Update) : result error (list action) :=
  try_map mutation updates.

(** [updateExpression]. *)
Definition updateExpression (schema : tableSchema) (updates : list Update) (rev : string)
    (o : WriteOptions) : result error Expression :=
  let! actions := mutations updates in
  let! conditions := write_conditions o in
  let exists_ := AttributeExists schema.(table_keys).(key_partition).(attr_name) in
  built (MkExpression None (Some (and_all exists_ conditions)) None []
           (actions ++ [SetTo RevisionField (GoValue (VString rev))])).

(** [queryInput] and [scanInput]. *)
Record readInput : Type := MkReadInput {
  inTable : string;
  inIndex : option string;
  inExpression : option Expression;
  inForward : bool;
  inStart : option (gmap string AttributeValue);
  inLimit : option Z;
}.

(** The conversion to [int32]. *)
Definition to_int32 (n : Z) : Z := ((n + 2 ^ 31) mod 2 ^ 32 - 2 ^ 31)%Z.
Definition page_limit (limit : Z) : option Z :=
  if (0 <? limit)%Z then Some (to_int32 limit) else None.

Definition read_filter (c : option Condition) : result error (option cond) :=
  match c with
  | None => Ok None
  | Some c => let! f := writeCondition c in Ok (Some f)
  end.

Context (b64_error json_error : string → error).

Definition queryInput (s : tableSchema) (table : string) (q : Query) : result error readInput :=
  let! schema := schema_of_index s q.(qIndex) in
  if bool_decide (schema.(key_partition).(attr_name) = "") then Err no_partition
  else
    let! key := keyCondition schema q in
    let! filter := read_filter q.(qFilter) in
    let! e := built (MkExpression (Some key) None filter
                (match q.(qProject) with [] => [] | fields => projection s schema fields end) []) in
    let! start := decodeCursor b64_error json_error q.(qCursor) in
    Ok (MkReadInput table (if bool_decide (q.(qIndex) = "") then None else Some q.(qIndex)) (Some e)
          (negb q.(qDescending)) start (page_limit q.(qLimit))).

Definition scanInput (s : tableSchema) (table : string) (sc : Scan) : result error readInput :=
  let! filter := read_filter sc.(sFilter) in
  let fields := match sc.(sProject) with
    | [] => []
    | fields => projection s s.(table_keys) fields
    end in
  let! e := match filter, fields with
    | None, [] => Ok None
    | _, _ => let! e := built (MkExpression None None filter fields []) in Ok (Some e)
    end in
  let! start := decodeCursor b64_error json_error sc.(sCursor) in
  Ok (MkReadInput table None e true start (page_limit sc.(sLimit))).
End expressions.

(** ** Requests *)

Inductive WriteRequest : Type :=
  | PutRequest (it : gmap string AttributeValue)
  | DeleteRequest (key : gmap string AttributeValue)
  | EmptyRequest.

Inductive TransactWriteItem : Type :=
  | TransactPut (table : string) (it : gmap string AttributeValue) (e : option Expression)
  | TransactUpdate (table : string) (key : gmap string AttributeValue) (e : Expression)
  | TransactDelete (table : string) (key : gmap string AttributeValue) (e : option Expression).

(** [API], what the package calls on DynamoDB, and what else it asks of the outside:
    the table and client behind a handle, and random bytes. *)
Record API (W : Type) : Type := MkAPI {
  locate : W → result error string * W;
  random : W → bytes * W;
  DescribeTable : string → W → result error (option TableDescription) * W;
  GetItem : string → gmap string AttributeValue → W → result error (gmap string AttributeValue) * W;
  PutItem : string → gmap string AttributeValue → option Expression → W → option error * W;
  DeleteItem : string → gmap string AttributeValue → option Expression → W → option error * W;
  UpdateItem : string → gmap string AttributeValue → Expression → W → option error * W;
  QueryItems : readInput → W →
    result error (list (gmap string AttributeValue) * gmap string AttributeValue) * W;
  ScanItems : readInput → W →
    result error (list (gmap string AttributeValue) * gmap string AttributeValue) * W;
  BatchGetItem : string → list (gmap string AttributeValue) → W →
    result error (list (gmap string AttributeValue) * list (gmap string AttributeValue)) * W;
  BatchWriteItem : string → list WriteRequest → W → result error (list WriteRequest) * W;
  TransactWriteItems : list TransactWriteItem → W → option error * W;
}.
Arguments locate {W}. Arguments random {W}. Arguments DescribeTable {W}. Arguments GetItem {W}.
Arguments PutItem {W}. Arguments DeleteItem {W}. Arguments UpdateItem {W}.
Arguments QueryItems {W}. Arguments ScanItems {W}. Arguments BatchGetItem {W}.
Arguments BatchWriteItem {W}. Arguments TransactWriteItems {W}.

(** The store: the world its requests are made of, and the schema, once it was read. *)
Record dynamoStore (W : Type) : Type := MkDynamo {
  world : W;
  schema_cell : option (result error tableSchema);
}.
Arguments MkDynamo {W}. Arguments world {W}. Arguments schema_cell {W}.

(** ** Fallible calls over the store *)

Definition call (W A : Type) : Type := dynamoStore W → result error A * dynamoStore W.

Definition ret {W A} (a : A) : call W A := λ d, (Ok a, d).
Definition fail {W A} (err : error) : call W A := λ d, (Err err, d).
Definition lift {W A} (r : result error A) : call W A := λ d, (r, d).
Definition bind {W A B} (m : call W A) (f : A → call W B) : call W B := λ d,
  match m d with
  | (Ok a, d) => f a d
  | (Err err, d) => (Err err, d)
  end.

Notation "'do!' x ':=' m 'in' k" := (bind m (λ x, k))
  (at level 10, x pattern, m at level 100, k at level 200) : go_scope.

Definition ask {W A} (f : W → A * W) : call W A := λ d,
  let '(a, w) := f d.(world) in (Ok a, MkDynamo w d.(schema_cell)).
Definition request {W A} (f : W → result error A * W) : call W A := λ d,
  let '(r, w) := f d.(world) in (r, MkDynamo w d.(schema_cell)).
Definition command {W} (f : W → option error * W) : call W () := λ d,
  let '(e, w) := f d.(world) in
  (match e with Some err => Err err | None => Ok () end, MkDynamo w d.(schema_cell)).

(** [fmt.Errorf("...: %w", ..., err)] around a call. *)
Definition wrapped (msg : string) (err : error) : error := EWrap (msg +:+ ": " +:+ error_text err) err.
Definition wrap_err {W A} (f : error → error) (m : call W A) : call W A := λ d,
  match m d with (Ok a, d) => (Ok a, d) | (Err err, d) => (Err (f err), d) end.

Section store.
Context `{FloatText} (Build : Expression → option error).
Context (b64_error json_error : string → error).
Context {W : Type} (api : API W) (ref : string).
(** The caller's item type: how it is marshalled, and a destination filled. *)
Context {I T : Type} (go_type : I → string) (out_type : string).
Context (marshalItem : I → result error (gmap string AttributeValue)).
Context (unmarshalItem : gmap string AttributeValue → result error T).
Context (unmarshalItems : list (gmap string AttributeValue) → result error (list T)).
Context (setRevision : option (Revision → T → T)).
(** The AWS errors the code looks for: a failed condition and the item it met, a cancelled
    transaction and its reasons' codes, an API error's code and message. *)
Context (conditionalCheck : error → option (gmap string AttributeValue)).
Context (canceled : error → option (list (option string))).
Context (apiError : error → option (string * string)).

(** [tableSchema]: asked for once, and what it answered, an error too, kept. *)
Definition read_schema (table : string) : call W tableSchema := λ d,
  match d.(schema_cell) with
  | Some r => (r, d)
  | None =>
      let '(r, w) := api.(DescribeTable) table d.(world) in
      let r := match r with
        | Ok t => Ok (schemaOf t)
        | Err err => Err (wrapped ("celerity: reading the key schema of " +:+ ref) err)
        end in
      (r, MkDynamo w (Some r))
  end.

(** [resolve]. *)
Definition resolve : call W (string * tableSchema) :=
  do! table := request api.(locate) in
  do! schema := read_schema table in ret (table, schema).

(** [nextRevision]. *)
Definition nextRevision : call W string :=
  do! bytes := ask api.(random) in ret (concat_bytes hex2 bytes).

Definition describeKey (k : Key) : string :=
  if bool_decide (k.(Sort) = "") then go_quote k.(Partition)
  else go_quote k.(Partition) +:+ "/" +:+ go_quote k.(Sort).

(** [revisionOf] and [takeRevisions]. *)
Definition revisionOf (it : gmap string AttributeValue) : Revision :=
  match it !! RevisionField with
  | Some (AttrS v) => NewRevision v
  | _ => Unrevisioned
  end.

Definition takeRevisions (its : list (gmap string AttributeValue)) :
    list Revision * list (gmap string AttributeValue) :=
  (revisionOf <$> its, delete RevisionField <$> its).

(** [refused], [refusedUpdate], [cancelled] and [refusedCursor]. *)
Definition condition_failed (err : error) : error :=
  EWraps (error_text ErrConditionFailed +:+ ": " +:+ error_text err) [ErrConditionFailed; err].

Definition refused (err : error) : error :=
  match errors_as conditionalCheck err with
  | Some _ => condition_failed err
  | None => err
  end.

Definition refusedUpdate (k : Key) (err : error) : error :=
  match errors_as conditionalCheck err with
  | None => err
  | Some it =>
      if bool_decide (it = ∅) then
        wrapped (ref +:+ " holds no item for " +:+ describeKey k) ErrNotFound
      else condition_failed err
  end.

Definition cancelled (err : error) : error :=
  match errors_as canceled err with
  | None => err
  | Some reasons =>
      if bool_decide (Some "ConditionalCheckFailed" ∈ reasons) then condition_failed err else err
  end.

Definition refusedCursor (cursor : string) (err : error) : error :=
  if bool_decide (cursor = "") then err
  else match errors_as apiError err with
  | Some (code, message) =>
      if bool_decide (code = "ValidationException") &&
         (contains message "starting key" || contains message "ExclusiveStartKey")
      then invalidCursor err else err
  | None => err
  end.

(** ** One item *)

Definition Get (k : Key) : call W (T * Revision) :=
  do! (table, schema) := resolve in
  let reading := wrap_err (wrapped ("celerity: reading from " +:+ ref)) in
  do! attrs := reading (lift (schema_key schema k "")) in
  do! it := reading (request (api.(GetItem) table attrs)) in
  if bool_decide (it = ∅) then
    fail (wrapped ("celerity: " +:+ ref +:+ " holds no item for " +:+ describeKey k) ErrNotFound)
  else
    do! v := wrap_err (wrapped ("celerity: reading an item of " +:+ ref +:+ " into " +:+ out_type))
               (lift (unmarshalItem (delete RevisionField it))) in
    ret (v, revisionOf it).

(** An item put under a key: its attributes, the key's written over them. *)
Definition keyed (attrs keyAttrs : gmap string AttributeValue) :
    result error (gmap string AttributeValue) := applyKey (entries keyAttrs) attrs.

Definition Put (k : Key) (it : I) (opts : list WriteOption) : call W Revision :=
  do! (table, schema) := resolve in
  do! attrs := wrap_err (wrapped ("celerity: writing a " +:+ go_type it +:+ " to " +:+ ref))
                 (lift (marshalItem it)) in
  let writing {A} (m : call W A) := wrap_err (wrapped ("celerity: writing to " +:+ ref)) m in
  do! keyAttrs := writing (lift (schema_key schema k "")) in
  do! attrs := writing (lift (keyed attrs keyAttrs)) in
  do! written := nextRevision in
  do! e := writing (lift (writeExpression Build (ResolveWriteOptions opts))) in
  do! _ := writing (wrap_err refused
             (command (api.(PutItem) table (<[RevisionField := AttrS written]> attrs) e))) in
  ret (NewRevision written).

Definition Delete (k : Key) (opts : list WriteOption) : call W () :=
  do! (table, schema) := resolve in
  let deleting {A} (m : call W A) := wrap_err (wrapped ("celerity: deleting from " +:+ ref)) m in
  do! keyAttrs := deleting (lift (schema_key schema k "")) in
  do! e := deleting (lift (writeExpression Build (ResolveWriteOptions opts))) in
  deleting (wrap_err refused (command (api.(DeleteItem) table keyAttrs e))).

Definition Update_ (k : Key) (updates : list Update) (opts : list WriteOption) :
    call W Revision :=
  if bool_decide (updates = []) then
    fail (wrapped ("celerity: updating " +:+ ref +:+ ": an update changes nothing") ErrInvalidUpdate)
  else if (MaxUpdates <? length updates)%nat then
    fail (wrapped ("celerity: updating " +:+ ref +:+ " with " +:+
            itoa (Z.of_nat (length updates)) +:+ " changes, and " +:+ itoa (Z.of_nat MaxUpdates) +:+
            " is the most any of these stores takes") ErrTooManyOperations)
  else
    do! (table, schema) := resolve in
    let updating {A} (m : call W A) := wrap_err (wrapped ("celerity: updating " +:+ ref)) m in
    do! keyAttrs := updating (lift (schema_key schema k "")) in
    do! written := nextRevision in
    do! e := updating (lift (updateExpression Build schema updates written
               (ResolveWriteOptions opts))) in
    do! _ := updating (wrap_err (refusedUpdate k) (command (api.(UpdateItem) table keyAttrs e))) in
    ret (NewRevision written).

(** ** Listings *)

(** What [Query] and [Scan] do with a page. *)
Definition read_page (doing : error → error) (cursor : string)
    (page : call W (list (gmap string AttributeValue) * gmap string AttributeValue)) :
    call W (list T * Cursor) :=
  do! (its, last) := wrap_err (λ err, doing (refusedCursor cursor err)) page in
  let '(revisions, its) := takeRevisions its in
  do! out := wrap_err (wrapped ("celerity: reading the items of " +:+ ref +:+ " into " +:+ out_type))
               (lift (unmarshalItems its)) in
  do! next := wrap_err doing (lift (encodeCursor last)) in
  ret (DeliverRevisions setRevision revisions out, next).

Definition QueryPage (q : Query) : call W (list T * Cursor) :=
  do! (table, schema) := resolve in
  let querying := wrapped ("celerity: querying " +:+ ref) in
  do! in_ := wrap_err querying (lift (queryInput Build b64_error json_error schema table q)) in
  read_page querying q.(qCursor) (request (api.(QueryItems) in_)).

Definition ScanPage (sc : Scan) : call W (list T * Cursor) :=
  do! (table, schema) := resolve in
  let scanning := wrapped ("celerity: scanning " +:+ ref) in
  do! in_ := wrap_err scanning (lift (scanInput Build b64_error json_error schema table sc)) in
  read_page scanning sc.(sCursor) (request (api.(ScanItems) in_)).

(** ** Batches *)

Definition getsPerRequest : nat := 100.
Definition writesPerRequest : nat := 25.

(** A call over each chunk, stopping at an error; the answers appended. *)
Fixpoint each {A B} (f : A → call W (list B)) (l : list A) : call W (list B) :=
  match l with
  | [] => ret []
  | a :: l => do! bs := f a in do! rest := each f l in ret (bs ++ rest)
  end.

Fixpoint map_call {A B} (f : A → call W B) (l : list A) : call W (list B) :=
  match l with
  | [] => ret []
  | a :: l => do! b := f a in do! rest := map_call f l in ret (b :: rest)
  end.

(** [getChunk], [keysOf] and [BatchGet].  Items and unread keys come back from each chunk,
    here as one list of either. *)
Definition getChunk (table : string) (schema : tableSchema) (ks : list Key) :
    call W (list (gmap string AttributeValue + Key)) :=
  let reading {A} (m : call W A) := wrap_err (wrapped ("celerity: reading from " +:+ ref)) m in
  do! attrs := reading (lift (try_map (λ k, schema_key schema k "") ks)) in
  do! (its, missed) := reading (request (api.(BatchGetItem) table attrs)) in
  do! missed := lift (try_map (λ a, keyOf ref schema (Some a)) missed) in
  ret ((inl <$> its) ++ (inr <$> missed)).

Definition BatchGet (ks : list Key) : call W (list T * list Key) :=
  if bool_decide (ks = []) then ret ([], [])
  else
    do! (table, schema) := resolve in
    do! read := each (getChunk table schema) (chunks getsPerRequest ks) in
    let its := omap (λ x, match x with inl it => Some it | inr _ => None end) read in
    let missed := omap (λ x, match x with inl _ => None | inr k => Some k end) read in
    let '(revisions, its) := takeRevisions its in
    do! out := wrap_err (wrapped ("celerity: reading the items of " +:+ ref +:+ " into " +:+ out_type))
                 (lift (unmarshalItems its)) in
    ret (DeliverRevisions setRevision revisions out, missed).

(** One operation of a batch: an item of the caller's type, or a delete. *)
Record batchOp : Type := MkOp { bKey : Key; bItem : option I }.

(** [writeRequest]. *)
Definition writeRequest (schema : tableSchema) (op : batchOp) : call W WriteRequest :=
  let writing {A} (m : call W A) := wrap_err (wrapped ("celerity: writing to " +:+ ref)) m in
  do! keyAttrs := writing (lift (schema_key schema op.(bKey) "")) in
  match op.(bItem) with
  | None => ret (DeleteRequest keyAttrs)
  | Some it =>
      do! attrs := wrap_err (wrapped ("celerity: writing a " +:+ go_type it +:+ " to " +:+ ref))
                     (lift (marshalItem it)) in
      do! attrs := writing (lift (keyed attrs keyAttrs)) in
      do! written := nextRevision in
      ret (PutRequest (<[RevisionField := AttrS written]> attrs))
  end.

Definition requestKey (r : WriteRequest) : option (gmap string AttributeValue) :=
  match r with PutRequest it => Some it | DeleteRequest k => Some k | EmptyRequest => None end.

(** [opsFor]: an operation for each request that came back, the last of the caller's under
    its key. *)
Definition opsFor (schema : tableSchema) (ops : list batchOp) (unprocessed : list WriteRequest) :
    result error (list batchOp) :=
  let byKey : gmap Key batchOp :=
    list_to_map (reverse ((λ op, (op.(bKey), op)) <$> ops)) in
  let! missed := try_map (λ r, let! k := keyOf ref schema (requestKey r) in Ok (byKey !! k))
                   unprocessed in
  Ok (omap id missed).

(** [writeChunk] and [BatchWrite]. *)
Definition writeChunk (table : string) (schema : tableSchema) (ops : list batchOp) :
    call W (list batchOp) :=
  do! requests := map_call (writeRequest schema) ops in
  do! unprocessed := wrap_err (wrapped ("celerity: writing to " +:+ ref))
                       (request (api.(BatchWriteItem) table requests)) in
  lift (opsFor schema ops unprocessed).

Definition BatchWrite (ops : list batchOp) : call W (list batchOp) :=
  if bool_decide (ops = []) then ret []
  else
    do! (table, schema) := resolve in
    each (writeChunk table schema) (chunks writesPerRequest ops).

(** ** Atomic writes *)

Inductive atomicOp : Type :=
  | APut (k : Key) (it : I) (o : WriteOptions)
  | AUpdate (k : Key) (updates : list Update) (o : WriteOptions)
  | ADelete (k : Key) (o : WriteOptions).

Definition atomicKey (op : atomicOp) : Key :=
  match op with APut k _ _ | AUpdate k _ _ | ADelete k _ => k end.

(** [putItem], [updateItem] and [deleteItem]. *)
Definition putItem (table : string) (keyAttrs : gmap string AttributeValue) (it : I)
    (o : WriteOptions) : call W TransactWriteItem :=
  do! attrs := wrap_err (wrapped ("writing a " +:+ go_type it)) (lift (marshalItem it)) in
  do! attrs := lift (keyed attrs keyAttrs) in
  do! written := nextRevision in
  do! e := lift (writeExpression Build o) in
  ret (TransactPut table (<[RevisionField := AttrS written]> attrs) e).

Definition updateItem (table : string) (keyAttrs : gmap string AttributeValue)
    (schema : tableSchema) (updates : list Update) (o : WriteOptions) : call W TransactWriteItem :=
  if bool_decide (updates = []) then fail (wrapped "an update changes nothing" ErrInvalidUpdate)
  else if (MaxUpdates <? length updates)%nat then
    fail (wrapped ("an update carries " +:+ itoa (Z.of_nat (length updates)) +:+ " changes, and " +:+
            itoa (Z.of_nat MaxUpdates) +:+ " is the most any of the backing stores takes")
            ErrTooManyOperations)
  else
    do! written := nextRevision in
    do! e := lift (updateExpression Build schema updates written o) in
    ret (TransactUpdate table keyAttrs e).

Definition deleteItem (table : string) (keyAttrs : gmap string AttributeValue) (o : WriteOptions) :
    call W TransactWriteItem :=
  do! e := lift (writeExpression Build o) in ret (TransactDelete table keyAttrs e).

Definition transactItem (table : string) (schema : tableSchema) (op : atomicOp) :
    call W TransactWriteItem :=
  do! keyAttrs := lift (schema_key schema (atomicKey op) "") in
  match op with
  | ADelete _ o => deleteItem table keyAttrs o
  | AUpdate _ updates o => updateItem table keyAttrs schema updates o
  | APut _ it o => putItem table keyAttrs it o
  end.

Definition Atomically (partition : string) (ops : list atomicOp) : call W () :=
  if bool_decide (ops = []) then ret ()
  else if (MaxAtomicOps <? length ops)%nat then
    fail (wrapped ("celerity: writing " +:+ itoa (Z.of_nat (length ops)) +:+ " operations to " +:+
            ref +:+ " atomically, and " +:+ itoa (Z.of_nat MaxAtomicOps) +:+
            " is the most any of these stores takes") ErrTooManyOperations)
  else match list_find (λ op, (atomicKey op).(Partition) ≠ partition) ops with
  | Some (_, op) =>
      fail (wrapped ("celerity: writing to " +:+ ref +:+ " atomically in partition " +:+
              go_quote partition +:+ ", and an operation addresses " +:+
              go_quote (atomicKey op).(Partition)) ErrWrongPartition)
  | None =>
      do! (table, schema) := resolve in
      let writing {A} (m : call W A) :=
        wrap_err (wrapped ("celerity: writing to " +:+ ref +:+ " atomically")) m in
      do! its := writing (map_call (transactItem table schema) ops) in
      writing (wrap_err cancelled (command (api.(TransactWriteItems) its)))
  end.
End store.

(** ** A schema that could not be read is never read again *)

Section facts.
Context `{FloatText} (Build : Expression → option error).
Context (b64_error json_error : string → error).
Context {W : Type} (api : API W) (ref : string).
Context {I T : Type} (go_type : I → string) (out_type : string).
Context (marshalItem : I → result error (gmap string AttributeValue)).
Context (unmarshalItem : gmap string AttributeValue → result error T).
Context (unmarshalItems : list (gmap string AttributeValue) → result error (list T)).
Context (setRevision : option (Revision → T → T)).
Context (conditionalCheck : error → option (gmap string AttributeValue)).
Context (canceled : error → option (list (option string))).
Context (apiError : error → option (string * string)).

Lemma resolve_kept w w' table err :
  api.(locate) w = (Ok table, w') →
  resolve api ref (MkDynamo w (Some (Err err))) = (Err err, MkDynamo w' (Some (Err err))).
Proof. intros Hl. unfold resolve, bind, request. cbn. by rewrite Hl. Qed.

Lemma bind_Err {A B} (m : call W A) (f : A → call W B) d err d' :
  m d = (Err err, d') → bind m f d = (Err err, d').
Proof. intros Hm. unfold bind. by rewrite Hm. Qed.

(** A table's key schema that could not be read once is never asked for again: from
    then on every operation fails with the error of that one request, and asks DynamoDB
    for nothing, however the service has recovered. *)
Lemma schema_error_is_kept table d err d' :
  read_schema api ref table d = (Err err, d') →
  ∀ w w' table', api.(locate) w = (Ok table', w') →
  let d1 := MkDynamo w d'.(schema_cell) in
  let failed := MkDynamo w' d'.(schema_cell) in
  (∀ k, Get api ref out_type unmarshalItem k d1 = (Err err, failed)) ∧
  (∀ k it opts, Put Build api ref go_type marshalItem conditionalCheck k it opts d1 = (Err err, failed)) ∧
  (∀ k opts, Delete Build api ref conditionalCheck k opts d1 = (Err err, failed)) ∧
  (∀ q, QueryPage Build b64_error json_error api ref out_type unmarshalItems setRevision apiError
          q d1 = (Err err, failed)) ∧
  (∀ s, ScanPage Build b64_error json_error api ref out_type unmarshalItems setRevision apiError
          s d1 = (Err err, failed)).
Proof.
  intros Hr w w' table' Hl. cbv zeta.
  assert (d'.(schema_cell) = Some (Err err)) as ->.
  { unfold read_schema in Hr. destruct (schema_cell d) eqn:E; [by simplify_eq|].
    destruct (api.(DescribeTable) table d.(world)) as [[] w0]; by simplify_eq. }
  pose proof (resolve_kept w w' table' err Hl) as Hres.
  split_and!; intros; by apply bind_Err.
Qed.

End facts.

(** ** What a batch hands back *)

(** What a call that answers has been through. *)
Lemma bind_Ok {W A B} (m : call W A) (f : A → call W B) d b d' :
  bind m f d = (Ok b, d') → ∃ a d1, m d = (Ok a, d1) ∧ f a d1 = (Ok b, d').
Proof. unfold bind. destruct (m d) as [[a|e] d1]; [eauto|done]. Qed.

Lemma wrap_err_Ok {W A} f (m : call W A) d a d' :
  wrap_err f m d = (Ok a, d') → m d = (Ok a, d').
Proof. unfold wrap_err. by destruct (m d) as [[] d1]. Qed.

Lemma lift_Ok {W A} (r : result error A) d a d' :
  lift (W := W) r d = (Ok a, d') → r = Ok a ∧ d' = d.
Proof. by intros [= -> ->]. Qed.

Ltac run :=
  repeat match goal with
  | H : bind _ _ _ = (Ok _, _) |- _ =>
      let a := fresh "x" in let d := fresh "d" in let H1 := fresh "H" in
      apply bind_Ok in H as (a & d & H1 & H)
  | H : wrap_err _ _ _ = (Ok _, _) |- _ => apply wrap_err_Ok in H
  | H : lift _ _ = (Ok _, _) |- _ => apply lift_Ok in H as [H ->]
  | H : ret _ _ = (Ok _, _) |- _ => injection H as <- <-
  | H : fail _ _ = (Ok _, _) |- _ => discriminate H
  end.

Section batches.
Context {W : Type} (api : API W) (ref : string).
Context {I : Type} (go_type : I → string)
  (marshalItem : I → result error (gmap string AttributeValue)).

(** A request carries the key of its operation. *)
Definition request_of (schema : tableSchema) (op : @batchOp I) (r : WriteRequest) : Prop :=
  keyOf ref schema (requestKey r) = Ok op.(bKey).

Lemma keyed_lookup attrs keyAttrs it name v :
  keyed attrs keyAttrs = Ok it → keyAttrs !! name = Some v → it !! name = Some v.
Proof.
  unfold keyed. intros Hk Hn. pose proof (applyKey_spec (entries keyAttrs) attrs
    (NoDup_entries_fst keyAttrs)) as Hs. rewrite Hk in Hs. destruct Hs as [-> _].
  rewrite list_to_map_entries. by apply lookup_union_Some_l.
Qed.

Lemma schema_key_lookup schema k attrs :
  declared schema.(table_keys) → schema_key schema k "" = Ok attrs →
  let p := schema.(table_keys).(key_partition) in let so := schema.(table_keys).(key_sort) in
  attrs !! p.(attr_name) = Some (key_value k.(Partition) p.(attr_kind)) ∧
  (if bool_decide (so.(attr_name) = "") then k.(Sort) = ""
   else attrs !! so.(attr_name) = Some (key_value k.(Sort) so.(attr_kind))).
Proof.
  intros [Hp Hne]. unfold schema_key, schema_of_index.
  change (bool_decide ("" = "")) with true. cbn iota.
  rewrite (bool_decide_eq_false_2 (_ = "")) by done.
  repeat case_bool_decide; intros [= <-].
  - by rewrite lookup_singleton_eq.
  - rewrite lookup_insert_eq, lookup_insert_ne, lookup_singleton_eq by congruence. done.
Qed.

(** What is asked of a table's schema, and of marshalling: the reserved field is no key,
    and no attribute has an empty name. *)
Definition sound_schema (schema : tableSchema) : Prop :=
  declared schema.(table_keys) ∧
  schema.(table_keys).(key_partition).(attr_name) ≠ RevisionField ∧
  schema.(table_keys).(key_sort).(attr_name) ≠ RevisionField.
Definition named_attributes : Prop := ∀ it attrs, marshalItem it = Ok attrs → attrs !! "" = None.

(** The request an operation is asked for with: the delete of its key, or the put of its item's
    attributes with the key's and a revision. *)
Definition asks (schema : tableSchema) (op : @batchOp I) (r : WriteRequest) : Prop :=
  ∃ keyAttrs, schema_key schema op.(bKey) "" = Ok keyAttrs ∧
    match op.(bItem) with
    | None => r = DeleteRequest keyAttrs
    | Some it => ∃ attrs attrs' rev, marshalItem it = Ok attrs ∧ keyed attrs keyAttrs = Ok attrs' ∧
                   r = PutRequest (<[RevisionField := AttrS rev]> attrs')
    end.

Lemma writeRequest_asks schema op d r d' :
  writeRequest api ref go_type marshalItem schema op d = (Ok r, d') → asks schema op r.
Proof.
  intros Hw. unfold writeRequest in Hw. run. unfold asks. eexists. split; [done|].
  destruct op as [k [it|]]; cbn [bItem bKey] in *; run; [|done]. by eexists _, _, _.
Qed.

Lemma asks_key schema op r :
  sound_schema schema → named_attributes → asks schema op r → request_of schema op r.
Proof.
  clear go_type. intros (Hd & Hp & Hso) Hnames (x & H & Hr).
  destruct op as [k [it|]]; cbn [bItem bKey] in *; [destruct Hr as (x0 & x1 & x2 & H0 & H1 & ->)|subst r].
  - pose proof (schema_key_lookup _ _ _ Hd H) as [Hlp Hls].
    pose proof (keyed_lookup _ _ _ _ _ H1 Hlp) as Hlp'.
    unfold request_of, keyOf. cbn [requestKey bKey].
    rewrite !lookup_insert_ne by congruence. rewrite Hlp', keyText_value.
    destruct k as [kp ks]. do 2 f_equal. case_bool_decide as Hs; simpl in *.
    + rewrite Hs, Hls.
      pose proof (applyKey_spec (entries x) x0 (NoDup_entries_fst x)) as Ha.
      unfold keyed in H1. rewrite H1 in Ha. destruct Ha as [-> _].
      rewrite list_to_map_entries, lookup_union_r; [by rewrite (Hnames it x0)|].
      pose proof (schema_key_roundtrip ref schema (MkKey kp ks) Hd) as Hr.
      rewrite H in Hr. destruct Hr as (_ & _ & Hdom). apply not_elem_of_dom. rewrite Hdom.
      simpl. rewrite Hls. simpl. destruct Hd as [Hd0 _]. set_solver.
    + by rewrite (keyed_lookup _ _ _ _ _ H1 Hls), keyText_value.
  - pose proof (schema_key_roundtrip ref schema k Hd) as Hr. rewrite H in Hr.
    by destruct Hr as [Hr _].
Qed.

Lemma map_call_Forall2 {A B} (R : A → B → Prop) (f : A → call W B) l d bs d' :
  (∀ a d b d', a ∈ l → f a d = (Ok b, d') → R a b) →
  map_call f l d = (Ok bs, d') → Forall2 R l bs.
Proof.
  revert d bs. induction l as [|a l IH]; intros d bs HR Hm; cbn [map_call] in Hm; run; [constructor|].
  constructor; [by eapply HR; [left|]|]. eapply IH; [|done]. intros. eapply HR; [by right|done].
Qed.

Lemma Forall2_Permutation_r {A B} (R : A → B → Prop) l k k' :
  Forall2 R l k → k ≡ₚ k' → ∃ l', l ≡ₚ l' ∧ Forall2 R l' k'.
Proof.
  intros Hf Hp. revert l Hf. induction Hp as [|x k k' _ IH|x y k|k1 k2 k3 _ IH1 _ IH2]; intros l Hf.
  - apply Forall2_nil_inv_r in Hf as ->. by exists [].
  - apply Forall2_cons_inv_r in Hf as (a & l' & HR & Hf & ->).
    destruct (IH _ Hf) as (l2 & Hl2 & Hf2). exists (a :: l2). split; [by rewrite Hl2|by constructor].
  - apply Forall2_cons_inv_r in Hf as (a & l' & HR & Hf & ->).
    apply Forall2_cons_inv_r in Hf as (b & l2 & HR2 & Hf & ->).
    exists (b :: a :: l2). split; [constructor|by repeat constructor].
  - destruct (IH1 _ Hf) as (l2 & Hl2 & Hf2). destruct (IH2 _ Hf2) as (l3 & Hl3 & Hf3).
    exists l3. split; [by rewrite Hl2|done].
Qed.

Lemma opsFor_exact schema (ops : list (@batchOp I)) requests unprocessed :
  sound_schema schema → named_attributes →
  NoDup (bKey <$> ops) → Forall2 (asks schema) ops requests → unprocessed ⊆+ requests →
  ∃ missed applied processed, opsFor ref schema ops unprocessed = Ok missed ∧
    ops ≡ₚ missed ++ applied ∧ requests ≡ₚ unprocessed ++ processed ∧
    Forall2 (asks schema) missed unprocessed ∧ Forall2 (asks schema) applied processed.
Proof.
  intros Hs Hnames Hn Hf (k & Hk)%submseteq_Permutation.
  destruct (Forall2_Permutation_r _ _ _ _ Hf Hk) as (ops' & Hp & Hf').
  apply Forall2_app_inv_r in Hf' as (missed & others & Hf1 & Hf2 & ->).
  exists missed, others, k. split_and!; [|done|done|done|done].
  unfold opsFor. set (byKey := list_to_map _ : gmap Key (@batchOp I)).
  assert (∀ op, op ∈ ops → byKey !! op.(bKey) = Some op) as Hby.
  { intros op Hin. subst byKey. apply elem_of_list_to_map_1.
    - rewrite fmap_reverse, reverse_Permutation, <- list_fmap_compose. done.
    - apply elem_of_reverse, list_elem_of_fmap. by exists op. }
  assert (∀ op, op ∈ missed → op ∈ ops) as Hin.
  { intros op Hop. rewrite Hp. apply elem_of_app. by left. }
  assert (try_map (λ r, let! k := keyOf ref schema (requestKey r) in Ok (byKey !! k)) unprocessed
          = Ok (Some <$> missed)) as ->.
  { clearbody byKey. clear Hf Hk Hp. revert Hin. induction Hf1 as [|op r ms us Hr Hf1 IH]; intros Hin; [done|].
    apply asks_key in Hr; [|done|done]. cbn [try_map]. unfold request_of in Hr. rewrite Hr, Hby by (apply Hin; left).
    rewrite IH; [done|]. intros. apply Hin. by right. }
  f_equal. clear. induction missed as [|op ms IH]; [done|]. cbn in *. by rewrite IH.
Qed.

(** What DynamoDB is asked of a batch: at most 25 requests, of which it answers those it
    did not get to. *)
Definition serves_batches : Prop :=
  ∀ table requests w unprocessed w',
    requests ≠ [] → length requests ≤ writesPerRequest →
    api.(BatchWriteItem) table requests w = (Ok unprocessed, w') → unprocessed ⊆+ requests.

(** *** What was asked and answered

    The same service over a world that keeps every batch that was asked for and answered. *)
Record exchange : Type := MkExchange {
  asked_of : string; asked : list WriteRequest; unprocessed_of : list WriteRequest }.
Abbreviation kept := (W * list exchange)%type.
Definition beside {A} (f : W → A * W) (w : kept) : A * kept := let '(a, w1) := f w.1 in (a, (w1, w.2)).
Definition noted : API kept := {|
  locate := beside api.(locate); random := beside api.(random);
  DescribeTable table := beside (api.(DescribeTable) table);
  GetItem table k := beside (api.(GetItem) table k);
  PutItem table it e := beside (api.(PutItem) table it e);
  DeleteItem table k e := beside (api.(DeleteItem) table k e);
  UpdateItem table k e := beside (api.(UpdateItem) table k e);
  QueryItems in_ := beside (api.(QueryItems) in_); ScanItems in_ := beside (api.(ScanItems) in_);
  BatchGetItem table ks := beside (api.(BatchGetItem) table ks);
  BatchWriteItem table requests w :=
    let '(r, w1) := api.(BatchWriteItem) table requests w.1 in
    (r, (w1, match r with
             | Ok unprocessed => w.2 ++ [MkExchange table requests unprocessed]
             | Err _ => w.2
             end));
  TransactWriteItems its := beside (api.(TransactWriteItems) its);
|}.
End batches.

Section noted.
Context {W : Type} (api : API W) (ref : string).
Context {I : Type} (go_type : I → string)
  (marshalItem : I → result error (gmap string AttributeValue)).
Abbreviation log d := (d.(world).2 : list exchange).
Abbreviation asks := (asks marshalItem).

Lemma map_call_log {A B} (f : A → call (W * list exchange) B) l d bs d' :
  (∀ a d b d', f a d = (Ok b, d') → log d' = log d) → map_call f l d = (Ok bs, d') → log d' = log d.
Proof.
  intros Hf. revert d bs. induction l as [|a l IH]; intros d bs Hm; cbn [map_call] in Hm; run; [done|].
  match goal with H1 : f a _ = _, H2 : map_call _ _ _ = _ |- _ => rewrite (IH _ _ H2); by eapply Hf end.
Qed.

Lemma writeRequest_log schema op d r d' :
  writeRequest (noted api) ref go_type marshalItem schema op d = (Ok r, d') → log d' = log d.
Proof.
  intros Hw. unfold writeRequest in Hw. run. destruct op as [k [it|]]; cbn [bItem bKey] in *; run; [|done].
  match goal with H : nextRevision _ _ = _ |- _ => revert H end.
  unfold nextRevision, ask, bind, ret, noted, beside. cbn. by destruct (api.(random) _); intros [= _ <-].
Qed.

(** One request of a batch: each operation is asked for, in its order, and those that were not
    processed are the ones that come back. *)
Lemma writeChunk_exact table schema ops d missed d' :
  sound_schema schema → named_attributes marshalItem → serves_batches api →
  NoDup (bKey <$> ops) → ops ≠ [] → length ops ≤ writesPerRequest →
  writeChunk (noted api) ref go_type marshalItem table schema ops d = (Ok missed, d') →
  ∃ e applied processed, log d' = log d ++ [e] ∧ e.(asked_of) = table ∧
    e.(asked) ≠ [] ∧ length e.(asked) ≤ writesPerRequest ∧
    Forall2 (asks schema) ops e.(asked) ∧ Forall2 (asks schema) missed e.(unprocessed_of) ∧
    ops ≡ₚ missed ++ applied ∧ e.(asked) ≡ₚ e.(unprocessed_of) ++ processed ∧
    Forall2 (asks schema) applied processed.
Proof.
  intros Hs Hnames Hserve Hn Hne Hlen Hw. unfold writeChunk in Hw. run.
  match goal with Hm : map_call _ _ _ = _ |- _ =>
    pose proof (map_call_log _ _ _ _ _ (λ a d b d', writeRequest_log schema a d b d') Hm) as Hlog;
    apply (map_call_Forall2 (asks schema)) in Hm as Hf;
      [|intros; by eapply writeRequest_asks] end.
  pose proof (Forall2_length _ _ _ Hf) as Hl.
  match goal with Hr : request _ _ = _ |- _ =>
    unfold request in Hr; cbn in Hr; destruct (api.(BatchWriteItem) _ _ _) as [[un|] w1] eqn:Eb; simplify_eq end.
  apply Hserve in Eb; [|by intros ->; destruct ops|lia].
  destruct (opsFor_exact ref marshalItem schema ops _ _ Hs Hnames Hn Hf Eb)
    as (missed' & applied & processed & Hops & Hp & Hq & Hm & Ha).
  match goal with H : opsFor _ _ _ _ = Ok missed |- _ => rewrite H in Hops; injection Hops as <- end.
  eexists (MkExchange table _ _), applied, processed. cbn. rewrite Hlog.
  split_and!; [done|done| |lia|done|done|done|done|done]. intros ->. by destruct ops.
Qed.

Lemma resolve_log d a d' : resolve (noted api) ref d = (Ok a, d') → log d' = log d.
Proof.
  unfold resolve, read_schema, bind, request, noted, beside. cbn.
  destruct (api.(locate) _) as [[table|] w1]; [|done]. cbn.
  destruct (schema_cell d) as [[schema|]|]; cbn; [by intros [= _ <-]|done|].
  destruct (api.(DescribeTable) table w1) as [[t|] w2]; cbn; [|done].
  repeat (case_match; cbn; try done). all: by intros [= _ <-].
Qed.

(** What is sent of a table, and the operations it is for. *)
Definition proper (table : string) (e : exchange) : Prop :=
  e.(asked_of) = table ∧ e.(asked) ≠ [] ∧ length e.(asked) ≤ writesPerRequest.

Lemma chunks_exact table schema cs d missed d' :
  sound_schema schema → named_attributes marshalItem → serves_batches api →
  NoDup (bKey <$> mjoin cs) → Forall (λ c, c ≠ [] ∧ length c ≤ writesPerRequest) cs →
  each (writeChunk (noted api) ref go_type marshalItem table schema) cs d = (Ok missed, d') →
  ∃ sent applied processed, log d' = log d ++ sent ∧ Forall (proper table) sent ∧
    Forall2 (asks schema) (mjoin cs) (mjoin (asked <$> sent)) ∧
    Forall2 (asks schema) missed (mjoin (unprocessed_of <$> sent)) ∧
    mjoin cs ≡ₚ missed ++ applied ∧
    mjoin (asked <$> sent) ≡ₚ mjoin (unprocessed_of <$> sent) ++ processed ∧
    Forall2 (asks schema) applied processed.
Proof.
  intros Hs Hnames Hserve Hn Hcs. revert d missed Hn. induction Hcs as [|c cs [Hne Hlen] _ IH]; intros d missed Hn He; cbn [each] in He; run.
  { exists [], [], []. rewrite app_nil_r. by split_and!; try constructor. }
  change (mjoin (c :: cs)) with (c ++ mjoin cs) in *. rewrite fmap_app, NoDup_app in Hn. destruct Hn as (Hn1 & _ & Hn2).
  match goal with H1 : writeChunk _ _ _ _ _ _ _ _ = _, H2 : each _ _ _ = _ |- _ =>
    apply writeChunk_exact in H1 as (e & ap & pr & L1 & ? & ? & ? & F1 & F2 & P1 & P2 & F3); try done;
    destruct (IH _ _ Hn2 H2) as (sent & ap' & pr' & L2 & Hp & G1 & G2 & Q1 & Q2 & G3) end.
  exists (e :: sent), (ap ++ ap'), (pr ++ pr'). rewrite !fmap_cons.
  change (mjoin (?x :: ?l)) with (x ++ mjoin l). split_and!.
  - by rewrite L2, L1, <- (assoc_L (++)).
  - by constructor.
  - by apply Forall2_app.
  - by apply Forall2_app.
  - rewrite P1, Q1. solve_Permutation.
  - rewrite P2, Q2. solve_Permutation.
  - by apply Forall2_app.
Qed.

(** C36: a batch of any size is sent in requests DynamoDB takes, and what comes back is what it
    did not get to.  Of operations under different keys, each is asked for once and in order,
    with the delete or the put it stands for, in requests of the table of 25 at most and never
    of none; every request DynamoDB leaves unprocessed comes back as the caller's own operation
    it was for; and every other operation is one whose request was processed. *)
Theorem BatchWrite_returns_unprocessed table schema ops w cell d1 missed d' :
  let d := MkDynamo (w, []) cell in
  serves_batches api → named_attributes marshalItem → NoDup (bKey <$> ops) →
  resolve (noted api) ref d = (Ok (table, schema), d1) → sound_schema schema →
  BatchWrite (noted api) ref go_type marshalItem ops d = (Ok missed, d') →
  let sent := d'.(world).2 in
  Forall (proper table) sent ∧
  Forall2 (asks schema) ops (mjoin (asked <$> sent)) ∧
  Forall2 (asks schema) missed (mjoin (unprocessed_of <$> sent)) ∧
  ∃ applied processed, ops ≡ₚ missed ++ applied ∧
    mjoin (asked <$> sent) ≡ₚ mjoin (unprocessed_of <$> sent) ++ processed ∧
    Forall2 (asks schema) applied processed.
Proof.
  intros d Hserve Hnames Hn Hres Hs Hb sent. unfold BatchWrite in Hb.
  case_bool_decide as Hne.
  { subst ops. run. subst sent. cbn. split_and!; [constructor..|]. by exists [], []. }
  apply bind_Ok in Hb as ([t s] & d2 & Hr & Hb). rewrite Hres in Hr. simplify_eq.
  apply resolve_log in Hres. destruct (chunks_spec writesPerRequest ops) as [Hjoin Hchunks]; [unfold writesPerRequest; lia|].
  apply chunks_exact in Hb as (es & applied & processed & Hl & Hp & F1 & F2 & P1 & P2 & F3); [|done..|by rewrite Hjoin|done].
  assert (sent = es) as -> by (unfold sent; by rewrite Hl, Hres). rewrite Hjoin in *.
  split_and!; [done..|]. by exists applied, processed.
Qed.
End noted.

(** ** The conditions of the two stores *)

Section agreement.
Context `{FloatText}.

(** What an expression says of one item: DynamoDB's meaning of it. *)
Context (holds : cond → bool).

Definition connectives : Prop :=
  (∀ a b cs, holds (AndOf a b cs) = forallb holds (a :: b :: cs)) ∧
  (∀ a b cs, holds (OrOf a b cs) = existsb holds (a :: b :: cs)).

(** The two stores agree on a test of one attribute. *)
Definition test_agrees (held : fields) (c : Condition) : Prop :=
  ∀ e, writeCondition c = Ok e → matches c held = Ok (holds e).

Fixpoint tests (P : Condition → Prop) (c : Condition) : Prop :=
  let '(MkCondition op _ _ _ ofs) := c in
  if bool_decide (op = OpAnd) || bool_decide (op = OpOr) then
    (fix go cs := match cs with [] => True | c :: cs => tests P c ∧ go cs end) ofs
  else P c.

Definition all_of (held : fields) : list Condition → result error bool :=
  fix all cs := match cs with
    | [] => Ok true
    | c :: cs => match matches c held with
                 | Err err => Err err
                 | Ok false => Ok false
                 | Ok true => all cs
                 end
    end.

Definition any_of (held : fields) : list Condition → result error bool :=
  fix anyOf cs := match cs with
    | [] => Ok false
    | c :: cs => match matches c held with
                 | Err err => Err err
                 | Ok true => Ok true
                 | Ok false => anyOf cs
                 end
    end.

Definition group_of : list Condition → result error (list cond) :=
  fix group cs := match cs with
    | [] => Ok []
    | c :: cs => let! one := writeCondition c in let! rest := group cs in Ok (one :: rest)
    end.

Definition tests_all (P : Condition → Prop) : list Condition → Prop :=
  fix go cs := match cs with [] => True | c :: cs => tests P c ∧ go cs end.

Lemma group_agrees held ofs built :
  Forall (λ c, ∀ e, tests (test_agrees held) c → writeCondition c = Ok e →
                    matches c held = Ok (holds e)) ofs →
  tests_all (test_agrees held) ofs → group_of ofs = Ok built →
  all_of held ofs = Ok (forallb holds built) ∧ any_of held ofs = Ok (existsb holds built).
Proof.
  intros Hall. revert built. induction Hall as [|c cs Hc _ IH]; intros built Ht Hg.
  { by injection Hg as <-. }
  destruct Ht as [Ht Hts]. cbn in Hg.
  destruct (writeCondition c) as [e|] eqn:Ee; [|done]. fold group_of in Hg.
  destruct (group_of cs) as [rest|] eqn:Er; [|done]. injection Hg as <-.
  destruct (IH rest Hts eq_refl) as [IH1 IH2]. specialize (Hc e Ht eq_refl).
  split; cbn [all_of any_of forallb existsb]; rewrite Hc; destruct (holds e);
    cbn [andb orb]; done.
Qed.

(** What a group combines to holds as its parts do together. *)
Lemma combine_holds op built e :
  connectives → combine op built = Ok e →
  holds e = if bool_decide (op = OpOr) then existsb holds built else forallb holds built.
Proof.
  intros [Hand Hor]. destruct built as [|one [|second others]]; intros [= <-].
  - simpl. rewrite orb_false_r, andb_true_r. by case_bool_decide.
  - case_bool_decide; [by rewrite Hor|by rewrite Hand].
Qed.

(** A condition's meaning is the same in both stores, however its parts are combined and
    nested. *)
Lemma condition_holds held c e :
  connectives → tests (test_agrees held) c → writeCondition c = Ok e →
  matches c held = Ok (holds e).
Proof.
  intros Hc. revert e. induction c as [op name v high ofs IH] using Condition_ind'.
  intros e Ht Hw. cbn [tests] in Ht. fold (tests_all (test_agrees held)) in Ht.
  destruct (bool_decide (op = OpAnd) || bool_decide (op = OpOr)) eqn:Eop; [|by apply Ht].
  cbn [writeCondition] in Hw. rewrite Eop in Hw. fold group_of in Hw.
  destruct (group_of ofs) as [built|] eqn:Eg; [|done]. cbn in Hw.
  destruct (group_agrees held ofs built IH Ht Eg) as [Hall Hany].
  rewrite (combine_holds _ _ _ Hc Hw). cbn [matches].
  fold (all_of held) (any_of held).
  apply orb_true_iff in Eop as [E%bool_decide_eq_true|E%bool_decide_eq_true]; subst op; done.
Qed.

(** The conditions of a write hold together. *)
Lemma and_all_holds first rest :
  connectives → holds (and_all first rest) = forallb holds (first :: rest).
Proof.
  intros [Hand _]. unfold and_all. revert first.
  induction rest as [|c rest IH]; intros first; cbn [foldl forallb]; [by rewrite andb_true_r|].
  rewrite IH. cbn [forallb]. rewrite Hand. cbn [forallb]. by rewrite andb_true_r, andb_assoc.
Qed.
End agreement.

(** ** Witnesses

    A DynamoDB that takes the first request of a batch and hands back the others, and
    whose tables cannot be described the first time they are asked about. *)
Section examples.

Definition attrs_of (n : string) : gmap string AttributeValue := {[ "total" := AttrN n ]}.

Definition slow : API nat := {|
  locate w := (Ok "orders-table", w);
  random w := ("0123456789abcdef", w);
  DescribeTable _ w :=
    match w with
    | O => (Err (EString "throttled"), 1)
    | S w => (Ok (Some (MkTable [("customer", KindS); ("placed", KindN)]
                        [("customer", true); ("placed", false)] [] [])), S w)
    end;
  GetItem _ _ w := (Ok ∅, w);
  PutItem _ _ _ w := (None, w);
  DeleteItem _ _ _ w := (None, w);
  UpdateItem _ _ _ w := (None, w);
  QueryItems _ w := (Ok ([], ∅), w);
  ScanItems _ w := (Ok ([], ∅), w);
  BatchGetItem _ _ w := (Ok ([], []), w);
  BatchWriteItem _ requests w := (Ok (tail requests), w);
  TransactWriteItems _ w := (None, w);
|}.

Lemma schema_error_is_kept_witness (text : FloatText) :
  DynamoStore.Get slow "datastore" "*Order" (λ _, Ok ()) (MkKey "c1" "42")
    (MkDynamo 1 (Some (Err (wrapped "celerity: reading the key schema of datastore"
                                    (EString "throttled"))))) =
  (Err (wrapped "celerity: reading the key schema of datastore" (EString "throttled")),
   MkDynamo 1 (Some (Err (wrapped "celerity: reading the key schema of datastore"
                                  (EString "throttled"))))).
Proof.
  pose proof (schema_error_is_kept (λ _, None) (λ _, EString "") (λ _, EString "") slow
    "datastore" (λ _ : (), "Order") "*Order" (λ _, Ok ∅) (λ _, Ok ()) (λ _, Ok [()]) None
    (λ _, None) (λ _, None) "orders-table" (MkDynamo 0 None) _ _ eq_refl 1 1 "orders-table"
    eq_refl) as H.
  exact (proj1 H (MkKey "c1" "42")).
Defined.

Definition slow_ops : list (@batchOp string) :=
  [MkOp (MkKey "c1" "1") (Some "3"); MkOp (MkKey "c1" "2") None; MkOp (MkKey "c1" "3") (Some "4")].

Definition slow_schema : tableSchema :=
  MkTableSchema (MkKeySchema (MkAttribute "customer" KindS) (MkAttribute "placed" KindN)) ∅.

Definition slow_answer : list (@batchOp string) :=
  match (BatchWrite slow "datastore" (λ _, "Order") (λ n, Ok (attrs_of n)) slow_ops
           (MkDynamo 1 None)).1 with Ok missed => missed | Err _ => [] end.

Lemma BatchWrite_returns_unprocessed_witness :
  length slow_answer = 2 ∧ ∃ applied, slow_ops ≡ₚ slow_answer ++ applied.
Proof.
  split; [by vm_compute|].
  destruct (BatchWrite_returns_unprocessed slow "datastore" (λ _, "Order") (λ n, Ok (attrs_of n))
    "orders-table" slow_schema slow_ops 1 None
    (MkDynamo (1, []) (Some (Ok slow_schema))) slow_answer
    (BatchWrite (noted slow) "datastore" (λ _, "Order") (λ n, Ok (attrs_of n)) slow_ops
       (MkDynamo (1, []) None)).2) as (_ & _ & _ & applied & _ & Hp & _).
  - intros table requests w un w' _ _ [= <- <-]. destruct requests; [done|].
    by apply submseteq_cons.
  - intros it attrs [= <-]. by vm_compute.
  - vm_compute. repeat constructor; set_solver.
  - reflexivity.
  - done.
  - reflexivity.
  - by exists applied.
Defined.
End examples.
