(* ===== verification/Agreement.v ===== *)
(** * The two data stores agree on what a write requires

    The in-memory store of [celeritytest] checks a write's preconditions itself
    ([Memory.check]); the DynamoDB store compiles them to a condition DynamoDB evaluates
    ([DynamoStore.writeExpression]).  Here the two are the same test of the same item, one
    case apart. *)

From S2P Require Import Prelude GoStrings Json JsonText Errors Encoding Values Store Matching Memory DynamoKeys DynamoStore.
From stdpp Require Import options.

(** ** What DynamoDB documents

    How a condition expression reads one item, for attributes and operands of one type: texts
    in the order of their bytes, numbers by their value. *)

#[export] Instance comparison_eq_dec : EqDecision comparison.
Proof. solve_decision. Defined.

Definition compares (c : comparison) (o : Datatypes.comparison) : bool :=
  match c, o with
  | Equal, Datatypes.Eq | NotEqual, (Datatypes.Lt | Datatypes.Gt) | LessThan, Datatypes.Lt
  | LessThanEqual, (Datatypes.Lt | Datatypes.Eq) | GreaterThan, Datatypes.Gt
  | GreaterThanEqual, (Datatypes.Gt | Datatypes.Eq) => true
  | _, _ => false
  end.

(** A number that text carries exactly: a float64, or an [int] a float64 holds. *)
Inductive numeric : value → float64 → Prop :=
  | numeric_float f : numeric (VFloat f) f
  | numeric_int n : (Z.abs n ≤ 2 ^ 53)%Z → numeric (VInt n) (float_of_Z n).

Inductive comparable : value → value → Prop :=
  | both_text s t : comparable (VString s) (VString t)
  | both_numbers u v f g :
      numeric u f → numeric v g → finite f = true → finite g = true → comparable u v.

Definition compared (c : comparison) (u v : value) : bool :=
  match u, v with
  | VString s, VString t => compares c (String.compare s t)
  | _, _ =>
      match asNumber u, asNumber v with
      | Some f, Some g => match SpecFloat.SFcompare f g with Some o => compares c o | None => false end
      | _, _ => false
      end
  end.

(** An item of these fields, beside the one its revision is in; a comparison with an attribute
    that is not there fails, unless it is [<>]. *)
Record documented (holds : cond → bool) (held : fields) : Prop := {
  doc_connectives : connectives holds;
  doc_exists name : name ≠ RevisionField → holds (AttributeExists name) = is_some (held !! name);
  doc_not_exists name : name ≠ RevisionField → holds (AttributeNotExists name) = negb (is_some (held !! name));
  doc_compare c name v : name ≠ RevisionField →
    match held !! name with
    | None => holds (Compare c name (GoValue v)) = bool_decide (c = NotEqual)
    | Some u => comparable u v → holds (Compare c name (GoValue v)) = compared c u v
    end;
  doc_between name low high : name ≠ RevisionField →
    match held !! name with
    | None => holds (BetweenOf name (GoValue low) (GoValue high)) = false
    | Some u => comparable u low → comparable u high →
        holds (BetweenOf name (GoValue low) (GoValue high)) =
          compared GreaterThanEqual u low && compared LessThanEqual u high
    end;
  doc_begins name text : name ≠ RevisionField →
    match held !! name with
    | None => holds (BeginsWith name text) = false
    | Some (VString s) => holds (BeginsWith name text) = has_prefix s text
    | Some _ => True
    end;
  doc_contains name text : name ≠ RevisionField →
    match held !! name with
    | None => holds (ContainsOf name text) = false
    | Some (VString s) => holds (ContainsOf name text) = contains s text
    | Some _ => True
    end;
}.

(** The tests the two stores give one meaning: of an attribute with an operand of its type, and
    of one that is not there by anything but [Ne]. *)
Definition one_meaning (held : fields) (c : Condition) : Prop :=
  let '(MkCondition op name v high _) := c in
  name ≠ RevisionField ∧
  if bool_decide (op = OpExists) || bool_decide (op = OpNotExists) then True
  else match held !! name with
       | None => op ≠ OpNotEqual
       | Some u =>
           if bool_decide (op = OpStartsWith) || bool_decide (op = OpContains) then
             ∃ s t, u = VString s ∧ v = VString t
           else comparable u v ∧ (op = OpBetween → comparable u high)
       end.

(** ** A test means the same in both *)

Section tests.
Context `{FloatText}.

Lemma SFcompare_swap x y : finite x = true → finite y = true →
  ∃ o, SpecFloat.SFcompare x y = Some o ∧ SpecFloat.SFcompare y x = Some (CompOpp o).
Proof.
  assert (∀ m n : positive, Pos.compare_cont Datatypes.Eq n m = CompOpp (Pos.compare_cont Datatypes.Eq m n)) as Hpos.
  { intros m n. apply Pos.compare_antisym. }
  destruct x as [[]|[]| |[] m1 e1], y as [[]|[]| |[] m2 e2]; try done; intros _ _;
    try (by eexists); cbn; eexists; (split; [reflexivity|]); f_equal;
    rewrite (Z.compare_antisym e1 e2); destruct (Z.compare e1 e2); cbn; try done; apply Hpos || by rewrite Hpos.
Qed.

Lemma numeric_number u f : numeric u f → asNumber u = Some f.
Proof. by destruct 1. Qed.
Lemma numeric_compared c u v f g :
  numeric u f → numeric v g →
  compared c u v = match SpecFloat.SFcompare f g with Some o => compares c o | None => false end.
Proof. by intros [] []. Qed.

Lemma compares_texts s t : compares Equal (String.compare s t) = bool_decide (s = t).
Proof.
  symmetry. destruct (String.compare s t) eqn:E.
  - apply bool_decide_eq_true. by apply String.compare_eq_iff.
  - apply bool_decide_eq_false. intros ->. pose proof (String.compare_antisym t t) as Hr. by rewrite E in Hr.
  - apply bool_decide_eq_false. intros ->. pose proof (String.compare_antisym t t) as Hr. by rewrite E in Hr.
Qed.

(** What the in-memory store makes of two values that can be compared. *)
Lemma comparable_order u v : comparable u v →
  ∃ o, (∀ c, compared c u v = compares c o) ∧ equal u v = compares Equal o ∧
    order u v = Some match o with Datatypes.Lt => (-1)%Z | Datatypes.Eq => 0%Z | Datatypes.Gt => 1%Z end.
Proof.
  destruct 1 as [s t|u v f g Hu Hv Hf Hg].
  - exists (String.compare s t). split_and!; [done|..]; unfold equal, order, numbers; cbn.
    + symmetry. apply compares_texts.
    + unfold string_order, String.ltb. rewrite (String.compare_antisym t s).
      by destruct (String.compare s t).
  - destruct (SFcompare_swap f g Hf Hg) as (o & Ho & Ho'). exists o.
    unfold equal, order, numbers, feq, flt, SpecFloat.SFeqb, SpecFloat.SFltb.
    rewrite (numeric_number _ _ Hu), (numeric_number _ _ Hv), Ho, Ho'.
    split_and!; [|by destruct o|by destruct o].
    intros c. by rewrite (numeric_compared c _ _ _ _ Hu Hv), Ho.
Qed.

Lemma one_meaning_agrees holds held op name v high ofs :
  documented holds held → op ≠ OpAnd → op ≠ OpOr → one_meaning held (MkCondition op name v high ofs) →
  test_agrees holds held (MkCondition op name v high ofs).
Proof.
  intros Hdoc Hand Hor [Hname Hm] e. cbn [writeCondition matches].
  rewrite (bool_decide_eq_false_2 (op = OpAnd)), (bool_decide_eq_false_2 (op = OpOr)) by done. cbn [orb].
  case_bool_decide as Hex; [intros [= <-]; by rewrite (doc_exists _ _ Hdoc)|].
  case_bool_decide as Hnex; [intros [= <-]; by rewrite (doc_not_exists _ _ Hdoc)|]. cbn [orb] in Hm.
  pose proof (λ c, doc_compare _ _ Hdoc c name v Hname) as Hcmp.
  pose proof (doc_between _ _ Hdoc name v high Hname) as Hbtw.
  pose proof (doc_begins _ _ Hdoc name (text_of v) Hname) as Hbeg.
  pose proof (doc_contains _ _ Hdoc name (text_of v) Hname) as Hcon.
  destruct (held !! name) as [u|].
  2:{ repeat case_bool_decide; try done; intros [= <-]; rewrite ?Hcmp, ?Hbtw, ?Hbeg, ?Hcon; done. }
  clear Hdoc Hex Hnex. unfold compare, directed.
  destruct (decide (op = OpStartsWith ∨ op = OpContains)) as [Hop|Hop].
  { rewrite (proj2 (orb_true_iff _ _)) in Hm by (rewrite !bool_decide_eq_true; exact Hop).
    destruct Hm as (s & t & -> & ->). cbn [text_of] in *. destruct Hop as [-> | ->]; intros [= <-];
      repeat case_bool_decide; try done; by rewrite ?Hbeg, ?Hcon. }
  apply Decidable.not_or in Hop as [Hs Ht].
  rewrite (bool_decide_eq_false_2 _ Hs), (bool_decide_eq_false_2 _ Ht) in Hm |- *. destruct Hm as [Hm Hbt].
  specialize (λ c, Hcmp c Hm) as Hcmp'. destruct (comparable_order _ _ Hm) as (o & Hc & He & Ho).
  rewrite He, Ho. clear Hcmp Hbeg Hcon.
  repeat match goal with |- context [bool_decide (op = ?x)] =>
    destruct (decide (op = x)) as [->|]; [|rewrite (bool_decide_eq_false_2 (op = x)) by done] end; try done;
    rewrite ?bool_decide_eq_true_2 by done; intros [= <-]; rewrite ?Hcmp', ?Hc; try by destruct o.
  destruct (comparable_order _ _ (Hbt eq_refl)) as (o' & Hc' & _ & Ho').
  rewrite Ho', Hbtw by auto. rewrite Hc, Hc'. by destruct o, o'.
Qed.
End tests.

Section agreement.
Context `{FloatText} (Build : Expression → option error).

(** What DynamoDB answers of one item: of its conditions and, by its revision field, of the
    revision it carries. *)
Context (holds : cond → bool) (d : Datastore) (key : Key) (existing : option storedItem).

Definition held : fields :=
  match existing with None => ∅ | Some it => fields_in d.(memory) it.(item_fields) end.

Definition reads_revision : Prop :=
  (∀ v, v ≠ "" →
    holds (Compare Equal RevisionField (GoValue (VString v))) =
    match existing with None => false | Some it => bool_decide (it.(revision) = v) end) ∧
  holds (AttributeNotExists RevisionField) =
    match existing with None => true | Some it => bool_decide (it.(revision) = "") end.

Definition in_scope (o : WriteOptions) : Prop :=
  match o.(optCondition) with None => True | Some c => tests (one_meaning held) c end.

(** A write DynamoDB is sent takes effect. *)
Definition permits (e : option Expression) : bool :=
  match e with
  | None => true
  | Some e => match e.(exCondition) with None => true | Some c => holds c end
  end.

(** What the caller's own condition says. *)
Definition own_condition (o : WriteOptions) : bool :=
  match o.(optCondition) with
  | None => true
  | Some c => match matches c held with Ok b => b | Err _ => false end
  end.

(** The one case the stores read differently: the item was read with no revision, and is
    not there any more. *)
Definition vanished (o : WriteOptions) : bool :=
  negb (is_some existing) && bool_decide (o.(optRevision) = Some Unrevisioned).

Lemma revision_holds r c :
  reads_revision → revisionCondition r = Ok c →
  holds c = match existing with
            | Some it => bool_decide (it.(revision) = r.(rev_value))
            | None => bool_decide (r = Unrevisioned)
            end.
Proof.
  intros [Heq Hne]. unfold revisionCondition, RevisionValue, Known. destruct r as [v known].
  destruct known; [|done]. cbn. case_bool_decide as Hv; intros [= <-].
  - rewrite Hne. subst v. by destruct existing.
  - rewrite Heq by done. destruct existing; [done|].
    rewrite bool_decide_eq_false_2; [done|]. by intros [= ->].
Qed.

Lemma tests_mono (P Q : Condition → Prop) c :
  (∀ op name v high ofs, op ≠ OpAnd → op ≠ OpOr → P (MkCondition op name v high ofs) → Q (MkCondition op name v high ofs)) →
  tests P c → tests Q c.
Proof.
  intros HPQ. induction c as [op name v high ofs IH] using Condition_ind'. cbn [tests].
  destruct (bool_decide (op = OpAnd)) eqn:Ea; [|destruct (bool_decide (op = OpOr)) eqn:Eo]; cbn [orb].
  3:{ apply HPQ; by eapply bool_decide_eq_false. }
  all: clear -IH; induction IH as [|c cs Hc _ IHcs]; [done|]; intros [Hp Hps]; split; [by apply Hc|by apply IHcs].
Qed.

Lemma own_holds o own :
  documented holds held → in_scope o →
  match o.(optCondition) with
  | Some c => let! built := writeCondition c in Ok [built]
  | None => Ok []
  end = Ok own →
  forallb holds own = own_condition o ∧
  match o.(optCondition) with Some c => is_ok (matches c held) = true | None => True end.
Proof.
  intros Hd Ha. unfold in_scope, own_condition in *.
  destruct (optCondition o) as [c|]; [|by intros [= <-]].
  destruct (writeCondition c) as [b|] eqn:Eb; [|done]. intros [= <-].
  apply (tests_mono _ (test_agrees holds held)) in Ha; [|intros; by apply one_meaning_agrees].
  rewrite (condition_holds holds held c b (doc_connectives _ _ Hd) Ha Eb). simpl. by rewrite andb_true_r.
Qed.

End agreement.

(** ** Witnesses

    [evaluates] is DynamoDB on one item of the in-memory store, for the conditions used
    here. *)
Section examples.
#[local] Existing Instance WholeText.

Fixpoint evaluates (held : fields) (rev : option string) (c : cond) : bool :=
  let value_of name :=
    if bool_decide (name = RevisionField) then
      match rev with Some r => if bool_decide (r = "") then None else Some (VString r) | None => None end
    else held !! name in
  match c with
  | AndOf a b cs => forallb (evaluates held rev) (a :: b :: cs)
  | OrOf a b cs => existsb (evaluates held rev) (a :: b :: cs)
  | AttributeExists name => is_some (value_of name)
  | AttributeNotExists name => negb (is_some (value_of name))
  | Compare c name (GoValue v) =>
      match value_of name with None => bool_decide (c = NotEqual) | Some u => compared c u v end
  | BetweenOf name (GoValue low) (GoValue high) =>
      match value_of name with
      | None => false
      | Some u => compared GreaterThanEqual u low && compared LessThanEqual u high
      end
  | BeginsWith name text => match value_of name with Some (VString s) => has_prefix s text | _ => false end
  | ContainsOf name text => match value_of name with Some (VString s) => contains s text | _ => false end
  | _ => false
  end.

Lemma evaluates_documented held rev : documented (evaluates held rev) held.
Proof.
  split; [done|..]; intros; cbn [evaluates]; rewrite ?bool_decide_eq_false_2 by done; try done;
    by repeat case_match.
Qed.

Definition order_write : WriteOptions :=
  ResolveWriteOptions
    [IfUnchanged (NewRevision order_stored.(revision));
     If (Any [NotExists "count"; All [Exists "count"; Eq "count" (VInt 2)]])].

Definition order_evaluates : cond → bool :=
  evaluates (held seeded_store (Some order_stored)) (Some order_stored.(revision)).

Definition order_expression : option Expression :=
  match writeExpression (λ _, None) order_write with Ok e => e | Err _ => None end.


(** An item read with no revision, then deleted: the in-memory store refuses the write
    that was to depend on it, and DynamoDB makes it. *)
Definition resurrecting : WriteOptions := ResolveWriteOptions [IfUnchanged Unrevisioned].

Lemma deleted_item_is_written_again (holds : cond → bool) d key :
  holds (AttributeNotExists RevisionField) = true →
  ∃ e, writeExpression (λ _, None) resurrecting = Ok e ∧ permits holds e = true ∧
       check d key None resurrecting = Some (Memory.refused d key).
Proof. intros Hh. eexists. split_and!; [reflexivity| |reflexivity]. exact Hh. Qed.

(** [Ne] of an attribute that is not there is met on DynamoDB and not in memory. *)
Lemma absent_is_not_equal holds (held : fields) name v :
  documented holds held → name ≠ RevisionField → held !! name = None →
  matches (Ne name v) held = Ok false ∧
  ∃ e, writeCondition (Ne name v) = Ok e ∧ holds e = true.
Proof.
  intros Hd Hname Hno. split; [cbn; by rewrite Hno|]. eexists. split; [reflexivity|].
  pose proof (doc_compare _ _ Hd NotEqual name v Hname) as H. by rewrite Hno in H.
Qed.

(** In memory a value equals a text that is written as it is, and on DynamoDB it is of another
    type; and a group of nothing is a test there, and an error here. *)
Lemma other_meanings :
  matches (Eq "open" (VString "true")) {[ "open" := VBool true ]} = Ok true ∧
  compared Equal (VBool true) (VString "true") = false ∧
  matches (All []) ∅ = Ok true ∧ matches (Any []) ∅ = Ok false ∧
  writeCondition (All []) = Err (empty_group OpAnd) ∧ writeCondition (Any []) = Err (empty_group OpOr).
Proof. by vm_compute. Qed.
End examples.
