(* ===== verification/Config.v ===== *)
(** * Configuration: stores, namespaces and the service

    Models [config/errors.go], [env.go], [values.go], [backend.go], [namespace.go],
    [registry.go], [links.go], [service.go] and [discover.go].  A backend reads a world
    [W], whose clock [now] is; a namespace's cell is threaded through its reads.  The
    loops over Go maps take the order the map was walked in as an argument. *)

From S2P Require Import Prelude GoStrings Json JsonText Errors Bind Values.
From stdpp Require Import options.

(** ** Errors *)

Inductive config_error : Type :=
  | MissingStoreError (StoreID : string)
  | MissingKeyError (Namespace Key : string)
  | MissingNamespaceError (Name : string) (Registered : list string)
  | AmbiguousNamespaceError (Registered : list string)
  | MissingLinkError (Kind Name : string) (Known : list string)
  | ConfigError (err : error).                         (* [fmt.Errorf], or another's *)

(** The [%v] verb of a list of strings. *)
Definition sprint_names (names : list string) : string := "[" +:+ join names " " +:+ "]".

Definition config_error_text (e : config_error) : string :=
  match e with
  | MissingStoreError id => "celerity: no config store " +:+ go_quote id
  | MissingKeyError ns key =>
      if bool_decide (ns = "") then "celerity: no config value for " +:+ go_quote key
      else "celerity: no config value for " +:+ go_quote key +:+ " in namespace " +:+ go_quote ns
  | MissingNamespaceError name [] =>
      "celerity: no config namespace " +:+ go_quote name +:+ ", and none is registered: " +:+
      "the application declares no celerity/config resource"
  | MissingNamespaceError name registered =>
      "celerity: no config namespace " +:+ go_quote name +:+ ", registered: " +:+
      sprint_names registered
  | AmbiguousNamespaceError registered =>
      "celerity: " +:+ itoa (Z.of_nat (length registered)) +:+ " config namespaces are " +:+
      "registered, so a value has to name one: use Namespace(name).Get, registered: " +:+
      sprint_names registered
  | MissingLinkError kind name [] =>
      "celerity: the application declares no " +:+ kind +:+ ", and " +:+ go_quote name +:+
      " was asked for"
  | MissingLinkError kind name known =>
      "celerity: no " +:+ kind +:+ " named " +:+ go_quote name +:+ ", the blueprint declares: " +:+
      sprint_names known
  | ConfigError err => error_text err
  end.

(** ** The platform *)

Definition PlatformEnvVar : string := "CELERITY_PLATFORM".
Definition PlatformAWS : string := "aws".
Definition PlatformAzure : string := "azure".
Definition PlatformGCP : string := "gcp".
Definition PlatformLocal : string := "local".
Definition PlatformOther : string := "other".

Definition CurrentPlatform (env : string → string) : string :=
  let p := to_lower (env PlatformEnvVar) in
  if bool_decide (p ∈ [PlatformAWS; PlatformAzure; PlatformGCP; PlatformLocal]) then p
  else PlatformOther.

(** ** A store held as one JSON object *)

Section values.
Context `{FloatText}.
(** [strconv.FormatFloat(f, 'f', -1, 64)], and what [json.Unmarshal] says of a text. *)
Context (format_float : float64 → string) (json_error : string → error).

Definition valueAsString (v : value) : string :=
  match v with
  | VString s => s
  | VBool true => "true"
  | VBool false => "false"
  | VFloat f => format_float f
  | VNil => ""
  | _ => match marshal v with Ok j => json_text j | Err _ => "" end
  end.

(** What [json.Unmarshal] fills a [map[string]any] with. *)
Definition read_object (raw : string) : option (gmap string value) :=
  match parse raw ≫= unmarshal with
  | Some (VMap ms) => Some (members_of ms)
  | Some VNil => Some ∅
  | _ => None
  end.

Definition ValuesFromJSON (raw source : string) : result config_error (gmap string string) :=
  match read_object raw with
  | None => Err (ConfigError (EWrap ("celerity: the config store " +:+ go_quote source +:+
      " does not hold a JSON object: " +:+ error_text (json_error raw)) (json_error raw)))
  | Some values => Ok (valueAsString <$> values)
  end.
End values.

(** ** Backends *)

Record Backend (W : Type) : Type := MkBackend {
  Fetch : string → W → result config_error (gmap string string) * W;
  Caching : bool;                               (* [SelfCaching], where it is one *)
}.
Arguments Fetch {W}. Arguments Caching {W}. Arguments MkBackend {W}.

Definition MapBackend {W} (b : gmap string (gmap string string)) : Backend W :=
  MkBackend (λ storeID w,
    (match b !! storeID with Some vs => Ok vs | None => Err (MissingStoreError storeID) end, w))
    false.

Definition EmptyBackend {W} : Backend W := MkBackend (λ _ w, (Ok ∅, w)) false.

(** ** A namespace *)

Section namespace.
Context {W : Type} (now : W → Z).

Record namespace : Type := MkNamespace {
  backend : Backend W;
  storeID : string;
  prefix : string;
  refresh : Z;                                        (* nanoseconds *)
  held : option (gmap string string);
  checkedAt : Z;
}.

Definition NamespaceOption : Type := namespace → namespace.

Definition WithPrefix (p : string) : NamespaceOption := λ n,
  MkNamespace n.(backend) n.(storeID) p n.(refresh) n.(held) n.(checkedAt).
Definition WithRefresh (interval : Z) : NamespaceOption := λ n,
  MkNamespace n.(backend) n.(storeID) n.(prefix) interval n.(held) n.(checkedAt).

(** The zero [time.Time] is before any clock. *)
Definition zero_time : Z := -62135596800000000000.

Definition NewNamespace (b : Backend W) (storeID : string) (opts : list NamespaceOption) :
    namespace :=
  foldl (λ n opt, opt n) (MkNamespace b storeID "" 0 None zero_time) opts.

Definition applyPrefix (p : string) (vs : gmap string string) : gmap string string :=
  if bool_decide (p = "") then vs
  else list_to_map (omap (λ '(key, v), (λ after, (after, v)) <$> cut_prefix (p +:+ "/") key)
                      (map_to_list vs)).

Definition stale (n : namespace) (w : W) : bool :=
  (0 <? n.(refresh))%Z && (n.(refresh) <=? now w - n.(checkedAt))%Z.

Definition set_cell (n : namespace) (vs : option (gmap string string)) (at_ : Z) : namespace :=
  MkNamespace n.(backend) n.(storeID) n.(prefix) n.(refresh) vs at_.

(** Whether a read has to go to the store. *)
Definition due (n : namespace) (w : W) : bool := negb (is_some n.(held)) || stale n w.

Definition load (n : namespace) (w : W) :
    result config_error (gmap string string) * namespace * W :=
  match n.(held) with
  | Some vs =>
      if negb (stale n w) then (Ok vs, n, w)
      else match n.(backend).(Fetch) n.(storeID) w with
           | (Err _, w) => (Ok vs, set_cell n (Some vs) (now w), w)
           | (Ok fetched, w) =>
               let vs := applyPrefix n.(prefix) fetched in
               (Ok vs, set_cell n (Some vs) (now w), w)
           end
  | None =>
      match n.(backend).(Fetch) n.(storeID) w with
      | (Err err, w) => (Err err, set_cell n None (now w), w)
      | (Ok fetched, w) =>
          let vs := applyPrefix n.(prefix) fetched in
          (Ok vs, set_cell n (Some vs) (now w), w)
      end
  end.

Definition ns_Lookup (n : namespace) (key : string) (w : W) :
    result config_error (option string) * namespace * W :=
  let '(r, n, w) := load n w in
  (let! vs := r in Ok (vs !! key), n, w).

Definition ns_Get (n : namespace) (key : string) (w : W) :
    result config_error string * namespace * W :=
  let '(r, n, w) := ns_Lookup n key w in
  (let! v := r in
   match v with Some v => Ok v | None => Err (MissingKeyError n.(storeID) key) end, n, w).

Definition ns_All (n : namespace) (w : W) :
    result config_error (gmap string string) * namespace * W := load n w.
End namespace.
Arguments namespace : clear implicits.

(** ** Links and scope *)

Record Link : Type := MkLink { LinkType : string; ConfigKey : string }.
Abbreviation Links := (gmap string Link) (only parsing).

(** The names a walk of a map meets, of one kind. *)
Definition namesOf (l : Links) (kind : string) : list string :=
  sort_strings (omap (λ '(name, link),
    if bool_decide (link.(LinkType) = kind) then Some name else None) (map_to_list l)).

Definition Find (l : Links) (kind name : string) : result config_error Link :=
  match l !! name with
  | None => Err (MissingLinkError kind name (namesOf l kind))
  | Some link =>
      if bool_decide (link.(LinkType) = kind) then Ok link
      else Err (ConfigError (EString ("celerity: resource " +:+ go_quote name +:+ " is a " +:+
             link.(LinkType) +:+ ", and was asked for as a " +:+ kind)))
  end.

Definition OfKind (l : Links) (kind : string) : Links :=
  filter (λ x, x.2.(LinkType) = kind) l.

(** [json.Unmarshal] of one link: a name matches whatever its case, [null] leaves a field
    alone, and the last of a repeated name stands. *)
Fixpoint read_link (ms : list (string * json)) (l : Link) : option Link :=
  match ms with
  | [] => Some l
  | (name, j) :: ms =>
      if bool_decide (to_lower name = "type") then
        match j with
        | JStr s => read_link ms (MkLink s l.(ConfigKey))
        | JNull => read_link ms l
        | _ => None
        end
      else if bool_decide (to_lower name = "configkey") then
        match j with
        | JStr s => read_link ms (MkLink l.(LinkType) s)
        | JNull => read_link ms l
        | _ => None
        end
      else read_link ms l
  end.

Definition read_links (j : json) : option Links :=
  match j with
  | JNull => Some ∅
  | JObj ms =>
      (λ ls, members_of ls) <$> mapM (λ '(name, j),
        pair name <$> match j with
                      | JObj ms => read_link ms (MkLink "" "")
                      | JNull => Some (MkLink "" "")
                      | _ => None
                      end) ms
  | _ => None
  end.

Definition LinksFilename : string := "__celerity_resource_links__.json".
Definition LinksPathEnvVar : string := "CELERITY_RESOURCE_LINKS_PATH".
Definition LinksEnvVar : string := "CELERITY_RESOURCE_LINKS".

Definition linksPath (env : string → string) : string :=
  if bool_decide (env LinksPathEnvVar = "") then LinksFilename else env LinksPathEnvVar.

Section files.
(** What [json.Unmarshal] says of a text, [os.ReadFile], and
    [filepath.Join(filepath.Dir(path), ScopeFilename)]. *)
Context (json_error : string → error) (ReadFile : string → result error string).
Context (scopePath : string → string).

Definition parseLinks (raw source : string) : result error Links :=
  match parse raw ≫= read_links with
  | Some links => Ok links
  | None => Err (EWrap ("celerity: the resource links in " +:+ source +:+
                  " are not valid JSON: " +:+ error_text (json_error raw)) (json_error raw))
  end.

Definition LoadLinks (env : string → string) : result error Links :=
  let path := linksPath env in
  match ReadFile path with
  | Ok raw => parseLinks raw path
  | Err err =>
      let inline := env LinksEnvVar in
      if bool_decide (inline = "") then
        Err (EWrap ("celerity: no resource links at " +:+ path +:+ " and none in " +:+
               LinksEnvVar +:+ ": " +:+ error_text err +:+
               " (written by celerity build, and set by celerity dev)") err)
      else parseLinks inline LinksEnvVar
  end.

(** [json.Unmarshal] of the scope file: the resources of each handler. *)
Definition read_names (j : json) : option (list string) :=
  match j with
  | JNull => Some []
  | JArr js => mapM (λ j, match j with
                          | JStr s => Some s
                          | JNull => Some ""
                          | _ => None
                          end) js
  | _ => None
  end.

Definition read_scopes (j : json) : option (gmap string (list string)) :=
  match j with
  | JNull => Some ∅
  | JObj ms =>
      (λ ss, members_of ss) <$> mapM (λ '(name, j), pair name <$> read_names j) ms
  | _ => None
  end.

Definition LoadScope (env : string → string) (handlerID : string) : option (gset string) :=
  if bool_decide (handlerID = "") then None
  else match ReadFile (scopePath (linksPath env)) with
  | Err _ => None
  | Ok raw =>
      match parse raw ≫= read_scopes with
      | None => None
      | Some byHandler => (λ names, list_to_set names) <$> byHandler !! handlerID
      end
  end.
End files.

(** ** The service *)

Section service.
Context {W : Type} (now : W → Z).

Definition ResourcesNamespace : string := "resources".

Record Service : Type := MkService {
  namespaces : gmap string (namespace W);
  links : Links;
}.

Definition New : Service := MkService ∅ ∅.

Definition Register (s : Service) (name : string) (ns : namespace W) : Service :=
  MkService (<[name := ns]> s.(namespaces)) s.(links).
Definition WithLinks (s : Service) (l : Links) : Service := MkService s.(namespaces) l.

Definition registered (s : Service) : list string := sort_strings (keys s.(namespaces)).

Definition Namespace_ (s : Service) (name : string) : result config_error (namespace W) :=
  match s.(namespaces) !! name with
  | Some ns => Ok ns
  | None => Err (MissingNamespaceError name (registered s))
  end.

(** The namespaces of the application's own. *)
Definition own (s : Service) : list (string * namespace W) :=
  filter (λ x, x.1 ≠ ResourcesNamespace) (map_to_list s.(namespaces)).

Definition only (s : Service) : result config_error (string * namespace W) :=
  match own s with
  | [] => Err (MissingNamespaceError "" (registered s))
  | [found] => Ok found
  | several => Err (AmbiguousNamespaceError (sort_strings several.*1))
  end.

(** An operation of the one namespace, whose cell it writes. *)
Definition of_only {A} (f : namespace W → W → result config_error A * namespace W * W)
    (s : Service) (w : W) : result config_error A * Service * W :=
  match only s with
  | Err err => (Err err, s, w)
  | Ok (name, ns) => let '(r, ns, w) := f ns w in (r, Register s name ns, w)
  end.

Definition Lookup (s : Service) (key : string) (w : W) :
    result config_error (option string) * Service * W := of_only (λ ns, ns_Lookup now ns key) s w.
Definition Get (s : Service) (key : string) (w : W) :
    result config_error string * Service * W := of_only (λ ns, ns_Get now ns key) s w.
Definition All (s : Service) (w : W) :
    result config_error (gmap string string) * Service * W := of_only (ns_All now) s w.

Definition ResourceKey (s : Service) (kind name : string) : result config_error string :=
  let! link := Find s.(links) kind name in Ok link.(ConfigKey).

Definition Resource (s : Service) (kind name : string) (w : W) :
    result config_error string * Service * W :=
  match ResourceKey s kind name with
  | Err err => (Err err, s, w)
  | Ok key =>
      match Namespace_ s ResourcesNamespace with
      | Err err => (Err err, s, w)
      | Ok ns => let '(r, ns, w) := ns_Get now ns key w in (r, Register s ResourcesNamespace ns, w)
      end
  end.

(** ** Providers *)

Record Provider : Type := MkProvider {
  providerName : string;
  providerPlatform : string;
  providerBackend : string → result error (Backend W);
}.

(** [RegisterProvider]; an error is the panic. *)
Definition RegisterProvider (ps : list Provider) (p : Provider) : result string (list Provider) :=
  match list_find (λ q, q.(providerPlatform) = p.(providerPlatform)) ps with
  | Some (_, existing) =>
      Err ("celerity: config providers " +:+ go_quote existing.(providerName) +:+ " and " +:+
           go_quote p.(providerName) +:+ " both serve platform " +:+
           go_quote p.(providerPlatform))
  | None => Ok (ps ++ [p])
  end.

Definition RegisteredProviders (ps : list Provider) : list string :=
  sort_strings (providerName <$> ps).

Definition providerFor (ps : list Provider) (platform : string) : option Provider :=
  snd <$> list_find (λ p, p.(providerPlatform) = platform) ps.

Definition backendFor (ps : list Provider) (platform kind : string) :
    result config_error (Backend W) :=
  match providerFor ps platform with
  | None => Ok EmptyBackend
  | Some p =>
      match p.(providerBackend) kind with
      | Ok b => Ok b
      | Err err => Err (ConfigError (EWrap ("celerity: " +:+ p.(providerName) +:+ " cannot read a " +:+
                     go_quote kind +:+ " store: " +:+ error_text err) err))
      end
  end.
End service.
Arguments Service : clear implicits.
Arguments Provider : clear implicits.

(** ** Discovery *)

Definition StoreIDEnvVar : string := "CELERITY_CONFIG_STORE_ID".
Definition StoreKindEnvVar : string := "CELERITY_CONFIG_STORE_KIND".
Definition RefreshEnvVar : string := "CELERITY_CONFIG_REFRESH_INTERVAL_MS".
Definition namespacePrefix : string := "CELERITY_CONFIG_".
Definition storeIDSuffix : string := "_STORE_ID".
Definition storeKindSuffix : string := "_STORE_KIND".
Definition prefixSuffix : string := "_STORE_PREFIX".
Definition namespaceSuffix : string := "_NAMESPACE".
Definition DefaultNamespace : string := "default".

(** Nanoseconds, as [time.Duration] counts. *)
Definition Millisecond : Z := 1000000.
Definition DefaultRefresh : Z := 30000 * Millisecond.

(** A conversion to int64. *)
Definition to_int64 (n : Z) : Z := ((n + 2 ^ 63) mod 2 ^ 64 - 2 ^ 63)%Z.

Record store : Type := MkStore {
  name : string;
  st_storeID : string;
  kind : string;
  st_prefix : string;
}.

Definition environMap (environ : list string) : gmap string string :=
  foldl (λ vars entry, match cut "=" entry with
                       | Some (name, value) => <[name := value]> vars
                       | None => vars
                       end) ∅ environ.

Definition getenv (vars : gmap string string) (name : string) : string := default "" (vars !! name).

Definition firstNonEmpty (l : list string) : string :=
  match list_find (λ v, v ≠ "") l with Some (_, v) => v | None => "" end.

Definition namedStoreKey (name : string) : option string :=
  match cut_prefix namespacePrefix name with
  | None => None
  | Some rest =>
      match cut_suffix storeIDSuffix rest with
      | None => None
      | Some key => if bool_decide (key = "") then None
                    else if bool_decide (key = "STORE") then None
                    else Some key
      end
  end.

Definition unnamedStore (vars : gmap string string) : option store :=
  let id := getenv vars StoreIDEnvVar in
  if bool_decide (id = "") then None
  else Some (MkStore DefaultNamespace id (getenv vars StoreKindEnvVar) "").

Definition namedStore (vars : gmap string string) (entry : string * string) : option store :=
  let '(name, value) := entry in
  match namedStoreKey name with
  | None => None
  | Some key =>
      if bool_decide (value = "") then None
      else
        let prefix := getenv vars (namespacePrefix +:+ key +:+ prefixSuffix) in
        Some (MkStore
          (firstNonEmpty [getenv vars (namespacePrefix +:+ key +:+ namespaceSuffix); prefix;
                          to_lower key])
          value (getenv vars (namespacePrefix +:+ key +:+ storeKindSuffix)) prefix)
  end.

(** The order of [sort.Slice], which is by name and says nothing of equal names. *)
Definition by_name (a b : store) : Prop := String.le a.(name) b.(name).
#[export] Instance by_name_dec : RelDecision by_name.
Proof. intros a b. unfold by_name. apply _. Defined.

(** The stores described, in the order of one walk over the map of variables. *)
Definition described (vars : gmap string string) (walk : list (string * string)) : list store :=
  option_list (unnamedStore vars) ++ omap (namedStore vars) walk.

Definition discoverStores (environ : list string) (walk : list (string * string)) : list store :=
  merge_sort by_name (described (environMap environ) walk).

Definition refreshInterval (environ : list string) : Z :=
  match environMap environ !! RefreshEnvVar with
  | None => DefaultRefresh
  | Some raw =>
      match ParseInt raw 64 with
      | Err _ => 0%Z
      | Ok ms => if (ms <=? 0)%Z then 0%Z else to_int64 (ms * Millisecond)
      end
  end.

Section environment.
Context {W : Type} (providers : list (Provider W)).

Definition namespace_options (refresh : Z) (b : Backend W) (s : store) :
    list (@NamespaceOption W) :=
  (if bool_decide (s.(st_prefix) = "") then [] else [WithPrefix s.(st_prefix)]) ++
  (if (0 <? refresh)%Z && negb b.(Caching) then [WithRefresh refresh] else []).

Definition register_store (platform : string) (refresh : Z) (svc : Service W) (s : store) :
    result config_error (Service W) :=
  let! b := backendFor providers platform s.(kind) in
  Ok (Register svc s.(name) (NewNamespace b s.(st_storeID) (namespace_options refresh b s))).

Fixpoint register_stores (platform : string) (refresh : Z) (svc : Service W) (l : list store) :
    result config_error (Service W) :=
  match l with
  | [] => Ok svc
  | s :: l => let! svc := register_store platform refresh svc s in
              register_stores platform refresh svc l
  end.

(** [fromEnvironment]. *)
Definition fromEnvironment (environ : list string) (platform : string)
    (walk : list (string * string)) : result config_error (Service W) :=
  register_stores platform (refreshInterval environ) New (discoverStores environ walk).

(** [FromEnvironment]. *)
Definition FromEnvironment (environ : list string) (walk : list (string * string)) :
    result config_error (Service W) :=
  fromEnvironment environ (CurrentPlatform (getenv (environMap environ))) walk.
End environment.

(** ** What a prefix serves *)

Lemma applyPrefix_lookup p vs k :
  applyPrefix p vs !! k = if bool_decide (p = "") then vs !! k else vs !! (p +:+ "/" +:+ k).
Proof.
  unfold applyPrefix. case_bool_decide as Hp; [done|].
  set (f := λ '(key, v), (λ after, (after, v)) <$> cut_prefix (p +:+ "/") key).
  assert (∀ a v, (a, v) ∈ omap f (map_to_list vs) ↔ vs !! (p +:+ "/" +:+ a) = Some v) as Hin.
  { intros a v. rewrite list_elem_of_omap. split.
    - intros ([key v'] & Hin & Hf). apply elem_of_map_to_list in Hin. unfold f in Hf.
      destruct (cut_prefix (p +:+ "/") key) as [after|] eqn:E; [|done]. simplify_eq/=.
      apply cut_prefix_Some in E as ->. by rewrite append_assoc in Hin.
    - intros Hl. exists (p +:+ "/" +:+ a, v). split; [by apply elem_of_map_to_list|].
      unfold f. by rewrite <- append_assoc, cut_prefix_app. }
  apply option_eq. intros v. rewrite <- Hin. split; [apply elem_of_list_to_map_2|].
  intros Hv. apply elem_of_list_to_map_1'; [|done].
  intros v' Hv'%Hin. apply Hin in Hv. congruence.
Qed.

(** ** How often a store is read, and how old what it answers may be *)

Section reading.
Context {W : Type} (now : W → Z).

(** What reads of a namespace are made of: loads, and whatever passes between them. *)
Inductive lived (n0 : namespace W) : namespace W → W → Prop :=
  | lived_new w : lived n0 n0 w
  | lived_wait n w w' : lived n0 n w → (now w <= now w')%Z → lived n0 n w'
  | lived_load n w r n' w' : lived n0 n w → load now n w = (r, n', w') → lived n0 n' w'.

(** A run of loads, each after a delay: how often it goes to the store. *)
Fixpoint reads (delays : list (W → W)) (n : namespace W) (w : W) : nat * W :=
  match delays with
  | [] => (0, w)
  | d :: delays =>
      let w := d w in
      let '(_, n', w') := load now n w in
      let '(count, wend) := reads delays n' w' in
      ((if due now n w then 1 else 0) + count, wend)
  end.

Definition clock_forward (b : Backend W) : Prop :=
  ∀ id w, (now w <= now (b.(Fetch) id w).2)%Z.

(** What one load does: it answers what the namespace holds afterwards, and goes to the
    store exactly where a read is due. *)
Lemma load_spec n w r n' w' :
  load now n w = (r, n', w') →
  n'.(backend) = n.(backend) ∧ n'.(storeID) = n.(storeID) ∧ n'.(prefix) = n.(prefix) ∧
  n'.(refresh) = n.(refresh) ∧
  if due now n w then
    w' = (n.(backend).(Fetch) n.(storeID) w).2 ∧ n'.(checkedAt) = now w' ∧
    match (n.(backend).(Fetch) n.(storeID) w).1 with
    | Ok fetched => let vs := applyPrefix n.(prefix) fetched in r = Ok vs ∧ n'.(held) = Some vs
    | Err err => n'.(held) = n.(held) ∧ r = match n.(held) with Some vs => Ok vs | None => Err err end
    end
  else n' = n ∧ w' = w ∧ ∃ vs, n.(held) = Some vs ∧ r = Ok vs.
Proof.
  unfold load, due. destruct (held n) as [vs|] eqn:Eh; cbn.
  - destruct (stale now n w) eqn:Es; cbn.
    + destruct (Fetch _ _ w) as [[fetched|err] w1]; intros [= <- <- <-]; cbn; done.
    + intros [= <- <- <-]. eauto 10.
  - destruct (Fetch _ _ w) as [[fetched|err] w1]; intros [= <- <- <-]; cbn; done.
Qed.

(** A namespace that holds values goes to its store at most once an interval, however
    often it is read, however long its reads take and whatever they answer; one that is
    never refreshed does not go to it again. *)
Lemma reads_are_bounded delays n w count wend :
  clock_forward n.(backend) → Forall (λ d, ∀ w, (now w <= now (d w))%Z) delays →
  is_Some n.(held) → (n.(checkedAt) <= now w)%Z → (0 <= n.(refresh))%Z →
  reads delays n w = (count, wend) →
  (n.(refresh) * Z.of_nat count <= now wend - n.(checkedAt))%Z ∧
  (n.(refresh) = 0%Z → count = 0).
Proof.
  intros Hb Hd. revert n w count Hb. induction Hd as [|d delays Hd _ IH];
    intros n w count Hb Hh Hc Hr; cbn [reads].
  { intros [= <- <-]. lia. }
  destruct (load now n (d w)) as [[r n'] w'] eqn:El.
  destruct (reads delays n' w') as [count' wend'] eqn:Er. intros [= <- <-].
  apply load_spec in El as (Eb & Es & Ep & Erf & Hdue). specialize (Hd w).
  assert (is_Some n'.(held)) as Hh'.
  { destruct Hh as [vs Hh]. destruct (due now n (d w)).
    - destruct Hdue as (_ & _ & Hf). destruct (Fetch _ _ _) as [[] ?]; cbn in Hf; destruct Hf as [Hf1 Hf2];
        [by eexists|rewrite Hf1; by eexists].
    - destruct Hdue as (-> & _). by eexists. }
  destruct (due now n (d w)) eqn:Edue.
  - destruct Hdue as (-> & Hat & _). pose proof (Hb n.(storeID) (d w)) as Hfw.
    assert (n'.(checkedAt) <= now (n.(backend).(Fetch) n.(storeID) (d w)).2)%Z as Hc' by lia.
    assert (0 <= n'.(refresh))%Z as Hr' by lia.
    destruct (IH n' _ count' ltac:(by rewrite Eb) Hh' Hc' Hr' Er) as [IH1 IH2].
    destruct Hh as [vs Hh]. unfold due in Edue. rewrite Hh in Edue. cbn in Edue.
    unfold stale in Edue. apply andb_true_iff in Edue as [H0%Z.ltb_lt H1%Z.leb_le].
    rewrite Nat2Z.inj_succ, Z.mul_succ_r, <- Erf. lia.
  - destruct Hdue as (-> & -> & _).
    by apply (IH n (d w) count' Hb Hh ltac:(lia) Hr).
Qed.

(** What a namespace holds was fetched, and where a refresh is overdue its last try
    failed. *)
Definition sound_cell (n : namespace W) (w : W) : Prop :=
  ∀ vs, n.(held) = Some vs → ∃ w0 fetched w1,
    n.(backend).(Fetch) n.(storeID) w0 = (Ok fetched, w1) ∧ vs = applyPrefix n.(prefix) fetched ∧
    (now w1 <= n.(checkedAt))%Z ∧ (n.(checkedAt) <= now w)%Z ∧
    (n.(checkedAt) = now w1 ∨
     ∃ w2 err w3, n.(backend).(Fetch) n.(storeID) w2 = (Err err, w3) ∧ n.(checkedAt) = now w3).

Lemma sound_cell_load n w r n' w' :
  clock_forward n.(backend) → sound_cell n w → load now n w = (r, n', w') → sound_cell n' w'.
Proof.
  intros Hb Hs El. pose proof (Hb n.(storeID) w) as Hfw. apply load_spec in El as (Eb & Es & Ep & _ & Hdue).
  destruct (due now n w).
  - destruct Hdue as (Hw & Hat & Hf). destruct (Fetch n.(backend) n.(storeID) w) as [r' w1] eqn:Ef.
    cbn in *. subst w1. intros vs Hv. rewrite Eb, Es, Ep, Hat. destruct r' as [fetched|err].
    + destruct Hf as [_ Hf]. exists w, fetched, w'. rewrite Hf in Hv. injection Hv as <-.
      split_and!; [done|done|lia|lia|by left].
    + destruct Hf as [Hf _]. rewrite Hf in Hv. destruct (Hs vs Hv) as (w0 & f & w2 & H1 & -> & H3 & H4 & _).
      exists w0, f, w2. split_and!; [done|done|lia|lia|right; by exists w, err, w'].
  - destruct Hdue as (-> & -> & _). exact Hs.
Qed.

(** C15: what a read answers was fetched from its own store, narrowed to its prefix, and is
    no older than the interval it is refreshed by, unless the store refused to be read
    again within the interval. *)
Theorem reads_are_fresh n0 n w r n' w' vs :
  clock_forward n0.(backend) → n0.(held) = None → lived n0 n w →
  load now n w = (r, n', w') → r = Ok vs →
  ∃ w0 fetched w1, n0.(backend).(Fetch) n0.(storeID) w0 = (Ok fetched, w1) ∧
    vs = applyPrefix n0.(prefix) fetched ∧
    ((n0.(refresh) <= 0)%Z ∨ (now w - now w1 < n0.(refresh))%Z ∨
     ∃ w2 err w3, n0.(backend).(Fetch) n0.(storeID) w2 = (Err err, w3) ∧
       (now w1 <= now w3)%Z ∧ (now w - now w3 < n0.(refresh))%Z).
Proof.
  intros Hb Hnone Hl El Hr.
  assert (n.(backend) = n0.(backend) ∧ n.(storeID) = n0.(storeID) ∧ n.(prefix) = n0.(prefix) ∧
          n.(refresh) = n0.(refresh) ∧ sound_cell n w) as (Eb & Es & Ep & Erf & Hs).
  { clear El Hr. induction Hl as [w0|n1 w1 w2 _ (?&?&?&?&Hs) Hw|n1 w1 r1 n2 w2 _ (?&?&?&?&Hs) Hld].
    - split_and!; try done. intros v Hv. congruence.
    - split_and!; try done. intros v Hv. destruct (Hs v Hv) as (a & f & c & ? & ? & ? & ? & ?).
      exists a, f, c. split_and!; try done. lia.
    - pose proof (load_spec _ _ _ _ _ Hld) as (?&?&?&?&_). split_and!; try congruence.
      eapply sound_cell_load; [|done|done]. congruence. }
  pose proof (sound_cell_load n w r n' w' ltac:(congruence) Hs El) as Hs'.
  pose proof (load_spec _ _ _ _ _ El) as (Eb' & Es' & Ep' & _ & Hdue).
  assert (n'.(held) = Some vs) as Hv.
  { destruct (due now n w).
    - destruct Hdue as (_ & _ & Hf). destruct (Fetch _ _ _) as [[] ?]; cbn in Hf; destruct Hf as [Hf1 Hf2].
      + congruence.
      + rewrite Hf1. destruct (held n); congruence.
    - destruct Hdue as (-> & _ & v & Hv & Hr'). congruence. }
  destruct (Hs' vs Hv) as (w0 & f & w1 & Hf & -> & Hle1 & Hle2 & Hat).
  rewrite Eb', Es', Eb, Es in Hf. exists w0, f, w1. split_and!; [done|congruence|].
  destruct (decide (n0.(refresh) <= 0)%Z) as [|Hpos]; [by left|right].
  assert (now w - n'.(checkedAt) < n0.(refresh))%Z as Hage.
  { destruct (due now n w) eqn:Edue.
    - destruct Hdue as (-> & -> & _). pose proof (Hb n.(storeID) w). rewrite <- Eb in *. lia.
    - destruct Hdue as (-> & -> & v & Hv' & _). unfold due, stale in Edue. rewrite Hv' in Edue.
      cbn in Edue. rewrite Erf in Edue. apply andb_false_iff in Edue as [E%Z.ltb_ge|E%Z.leb_gt]; lia. }
  destruct Hat as [Hat|(w2 & err & w3 & Hw2 & Hat)]; [left; lia|right].
  rewrite Eb', Es', Eb, Es in Hw2. exists w2, err, w3. split_and!; [done|lia|lia].
Qed.

(** A store whose first read failed is asked by every read until one succeeds: the time it
    was last tried is written, and only looked at once there are values. *)
Lemma refused_store_is_asked_again n w err w1 :
  n.(held) = None → n.(backend).(Fetch) n.(storeID) w = (Err err, w1) →
  ∀ w2, due now (load now n w).1.2 w2 = true.
Proof. intros Hh Hf w2. unfold load. rewrite Hh, Hf. done. Qed.
End reading.

(** ** The one namespace of an application's own *)

(** A value asked for without a namespace is read from the application's only store,
    the deployment's resources store not counting, and with none or several of its own it
    is refused, naming them in order: no store is ever guessed. *)
Lemma only_never_guesses {W : Type} (s : Service W) :
  match only s with
  | Ok (name, ns) =>
      name ≠ ResourcesNamespace ∧ s.(namespaces) !! name = Some ns ∧
      ∀ other, other ≠ ResourcesNamespace → is_Some (s.(namespaces) !! other) → other = name
  | Err (MissingNamespaceError name names) =>
      name = "" ∧ names = registered s ∧ dom s.(namespaces) ⊆ {[ResourcesNamespace]}
  | Err (AmbiguousNamespaceError names) =>
      2 ≤ length names ∧ StronglySorted String.le names ∧ NoDup names ∧
      ∀ name, name ∈ names ↔ name ≠ ResourcesNamespace ∧ is_Some (s.(namespaces) !! name)
  | Err _ => False
  end.
Proof.
  assert (∀ name ns, (name, ns) ∈ own s ↔
            name ≠ ResourcesNamespace ∧ s.(namespaces) !! name = Some ns) as Hown.
  { intros name ns. unfold own. by rewrite list_elem_of_filter, elem_of_map_to_list. }
  unfold only. destruct (own s) as [|[name ns] [|two rest]] eqn:Eo.
  - split_and!; [done|done|]. intros name [ns Hn]%elem_of_dom. rewrite elem_of_singleton.
    destruct (decide (name = ResourcesNamespace)) as [|Hne]; [done|].
    exfalso. eapply not_elem_of_nil. apply Hown. by split.
  - destruct (proj1 (Hown name ns)) as [H1 H2]; [by left|]. split_and!; [done|done|].
    intros other Hne [ns' Hn].
    assert ((other, ns') ∈ [(name, ns)]) as Hin by (apply Hown; by split).
    apply list_elem_of_singleton in Hin. congruence.
  - rewrite <- Eo in *. split_and!; [|auto with go| |].
    + unfold sort_strings. rewrite (Permutation_length (sort_strings_perm _)), length_fmap, Eo.
      simpl. lia.
    + apply sort_strings_NoDup, NoDup_fmap_fst; [|apply NoDup_filter, NoDup_map_to_list].
      intros x a b Ha Hb. apply Hown in Ha as [_ Ha], Hb as [_ Hb]. congruence.
    + intros x. rewrite elem_of_sort_strings, list_elem_of_fmap. split.
      * intros ([x' ns'] & -> & Hin). apply Hown in Hin as [Hne Hn]. eauto.
      * intros [Hne [ns' Hn]]. exists (x, ns'). split; [done|]. by apply Hown.
Qed.

(** ** Discovery finds every store, whatever the environment's order *)

Lemma namedStoreKey_spec name key :
  namedStoreKey name = Some key ↔
  name = namespacePrefix +:+ key +:+ storeIDSuffix ∧ key ≠ "" ∧ key ≠ "STORE".
Proof.
  unfold namedStoreKey. destruct (cut_prefix _ name) as [rest|] eqn:Ep.
  2:{ split; [done|]. intros [-> _]. by rewrite cut_prefix_app in Ep. }
  apply cut_prefix_Some in Ep as ->.
  assert (∀ key, namespacePrefix +:+ rest = namespacePrefix +:+ key +:+ storeIDSuffix ↔
                 cut_suffix storeIDSuffix rest = Some key) as Hs.
  { intros k. rewrite cut_suffix_Some. split; [by intros ?%(inj _)|by intros ->]. }
  rewrite Hs. destruct (cut_suffix _ rest) as [k|]; [|naive_solver].
  repeat case_bool_decide; naive_solver.
Qed.

Section discovery.
Context {W : Type} (providers : list (Provider W)).

#[local] Instance by_name_total : Total by_name.
Proof. intros a b. apply (total String.le). Qed.

#[local] Instance by_name_trans : Transitive by_name.
Proof. intros a b c. apply (transitivity (R := String.le)). Qed.

Lemma described_perm vars walk walk' :
  walk ≡ₚ walk' → described vars walk ≡ₚ described vars walk'.
Proof. intros Hw. unfold described. by rewrite Hw. Qed.

(** Two stores of one name apart, the order found does not matter. *)
Lemma discover_determined environ walk walk' :
  walk ≡ₚ walk' → NoDup (name <$> described (environMap environ) walk) →
  discoverStores environ walk = discoverStores environ walk'.
Proof.
  intros Hw Hn. unfold discoverStores. apply (StronglySorted_unique_strong by_name).
  - intros a b Ha Hb Hab Hba.
    rewrite merge_sort_Permutation in Ha. rewrite merge_sort_Permutation in Hb.
    rewrite <- (described_perm _ _ _ Hw) in Hb.
    pose proof (anti_symm String.le _ _ Hab Hba) as Heq. unfold by_name in *.
    apply list_elem_of_lookup in Ha as [i Hi], Hb as [j Hj].
    assert (i = j) as ->; [|congruence].
    eapply (NoDup_lookup (name <$> described _ walk)); [done| |].
    + rewrite list_lookup_fmap, Hi. done.
    + rewrite list_lookup_fmap, Hj. cbn. by rewrite Heq.
  - apply StronglySorted_merge_sort; apply _.
  - apply StronglySorted_merge_sort; apply _.
  - rewrite !merge_sort_Permutation. by apply described_perm.
Qed.

(** What a store is registered as. *)
Definition serves (platform : string) (refresh : Z) (svc : Service W) (s : store) : Prop :=
  ∃ b, backendFor providers platform s.(kind) = Ok b ∧
       svc.(namespaces) !! s.(name) =
       Some (NewNamespace b s.(st_storeID) (namespace_options refresh b s)).

Lemma register_stores_spec platform refresh l svc svc' :
  NoDup (name <$> l) → register_stores providers platform refresh svc l = Ok svc' →
  Forall (serves platform refresh svc') l ∧
  ∀ nm, nm ∉ name <$> l → svc'.(namespaces) !! nm = svc.(namespaces) !! nm.
Proof.
  revert svc. induction l as [|s l IH]; intros svc Hn; cbn [register_stores].
  { intros [= <-]. by split. }
  apply NoDup_cons in Hn as [Hs Hn]. unfold register_store.
  destruct (backendFor _ _ _) as [b|] eqn:Eb; [|done]. cbn. intros Hr.
  destruct (IH _ Hn Hr) as [IH1 IH2]. split.
  - constructor; [|done]. exists b. split; [done|]. rewrite IH2 by done. cbn.
    by rewrite lookup_insert_eq.
  - intros nm Hnm. apply not_elem_of_cons in Hnm as [Hne Hnm].
    rewrite IH2 by done. cbn. by rewrite lookup_insert_ne.
Qed.

(** An environment that names its stores apart gives one service, whatever order its
    variables are walked in: each store it describes, named or not, is registered under
    its own name, read through its platform's backend, and nothing else is. *)
Lemma discovery_is_complete environ platform walk svc :
  walk ≡ₚ map_to_list (environMap environ) →
  NoDup (name <$> described (environMap environ) walk) →
  fromEnvironment providers environ platform walk = Ok svc →
  (∀ s, s ∈ described (environMap environ) walk →
        serves platform (refreshInterval environ) svc s) ∧
  (∀ nm, is_Some (svc.(namespaces) !! nm) →
         nm ∈ name <$> described (environMap environ) walk) ∧
  ∀ walk', walk' ≡ₚ walk → fromEnvironment providers environ platform walk' = Ok svc.
Proof.
  intros Hw Hn Hf. unfold fromEnvironment in *.
  assert (discoverStores environ walk ≡ₚ described (environMap environ) walk) as Hp.
  { apply merge_sort_Permutation. }
  apply register_stores_spec in Hf as Hspec; [|by rewrite Hp]. destruct Hspec as [Hall Hrest].
  rewrite Hp in Hall. rewrite Forall_forall in Hall. split_and!; [done| |].
  - intros nm [ns Hns]. destruct (decide (nm ∈ name <$> discoverStores environ walk)) as [Hin|Hout].
    + by rewrite Hp in Hin.
    + rewrite Hrest in Hns by done. done.
  - intros walk' Hw'. by rewrite <- (discover_determined environ walk walk') by done.
Qed.
End discovery.

(** The two of a walk that describe stores of the same name: which of them is registered
    is the order of a Go map. *)
Definition shared_prefix : list string :=
  ["CELERITY_CONFIG_SECRETS_STORE_ID=s-1"; "CELERITY_CONFIG_SECRETS_STORE_PREFIX=orders";
   "CELERITY_CONFIG_SETTINGS_STORE_ID=p-1"; "CELERITY_CONFIG_SETTINGS_STORE_PREFIX=orders"].

Definition registered_store (r : result config_error (Service ())) (name : string) :
    option string :=
  match r with Ok svc => storeID <$> svc.(namespaces) !! name | Err _ => None end.

Lemma discovery_races_on_a_shared_name :
  let vars := environMap shared_prefix in
  let registers walk := registered_store (fromEnvironment [] shared_prefix "other" walk) "orders" in
  registers (map_to_list vars) ≠ registers (reverse (map_to_list vars)).
Proof. by vm_compute. Qed.

(** A store called [STORE] is passed over; the unnamed store's own variable never was one
    of the named. *)
Lemma a_store_called_STORE_is_dropped :
  described (environMap ["CELERITY_CONFIG_STORE_STORE_ID=s-1"])
    (map_to_list (environMap ["CELERITY_CONFIG_STORE_STORE_ID=s-1"])) = [] ∧
  cut_prefix namespacePrefix StoreIDEnvVar ≫= cut_suffix storeIDSuffix = None.
Proof. by vm_compute. Qed.

(** ** Witnesses

    A store whose world is its clock: a read takes a second, and every third second it is
    refused. *)
Section examples.

Definition second : Z := 1000 * Millisecond.
Definition flaky : Backend Z :=
  MkBackend (λ id w, (if (w / second mod 3 =? 2)%Z then Err (MissingStoreError id)
                      else Ok {[ "orders/at" := itoa (w / second) ]}, w + second)%Z) false.

Definition polled : namespace Z :=
  (load id (NewNamespace flaky "s-1" [WithPrefix "orders"; WithRefresh (2 * second)%Z])
     (3 * second)%Z).1.2.

Definition ticks : list (Z → Z) := replicate 10 (Z.add second).

Lemma reads_are_bounded_witness :
  (reads id ticks polled (4 * second)%Z).1 = 5 ∧
  (2 * second * 5 <= (reads id ticks polled (4 * second)%Z).2 - 4 * second)%Z.
Proof.
  destruct (reads id ticks polled (4 * second)%Z) as [count wend] eqn:E.
  pose proof (reads_are_bounded id ticks polled (4 * second)%Z count wend) as H.
  assert (count = 5) as ->.
  { pose proof (f_equal fst E) as Hc. vm_compute in Hc. exact (eq_sym Hc). }
  destruct H as [H _]; [| | | |done|done|split; [done|exact H]].
  - intros st w. change (w <= w + second)%Z. unfold second, Millisecond. lia.
  - apply Forall_replicate. intros w. change (w <= second + w)%Z. unfold second, Millisecond. lia.
  - by eexists.
  - done.
Defined.

Lemma reads_are_fresh_witness :
  ∃ w0 fetched w1, flaky.(Fetch) "s-1" w0 = (Ok fetched, w1) ∧
    ({[ "at" := "3" ]} : gmap string string) = applyPrefix "orders" fetched.
Proof.
  set (n0 := NewNamespace flaky "s-1" [WithPrefix "orders"; WithRefresh (2 * second)%Z]).
  destruct (reads_are_fresh id n0 polled (5 * second)%Z (Ok {[ "at" := "3" ]}) polled
    (5 * second)%Z {[ "at" := "3" ]}) as (w0 & f & w1 & Hf & Hv & _).
  - intros st w. change (w <= w + second)%Z. unfold second, Millisecond. lia.
  - done.
  - apply (lived_wait id n0 polled (4 * second)%Z); [|by vm_compute].
    eapply (lived_load id n0 n0 (3 * second)%Z); [constructor|reflexivity].
  - reflexivity.
  - done.
  - exists w0, f, w1. split; [exact Hf|exact Hv].
Defined.

Definition described_two : list string :=
  ["CELERITY_CONFIG_STORE_ID=app"; "CELERITY_CONFIG_RESOURCES_STORE_ID=infra";
   "CELERITY_CONFIG_REFRESH_INTERVAL_MS=500"].

Definition aws_provider : Provider Z := MkProvider "aws" "aws" (λ _, Ok flaky).
Definition two_walk : list (string * string) := map_to_list (environMap described_two).
Definition two_service : Service Z :=
  match fromEnvironment [aws_provider] described_two "aws" two_walk with
  | Ok svc => svc | Err _ => New end.

Lemma discovery_is_complete_witness :
  serves [aws_provider] "aws" (refreshInterval described_two) two_service (MkStore "default" "app" "" "") ∧
  serves [aws_provider] "aws" (refreshInterval described_two) two_service (MkStore "resources" "infra" "" "").
Proof.
  destruct (discovery_is_complete [aws_provider] described_two "aws" two_walk two_service)
    as [H _].
  - done.
  - vm_compute. repeat constructor; set_solver.
  - reflexivity.
  - assert (described (environMap described_two) two_walk =
            [MkStore "default" "app" "" ""; MkStore "resources" "infra" "" ""]) as Hd by (by vm_compute).
    split; apply H; rewrite Hd; [left|right; left].
Defined.
End examples.
