(* ===== verification/ConfigBind.v ===== *)
(** * Configuration bound into a struct

    Models [config/bind.go].  What reflection sees of a caller's struct is [gval]: its
    fields in order, each with its tag.  A nil pointer carries the value [reflect.New]
    makes of its type, so a pointer to a struct of its own type is not a value of the
    model. *)

From S2P Require Import Prelude GoStrings Json Errors Bind Config.
From stdpp Require Import options.

(** ** What reflection sees *)

Record fmeta : Type := MkMeta {
  Anonymous : bool;
  Exported : bool;
  ConfigTag : option string;
  ElemName : string;                       (* of an embedded pointer's type *)
}.

Inductive gval (F : Type) : Type :=
  | GString (s : string)
  | GBool (b : bool)
  | GInt (bits n : Z)
  | GUint (bits n : Z)
  | GFloat (bits : Z) (f : F)
  | GDuration (n : Z)
  | GTime (n : Z)
  | GOther (kind : string)
  | GPtr (isnil : bool) (to : gval F)
  | GStruct (fields : list (fmeta * gval F)).
Arguments GString {F}. Arguments GBool {F}. Arguments GInt {F}. Arguments GUint {F}.
Arguments GFloat {F}. Arguments GDuration {F}. Arguments GTime {F}. Arguments GOther {F}.
Arguments GPtr {F}. Arguments GStruct {F}.

Section bind.
(** [strconv.ParseFloat] and [time.ParseDuration]. *)
Context {F : Type} (ParseFloat : string → Z → option F) (ParseDuration : string → option Z).
Abbreviation gval := (gval F).

Definition separators : list string := ["_"; "/"].

Definition candidates (prefixes : list string) (tag : string) : list string :=
  match prefixes with
  | [] => [tag]
  | _ => p ← prefixes; (λ separator, p +:+ separator +:+ tag) <$> separators
  end.

Definition held_under (values : gmap string string) (key : string) : option (string * string) :=
  (λ raw, (raw, key)) <$> values !! key.

(** The first key that is held, of those a field may be written under. *)
Fixpoint first_held (values : gmap string string) (keys : list string) :
    option (string * string) :=
  match keys with
  | [] => None
  | key :: keys => match held_under values key with
                   | Some found => Some found
                   | None => first_held values keys
                   end
  end.

Definition lookup_tag (values : gmap string string) (prefixes : list string) (tag : string) :
    option (string * string) := first_held values (candidates prefixes tag).

(** [groupToDescend]: whether there is a struct behind the pointers, which are allocated
    either way ([allocated]). *)
Fixpoint is_group (v : gval) : bool :=
  match v with GPtr _ to => is_group to | GStruct _ => true | _ => false end.
(** The kind of what is behind the pointers, a [time.Time] being a struct too. *)
Fixpoint is_struct (v : gval) : bool :=
  match v with GPtr _ to => is_struct to | GStruct _ | GTime _ => true | _ => false end.
Fixpoint allocated (v : gval) : gval :=
  match v with GPtr _ to => GPtr false (allocated to) | v => v end.

Definition quoted (raw what : string) : error := EString (go_quote raw +:+ what).
Definition unreadable (kind : string) : error :=
  EString ("a " +:+ kind +:+ " cannot be read from a configuration value").

Definition setConfigField (v : gval) (raw : string) : result error gval :=
  match v with
  | GDuration _ =>
      match ParseDuration raw with
      | Some d => Ok (GDuration d)
      | None => Err (quoted raw " is not a duration, such as 30s or 500ms")
      end
  | GString _ => Ok (GString raw)
  | GBool _ =>
      match ParseBool raw with
      | Ok b => Ok (GBool b)
      | Err _ => Err (quoted raw " is not true or false")
      end
  | GInt bits _ =>
      match ParseInt raw bits with
      | Ok n => Ok (GInt bits n)
      | Err _ => Err (quoted raw " is not a whole number")
      end
  | GUint bits _ =>
      match ParseUint raw bits with
      | Ok n => Ok (GUint bits n)
      | Err _ => Err (quoted raw " is not a whole number that is not negative")
      end
  | GFloat bits _ =>
      match ParseFloat raw bits with
      | Some f => Ok (GFloat bits f)
      | None => Err (quoted raw " is not a number")
      end
  | GOther kind => Err (unreadable kind)
  | GPtr _ _ => Err (unreadable "ptr")
  | GTime _ | GStruct _ => Err (unreadable "struct")
  end.

(** A tagged field that is no group: read, where the store holds a key it may be under. *)
Definition bind_value (values : gmap string string) (keys : list string) (v : gval) :
    option error * gval :=
  match first_held values keys with
  | None => (None, v)
  | Some (raw, key) =>
      match setConfigField v raw with
      | Ok v => (None, v)
      | Err err => (Some (EWrap ("celerity: config " +:+ go_quote key +:+ ": " +:+ error_text err)
                            err), v)
      end
  end.

Definition unreachable_embedded (m : fmeta) : error :=
  EString ("celerity: config cannot be bound into an embedded pointer to the unexported type " +:+
           m.(ElemName) +:+ ": export the type, or embed it by value").

Definition unsettable (m : fmeta) (v : gval) : bool :=
  match v with GPtr true _ => negb m.(Exported) | _ => false end.

(** [bindStruct], [bindEmbedded] and the pointers either goes through. *)
Fixpoint bindStruct (values : gmap string string) (prefixes : list string) (v : gval) :
    option error * gval :=
  match v with
  | GPtr _ to => let '(e, to) := bindStruct values prefixes to in (e, GPtr false to)
  | GStruct fields =>
      let '(e, fields) := (fix go (fields : list (fmeta * gval)) := match fields with
        | [] => (None, [])
        | (m, v) :: fields =>
            let '(e, v) :=
              if m.(Anonymous) then
                if unsettable m v then (Some (unreachable_embedded m), v)
                else bindStruct values [] v
              else match m.(ConfigTag) with
              | None => (None, v)
              | Some tag =>
                  if negb m.(Exported) then (None, v)
                  else if is_group v then bindStruct values (candidates prefixes tag) v
                  else bind_value values (candidates prefixes tag) (allocated v)
              end in
            match e with
            | Some _ => (e, (m, v) :: fields)
            | None => let '(e, fields) := go fields in (e, (m, v) :: fields)
            end
        end) fields in
      (e, GStruct fields)
  | v => (None, v)
  end.

Definition not_a_struct : error :=
  EString "celerity: config can only be bound into a pointer to a struct".

(** [bindValues]. *)
Definition bindValues (values : gmap string string) (out : gval) : option error * gval :=
  match out with
  | GPtr true _ => (Some not_a_struct, out)
  | GPtr false v =>
      if is_struct v then bindStruct values [] out else (Some not_a_struct, allocated out)
  | _ => (Some not_a_struct, out)
  end.

(** ** What a field is read from *)

(** The fields of a struct that hold values, each with every key it may be written under,
    in the order they are reached. *)
Fixpoint slots (prefixes : list string) (v : gval) : list (list string * gval) :=
  match v with
  | GPtr _ to => slots prefixes to
  | GStruct fields =>
      (fix go (fields : list (fmeta * gval)) := match fields with
       | [] => []
       | (m, v) :: fields =>
           (if m.(Anonymous) then slots prefixes v
            else match m.(ConfigTag) with
            | None => []
            | Some tag =>
                if negb m.(Exported) then []
                else if is_group v then slots (candidates prefixes tag) v
                else [(candidates prefixes tag, v)]
            end) ++ go fields
       end) fields
  | _ => []
  end.

(** The specification: slot after slot, the first key held is read into it, a slot none of
    whose keys is held keeps its value, and the first value that cannot be read ends it. *)
Fixpoint fill (values : gmap string string) (l : list (list string * gval)) :
    option error * list (list string * gval) :=
  match l with
  | [] => (None, [])
  | (keys, v) :: l =>
      let '(e, v) := bind_value values keys v in
      match e with
      | Some _ => (e, (keys, v) :: l)
      | None => let '(e, l) := fill values l in (e, (keys, v) :: l)
      end
  end.

(** The shapes that are bound as they are documented to be: every embedded pointer can be
    reached, no value is held behind a pointer, and nothing with a field to bind is embedded in
    a group. *)
Definition is_pointer (v : gval) : bool := match v with GPtr _ _ => true | _ => false end.
Fixpoint as_documented (grouped : bool) (v : gval) : Prop :=
  match v with
  | GPtr _ to => as_documented grouped to
  | GStruct fields =>
      (fix go (fields : list (fmeta * gval)) := match fields with
       | [] => True
       | (m, v) :: fields =>
           (if m.(Anonymous) then
              unsettable m v = false ∧ as_documented false v ∧ (grouped = true → slots [] v = [])
            else match m.(ConfigTag) with
            | None => True
            | Some _ =>
                if negb m.(Exported) then True
                else if is_group v then as_documented true v else is_pointer v = false
            end) ∧ go fields
       end) fields
  | _ => True
  end.

(** What binding may not touch: the fields that are neither tagged nor embedded. *)
Fixpoint others (v : gval) : list gval :=
  match v with
  | GPtr _ to => others to
  | GStruct fields =>
      (fix go (fields : list (fmeta * gval)) := match fields with
       | [] => []
       | (m, v) :: fields =>
           (if m.(Anonymous) then others v
            else match m.(ConfigTag) with
            | None => [v]
            | Some _ => if negb m.(Exported) then [v] else if is_group v then others v else []
            end) ++ go fields
       end) fields
  | _ => []
  end.
End bind.

Section gval_ind.
Context {F : Type} (P : gval F → Prop).
Context (Pleaf : ∀ v, match v with GPtr _ _ | GStruct _ => False | _ => True end → P v).
Context (Pptr : ∀ isnil to, P to → P (GPtr isnil to)).
Context (Pstruct : ∀ fields, Forall (λ mv, P mv.2) fields → P (GStruct fields)).

Fixpoint gval_ind' (v : gval F) : P v :=
  match v with
  | GPtr isnil to => Pptr isnil to (gval_ind' to)
  | GStruct fields =>
      Pstruct fields ((fix go l : Forall (λ mv, P mv.2) l := match l with
                       | [] => Forall_nil_2 _
                       | mv :: l => Forall_cons_2 _ mv l (gval_ind' mv.2) (go l)
                       end) fields)
  | v => Pleaf v I
  end.
End gval_ind.

Section filling.
Context {F : Type} (ParseFloat : string → Z → option F) (ParseDuration : string → option Z).
Context (values : gmap string string).
Abbreviation bindStruct := (bindStruct ParseFloat ParseDuration values).
Abbreviation bind_value := (bind_value ParseFloat ParseDuration values).
Abbreviation fill := (fill ParseFloat ParseDuration values).

Lemma fill_app (l k : list (list string * gval F)) :
  fill (l ++ k) =
  let '(e, l') := fill l in
  match e with
  | Some _ => (e, l' ++ k)
  | None => let '(e, k') := fill k in (e, l' ++ k')
  end.
Proof.
  induction l as [|[keys v] l IH]; cbn [app ConfigBind.fill].
  - by destruct (fill k).
  - destruct (bind_value keys v) as [[err|] v']; [done|].
    rewrite IH. destruct (fill l) as [[err|] l']; [done|]. by destruct (fill k).
Qed.

Lemma is_group_allocated (v : gval F) : is_group (allocated v) = is_group v.
Proof. by induction v using gval_ind'; cbn; [destruct v|..]. Qed.

Lemma is_group_bind_value keys (v : gval F) :
  is_group v = false → is_group (bind_value keys v).2 = false.
Proof.
  intros Hg. unfold ConfigBind.bind_value. destruct (first_held values keys) as [[raw key]|]; [|done].
  destruct v; cbn in *; repeat case_match; simplify_eq; done.
Qed.

(** One field of a struct, and the fields one after the other. *)
Definition bind_field (prefixes : list string) (m : fmeta) (v : gval F) : option error * gval F :=
  if m.(Anonymous) then
    if unsettable m v then (Some (unreachable_embedded m), v) else bindStruct [] v
  else match m.(ConfigTag) with
  | None => (None, v)
  | Some tag =>
      if negb m.(Exported) then (None, v)
      else if is_group v then bindStruct (candidates prefixes tag) v
      else bind_value (candidates prefixes tag) (allocated v)
  end.

Definition bind_fields (prefixes : list string) :
    list (fmeta * gval F) → option error * list (fmeta * gval F) :=
  fix go fields := match fields with
  | [] => (None, [])
  | (m, v) :: fields =>
      let '(e, v) := bind_field prefixes m v in
      match e with
      | Some _ => (e, (m, v) :: fields)
      | None => let '(e, fields) := go fields in (e, (m, v) :: fields)
      end
  end.

Lemma bind_fields_cons prefixes m v fields :
  bind_fields prefixes ((m, v) :: fields) =
  let '(e, v) := bind_field prefixes m v in
  match e with
  | Some _ => (e, (m, v) :: fields)
  | None => let '(e, fields) := bind_fields prefixes fields in (e, (m, v) :: fields)
  end.
Proof. done. Qed.

Lemma bindStruct_fields prefixes fields :
  bindStruct prefixes (GStruct fields) =
  let '(e, fields) := bind_fields prefixes fields in (e, GStruct fields).
Proof. reflexivity. Qed.

Definition field_slots (prefixes : list string) (m : fmeta) (v : gval F) :
    list (list string * gval F) :=
  if m.(Anonymous) then slots prefixes v
  else match m.(ConfigTag) with
  | None => []
  | Some tag =>
      if negb m.(Exported) then []
      else if is_group v then slots (candidates prefixes tag) v
      else [(candidates prefixes tag, v)]
  end.

Lemma slots_fields prefixes fields :
  slots prefixes (GStruct fields) = fields ≫= λ mv, field_slots prefixes mv.1 mv.2.
Proof. induction fields as [|[m v] fields IH]; [done|]. cbn. f_equal. exact IH. Qed.

Definition field_others (m : fmeta) (v : gval F) : list (gval F) :=
  if m.(Anonymous) then others v
  else match m.(ConfigTag) with
  | None => [v]
  | Some _ => if negb m.(Exported) then [v] else if is_group v then others v else []
  end.

Lemma others_fields fields :
  others (GStruct fields) = fields ≫= λ mv, field_others mv.1 mv.2.
Proof. induction fields as [|[m v] fields IH]; [done|]. cbn. f_equal. exact IH. Qed.

Definition field_documented (grouped : bool) (m : fmeta) (v : gval F) : Prop :=
  if m.(Anonymous) then unsettable m v = false ∧ as_documented false v ∧ (grouped = true → slots [] v = [])
  else match m.(ConfigTag) with
  | None => True
  | Some _ =>
      if negb m.(Exported) then True else if is_group v then as_documented true v else is_pointer v = false
  end.

Lemma documented_fields grouped fields :
  as_documented grouped (GStruct fields) ↔ Forall (λ mv, field_documented grouped mv.1 mv.2) fields.
Proof.
  induction fields as [|[m v] fields IH]; [by split|]. rewrite Forall_cons, <- IH. done.
Qed.

(** Whether a field has slots is not a matter of where it stands. *)
Lemma no_slots (v : gval F) p q : slots p v = [] → slots q v = [].
Proof.
  revert p q. induction v as [v Hv|isnil to IH|fields IH] using gval_ind'; intros p q.
  - by destruct v.
  - apply IH.
  - rewrite !slots_fields. induction IH as [|[m v] fields Hv _ IHf]; [done|]. cbn.
    intros [H1 H2]%app_eq_nil. rewrite IHf by done. clear IHf H2. rewrite app_nil_r.
    unfold field_slots in *. destruct (Anonymous m); [by eapply Hv|]. destruct (ConfigTag m); [|done].
    destruct (negb _); [done|]. destruct (is_group v); [by eapply Hv|done].
Qed.

Lemma allocated_value (v : gval F) : is_pointer v = false → allocated v = v.
Proof. by destruct v. Qed.

Lemma is_group_bindStruct prefixes (v : gval F) :
  is_group (bindStruct prefixes v).2 = is_group v.
Proof.
  induction v as [v Hv|isnil to IH|fields _] using gval_ind'.
  - by destruct v.
  - cbn. by destruct (bindStruct prefixes to).
  - rewrite bindStruct_fields. by destruct (bind_fields prefixes fields).
Qed.

(** What binding a value comes to, in its slots. *)
Definition fills (prefixes : list string) (v : gval F) : Prop :=
  as_documented (negb (bool_decide (prefixes = []))) v →
  fill (slots prefixes v) =
  ((bindStruct prefixes v).1, slots prefixes (bindStruct prefixes v).2) ∧
  others (bindStruct prefixes v).2 = others v.

Lemma candidates_grouped prefixes tag : negb (bool_decide (candidates prefixes tag = [])) = true.
Proof. apply negb_true_iff, bool_decide_eq_false. by destruct prefixes. Qed.

(** A struct embedded in another, which is no level. *)
Lemma fill_embedded prefixes v :
  fills [] v → as_documented false v → (negb (bool_decide (prefixes = [])) = true → slots [] v = []) →
  fill (slots prefixes v) = ((bindStruct [] v).1, slots prefixes (bindStruct [] v).2) ∧
  others (bindStruct [] v).2 = others v.
Proof.
  intros IH Hd Hno. destruct (IH Hd) as [H1 H2]. split; [|done]. case_bool_decide as Hp; [by subst|].
  specialize (Hno eq_refl). rewrite Hno in H1. cbn in H1. injection H1 as He Hs.
  rewrite (no_slots _ _ prefixes Hno), (no_slots _ _ prefixes (eq_sym Hs)), <- He. done.
Qed.

Lemma fill_field prefixes m v :
  (∀ prefixes, fills prefixes v) → field_documented (negb (bool_decide (prefixes = []))) m v →
  fill (field_slots prefixes m v) =
  ((bind_field prefixes m v).1, field_slots prefixes m (bind_field prefixes m v).2) ∧
  field_others m (bind_field prefixes m v).2 = field_others m v.
Proof.
  intros IH. unfold field_documented, bind_field, field_slots, field_others.
  destruct (Anonymous m); [intros (-> & Hd & Hno); by apply fill_embedded|].
  destruct (ConfigTag m) as [tag|]; [|done]. destruct (negb (Exported m)); [done|].
  destruct (is_group v) eqn:Eg; intros Hd.
  - rewrite is_group_bindStruct, Eg. apply IH. by rewrite candidates_grouped.
  - rewrite allocated_value by done. rewrite is_group_bind_value by done. split; [|done].
    cbn [ConfigBind.fill]. by destruct (bind_value _ _) as [[err|] v'].
Qed.

(** C20: binding a struct reads its fields exactly as the flat list of them says, where its
    shape is one that is bound as it is documented: field after field, a tagged struct being a
    prefix and an embedded one no level, through the pointers to either, the value of the
    first key held of those the field may be written under, up to the first that will not
    parse; a field none of whose keys is held keeps its value, and no field that is not tagged
    is touched.  The shapes that are not so bound, and are left out, are a struct with a field
    to bind embedded in a group, and a value behind a pointer. *)
Theorem bindStruct_fills prefixes v :
  as_documented (negb (bool_decide (prefixes = []))) v →
  fill (slots prefixes v) =
  ((bindStruct prefixes v).1, slots prefixes (bindStruct prefixes v).2) ∧
  others (bindStruct prefixes v).2 = others v.
Proof.
  change (fills prefixes v). revert prefixes.
  induction v as [v Hv|isnil to IH|fields IH] using gval_ind'; intros prefixes Hr.
  - by destruct v.
  - cbn in *. destruct (IH prefixes Hr) as [H1 H2]. by destruct (bindStruct prefixes to).
  - rewrite documented_fields in Hr. rewrite bindStruct_fields.
    assert (fill (slots prefixes (GStruct fields)) =
      ((bind_fields prefixes fields).1, slots prefixes (GStruct (bind_fields prefixes fields).2)) ∧
      others (GStruct (bind_fields prefixes fields).2) = others (GStruct fields)) as Hf.
    2:{ by destruct (bind_fields prefixes fields). }
    rewrite !slots_fields, !others_fields.
    induction IH as [|[m v] fields Hv _ IHf]; [done|].
    apply Forall_cons in Hr as [Hd Hr]. destruct (IHf Hr) as [IH1 IH2].
    destruct (fill_field prefixes m v Hv Hd) as [H1 H2].
    rewrite bind_fields_cons. cbn [mbind list_bind fst snd] in *. rewrite fill_app, H1.
    destruct (bind_field prefixes m v) as [[err|] v'], (bind_fields prefixes fields) as [e fields'];
      cbn [mbind list_bind fst snd] in *; [by rewrite H2|]. rewrite IH1. by rewrite H2, IH2.
Qed.
End filling.

(** ** The keys of a path *)

(** A path of tags written as one key, a separator between each and the next. *)
Definition spelled (tag : string) (rest : list (string * string)) : string :=
  foldl (λ key '(separator, tag), key +:+ separator +:+ tag) tag rest.

Lemma elem_of_candidates prefixes tag key :
  prefixes ≠ [] →
  key ∈ candidates prefixes tag ↔
  ∃ p separator, p ∈ prefixes ∧ separator ∈ separators ∧ key = p +:+ separator +:+ tag.
Proof.
  intros Hne. unfold candidates. destruct prefixes as [|p0 ps]; [done|].
  rewrite list_elem_of_bind. setoid_rewrite list_elem_of_fmap.
  split; [intros (p & (sep & -> & Hs) & Hp)|intros (p & sep & Hp & Hs & ->)]; eauto 10.
Qed.

(** A field nested in groups is looked for under every way its path can be punctuated,
    each level by either separator whatever the others use, and under nothing else; what
    an underscore throughout would spell is tried first. *)
Lemma path_keys tag tags :
  let keys := foldl candidates [] (tag :: tags) in
  (∀ key, key ∈ keys ↔ ∃ seps, length seps = length tags ∧ seps ⊆ separators ∧
                               key = spelled tag (zip seps tags)) ∧
  length keys = 2 ^ length tags ∧
  head keys = Some (spelled tag (zip (replicate (length tags) "_") tags)).
Proof.
  cbv zeta. change (foldl candidates [] (tag :: tags)) with (foldl candidates [tag] tags).
  induction tags as [|t tags (IH1 & IH2 & IH3)] using rev_ind.
  { split_and!; [|done|done]. intros key. change (foldl candidates [tag] []) with [tag]. rewrite list_elem_of_singleton.
    split.
    - intros ->. exists []. split_and!; [done|apply list_subseteq_nil|done].
    - intros ([|sep seps] & Hl & _ & ->); [reflexivity|discriminate Hl]. }
  rewrite foldl_app. cbn [foldl]. set (keys := foldl candidates [tag] tags) in *.
  assert (keys ≠ []) as Hne by (intros E; by rewrite E in IH3).
  assert (∀ seps sep, length seps = length tags →
    spelled tag (zip (seps ++ [sep]) (tags ++ [t])) = spelled tag (zip seps tags) +:+ sep +:+ t) as Hsp.
  { intros seps sep Hl. unfold spelled. by rewrite zip_with_app, foldl_app by done. }
  split_and!.
  - intros key. rewrite elem_of_candidates by done. setoid_rewrite IH1. split.
    + intros (p & sep & (seps & Hl & Hs & ->) & Hsep & ->). exists (seps ++ [sep]).
      split_and!; [by rewrite !length_app, Hl| |by rewrite Hsp].
      intros x [Hx|Hx%list_elem_of_singleton]%elem_of_app; [by apply Hs|by subst].
    + intros (seps & Hl & Hs & ->). rewrite length_app in Hl.
      destruct seps as [|sep seps _] using rev_ind; [simpl in Hl; lia|].
      rewrite length_app in Hl. rewrite Hsp by (simpl in Hl; lia).
      exists (spelled tag (zip seps tags)), sep. split_and!; [|apply Hs; set_solver|done].
      exists seps. split_and!; [simpl in Hl; lia|set_solver|done].
  - rewrite length_app. cbn [length]. rewrite Nat.add_1_r, Nat.pow_succ_r', <- IH2.
    unfold candidates. clearbody keys. destruct keys as [|k ks]; [done|]. clear.
    induction (k :: ks) as [|x l IHl]; [done|]. cbn in *. lia.
  - rewrite length_app. cbn [length]. rewrite replicate_add. cbn [replicate].
    rewrite Hsp by apply length_replicate.
    unfold candidates. destruct keys as [|k ks]; [done|]. cbn in *. by simplify_eq.
Qed.

(** ** Shapes that are not bound as they are documented to be *)

Section shapes.
Abbreviation gval := (gval Z).
Abbreviation bind := (bindValues (F := Z) (λ _ _, None) (λ _, None)).

Definition tagged (tag : string) : fmeta := MkMeta false true (Some tag) "".
Definition embedded : fmeta := MkMeta true true None "".

(** A group [Database] that embeds a struct with a [Host]. *)
Definition database (host : string) : gval :=
  GPtr false (GStruct
    [(tagged "DATABASE", GStruct [(embedded, GStruct [(tagged "HOST", GString host)])])]).

(** What is embedded in a group is read as though it were not in one. *)
Lemma embedded_in_a_group_leaves_it a b :
  bind {[ "DATABASE_HOST" := a; "HOST" := b ]} (database "") = (None, database b) ∧
  bind {[ "DATABASE_HOST" := a ]} (database "") = (None, database "").
Proof. split; reflexivity. Qed.

(** A pointer to a value is allocated whether or not its key is held, and where it is
    held cannot be read. *)
Definition optional (isnil : bool) : gval :=
  GPtr false (GStruct [(tagged "RETRIES", GPtr isnil (GInt 64 0))]).

Lemma optional_values_are_never_bound :
  bind ∅ (optional true) = (None, optional false) ∧
  (bind {[ "RETRIES" := "3" ]} (optional true)).1 =
    Some (EWrap ("celerity: config " +:+ go_quote "RETRIES" +:+
                 ": a ptr cannot be read from a configuration value") (unreadable "ptr")).
Proof. split; reflexivity. Qed.

(** ** Witness *)

Definition settings (region host : string) (retries : Z) : gval :=
  GStruct [(tagged "REGION", GString region);
           (tagged "DB", GPtr true (GStruct [(tagged "HOST", GString host);
                                            (tagged "RETRIES", GInt 8 retries)]));
           (MkMeta false false None "", GBool true)].

Definition settings_held : gmap string string :=
  {[ "REGION" := "eu-west-2"; "DB/HOST" := "h"; "DB_RETRIES" := "300" ]}.

Lemma bindStruct_fills_witness :
  (fill (λ _ _, None) (λ _, None) settings_held (slots [] (settings "" "" 5))).1 =
    Some (EWrap ("celerity: config " +:+ go_quote "DB_RETRIES" +:+ ": " +:+ go_quote "300" +:+
                 " is not a whole number") (quoted "300" " is not a whole number")) ∧
  slots [] (bindStruct (λ _ _, None) (λ _, None) settings_held [] (settings "" "" 5)).2 =
    [(["REGION"], GString "eu-west-2"); (["DB_HOST"; "DB/HOST"], GString "h");
     (["DB_RETRIES"; "DB/RETRIES"], GInt 8 5)].
Proof.
  pose proof (bindStruct_fills (λ _ _, None) (λ _, None) settings_held [] (settings "" "" 5))
    as [H _]; [by repeat split|].
  rewrite H. split; reflexivity.
Defined.
End shapes.
