(* ===== verification/Resources.v ===== *)
(** * Resources: references, what a deployment recorded, and handles

    Models [resources/resources.go], [ref.go], [fields.go], [registry.go] and
    [handles.go].  An application's configuration is the service of [Config], threaded
    through every read of it, and absent where an application was built without any. *)

From S2P Require Import Prelude GoStrings Json Errors Bind Config.
From stdpp Require Import options.

(** ** Kinds *)

Definition KindBucket : string := "bucket".
Definition KindQueue : string := "queue".
Definition KindTopic : string := "topic".
Definition KindDatastore : string := "datastore".
Definition KindCache : string := "cache".
Definition KindSQLDatabase : string := "sqlDatabase".
Definition KindConfig : string := "config".
Definition DefaultName : string := "default".

Record Ref : Type := MkRef { RefKind : string; RefName : string }.

(** [Ref.String]. *)
Definition ref_text (r : Ref) : string := r.(RefKind) +:+ " " +:+ go_quote r.(RefName).

(** ** Reading configuration *)

Section reading.
Context {W : Type} (now : W → Z).

(** The application's configuration, and the world it is read in. *)
Definition cfg : Type := option (Service W) * W.

(** A read: it may fail, and it may fill a namespace's cell. *)
Definition reading (A : Type) : Type := cfg → result config_error A * cfg.

Definition answer {A} (a : A) : reading A := λ c, (Ok a, c).
Definition refuse {A} (e : config_error) : reading A := λ c, (Err e, c).
Definition then_ {A B} (m : reading A) (f : A → reading B) : reading B := λ c,
  match m c with (Ok a, c) => f a c | (Err e, c) => (Err e, c) end.

Definition unresolvable (r : Ref) : config_error :=
  ConfigError (EString ("celerity: " +:+ ref_text r +:+ " cannot be resolved because the " +:+
    "application has no configuration, so nothing holds what the deployment called it")).

(** [Ref.ID]. *)
Definition ID (r : Ref) : reading string := λ '(svc, w),
  match svc with
  | None => (Err (unresolvable r), (svc, w))
  | Some svc =>
      let '(v, svc, w) := Resource now svc r.(RefKind) r.(RefName) w in (v, (Some svc, w))
  end.

(** [Ref.Field]. *)
Definition Field (r : Ref) (suffix : string) : reading (option string) := λ '(svc, w),
  match svc with
  | None => (Err (unresolvable r), (svc, w))
  | Some svc =>
      match ResourceKey svc r.(RefKind) r.(RefName) with
      | Err err => (Err err, (Some svc, w))
      | Ok key =>
          match Namespace_ svc ResourcesNamespace with
          | Err err => (Err err, (Some svc, w))
          | Ok ns =>
              let '(v, ns, w) := ns_Lookup now ns (key +:+ suffix) w in
              (v, (Some (Register svc ResourcesNamespace ns), w))
          end
      end
  end.

(** ** Fields *)

Definition recorded_none (r : Ref) (suffix : string) : config_error :=
  ConfigError (EString ("celerity: the deployment recorded no " +:+ go_quote suffix +:+ " for " +:+
    ref_text r +:+ ", which is needed to reach it")).
Definition not_whole (r : Ref) (suffix value : string) : config_error :=
  ConfigError (EString ("celerity: the " +:+ go_quote suffix +:+ " recorded for " +:+ ref_text r +:+
    " is " +:+ go_quote value +:+ ", which is not a whole number")).

(** A value that is there and is not empty. *)
Definition recorded_value (v : option string) : option string :=
  match v with Some "" | None => None | Some v => Some v end.

Definition Required (r : Ref) (suffix : string) : reading string :=
  then_ (Field r suffix) (λ v,
    match recorded_value v with Some v => answer v | None => refuse (recorded_none r suffix) end).

Definition Optional (r : Ref) (suffix fallback : string) : reading string :=
  then_ (Field r suffix) (λ v, answer (default fallback (recorded_value v))).

Definition Number (r : Ref) (suffix : string) (fallback : Z) : reading Z :=
  then_ (Field r suffix) (λ v,
    match recorded_value v with
    | None => answer fallback
    | Some v => match ParseInt v 64 with
                | Ok n => answer n
                | Err _ => refuse (not_whole r suffix v)
                end
    end).

Definition Boolean (r : Ref) (suffix : string) (fallback : bool) : reading bool :=
  then_ (Field r suffix) (λ v,
    answer (match recorded_value v with
            | None => fallback
            | Some v => negb (bool_decide (v = "false"))
            end)).

Definition AuthPassword : string := "password".
Definition AuthIAM : string := "iam".
Definition FieldRegion : string := "_region".

(** ** A reader, which keeps the first failure *)

Definition Reader : Type := option config_error.

(** One read through a reader: its value, or [zero] once something has failed, and the
    reader after it. *)
Definition through {A} (zero : A) (m : reading A) (rd : Reader) (c : cfg) : A * Reader * cfg :=
  match rd with
  | Some _ => (zero, rd, c)
  | None => match m c with (Ok a, c) => (a, None, c) | (Err e, c) => (zero, Some e, c) end
  end.

Definition read_required (r : Ref) (suffix : string) := through "" (Required r suffix).
Definition read_optional (r : Ref) (suffix fallback : string) :=
  through "" (Optional r suffix fallback).
Definition read_number (r : Ref) (suffix : string) (fallback : Z) :=
  through 0%Z (Number r suffix fallback).
Definition read_boolean (r : Ref) (suffix : string) (fallback : bool) :=
  through false (Boolean r suffix fallback).
End reading.

(** ** Providers *)

Section providers.
Context {W C : Type}.

Record Provider : Type := MkProvider {
  provider_name : string;
  provider_detect : option (W → bool);               (* where it has a [Detect] *)
  provider_close : option (W → option error * W);    (* where it is a [Closer] *)
  provider_build : Ref → result error C;             (* [Bucket], [Queue], ..., by kind *)
}.

(** [RegisterProvider]; an error is the panic. *)
Definition RegisterProvider (ps : list Provider) (p : Provider) : result string (list Provider) :=
  if bool_decide (p.(provider_name) ∈ provider_name <$> ps) then
    Err ("celerity: resource provider " +:+ go_quote p.(provider_name) +:+
         " is registered twice")
  else Ok (ps ++ [p]).

Definition RegisteredProviders (ps : list Provider) : list string :=
  sort_strings (provider_name <$> ps).

Definition detects (w : W) (p : Provider) : bool :=
  match p.(provider_detect) with Some d => d w | None => false end.

Definition DetectedProvider (ps : list Provider) (w : W) : option Provider :=
  match ps with
  | [p] => Some p
  | _ => snd <$> list_find (λ p, detects w p = true) ps
  end.

Definition FallbackProvider (ps : list Provider) (excluding : string) : option Provider :=
  snd <$> list_find (λ p, p.(provider_name) ≠ excluding) ps.

(** [Release]: every provider that holds something is closed, and what failed is joined. *)
Fixpoint close_all (ps : list Provider) (w : W) : list error * W :=
  match ps with
  | [] => ([], w)
  | p :: ps =>
      match p.(provider_close) with
      | None => close_all ps w
      | Some close =>
          let '(e, w) := close w in
          let '(errs, w) := close_all ps w in
          (option_list e ++ errs, w)
      end
  end.

Definition Release (ps : list Provider) (w : W) : option error * W :=
  let '(errs, w) := close_all ps w in
  (match errs with [] => None | errs => Some (EJoin errs) end, w).

Record MissingProvider : Type := MkMissing { mpKind : string; mpName : string; mpLinked : list string }.

Definition missing_text (e : MissingProvider) : string :=
  "no resource provider for " +:+ e.(mpKind) +:+ " " +:+ go_quote e.(mpName) +:+ "." +:+ newline +:+
  "Import the provider for the platform being deployed to, for example:" +:+ newline +:+ newline +:+
  tab +:+ "import _ " +:+
  in_quotes "github.com/newstack-cloud/celerity-go-sdk/resources/aws" +:+ newline +:+
  (if (1 <? length e.(mpLinked)) then
     newline +:+ "More than one provider is linked and none matched this environment: " +:+
     join e.(mpLinked) ", "
   else "").

(** ** Handles *)

(** What a handle needs of the application, and what taking one leaves in it. *)
Record Host : Type := MkHost {
  ResourceProvider : option Provider;
  Extracting : bool;
  recorded_refs : list (string * string);
  resource_errors : list (MissingProvider + error);
}.

Definition RecordResourceRef (h : Host) (kind name : string) : Host :=
  MkHost h.(ResourceProvider) h.(Extracting) (h.(recorded_refs) ++ [(kind, name)])
    h.(resource_errors).
Definition ResourceError (h : Host) (e : MissingProvider + error) : Host :=
  MkHost h.(ResourceProvider) h.(Extracting) h.(recorded_refs) (h.(resource_errors) ++ [e]).

Definition providerFor (ps : list Provider) (h : Host) (w : W) : option Provider :=
  match h.(ResourceProvider) with Some p => Some p | None => DetectedProvider ps w end.

Definition resolved_name (name : list string) : string :=
  match name with n :: _ => if bool_decide (n = "") then DefaultName else n | [] => DefaultName end.

(** [resolve], and so [Bucket], [Queue], [Topic], [Cache], [Datastore] and [SQLDatabase];
    [traced] wraps what was built. *)
Definition resolve (ps : list Provider) (h : Host) (w : W) (kind : string) (name : list string)
    (traced : Ref → C → C) : option C * Host :=
  let resolved := resolved_name name in
  let h := RecordResourceRef h kind resolved in
  match providerFor ps h w with
  | None =>
      (None, if h.(Extracting) then h
             else ResourceError h (inl (MkMissing kind resolved (RegisteredProviders ps))))
  | Some p =>
      let r := MkRef kind resolved in
      match p.(provider_build) r with
      | Err err =>
          (None, ResourceError h (inr (EWrap ("building " +:+ ref_text r +:+ ": " +:+
                                              error_text err) err)))
      | Ok client => (Some (traced r client), h)
      end
  end.
End providers.

(** ** What taking a handle leaves *)

Section handles.
Context {W C : Type}.

(** Taking a handle records the reference once, under the name asked for or the default
    one, whatever comes of it; and gives a client, traced for that reference, or reports
    one error, except while the application only describes itself, when a missing provider
    is neither. *)
Lemma handle_or_error (ps : list (Provider (W := W) (C := C))) h w kind name traced :
  let '(client, h') := resolve ps h w kind name traced in
  let reference := MkRef kind (resolved_name name) in
  h'.(recorded_refs) = h.(recorded_refs) ++ [(kind, resolved_name name)] ∧
  resolved_name name ≠ "" ∧
  match client with
  | Some c => h'.(resource_errors) = h.(resource_errors) ∧
              ∃ p built, providerFor ps h w = Some p ∧ p.(provider_build) reference = Ok built ∧
                         c = traced reference built
  | None => (∃ e, h'.(resource_errors) = h.(resource_errors) ++ [e]) ∨
            h'.(resource_errors) = h.(resource_errors) ∧ h.(Extracting) = true ∧
            providerFor ps h w = None
  end.
Proof.
  assert (resolved_name name ≠ "") as Hne.
  { unfold resolved_name. destruct name as [|n name]; [done|]. by case_bool_decide. }
  unfold resolve. change (providerFor ps (RecordResourceRef h kind (resolved_name name)) w) with
    (providerFor ps h w).
  destruct (providerFor ps h w) as [p|].
  - destruct (provider_build p (MkRef kind (resolved_name name))) as [c|err] eqn:Eb; cbn;
      split_and!; eauto 10.
  - destruct (Extracting (RecordResourceRef h kind (resolved_name name))) eqn:Ee; cbn in *;
      split_and!; eauto 10.
Qed.

(** Giving back what the providers hold reaches every one of them, whatever those before
    it answered. *)
Lemma close_all_spec (ps : list (Provider (W := W) (C := C))) w :
  (close_all ps w).2 = foldl (λ w close, (close w).2) w (omap provider_close ps) ∧
  length (close_all ps w).1 ≤ length (omap provider_close ps).
Proof.
  revert w. induction ps as [|p ps IH]; intros w; [done|]. cbn [close_all].
  change (omap provider_close (p :: ps)) with
    (match provider_close p with Some y => y :: omap provider_close ps | None => omap provider_close ps end).
  destruct (provider_close p) as [close|]; [|apply IH].
  destruct (close w) as [e w1] eqn:Ec. specialize (IH w1).
  destruct (close_all ps w1) as [errs w2]. cbn [fst snd foldl length] in *. rewrite Ec.
  split; [apply IH|]. rewrite length_app. destruct e; cbn; lia.
Qed.
End handles.

(** ** A reader reads until the first failure *)

Section readers.
Context {W : Type}.

(** Reads one after the other, as an error monad has them. *)
Lemma through_then {A B} (zero : A) (m : reading (W := W) A) (f : A → reading (W := W) B) (zeroB : B) c :
  let '(a, rd, c1) := through zero m None c in
  let '(b, rd, c2) := through zeroB (f a) rd c1 in
  match rd with
  | None => then_ m f c = (Ok b, c2)
  | Some e => then_ m f c = (Err e, c2)
  end.
Proof.
  unfold through, then_. destruct (m c) as [[a|e] c1]; [|done]. by destruct (f a c1) as [[] ?].
Qed.
End readers.
