(* ===== verification/RedisSlots.v ===== *)
(** * The shards of a clustered cache

    Models [resources/redis/slots.go]: the slot of a key, by the cluster protocol's own
    arithmetic on 16-bit words, the refusal of keys on different shards and the grouping of
    a batch.  [crc16] is proved against the division of polynomials its name stands for. *)

From S2P Require Import Prelude GoStrings Json Errors.
From Stdlib Require Import ZArith.
From stdpp Require Import options.

Open Scope Z_scope.

(** ** CRC-16 *)

Definition word : Z := 65535.

(** One round of the inner loop. *)
Definition crc_bit (crc : Z) : Z :=
  if negb (Z.land crc 32768 =? 0) then Z.lxor (Z.land (Z.shiftl crc 1) word) 4129
  else Z.land (Z.shiftl crc 1) word.

Definition byte_of (c : ascii) : Z := Z.of_nat (nat_of_ascii c).

Definition crc_byte (crc : Z) (c : ascii) : Z :=
  Nat.iter 8 crc_bit (Z.lxor crc (Z.shiftl (byte_of c) 8)).

Fixpoint crc_from (crc : Z) (data : bytes) : Z :=
  match data with
  | EmptyString => crc
  | String c data => crc_from (crc_byte crc c) data
  end.

Definition crc16 (data : bytes) : Z := crc_from 0 data.

(** ** Slots *)

Definition hashSlots : Z := 16384.

Definition hashTag (key : string) : string :=
  match cut "{" key with
  | None => key
  | Some (_, rest) =>
      match cut "}" rest with
      | None => key
      | Some (tag, _) => if bool_decide (tag = "") then key else tag
      end
  end.

Definition slotOf (key : string) : Z := crc16 (hashTag key) mod hashSlots.

Definition ErrCrossSlot : error := EString "celerity: keys are not on one shard".

Section shards.
(** What [sameSlot] and [bySlot] read of the cache. *)
Context (clustered : bool) (ref : string) (strip : string → string).

Definition cross_slot (doing first key : string) : error :=
  EWrap ("celerity: " +:+ doing +:+ " in " +:+ ref +:+ " needs " +:+ go_quote (strip first) +:+
    " and " +:+ go_quote (strip key) +:+ " on one shard, and they are on " +:+
    itoa (slotOf first) +:+ " and " +:+ itoa (slotOf key) +:+
    ": put them in one with a hash tag, {tag}: " +:+ error_text ErrCrossSlot) ErrCrossSlot.

Definition sameSlot (doing : string) (keys : list string) : option error :=
  match keys with
  | first :: (_ :: _) as rest =>
      if negb clustered then None
      else match list_find (λ key, slotOf key ≠ slotOf first) rest with
           | Some (_, key) => Some (cross_slot doing first key)
           | None => None
           end
  | _ => None
  end.

(** One key taken up by the loop of [bySlot]: the slots in the order met, and the keys of
    each. *)
Definition group_key (g : list Z * gmap Z (list string)) (key : string) :
    list Z * gmap Z (list string) :=
  let '(order, groups) := g in
  let slot := slotOf key in
  (if is_some (groups !! slot) then order else (order ++ [slot])%list,
   <[slot := (default [] (groups !! slot) ++ [key])%list]> groups).

Definition bySlot (keys : list string) : list (list string) :=
  if negb clustered || (length keys <=? 1)%nat then [keys]
  else let '(order, groups) := foldl group_key ([], ∅) keys in
       (λ slot, default [] (groups !! slot)) <$> order.
End shards.

(** ** CRC-16 is the remainder of a division

    A message is a polynomial over the field of two elements, its first bit the highest
    coefficient. *)

(** Long division by x^16 + x^12 + x^5 + 1, a bit at a time. *)
Definition div_step (r : Z) (b : bool) : Z :=
  let r := Z.lxor (Z.shiftl r 1) (Z.b2z b) in
  if Z.testbit r 16 then Z.lxor r 69665 else r.

Definition remainder (bits : list bool) : Z := foldl div_step 0 bits.

Definition byte_bits (c : ascii) : list bool :=
  let '(Ascii b0 b1 b2 b3 b4 b5 b6 b7) := c in [b7; b6; b5; b4; b3; b2; b1; b0].

Fixpoint message_bits (data : bytes) : list bool :=
  match data with EmptyString => [] | String c data => (byte_bits c ++ message_bits data)%list end.

(** A division step that brings down a zero. *)
Definition div0 (r : Z) : Z := div_step r false.

Lemma div0_lxor r s : div0 (Z.lxor r s) = Z.lxor (div0 r) (div0 s).
Proof.
  unfold div0, div_step. cbn [Z.b2z]. rewrite !Z.lxor_0_r, Z.shiftl_lxor, Z.lxor_spec.
  set (a := Z.shiftl r 1). set (b := Z.shiftl s 1).
  destruct (Z.testbit a 16), (Z.testbit b 16); cbn [xorb]; try done.
  - rewrite !Z.lxor_assoc, (Z.lxor_comm b), <- (Z.lxor_assoc _ _ b), Z.lxor_nilpotent.
    by rewrite Z.lxor_0_l.
  - by rewrite !Z.lxor_assoc, (Z.lxor_comm b).
  - by rewrite !Z.lxor_assoc.
Qed.

Lemma div_step_lxor r b : div_step r b = Z.lxor (div0 r) (Z.b2z b).
Proof.
  unfold div0, div_step. cbn [Z.b2z]. rewrite Z.lxor_0_r, Z.lxor_spec.
  assert (Z.testbit (Z.b2z b) 16 = false) as -> by (by destruct b). rewrite xorb_false_r.
  destruct (Z.testbit _ 16); [|done]. by rewrite !Z.lxor_assoc, (Z.lxor_comm _ 69665).
Qed.

(** A 16-bit word. *)
Definition in_word (r : Z) : Prop := 0 <= r < 65536.

Lemma in_word_bits r : 0 <= r → in_word r ↔ ∀ l, 16 <= l → Z.testbit r l = false.
Proof.
  intros Hr. pose proof (Z.bounded_iff_bits_nonneg 16 r ltac:(lia) Hr) as H.
  unfold in_word. change (2 ^ 16) with 65536 in H. rewrite <- H. lia.
Qed.

Lemma in_word_lxor r s : in_word r → in_word s → in_word (Z.lxor r s).
Proof.
  intros Hr Hs. assert (0 <= Z.lxor r s) as H0 by (apply Z.lxor_nonneg; unfold in_word in *; lia).
  apply in_word_bits; [done|]. intros l Hl.
  rewrite Z.lxor_spec, (proj1 (in_word_bits r ltac:(apply Hr)) Hr l Hl),
    (proj1 (in_word_bits s ltac:(apply Hs)) Hs l Hl). done.
Qed.

Lemma testbit_15 r : in_word r → Z.testbit r 15 = (32768 <=? r).
Proof.
  intros [H0 H1]. rewrite Z.testbit_eqb by lia. change (2 ^ 15) with 32768.
  destruct (Z.leb_spec 32768 r).
  - assert (r / 32768 = 1) as -> by (symmetry; apply Z.div_unique with (r - 32768); lia). done.
  - by rewrite Z.div_small by lia.
Qed.

Lemma land_top r : Z.land r 32768 = if Z.testbit r 15 then 32768 else 0.
Proof.
  apply Z.bits_inj'. intros n Hn. rewrite Z.land_spec. change 32768 with (2 ^ 15).
  rewrite Z.pow2_bits_eqb by lia. destruct (Z.eqb_spec 15 n) as [<-|Hne].
  - destruct (Z.testbit r 15); [by rewrite Z.pow2_bits_true by lia|by rewrite Z.bits_0].
  - rewrite andb_false_r. destruct (Z.testbit r 15); [by rewrite Z.pow2_bits_false|by rewrite Z.bits_0].
Qed.

Lemma land_word r : Z.land r word = r mod 65536.
Proof. change word with (Z.ones 16). by rewrite Z.land_ones by lia. Qed.

(** The loop's shift, mask and exclusive or is a division step. *)
Lemma crc_bit_div0 r : in_word r → crc_bit r = div0 r ∧ in_word (div0 r).
Proof.
  intros Hr. pose proof (testbit_15 r Hr) as Ht. unfold crc_bit, div0, div_step. cbn [Z.b2z].
  rewrite land_top, land_word, Z.lxor_0_r, Z.shiftl_spec by lia. change (16 - 1) with 15.
  rewrite Z.shiftl_mul_pow2 by lia. change (2 ^ 1) with 2. rewrite Ht.
  destruct Hr as [H0 H1]. destruct (Z.leb_spec 32768 r) as [Hle|Hlt]; cbn.
  - assert ((r * 2) mod 65536 = r * 2 - 65536) as -> by
      (symmetry; apply Z.mod_unique with 1; lia).
    assert (r * 2 = Z.lxor (r * 2 - 65536) 65536) as E.
    { rewrite <- Z.add_nocarry_lxor; [lia|]. apply Z.bits_inj'. intros n Hn.
      rewrite Z.land_spec, Z.bits_0. change 65536 with (2 ^ 16) at 2.
      rewrite Z.pow2_bits_eqb by lia. destruct (Z.eqb_spec 16 n) as [<-|]; [|by rewrite andb_false_r].
      rewrite andb_true_r. apply in_word_bits; [lia|unfold in_word; lia|lia]. }
    assert (Z.lxor (r * 2) 69665 = Z.lxor (r * 2 - 65536) 4129) as ->.
    { rewrite E at 1. by rewrite Z.lxor_assoc. }
    split; [done|]. apply in_word_lxor; unfold in_word; lia.
  - rewrite Z.mod_small by lia. split; [done|]. unfold in_word. lia.
Qed.

Lemma iter_crc_bit n r :
  in_word r → Nat.iter n crc_bit r = Nat.iter n div0 r ∧ in_word (Nat.iter n div0 r).
Proof.
  intros Hr. induction n as [|n [IH1 IH2]]; [done|]. rewrite !Nat.iter_succ, IH1.
  by apply crc_bit_div0.
Qed.

Lemma iter_div0_lxor n r s :
  Nat.iter n div0 (Z.lxor r s) = Z.lxor (Nat.iter n div0 r) (Nat.iter n div0 s).
Proof. induction n as [|n IH]; [done|]. by rewrite !Nat.iter_succ, IH, div0_lxor. Qed.

(** Times x^16. *)
Definition raised (r : Z) : Z := Nat.iter 16 div0 r.

Lemma foldl_div_zeros n r : foldl div_step r (replicate n false) = Nat.iter n div0 r.
Proof.
  revert r. induction n as [|n IH]; intros r; [done|]. cbn [replicate foldl].
  rewrite IH. by rewrite Nat.iter_succ_r.
Qed.

(** The bits of a byte brought down one after the other are the byte, times x^16, brought
    into a remainder already raised. *)
Lemma foldl_div_lxor bits r :
  foldl div_step r bits = Z.lxor (Nat.iter (length bits) div0 r) (foldl div_step 0 bits).
Proof.
  revert r. induction bits as [|b bits IH]; intros r; [by rewrite Z.lxor_0_r|].
  cbn [foldl length]. rewrite IH, (IH (div_step 0 b)), !div_step_lxor, !Nat.iter_succ_r.
  rewrite !iter_div0_lxor, <- !Z.lxor_assoc. do 2 f_equal.
  change (div0 0) with 0. assert (Nat.iter (length bits) div0 0 = 0) as ->.
  { clear. induction (length bits) as [|n IH]; [done|]. by rewrite Nat.iter_succ, IH. }
  by rewrite Z.lxor_0_r.
Qed.

Lemma byte_raised c :
  Nat.iter 8 crc_bit (Z.shiftl (byte_of c) 8) = raised (foldl div_step 0 (byte_bits c)) ∧
  in_word (Z.shiftl (byte_of c) 8).
Proof. destruct c as [[] [] [] [] [] [] [] []]; split; by vm_compute. Qed.

Lemma iter_div0_raised n r : Nat.iter n div0 (raised r) = raised (Nat.iter n div0 r).
Proof. unfold raised. rewrite <- !Nat.iter_add. f_equal. lia. Qed.

Lemma crc_byte_raised r c :
  in_word (raised r) → crc_byte (raised r) c = raised (foldl div_step r (byte_bits c)) ∧
                       in_word (crc_byte (raised r) c).
Proof.
  intros Hr. destruct (byte_raised c) as [Hb Hw]. unfold crc_byte.
  destruct (iter_crc_bit 8 (Z.lxor (raised r) (Z.shiftl (byte_of c) 8))) as [E H];
    [by apply in_word_lxor|].
  destruct (iter_crc_bit 8 _ Hw) as [E' _]. rewrite E' in Hb.
  rewrite E. split; [|done].
  rewrite iter_div0_lxor, Hb, iter_div0_raised, (foldl_div_lxor (byte_bits c) r).
  assert (length (byte_bits c) = 8%nat) as -> by (by destruct c). unfold raised.
  by rewrite iter_div0_lxor.
Qed.

Lemma crc_from_raised data r :
  in_word (raised r) → crc_from (raised r) data = raised (foldl div_step r (message_bits data)) ∧
                       in_word (crc_from (raised r) data).
Proof.
  revert r. induction data as [|c data IH]; intros r Hr; [done|]. cbn [crc_from message_bits].
  rewrite foldl_app. destruct (crc_byte_raised r c Hr) as [E Hw]. rewrite E in *. by apply IH.
Qed.

(** C27: the checksum computed with shifts and masks on 16-bit words is CRC-16/XMODEM: the
    remainder of the message, sixteen zero bits after it, divided by x^16 + x^12 + x^5 + 1;
    it is always a 16-bit word, and a slot always one of the 16384. *)
Theorem crc16_is_the_remainder data :
  crc16 data = remainder (message_bits data ++ replicate 16 false) ∧
  0 <= crc16 data < 65536 ∧ ∀ key, 0 <= slotOf key < hashSlots.
Proof.
  destruct (crc_from_raised data 0) as [E Hw]; [by vm_compute|].
  change (raised 0) with 0 in *. split_and!; [|apply Hw|apply Hw|].
  - unfold crc16, remainder. rewrite E, foldl_app. symmetry. apply (foldl_div_zeros 16).
  - intros key. apply Z.mod_pos_bound. by vm_compute.
Qed.

Example crc16_check : crc16 "123456789" = 12739.     (* 0x31C3, the check value *)
Proof. by vm_compute. Qed.

Close Scope Z_scope.

(** ** Hash tags *)

(** Keys that carry the same tag in braces are on one shard, whatever is around it, as
    long as it is the first and no brace is inside; a key with no braces, or with an empty
    or an unclosed pair, hashes as a whole. *)
Lemma tagged_keys_share_a_shard pre tag post pre' post' :
  no_byte "{" pre = true → no_byte "}" tag = true → tag ≠ "" → no_byte "{" pre' = true →
  let key := pre +:+ "{" +:+ tag +:+ "}" +:+ post in
  let key' := pre' +:+ "{" +:+ tag +:+ "}" +:+ post' in
  hashTag key = tag ∧ slotOf key = slotOf key' ∧
  hashTag pre = pre ∧ hashTag (pre +:+ "{}" +:+ post) = pre +:+ "{}" +:+ post ∧
  hashTag (pre +:+ "{" +:+ tag) = pre +:+ "{" +:+ tag.
Proof.
  intros Hp Ht Hne Hp'. cbv zeta.
  assert (∀ pre post, no_byte "{" pre = true →
            hashTag (pre +:+ "{" +:+ tag +:+ "}" +:+ post) = tag) as Htag.
  { intros p q H. unfold hashTag. rewrite (cut_app "{" "" p (tag +:+ "}" +:+ q)) by done.
    rewrite (cut_app "}" "" tag q) by done. by rewrite bool_decide_eq_false_2. }
  split_and!; [by apply Htag| | | |].
  - unfold slotOf. by rewrite !Htag.
  - unfold hashTag. by rewrite cut_no_byte.
  - change ("{}" +:+ post) with ("{" +:+ "}" +:+ post).
    unfold hashTag. rewrite (cut_app "{" "" pre ("}" +:+ post)) by done.
    by rewrite (cut_app "}" "" "" post eq_refl : cut "}" ("}" +:+ post) = Some ("", post)).
  - unfold hashTag. rewrite (cut_app "{" "" pre tag) by done. by rewrite cut_no_byte.
Qed.

Lemma tagged_keys_share_a_shard_witness :
  slotOf ("" +:+ "{" +:+ "user:1" +:+ "}" +:+ ":name") =
  slotOf ("app/" +:+ "{" +:+ "user:1" +:+ "}" +:+ ":{prefs}").
Proof.
  refine (proj1 (proj2 (tagged_keys_share_a_shard "" "user:1" ":name" "app/" ":{prefs}" _ _ _ _)));
    done.
Defined.

(** ** Groups *)

(** What the loop of [bySlot] has after some keys. *)
Definition grouped (keys : list string) (g : list Z * gmap Z (list string)) : Prop :=
  NoDup g.1 ∧ (∀ s, s ∈ g.1 ↔ ∃ k, k ∈ keys ∧ slotOf k = s) ∧
  ∀ s, default [] (g.2 !! s) = filter (λ k, slotOf k = s) keys ∧
       (is_Some (g.2 !! s) ↔ s ∈ g.1).

Lemma grouped_foldl keys : grouped keys (foldl group_key ([], ∅) keys).
Proof.
  induction keys as [|key keys IH] using rev_ind.
  { split_and!; [constructor|set_solver|]. intros s. cbn. rewrite lookup_empty. split; [done|].
    split; [by intros []|set_solver]. }
  rewrite foldl_app. cbn [foldl]. destruct (foldl group_key ([], ∅) keys) as [order groups].
  destruct IH as (Hn & Ho & Hg). cbn [fst snd] in *. unfold group_key.
  pose proof (proj2 (Hg (slotOf key))) as Hk.
  assert (∀ s, s ∈ (if is_some (groups !! slotOf key) then order else order ++ [slotOf key]) ↔
               s = slotOf key ∨ s ∈ order) as Ho'.
  { intros s. destruct (is_some (groups !! slotOf key)) eqn:E.
    - apply is_some_true in E. split; [by right|]. intros [->|]; [by apply Hk|done].
    - rewrite elem_of_app, list_elem_of_singleton. tauto. }
  split_and!; cbn [fst snd].
  - destruct (is_some (groups !! slotOf key)) eqn:E; [done|]. apply NoDup_app. split_and!;
      [done| |apply NoDup_singleton].
    intros x Hx ->%list_elem_of_singleton. apply Hk in Hx.
    apply is_some_false in E. rewrite E in Hx. by destruct Hx.
  - intros s. rewrite Ho', Ho. split.
    + intros [->|(k & Hin & <-)]; [exists key; split; [set_solver|done]|exists k; split; [set_solver|done]].
    + intros (k & Hin & <-). apply elem_of_app in Hin as [Hin|Hin]; [right; eauto|].
      apply list_elem_of_singleton in Hin as ->. by left.
  - intros s. rewrite Ho', filter_app. destruct (decide (slotOf key = s)) as [<-|Hne].
    + rewrite lookup_insert_eq, (proj1 (Hg (slotOf key))). cbn [default from_option].
      rewrite (filter_cons_True _ key []) by done. split; [done|].
      split; [by left|by eexists].
    + rewrite lookup_insert_ne by done. rewrite (filter_cons_False _ key []) by done.
      rewrite filter_nil, app_nil_r. split; [apply Hg|]. rewrite (proj2 (Hg s)). naive_solver.
Qed.

(** A batch on a cluster goes out as one group of keys for each shard its keys are on,
    each group whole and in the order given, so every key is in exactly one group; and on a
    single instance as the batch it is. *)
Lemma bySlot_groups (clustered : bool) keys :
  2 ≤ length keys →
  if clustered then
    ∃ slots : list Z, NoDup slots ∧ (∀ s, s ∈ slots ↔ ∃ k, k ∈ keys ∧ slotOf k = s) ∧
             bySlot clustered keys = (λ s, filter (λ k, slotOf k = s) keys) <$> slots
  else bySlot clustered keys = [keys].
Proof.
  intros Hl. unfold bySlot. destruct clustered; cbn [negb orb]; [|done].
  destruct (Nat.leb_spec (length keys) 1); [lia|].
  pose proof (grouped_foldl keys) as Hg. destruct (foldl group_key _ keys) as [order groups].
  destruct Hg as (Hn & Ho & Hg). exists order. split_and!; [done|done|].
  apply list_fmap_ext. intros i s _. apply Hg.
Qed.

(** The groups are the batch again, whatever the order of the shards. *)
Lemma bySlot_perm clustered keys :
  mjoin (bySlot clustered keys) ≡ₚ keys ∧
  Forall (λ group, sameSlot clustered "" (λ k, k) "" group = None) (bySlot clustered keys).
Proof.
  assert (∀ slots : list Z, NoDup slots → (∀ k, k ∈ keys → slotOf k ∈ slots) →
    mjoin ((λ s, filter (λ k, slotOf k = s) keys) <$> slots) ≡ₚ keys) as Hp.
  { clear. intros slots Hn Hin. induction keys as [|key keys IH].
    { clear Hn Hin. induction slots as [|s slots IH]; [done|]. cbn. exact IH. }
    assert (slotOf key ∈ slots) as (l1 & l2 & ->)%list_elem_of_split by (apply Hin; left).
    trans (key :: mjoin ((λ s, filter (λ k, slotOf k = s) keys) <$> (l1 ++ slotOf key :: l2))).
    2:{ constructor. apply IH. intros k Hk. apply Hin. by right. }
    rewrite !fmap_app, !join_app. cbn [fmap list_fmap mjoin list_join].
    assert (∀ l : list Z, slotOf key ∉ l →
      (λ s, filter (λ k, slotOf k = s) (key :: keys)) <$> l =
      (λ s, filter (λ k, slotOf k = s) keys) <$> l) as Hskip.
    { intros l Hl. apply list_fmap_ext. intros i s Hs. rewrite filter_cons_False; [done|].
      intros <-. apply Hl. by eapply list_elem_of_lookup_2. }
    apply NoDup_app in Hn as (_ & Hd & Hn2). apply NoDup_cons in Hn2 as [Hn2 _].
    assert (slotOf key ∉ l1) as Hn1 by (intros Hl; apply (Hd _ Hl), list_elem_of_here).
    rewrite (Hskip l1 Hn1), (Hskip l2 Hn2).
    rewrite filter_cons_True by done. cbn. symmetry. apply Permutation_middle. }
  assert (∀ slot l, Forall (λ k, slotOf k = slot) l →
    sameSlot clustered "" (λ k, k) "" l = None) as Hsame.
  { intros slot l Hl. unfold sameSlot. destruct l as [|k [|k' l]]; [done|done|].
    destruct (negb clustered); [done|].
    destruct (list_find _ (k' :: l)) as [[i key]|] eqn:E; [|done].
    apply list_find_Some in E as (Hi & Hne & _). rewrite Forall_forall in Hl. destruct Hne.
    rewrite (Hl key), (Hl k); [done|left|right; by eapply list_elem_of_lookup_2]. }
  unfold bySlot. destruct (negb clustered || (length keys <=? 1)) eqn:E.
  - split; [cbn; by rewrite app_nil_r|]. repeat constructor.
    apply orb_true_iff in E as [E|E%Nat.leb_le].
    + unfold sameSlot. by destruct keys as [|? []], clustered.
    + destruct keys as [|? []]; [done|done|simpl in E; lia].
  - pose proof (grouped_foldl keys) as Hg. destruct (foldl group_key _ keys) as [order groups].
    destruct Hg as (Hn & Ho & Hg). cbn [fst snd] in *.
    assert ((λ s, default [] (groups !! s)) <$> order =
            (λ s, filter (λ k, slotOf k = s) keys) <$> order) as ->.
    { apply list_fmap_ext. intros i s _. apply Hg. }
    split; [apply Hp; [done|]; intros k Hk; apply Ho; eauto|].
    apply Forall_fmap, Forall_forall. intros s _. apply (Hsame s). apply Forall_forall.
    by intros k [? _]%list_elem_of_filter.
Qed.

Lemma bySlot_groups_witness :
  ∃ slots : list Z, NoDup slots ∧ bySlot true ["{a}1"; "b"; "{a}2"] =
    (λ s, filter (λ k, slotOf k = s) ["{a}1"; "b"; "{a}2"]) <$> slots.
Proof.
  destruct (bySlot_groups true ["{a}1"; "b"; "{a}2"]) as (slots & Hn & _ & H); [simpl; lia|].
  exists slots. split; [exact Hn|exact H].
Defined.
