(* ===== verification/RedisCache.v ===== *)
(** * A cache reached over the Redis protocol

    Models [resources/redis]: the connection made once ([cache.go], [recorded.go],
    [connection.go], [credentials.go]), every operation ([strings.go], [keys.go],
    [counters.go], [hashes.go], [lists.go], [sets.go], [sortedsets.go]) and transactions
    ([transaction.go]).  A command is the value sent; the client that sends it, and
    answers by the type of its reply, is a parameter. *)

From S2P Require Import Prelude GoStrings Json Errors Config Resources RedisSlots.
From stdpp Require Import options.

Definition ErrNotFound : config_error := ConfigError (EString "celerity: not found").

(** ** Options of the contract ([resources/cache/options.go]) *)

Record SetOptions : Type := MkSetOptions { TTL_ : Z; OnlyIfAbsent : bool; OnlyIfPresent : bool }.
Definition SetOption : Type := SetOptions → SetOptions.
Definition Expires (ttl : Z) : SetOption := λ o, MkSetOptions ttl o.(OnlyIfAbsent) o.(OnlyIfPresent).
Definition IfNotExists : SetOption := λ o, MkSetOptions o.(TTL_) true o.(OnlyIfPresent).
Definition IfExists : SetOption := λ o, MkSetOptions o.(TTL_) o.(OnlyIfAbsent) true.
Definition ResolveSetOptions (opts : list SetOption) : SetOptions :=
  foldl (λ o opt, opt o) (MkSetOptions 0 false false) opts.

Record ScanOptions : Type := MkScanOptions { Match_ : string; Count : Z; HoldsType : string }.
Definition ScanOption : Type := ScanOptions → ScanOptions.
Definition Matching (pattern : string) : ScanOption :=
  λ o, MkScanOptions pattern o.(Count) o.(HoldsType).
Definition PerRoundTrip (count : Z) : ScanOption :=
  λ o, MkScanOptions o.(Match_) count o.(HoldsType).
Definition Holding (kind : string) : ScanOption := λ o, MkScanOptions o.(Match_) o.(Count) kind.
Definition ResolveScanOptions (opts : list ScanOption) : ScanOptions :=
  foldl (λ o opt, opt o) (MkScanOptions "" 0 "") opts.

Definition Right_ : string := "right".
Definition Left_ : string := "left".
Definition EndOption : Type := string → string.
Definition AtLeft : EndOption := λ _, Left_.
Definition AtRight : EndOption := λ _, Right_.
Definition ResolveEndOptions (opts : list EndOption) (fallback : string) : string :=
  let e := foldl (λ e opt, opt e) fallback opts in
  if bool_decide (e = "") then fallback else e.

Record RangeOptions : Type := MkRangeOptions { Descending_ : bool; Offset : Z; Limit : Z }.
Definition RangeOption : Type := RangeOptions → RangeOptions.
Definition Descending : RangeOption := λ o, MkRangeOptions true o.(Offset) o.(Limit).
Definition Page (offset limit : Z) : RangeOption := λ o, MkRangeOptions o.(Descending_) offset limit.
Definition ResolveRangeOptions (opts : list RangeOption) : RangeOptions :=
  foldl (λ o opt, opt o) (MkRangeOptions false 0 0) opts.

(** [ScoreRange], and its constructors. *)
Record ScoreRange (F : Type) : Type := MkRange { Min : option F; Max : option F }.
Arguments MkRange {F}. Arguments Min {F}. Arguments Max {F}.
Definition Scores {F} (low high : F) : ScoreRange F := MkRange (Some low) (Some high).
Definition ScoresFrom {F} (low : F) : ScoreRange F := MkRange (Some low) None.
Definition ScoresUpTo {F} (high : F) : ScoreRange F := MkRange None (Some high).
Definition AllScores {F} : ScoreRange F := MkRange None None.

(** ** Commands *)

Inductive cmd (F : Type) : Type :=
  | GET (k : string) | SETARGS (k v : string) (ttl : Z) (mode : string) | DEL (ks : list string)
  | GETSET (k v : string) | APPEND (k v : string) | MGET (ks : list string)
  | MSET (pairs : list (string * string))
  | EXISTS (k : string) | TTL (k : string) | EXPIRE (k : string) (ttl : Z) | PERSIST (k : string)
  | TYPE (k : string) | RENAME (k k' : string)
  | SCAN (node : nat) (cursor : Z) (match_ : string) (count : Z) (type_ : option string)
  | INCRBY (k : string) (n : Z) | DECRBY (k : string) (n : Z) | INCRBYFLOAT (k : string) (f : F)
  | HGET (k f : string) | HSET (k : string) (pairs : list (string * string))
  | HDEL (k : string) (fs : list string) | HGETALL (k : string) | HEXISTS (k f : string)
  | HINCRBY (k f : string) (n : Z) | HKEYS (k : string) | HLEN (k : string)
  | PUSH (left : bool) (k : string) (vs : list string) | POP (left : bool) (k : string) (n : Z)
  | LRANGE (k : string) (a b : Z) | LLEN (k : string) | LTRIM (k : string) (a b : Z)
  | LINDEX (k : string) (i : Z)
  | SADD (k : string) (ms : list string) | SREM (k : string) (ms : list string)
  | SMEMBERS (k : string) | SISMEMBER (k m : string) | SCARD (k : string)
  | SUNION (ks : list string) | SINTER (ks : list string) | SDIFF (ks : list string)
  | ZADD (k : string) (ms : list (string * F)) | ZREM (k : string) (ms : list string)
  | ZSCORE (k m : string) | ZRANK (rev : bool) (k m : string)
  | ZRANGE (rev : bool) (k : string) (a b : Z)
  | ZRANGEBYSCORE (rev : bool) (k min max : string) (offset count : Z)
  | ZINCRBY (k : string) (f : F) (m : string) | ZCARD (k : string) | ZCOUNT (k min max : string)
  | ZREMRANGEBYRANK (k : string) (a b : Z) | ZREMRANGEBYSCORE (k min max : string).
Arguments GET {F}. Arguments SETARGS {F}. Arguments DEL {F}. Arguments GETSET {F}.
Arguments APPEND {F}. Arguments MGET {F}. Arguments MSET {F}. Arguments EXISTS {F}.
Arguments TTL {F}. Arguments EXPIRE {F}. Arguments PERSIST {F}. Arguments TYPE {F}.
Arguments RENAME {F}. Arguments SCAN {F}. Arguments INCRBY {F}. Arguments DECRBY {F}.
Arguments INCRBYFLOAT {F}. Arguments HGET {F}. Arguments HSET {F}. Arguments HDEL {F}.
Arguments HGETALL {F}. Arguments HEXISTS {F}. Arguments HINCRBY {F}. Arguments HKEYS {F}.
Arguments HLEN {F}. Arguments PUSH {F}. Arguments POP {F}. Arguments LRANGE {F}.
Arguments LLEN {F}. Arguments LTRIM {F}. Arguments LINDEX {F}. Arguments SADD {F}.
Arguments SREM {F}. Arguments SMEMBERS {F}. Arguments SISMEMBER {F}. Arguments SCARD {F}.
Arguments SUNION {F}. Arguments SINTER {F}. Arguments SDIFF {F}. Arguments ZADD {F}.
Arguments ZREM {F}. Arguments ZSCORE {F}. Arguments ZRANK {F}. Arguments ZRANGE {F}.
Arguments ZRANGEBYSCORE {F}. Arguments ZINCRBY {F}. Arguments ZCARD {F}. Arguments ZCOUNT {F}.
Arguments ZREMRANGEBYRANK {F}. Arguments ZREMRANGEBYSCORE {F}.

(** The keys a command names. *)
Definition cmd_keys {F} (c : cmd F) : list string :=
  match c with
  | GET k | SETARGS k _ _ _ | GETSET k _ | APPEND k _ | EXISTS k | TTL k | EXPIRE k _ | PERSIST k
  | TYPE k | INCRBY k _ | DECRBY k _ | INCRBYFLOAT k _ | HGET k _ | HSET k _ | HDEL k _ | HGETALL k
  | HEXISTS k _ | HINCRBY k _ _ | HKEYS k | HLEN k | PUSH _ k _ | POP _ k _ | LRANGE k _ _ | LLEN k
  | LTRIM k _ _ | LINDEX k _ | SADD k _ | SREM k _ | SMEMBERS k | SISMEMBER k _ | SCARD k
  | ZADD k _ | ZREM k _ | ZSCORE k _ | ZRANK _ k _ | ZRANGE _ k _ _ | ZRANGEBYSCORE _ k _ _ _ _
  | ZINCRBY k _ _ | ZCARD k | ZCOUNT k _ _ | ZREMRANGEBYRANK k _ _ | ZREMRANGEBYSCORE k _ _ => [k]
  | DEL ks | MGET ks | SUNION ks | SINTER ks | SDIFF ks => ks
  | MSET pairs => pairs.*1
  | RENAME k k' => [k; k']
  | SCAN _ _ _ _ _ => []
  end.

(** What a queued command replied, by the type of command the client holds it as. *)
Inductive replied (F : Type) : Type :=
  | StatusCmd (v : string) | StringCmd (v : string) | IntCmd (n : Z) | FloatCmd (f : F)
  | BoolCmd (b : bool) | OtherCmd.
Arguments StatusCmd {F}. Arguments StringCmd {F}. Arguments IntCmd {F}. Arguments FloatCmd {F}.
Arguments BoolCmd {F}. Arguments OtherCmd {F}.

Record Cmder (F : Type) : Type := MkCmder { reply : replied F; cmd_err : option error }.
Arguments MkCmder {F}. Arguments reply {F}. Arguments cmd_err {F}.

(** The client, by the type a command replies with. *)
Record Client (W F : Type) : Type := MkClient {
  Status_ : cmd F → W → option error * W;
  Text : cmd F → W → result error string * W;
  Int : cmd F → W → result error Z * W;
  Bool_ : cmd F → W → result error bool * W;
  Float_ : cmd F → W → result error F * W;
  Texts : cmd F → W → result error (list string) * W;
  Maybes : cmd F → W → result error (list (option string)) * W;
  Fields_ : cmd F → W → result error (gmap string string) * W;
  Scored : cmd F → W → result error (list (string * F)) * W;
  Keys_ : cmd F → W → result error (list string * Z) * W;
  TxPipelined : list (cmd F) → W → (list (Cmder F) * option error) * W;
  Masters : option (list nat);             (* of a cluster client *)
  CloseClient : W → option error * W;
}.
Arguments Status_ {W F}. Arguments Text {W F}. Arguments Int {W F}. Arguments Bool_ {W F}.
Arguments Float_ {W F}. Arguments Texts {W F}. Arguments Maybes {W F}. Arguments Fields_ {W F}.
Arguments Scored {W F}. Arguments Keys_ {W F}. Arguments TxPipelined {W F}. Arguments Masters {W F}.
Arguments CloseClient {W F}.

(** ** The connection *)

Definition defaultCachePort : Z := 6379.

(** [recorded], what a deployment recorded about a cache. *)
Record recorded : Type := MkRecorded {
  host : string; port : Z; authMode : string; tls : bool; r_clustered : bool;
  user : string; r_keyPrefix : string;
}.
Definition no_record : recorded := MkRecorded "" 0 "" false false "" "".

Definition encrypted (r : recorded) : bool := r.(tls) || bool_decide (r.(authMode) = AuthIAM).

(** [net.JoinHostPort]. *)
Definition join_host_port (host : string) (port : string) : string :=
  if contains host ":" then "[" +:+ host +:+ "]:" +:+ port
  else host +:+ ":" +:+ port.

(** What a signed password mints, per connection. *)
Abbreviation signed_password W := (W → result error (string * string) * W) (only parsing).

Record Credentials (W : Type) : Type := MkCredentials {
  Secret : string → W → result error string * W;
  SignedPassword : string → string → string → option (signed_password W);
}.
Arguments Secret {W}. Arguments SignedPassword {W}. Arguments MkCredentials {W}.

(** [goredis.UniversalOptions], as far as they are set. *)
Record UniversalOptions (W : Type) : Type := MkOptions {
  Addr : string;
  Username : string;
  IsClusterMode : bool;
  TLSServerName : option string;
  Password : string;
  CredentialsProvider : option (signed_password W);
}.
Arguments MkOptions {W}. Arguments Addr {W}. Arguments Username {W}.
Arguments IsClusterMode {W}. Arguments TLSServerName {W}. Arguments Password {W}.
Arguments CredentialsProvider {W}.

Record Connection (W : Type) : Type := MkConnection {
  c_Host : string; c_Port : Z; c_TLS : bool; c_ClusterMode : bool; c_User : string;
  c_AuthMode : string; c_KeyPrefix : string; c_Password : W → result error string * W;
}.
Arguments MkConnection {W}.

Section cache.
Context {W F : Type} (now : W → Z) (ref : Ref) (creds : option (Credentials W)).
(** [goredis.NewUniversalClient], the tracing put on it, and [errors.Is(err, goredis.Nil)]. *)
Context (NewUniversalClient : UniversalOptions W → Client W F).
Context (instrument : Client W F → option error) (isNil isNoSuchKey : error → bool).
(** [strconv.FormatFloat(score, 'f', -1, 64)]. *)
Context (format_float : F → string).

Abbreviation reading := (reading (W := W)).

(** [recorded]: seven reads through one reader. *)
Definition read_recorded : reading recorded := λ c,
  let '(h, rd, c) := read_required now ref "_host" None c in
  let '(p, rd, c) := read_number now ref "_port" defaultCachePort rd c in
  let '(a, rd, c) := read_optional now ref "_authMode" AuthPassword rd c in
  let '(t, rd, c) := read_boolean now ref "_tls" true rd c in
  let '(cl, rd, c) := read_boolean now ref "_clusterMode" false rd c in
  let '(u, rd, c) := read_optional now ref "_user" "" rd c in
  let '(k, rd, c) := read_optional now ref "_keyPrefix" "" rd c in
  match rd with
  | Some err => (Err err, c)
  | None => (Ok (MkRecorded h p a t cl u k), c)
  end.

Definition plain (e : error) : config_error := ConfigError e.
Definition said (parts : string) : config_error := ConfigError (EString parts).

Definition no_user : config_error := said ("celerity: " +:+ ref_text ref +:+
  " is reached with IAM authentication, which signs a token for a particular user, and the " +:+
  "deployment recorded no " +:+ go_quote "_user").
Definition no_signer : config_error := said ("celerity: " +:+ ref_text ref +:+
  " is reached with the platform's own identity, and this build links no package that can " +:+
  "sign for one: import the cache package for the platform the blueprint deploys to").
Definition no_scheme : config_error := said ("celerity: " +:+ ref_text ref +:+
  " is reached with the platform's own identity, and the platform this build is for has no " +:+
  "such scheme").
Definition no_secrets : config_error := said ("celerity: the password for " +:+ ref_text ref +:+
  " is held in the platform's secret store, and this build links no package that can read one").

Definition signer (host user : string) : reading (signed_password W) :=
  if bool_decide (user = "") then refuse no_user
  else then_ (Optional now ref "_region" "") (λ region,
    match creds with
    | None => refuse no_signer
    | Some cr => match cr.(SignedPassword) host user region with
                 | None => refuse no_scheme
                 | Some signed => answer signed
                 end
    end).

Definition password : reading string :=
  then_ (Optional now ref "_authToken" "") (λ literal,
    if negb (bool_decide (literal = "")) then answer literal
    else then_ (Optional now ref "_authTokenSecretId" "") (λ id,
      if bool_decide (id = "") then answer ""
      else match creds with
      | None => refuse no_secrets
      | Some cr => λ '(svc, w), match cr.(Secret) id w with
                                | (Ok s, w) => (Ok s, (svc, w))
                                | (Err e, w) => (Err (plain e), (svc, w))
                                end
      end)).

(** [options], with [authenticate]; the prefix comes with them. *)
Definition options_of (settings : recorded) : UniversalOptions W :=
  MkOptions (join_host_port settings.(host) (itoa settings.(port))) settings.(user)
    settings.(r_clustered) (if encrypted settings then Some settings.(host) else None) "" None.

Definition authenticate (settings : recorded) (o : UniversalOptions W) :
    reading (UniversalOptions W) :=
  if negb (bool_decide (settings.(authMode) = AuthIAM)) then
    then_ password (λ token, answer
      (MkOptions o.(Addr) o.(Username) o.(IsClusterMode) o.(TLSServerName) token None))
  else
    then_ (signer settings.(host) settings.(user)) (λ signed, answer
      (MkOptions o.(Addr) o.(Username) o.(IsClusterMode) o.(TLSServerName) "" (Some signed))).

Definition client_options : reading (UniversalOptions W * string) :=
  then_ read_recorded (λ settings,
    then_ (authenticate settings (options_of settings)) (λ o, answer (o, settings.(r_keyPrefix)))).

(** [passwordFor] and [Connection]. *)
Definition passwordFor (settings : recorded) : reading (W → result error string * W) :=
  if negb (bool_decide (settings.(authMode) = AuthIAM)) then
    then_ password (λ token, answer (λ w, (Ok token, w)))
  else
    then_ (signer settings.(host) settings.(user)) (λ signed, answer (λ w,
      match signed w with (Ok (_, token), w) => (Ok token, w) | (Err e, w) => (Err e, w) end)).

Definition Connection_ : reading (Connection W) :=
  then_ read_recorded (λ s, then_ (passwordFor s) (λ p, answer
    (MkConnection s.(host) s.(port) (encrypted s) s.(r_clustered) s.(user) s.(authMode)
       s.(r_keyPrefix) p))).

(** What [connect] left, the first time it was called. *)
Record connected : Type := MkConnected {
  client : Client W F;
  keyPrefix : string;
  clustered : bool;
}.

Record redisCache : Type := MkCache {
  once : option (result config_error connected);
  config : cfg (W := W);
}.

Definition call (A : Type) : Type := redisCache → result config_error A * redisCache.

Definition connect : call connected := λ d,
  match d.(once) with
  | Some r => (r, d)
  | None =>
      let '(r, c) := client_options d.(config) in
      let r := match r with
        | Err err => Err err
        | Ok (o, prefix) =>
            let cl := NewUniversalClient o in
            match instrument cl with
            | Some err => Err (plain err)
            | None => Ok (MkConnected cl prefix o.(IsClusterMode))
            end
        end in
      (r, MkCache (Some r) c)
  end.

(** [Close]: what was opened, if anything was. *)
Definition Close : call () := λ d,
  match d.(once) with
  | Some (Ok cn) =>
      let '(svc, w) := d.(config) in
      let '(e, w) := cn.(client).(CloseClient) w in
      (match e with
       | None => Ok ()
       | Some err => Err (plain (EWrap ("celerity: closing the connection to " +:+ ref_text ref +:+
                                        ": " +:+ error_text err) err))
       end, MkCache d.(once) (svc, w))
  | _ => (Ok (), d)
  end.

(** ** Operations *)

Definition ret {A} (a : A) : call A := λ d, (Ok a, d).
Definition bind {A B} (m : call A) (f : A → call B) : call B := λ d,
  match m d with (Ok a, d) => f a d | (Err e, d) => (Err e, d) end.

(** A request of the client: its answer, or the error it gives and what to make of it. *)
Definition send {A} (on : config_error → config_error) (f : W → result error A * W) : call A := λ d,
  let '(svc, w) := d.(config) in
  let '(r, w) := f w in
  (match r with Ok a => Ok a | Err e => Err (on (plain e)) end, MkCache d.(once) (svc, w)).

Definition key (cn : connected) (name : string) : string := cn.(keyPrefix) +:+ name.
Definition names (cn : connected) (ks : list string) : list string := key cn <$> ks.
Definition strip (cn : connected) (k : string) : string := trim_prefix k cn.(keyPrefix).

Definition wrap (msg : string) (e : config_error) : config_error :=
  match e with
  | ConfigError err => ConfigError (EWrap (msg +:+ ": " +:+ error_text err) err)
  | e => ConfigError (EString (msg +:+ ": " +:+ config_error_text e))
  end.

(** [failed] and [missing]. *)
Definition failed (doing k : string) (e : config_error) : config_error :=
  if bool_decide (k = "") then wrap ("celerity: " +:+ doing +:+ " in " +:+ ref_text ref) e
  else wrap ("celerity: " +:+ doing +:+ " " +:+ go_quote k +:+ " in " +:+ ref_text ref) e.

Definition holds_nothing (k : string) : config_error :=
  wrap ("celerity: " +:+ ref_text ref +:+ " holds nothing under " +:+ go_quote k) ErrNotFound.

Definition nil_reply (e : config_error) : bool :=
  match e with ConfigError err => isNil err | _ => false end.

Definition missing (doing k : string) (e : config_error) : config_error :=
  if nil_reply e then holds_nothing k else failed doing k e.

(** The shape most operations have: connect, send one command of a key, answer. *)
Definition one {A B} (on : config_error → config_error) (f : Client W F → cmd F → W → result error A * W)
    (c : connected → cmd F) (out : A → B) : call B :=
  bind connect (λ cn, bind (send on (f cn.(client) (c cn))) (λ a, ret (out a))).

Definition status (f : Client W F → cmd F → W → option error * W) :
    Client W F → cmd F → W → result error () * W := λ cl c w,
  match f cl c w with (None, w) => (Ok (), w) | (Some e, w) => (Err e, w) end.

Definition same {A} (a : A) : A := a.
Definition positive (n : Z) : bool := (0 <? n)%Z.

(** [strings.go]. *)
Definition Get (k : string) : call string :=
  one (missing "reading" k) Text (λ cn, GET (key cn k)) same.

(** What [SetArgs] is given. *)
Definition set_args (cn : connected) (k v : string) (opts : list SetOption) : cmd F :=
  let o := ResolveSetOptions opts in
  SETARGS (key cn k) v o.(TTL_)
    (if o.(OnlyIfAbsent) then "NX" else if o.(OnlyIfPresent) then "XX" else "").

Definition Set_ (k v : string) (opts : list SetOption) : call bool :=
  bind connect (λ cn d,
    match send same (status Status_ cn.(client) (set_args cn k v opts)) d with
    | (Ok _, d) => (Ok true, d)
    | (Err e, d) => if nil_reply e then (Ok false, d) else (Err (failed "writing" k e), d)
    end).

Definition Delete (k : string) : call bool :=
  one (failed "deleting" k) Int (λ cn, DEL [key cn k]) positive.
Definition GetSet (k v : string) : call string :=
  one (missing "replacing" k) Text (λ cn, GETSET (key cn k) v) same.
Definition Append (k v : string) : call Z :=
  one (failed "appending to" k) Int (λ cn, APPEND (key cn k) v) same.

(** The answers of one group put with those found already. *)
Definition take_found (cn : connected) (group : list string) (values : list (option string))
    (found : gmap string string) : gmap string string :=
  foldl (λ found '(k, v), match v with Some text => <[strip cn k := text]> found | None => found end)
    found (zip group values).

(** Group after group, stopping at the first that fails. *)
Fixpoint for_groups {A B} (f : B → A → call B) (groups : list A) (acc : B) : call B :=
  match groups with
  | [] => ret acc
  | g :: groups => bind (f acc g) (λ acc, for_groups f groups acc)
  end.

Definition groups_of (cn : connected) (ks : list string) : list (list string) :=
  bySlot cn.(clustered) ks.

Definition GetMany (ks : list string) : call (gmap string string) :=
  if bool_decide (ks = []) then ret ∅
  else bind connect (λ cn,
    for_groups (λ found group,
      bind (send (failed "reading a batch" "") (cn.(client).(Maybes) (MGET group))) (λ values,
        ret (take_found cn group values found)))
      (groups_of cn (names cn ks)) ∅).

(** The keys of a map come in the order of one walk over it. *)
Definition SetMany (values : gmap string string) (walk : list string) : call () :=
  if bool_decide (values = ∅) then ret ()
  else bind connect (λ cn,
    for_groups (λ _ group,
      send (failed "writing a batch" "") (status Status_ cn.(client)
        (MSET ((λ k, (k, default "" (values !! strip cn k))) <$> group))))
      (groups_of cn (names cn walk)) ()).

(** [DeleteMany] answers what was removed before a failure beside the error. *)
Fixpoint delete_groups (cn : connected) (groups : list (list string)) (removed : Z)
    (d : redisCache) : Z * option config_error * redisCache :=
  match groups with
  | [] => (removed, None, d)
  | group :: groups =>
      match send same (cn.(client).(Int) (DEL group)) d with
      | (Err e, d) => (removed, Some (failed "deleting a batch" "" e), d)
      | (Ok n, d) => delete_groups cn groups (removed + n)%Z d
      end
  end.

Definition DeleteMany (ks : list string) (d : redisCache) : Z * option config_error * redisCache :=
  if bool_decide (ks = []) then (0%Z, None, d)
  else match connect d with
  | (Err e, d) => (0%Z, Some e, d)
  | (Ok cn, d) => delete_groups cn (groups_of cn (names cn ks)) 0 d
  end.

(** [keys.go]. *)
Definition Exists (k : string) : call bool :=
  one (failed "looking for" k) Int (λ cn, EXISTS (key cn k)) positive.

Definition keyMissing : Z := -2.
Definition noExpiry : Z := -1.
Definition Second : Z := 1000000000.

(** [TTL]: the lifetime, and whether there is one. *)
Definition TTL_of (k : string) : call (Z * bool) :=
  bind connect (λ cn,
    bind (send (failed "reading the lifetime of" k) (cn.(client).(Int) (TTL (key cn k)))) (λ seconds d,
      if (seconds =? keyMissing)%Z then (Err (holds_nothing k), d)
      else if (seconds =? noExpiry)%Z then (Ok (0%Z, false), d)
      else (Ok (to_int64 (seconds * Second), true), d))).

Definition Expire (k : string) (ttl : Z) : call bool :=
  one (failed "setting the lifetime of" k) Bool_ (λ cn, EXPIRE (key cn k) ttl) same.
Definition Persist (k : string) : call bool :=
  one (failed "removing the lifetime of" k) Bool_ (λ cn, PERSIST (key cn k)) same.

Definition Type_of (k : string) : call string :=
  bind connect (λ cn,
    bind (send (failed "reading the type of" k) (cn.(client).(Text) (TYPE (key cn k)))) (λ kind d,
      if bool_decide (kind = "none") then (Err (holds_nothing k), d) else (Ok kind, d))).

Definition sameSlot_of (cn : connected) (doing : string) (ks : list string) : option config_error :=
  plain <$> sameSlot cn.(clustered) (ref_text ref) (strip cn) doing ks.

Definition no_such_key (e : config_error) : bool :=
  match e with ConfigError err => isNoSuchKey err | _ => false end.

Definition Rename (k newKey : string) : call () :=
  bind connect (λ cn,
    let from := key cn k in let to := key cn newKey in
    match sameSlot_of cn "renaming" [from; to] with
    | Some e => λ d, (Err e, d)
    | None =>
        send (λ e, if no_such_key e then holds_nothing k else failed "renaming" k e)
          (status Status_ cn.(client) (RENAME from to))
    end).

(** [counters.go]. *)
Definition Increment (k : string) (n : Z) : call Z :=
  one (failed "incrementing" k) Int (λ cn, INCRBY (key cn k) n) same.
Definition Decrement (k : string) (n : Z) : call Z :=
  one (failed "decrementing" k) Int (λ cn, DECRBY (key cn k) n) same.
Definition IncrementFloat (k : string) (f : F) : call F :=
  one (failed "incrementing" k) Float_ (λ cn, INCRBYFLOAT (key cn k) f) same.

(** [hashes.go]; the fields of a map come in the order of one walk over it. *)
Definition HashGet (k f : string) : call string :=
  one (missing "reading a field of" k) Text (λ cn, HGET (key cn k) f) same.
Definition HashSet (k : string) (walk : list (string * string)) : call () :=
  if bool_decide (walk = []) then ret ()
  else one (failed "writing fields of" k) (status Status_) (λ cn, HSET (key cn k) walk) same.
Definition HashDelete (k : string) (fs : list string) : call Z :=
  if bool_decide (fs = []) then ret 0%Z
  else one (failed "deleting fields of" k) Int (λ cn, HDEL (key cn k) fs) same.
Definition HashGetAll (k : string) : call (gmap string string) :=
  one (failed "reading" k) Fields_ (λ cn, HGETALL (key cn k)) same.
Definition HashExists (k f : string) : call bool :=
  one (failed "looking for a field of" k) Bool_ (λ cn, HEXISTS (key cn k) f) same.
Definition HashIncrement (k f : string) (n : Z) : call Z :=
  one (failed ("incrementing " +:+ go_quote f +:+ " of") k) Int (λ cn, HINCRBY (key cn k) f n) same.
Definition HashKeys (k : string) : call (list string) :=
  one (failed "reading the fields of" k) Texts (λ cn, HKEYS (key cn k)) same.
Definition HashLen (k : string) : call Z :=
  one (failed "counting the fields of" k) Int (λ cn, HLEN (key cn k)) same.

(** [lists.go]. *)
Definition ListLen (k : string) : call Z :=
  one (failed "measuring" k) Int (λ cn, LLEN (key cn k)) same.
Definition ListPush (k : string) (vs : list string) (opts : list EndOption) : call Z :=
  if bool_decide (vs = []) then ListLen k
  else one (failed "pushing onto" k) Int
    (λ cn, PUSH (bool_decide (ResolveEndOptions opts Right_ = Left_)) (key cn k) vs) same.
Definition ListPop (k : string) (count : Z) (opts : list EndOption) : call (list string) :=
  let count := if (count <=? 0)%Z then 1%Z else count in
  bind connect (λ cn d,
    match send same (cn.(client).(Texts) (POP (negb (bool_decide (ResolveEndOptions opts Left_ = Right_)))
                       (key cn k) count)) d with
    | (Ok vs, d) => (Ok vs, d)
    | (Err e, d) => if nil_reply e then (Ok [], d) else (Err (failed "popping from" k e), d)
    end).
Definition ListRange (k : string) (a b : Z) : call (list string) :=
  one (failed "reading a range of" k) Texts (λ cn, LRANGE (key cn k) a b) same.
Definition ListTrim (k : string) (a b : Z) : call () :=
  one (failed "trimming" k) (status Status_) (λ cn, LTRIM (key cn k) a b) same.
Definition ListIndex (k : string) (i : Z) : call string :=
  one (missing "reading an element of" k) Text (λ cn, LINDEX (key cn k) i) same.

(** [sets.go]. *)
Definition SetAdd (k : string) (ms : list string) : call Z :=
  if bool_decide (ms = []) then ret 0%Z
  else one (failed "adding to" k) Int (λ cn, SADD (key cn k) ms) same.
Definition SetRemove (k : string) (ms : list string) : call Z :=
  if bool_decide (ms = []) then ret 0%Z
  else one (failed "removing from" k) Int (λ cn, SREM (key cn k) ms) same.
Definition SetMembers (k : string) : call (list string) :=
  one (failed "reading" k) Texts (λ cn, SMEMBERS (key cn k)) same.
Definition SetIsMember (k m : string) : call bool :=
  one (failed "looking in" k) Bool_ (λ cn, SISMEMBER (key cn k) m) same.
Definition SetLen (k : string) : call Z :=
  one (failed "counting" k) Int (λ cn, SCARD (key cn k)) same.

(** [combine]. *)
Definition combine (doing : string) (ks : list string) (run : list string → cmd F) :
    call (list string) :=
  if bool_decide (ks = []) then ret []
  else bind connect (λ cn,
    match sameSlot_of cn doing (names cn ks) with
    | Some e => λ d, (Err e, d)
    | None => send (failed doing "") (cn.(client).(Texts) (run (names cn ks)))
    end).
Definition SetUnion (ks : list string) := combine "taking the union of" ks SUNION.
Definition SetIntersect (ks : list string) := combine "taking the intersection of" ks SINTER.
Definition SetDiff (ks : list string) := combine "taking the difference of" ks SDIFF.

(** [sortedsets.go]; a member is its name and its score. *)
Definition bound (score : option F) (open : string) : string :=
  match score with None => open | Some f => format_float f end.
Definition low (r : ScoreRange F) : string := bound r.(Min) "-inf".
Definition high (r : ScoreRange F) : string := bound r.(Max) "+inf".

Definition SortedSetAdd (k : string) (ms : list (string * F)) : call Z :=
  match ms with
  | [] => ret 0%Z
  | _ => one (failed "adding to" k) Int (λ cn, ZADD (key cn k) ms) same
  end.
Definition SortedSetRemove (k : string) (ms : list string) : call Z :=
  if bool_decide (ms = []) then ret 0%Z
  else one (failed "removing from" k) Int (λ cn, ZREM (key cn k) ms) same.
Definition SortedSetScore (k m : string) : call F :=
  one (missing "reading the score of a member of" k) Float_ (λ cn, ZSCORE (key cn k) m) same.
Definition SortedSetRank (k m : string) (opts : list RangeOption) : call Z :=
  one (missing "reading the rank of a member of" k) Int
    (λ cn, ZRANK (ResolveRangeOptions opts).(Descending_) (key cn k) m) same.
Definition SortedSetRange (k : string) (a b : Z) (opts : list RangeOption) :
    call (list (string * F)) :=
  one (failed "reading a range of" k) Scored
    (λ cn, ZRANGE (ResolveRangeOptions opts).(Descending_) (key cn k) a b) same.
Definition SortedSetRangeByScore (k : string) (r : ScoreRange F) (opts : list RangeOption) :
    call (list (string * F)) :=
  let o := ResolveRangeOptions opts in
  one (failed "reading a score range of" k) Scored
    (λ cn, ZRANGEBYSCORE o.(Descending_) (key cn k) (low r) (high r) o.(Offset) o.(Limit)) same.
Definition SortedSetIncrement (k m : string) (f : F) : call F :=
  one (failed "incrementing a member of" k) Float_ (λ cn, ZINCRBY (key cn k) f m) same.
Definition SortedSetLen (k : string) : call Z :=
  one (failed "counting" k) Int (λ cn, ZCARD (key cn k)) same.
Definition SortedSetCountByScore (k : string) (r : ScoreRange F) : call Z :=
  one (failed "counting a score range of" k) Int (λ cn, ZCOUNT (key cn k) (low r) (high r)) same.
Definition SortedSetRemoveByRank (k : string) (a b : Z) : call Z :=
  one (failed "removing a rank range of" k) Int (λ cn, ZREMRANGEBYRANK (key cn k) a b) same.
Definition SortedSetRemoveByScore (k : string) (r : ScoreRange F) : call Z :=
  one (failed "removing a score range of" k) Int
    (λ cn, ZREMRANGEBYSCORE (key cn k) (low r) (high r)) same.

(** ** Walking the keys

    The consumer has a state [S] and says whether it wants more.  [masters] is what the
    walk over a cluster's masters gathered ([gathers]). *)
Section scan.
Context {S : Type} (yield : S → string * option config_error → bool * S).

Definition scan_match (cn : connected) (o : ScanOptions) : string :=
  if bool_decide (o.(Match_) = "") then cn.(keyPrefix) +:+ "*" else cn.(keyPrefix) +:+ o.(Match_).

Definition scan_cmd (cn : connected) (node : nat) (o : ScanOptions) (cursor : Z) : cmd F :=
  SCAN node cursor (scan_match cn o) o.(Count)
    (if bool_decide (o.(HoldsType) = "") then None else Some o.(HoldsType)).

Fixpoint yield_keys (cn : connected) (ks : list string) (s : S) : bool * S :=
  match ks with
  | [] => (true, s)
  | k :: ks => let '(more, s) := yield s (strip cn k, None) in
               if more then yield_keys cn ks s else (false, s)
  end.

(** [walk]; out of fuel where the cache never says it has been round. *)
Fixpoint walk (fuel : nat) (cn : connected) (node : nat) (o : ScanOptions) (cursor : Z) (s : S)
    (d : redisCache) : option (bool * S * redisCache) :=
  match fuel with
  | O => None
  | Datatypes.S fuel =>
      match send (failed "walking the keys" "") (cn.(client).(Keys_) (scan_cmd cn node o cursor)) d with
      | (Err e, d) => Some (false, (yield s ("", Some e)).2, d)
      | (Ok (ks, cursor), d) =>
          let '(more, s) := yield_keys cn ks s in
          if negb more then Some (false, s, d)
          else if (cursor =? 0)%Z then Some (true, s, d)
          else walk fuel cn node o cursor s d
      end
  end.

Definition shards (cn : connected) (masters : list nat) : list nat :=
  match cn.(client).(Masters) with
  | None => [0]
  | Some _ => match masters with [] => [0] | _ => masters end
  end.

Fixpoint walk_shards (fuel : nat) (cn : connected) (nodes : list nat) (o : ScanOptions) (s : S)
    (d : redisCache) : option (S * redisCache) :=
  match nodes with
  | [] => Some (s, d)
  | node :: nodes =>
      match walk fuel cn node o 0 s d with
      | None => None
      | Some (false, s, d) => Some (s, d)
      | Some (true, s, d) => walk_shards fuel cn nodes o s d
      end
  end.

Definition Scan (fuel : nat) (opts : list ScanOption) (masters : list nat) (s : S) (d : redisCache) :
    option (S * redisCache) :=
  let o := ResolveScanOptions opts in
  match connect d with
  | (Err e, d) => Some ((yield s ("", Some e)).2, d)
  | (Ok cn, d) => walk_shards fuel cn (shards cn masters) o s d
  end.
End scan.

(** ** Transactions

    The function a caller queues with is what it queues: the calls of [cache.Tx] it makes,
    in order. *)

Inductive txop : Type :=
  | TxSet (k v : string) (opts : list SetOption)
  | TxDelete (k : string)
  | TxGetSet (k v : string)
  | TxAppend (k v : string)
  | TxIncrement (k : string) (n : Z)
  | TxDecrement (k : string) (n : Z)
  | TxIncrementFloat (k : string) (f : F)
  | TxHashSet (k : string) (walk : list (string * string))
  | TxHashDelete (k : string) (fs : list string)
  | TxHashIncrement (k f : string) (n : Z)
  | TxListPush (k : string) (vs : list string) (opts : list EndOption)
  | TxListTrim (k : string) (a b : Z)
  | TxSetAdd (k : string) (ms : list string)
  | TxSetRemove (k : string) (ms : list string)
  | TxSortedSetAdd (k : string) (ms : list (string * F))
  | TxSortedSetRemove (k : string) (ms : list string)
  | TxSortedSetIncrement (k m : string) (f : F)
  | TxExpire (k : string) (ttl : Z)
  | TxPersist (k : string)
  | TxRename (k newKey : string).

(** [recordingTx]: the keys a call touches. *)
Definition recording (cn : connected) (op : txop) : list string :=
  match op with
  | TxSet k _ _ | TxDelete k | TxGetSet k _ | TxAppend k _ | TxIncrement k _ | TxDecrement k _
  | TxIncrementFloat k _ | TxHashSet k _ | TxHashDelete k _ | TxHashIncrement k _ _
  | TxListPush k _ _ | TxListTrim k _ _ | TxSetAdd k _ | TxSetRemove k _ | TxSortedSetAdd k _
  | TxSortedSetRemove k _ | TxSortedSetIncrement k _ _ | TxExpire k _ | TxPersist k => [key cn k]
  | TxRename k newKey => [key cn k; key cn newKey]
  end.

(** [pipelineTx]: the command a call queues. *)
Definition pipeline (cn : connected) (op : txop) : cmd F :=
  match op with
  | TxSet k v opts => set_args cn k v opts
  | TxDelete k => DEL [key cn k]
  | TxGetSet k v => GETSET (key cn k) v
  | TxAppend k v => APPEND (key cn k) v
  | TxIncrement k n => INCRBY (key cn k) n
  | TxDecrement k n => DECRBY (key cn k) n
  | TxIncrementFloat k f => INCRBYFLOAT (key cn k) f
  | TxHashSet k walk => HSET (key cn k) walk
  | TxHashDelete k fs => HDEL (key cn k) fs
  | TxHashIncrement k f n => HINCRBY (key cn k) f n
  | TxListPush k vs opts => PUSH (bool_decide (ResolveEndOptions opts Right_ = Left_)) (key cn k) vs
  | TxListTrim k a b => LTRIM (key cn k) a b
  | TxSetAdd k ms => SADD (key cn k) ms
  | TxSetRemove k ms => SREM (key cn k) ms
  | TxSortedSetAdd k ms => ZADD (key cn k) ms
  | TxSortedSetRemove k ms => ZREM (key cn k) ms
  | TxSortedSetIncrement k m f => ZINCRBY (key cn k) f m
  | TxExpire k ttl => EXPIRE (key cn k) ttl
  | TxPersist k => PERSIST (key cn k)
  | TxRename k newKey => RENAME (key cn k) (key cn newKey)
  end.

(** What a caller reads of each command: an [any]. *)
Inductive result_value : Type :=
  | AnError (e : error) | AText (s : string) | AnInt (n : Z) | AFloat (f : F) | ABool (b : bool)
  | ANil.

Definition nil_err (c : Cmder F) : bool :=
  match c.(cmd_err) with Some e => isNil e | None => false end.

Definition valueOf (c : Cmder F) : result_value :=
  match c.(reply) with
  | StatusCmd v => if nil_err c then ABool false else AText v
  | StringCmd v => if nil_err c then ANil else AText v
  | IntCmd n => AnInt n
  | FloatCmd f => AFloat f
  | BoolCmd b => ABool b
  | OtherCmd => ANil
  end.

Definition answer_of (c : Cmder F) : result_value :=
  match c.(cmd_err) with
  | Some e => if isNil e then valueOf c else AnError e
  | None => valueOf c
  end.

Definition answers (commands : list (Cmder F)) : list result_value := answer_of <$> commands.

Definition Transaction (queue : list txop) : call (list result_value) :=
  bind connect (λ cn d,
    match (if cn.(clustered) then sameSlot_of cn "a transaction" (queue ≫= recording cn) else None) with
    | Some e => (Err e, d)
    | None =>
        let '(svc, w) := d.(config) in
        let '((commands, e), w) := cn.(client).(TxPipelined) (pipeline cn <$> queue) w in
        let d := MkCache d.(once) (svc, w) in
        match e with
        | Some e =>
            if isNil e then (Ok (match queue with [] => [] | _ => answers commands end), d)
            else (Err (failed "applying a transaction" "" (plain e)), d)
        | None => (Ok (match queue with [] => [] | _ => answers commands end), d)
        end
    end).
End cache.

(** ** Gathering the masters of a cluster

    [shards] appends each master from the callback of [ForEachMaster], which calls it on
    all of them at once: a node reads the slice, and then writes it back one longer. *)
Inductive gathering : Type := MkGathering {
  slice_ : list nat;                           (* [masters] *)
  waiting : list nat;                          (* callbacks not begun *)
  appending : list (nat * list nat);           (* what each of those begun read *)
}.

Inductive gather : gathering → gathering → Prop :=
  | gather_read m before node after pending :
      gather (MkGathering m (before ++ node :: after) pending)
             (MkGathering m (before ++ after) ((node, m) :: pending))
  | gather_write m ws before node seen after :
      gather (MkGathering m ws (before ++ (node, seen) :: after))
             (MkGathering (seen ++ [node]) ws (before ++ after)).

Definition gathers (nodes masters : list nat) : Prop :=
  rtc gather (MkGathering [] nodes []) (MkGathering masters [] []).

(** Callbacks that do not overlap gather every master. *)
Lemma gathers_all nodes : gathers nodes nodes.
Proof.
  assert (∀ seen rest, rtc gather (MkGathering seen rest []) (MkGathering (seen ++ rest) [] [])) as H.
  { intros seen rest. revert seen. induction rest as [|node rest IH]; intros seen.
    { rewrite app_nil_r. apply rtc_refl. }
    eapply rtc_l; [apply (gather_read seen [] node rest [])|].
    eapply rtc_l; [apply (gather_write seen rest [] node seen [])|].
    specialize (IH (seen ++ [node])). by rewrite <- app_assoc in IH. }
  apply (H [] nodes).
Qed.

(** Two that read the slice before either writes it leave one of the masters out, and a
    walk does not visit its keys. *)
Lemma a_master_can_be_lost : gathers [0; 1] [1].
Proof.
  eapply rtc_l; [apply (gather_read [] [] 0 [1] [])|].
  eapply rtc_l; [apply (gather_read [] [] 1 [] [(0, [])])|].
  eapply rtc_l; [apply (gather_write [] [] [(1, [])] 0 [] [])|].
  eapply rtc_l; [apply (gather_write [0] [] [] 1 [] [])|].
  apply rtc_refl.
Qed.

(** ** Facts *)

Section facts.
Context {W F : Type} (now : W → Z) (ref : Ref) (creds : option (Credentials W)).
Context (NewUniversalClient : UniversalOptions W → Client W F).
Context (instrument : Client W F → option error) (isNil isNoSuchKey : error → bool).

Abbreviation connect := (connect now ref creds NewUniversalClient instrument).
Abbreviation GetMany := (GetMany now ref creds NewUniversalClient instrument).
Abbreviation Transaction := (Transaction now ref creds NewUniversalClient instrument isNil).

Lemma strip_key (cn : connected (W := W) (F := F)) k : strip cn (key cn k) = k.
Proof. unfold strip, key, trim_prefix. by rewrite cut_prefix_app. Qed.

(** What the first call of a cache could not read of its configuration is what every later
    one answers, without reading it again. *)
Lemma connect_is_tried_once d e d1 :
  d.(once) = None → connect d = (Err e, d1) → connect d1 = (Err e, d1).
Proof.
  intros Ho. unfold RedisCache.connect. rewrite Ho.
  destruct (client_options _ _ _ d.(config)) as [r c]. by intros [= -> <-].
Qed.

(** What the two passes of a transaction name is the same. *)
Lemma recording_keys (cn : connected (W := W) (F := F)) op :
  recording cn op = cmd_keys (pipeline cn op).
Proof. by destruct op. Qed.

Lemma queue_keys (cn : connected (W := W) (F := F)) queue :
  (queue ≫= recording cn) = ((pipeline cn <$> queue) ≫= cmd_keys).
Proof.
  induction queue as [|op queue IH]; [done|]. cbn. rewrite recording_keys. f_equal. exact IH.
Qed.

Lemma sameSlot_spec (cn : connected (W := W) (F := F)) doing ks :
  cn.(clustered) = true →
  sameSlot_of ref cn doing ks = None ↔ ∀ k k', k ∈ ks → k' ∈ ks → slotOf k = slotOf k'.
Proof.
  intros Hc. unfold sameSlot_of, sameSlot. rewrite Hc. destruct ks as [|k0 [|k1 ks]]; cbn [negb].
  - split; [|done]. intros _ k k' []%not_elem_of_nil.
  - split; [|done]. by intros _ k k' ->%list_elem_of_singleton ->%list_elem_of_singleton.
  - destruct (list_find _ (k1 :: ks)) as [[i k]|] eqn:E; cbn.
    + split; [done|]. intros Hall. apply list_find_Some in E as (Hi & Hne & _). destruct Hne.
      apply Hall; [right; by eapply list_elem_of_lookup_2|left].
    + split; [|done]. intros _. apply list_find_None in E. rewrite Forall_forall in E.
      assert (∀ k, k ∈ k0 :: k1 :: ks → slotOf k = slotOf k0) as H0.
      { intros k [->|Hk]%elem_of_cons; [done|]. destruct (decide (slotOf k = slotOf k0)); [done|].
        by destruct (E k Hk). }
      intros k k' Hk Hk'. by rewrite (H0 k Hk), (H0 k' Hk').
Qed.

(** C13: on a cluster a transaction is sent only where the keys of all its commands are on
    one shard, and then every command its function queued is sent, in order, as one; where
    they are not it is refused before anything is sent. *)
Theorem transactions_stay_on_one_shard queue d cn d1 :
  connect d = (Ok cn, d1) → cn.(clustered) = true →
  let cmds := pipeline cn <$> queue in
  (∀ k k', k ∈ cmds ≫= cmd_keys → k' ∈ cmds ≫= cmd_keys → slotOf k = slotOf k') ∧
    (Transaction queue d).2.(config).2 = (cn.(client).(TxPipelined) cmds d1.(config).2).2
  ∨ (∃ e, Transaction queue d = (Err (ConfigError (EWrap e ErrCrossSlot)), d1)) ∧
    ∃ k k', k ∈ cmds ≫= cmd_keys ∧ k' ∈ cmds ≫= cmd_keys ∧ slotOf k ≠ slotOf k'.
Proof.
  intros Hcon Hc cmds. unfold RedisCache.Transaction, RedisCache.bind. rewrite Hcon, Hc.
  rewrite queue_keys. fold cmds.
  destruct (sameSlot_of ref cn "a transaction" (cmds ≫= cmd_keys)) as [e|] eqn:E.
  - right. split.
    + unfold sameSlot_of in E. apply fmap_Some in E as (e0 & E & ->).
      unfold sameSlot in E. destruct (cmds ≫= cmd_keys) as [|k0 [|k1 ks]]; try done.
      rewrite Hc in E. cbn [negb] in E. destruct (list_find _ (k1 :: ks)) as [[i k]|]; [|done].
      injection E as <-. by eexists.
    + unfold sameSlot_of, sameSlot in E. rewrite Hc in E.
      destruct (cmds ≫= cmd_keys) as [|k0 [|k1 ks]]; try done. cbn [negb] in E.
      destruct (list_find _ (k1 :: ks)) as [[i k]|] eqn:Ef; [|done].
      apply list_find_Some in Ef as (Hi & Hne & _). exists k, k0.
      split_and!; [right; by eapply list_elem_of_lookup_2|left|done].
  - left. split; [exact (proj1 (sameSlot_spec cn _ _ Hc) E)|].
    destruct d1.(config) as [svc w]. cbn [snd].
    destruct (TxPipelined (client cn) cmds w) as [[commands [e|]] w1]; cbn; [|done].
    by destruct (isNil e).
Qed.

(** One command that was refused, and what the rest of the group replied is not seen: the
    client answers the commands and the error of the first of them that failed. *)
Lemma a_refused_command_hides_the_rest queue d cn d1 commands err w' :
  connect d = (Ok cn, d1) → cn.(clustered) = false →
  cn.(client).(TxPipelined) (pipeline cn <$> queue) d1.(config).2 =
    ((commands, head (omap cmd_err commands)), w') →
  head (omap cmd_err commands) = Some err → isNil err = false →
  (Transaction queue d).1 = Err (failed ref "applying a transaction" "" (plain err)).
Proof.
  intros Hcon Hc Hx Ho Hn. unfold RedisCache.Transaction, RedisCache.bind. rewrite Hcon, Hc.
  destruct d1.(config) as [svc w]. cbn [snd] in Hx. rewrite Hx, Ho. cbn. by rewrite Hn.
Qed.

(** What a client answers of a batch read, where its keys can be read as one: what the
    cache holds under each, and nothing is changed. *)
Definition reads_batches (cn : connected (W := W) (F := F)) (contents : W → string → option string) :
    Prop :=
  ∀ ks w, (cn.(clustered) = false ∨ ∀ k k', k ∈ ks → k' ∈ ks → slotOf k = slotOf k') →
    cn.(client).(Maybes) (MGET ks) w = (Ok (contents w <$> ks), w).

Lemma take_found_lookup (cn : connected (W := W) (F := F)) (contents : string → option string) ks found k :
  take_found cn (names cn ks) (contents <$> names cn ks) found !! k =
  if decide (k ∈ ks) then
    match contents (key cn k) with Some text => Some text | None => found !! k end
  else found !! k.
Proof.
  unfold take_found, names. revert found. induction ks as [|k0 ks IH]; intros found.
  { by rewrite decide_False by apply not_elem_of_nil. }
  cbn [fmap list_fmap zip zip_with foldl]. rewrite IH, strip_key.
  destruct (decide (k = k0)) as [->|Hne].
  - rewrite (decide_True _ (P := k0 ∈ k0 :: ks)) by left.
    destruct (contents (key cn k0)); [rewrite lookup_insert_eq|]; by destruct (decide _).
  - rewrite (decide_ext (k ∈ k0 :: ks) (k ∈ ks)) by (rewrite elem_of_cons; naive_solver).
    destruct (contents (key cn k0)); [rewrite lookup_insert_ne by done|]; done.
Qed.

(** Keys as the caller named them. *)
Definition strip_all (cn : connected (W := W) (F := F)) (g : list string) : list string :=
  strip cn <$> g.

Lemma groups_of_names (cn : connected (W := W) (F := F)) ks :
  ∃ groups, groups_of cn (names cn ks) = names cn <$> groups ∧
    mjoin groups ≡ₚ ks ∧
    ∀ g k k', g ∈ groups → cn.(clustered) = true → k ∈ names cn g → k' ∈ names cn g → slotOf k = slotOf k'.
Proof using ref.
  destruct (bySlot_perm cn.(clustered) (names cn ks)) as [Hp Hs].
  exists (strip_all cn <$> groups_of cn (names cn ks)). unfold groups_of.
  assert (Forall (λ g, Forall (λ k, key cn (strip cn k) = k) g) (bySlot cn.(clustered) (names cn ks)))
    as Hkeys.
  { apply Forall_forall. intros g Hg. apply Forall_forall. intros k Hk.
    assert (k ∈ names cn ks) as Hin.
    { rewrite <- Hp. apply list_elem_of_join. eauto. }
    unfold names in Hin. apply list_elem_of_fmap in Hin as (k0 & -> & _). by rewrite strip_key. }
  split_and!.
  - rewrite <- list_fmap_compose. rewrite <- (list_fmap_id (bySlot _ _)) at 1.
    apply list_fmap_ext. intros i g Hg. cbn.
    rewrite Forall_forall in Hkeys. specialize (Hkeys g (list_elem_of_lookup_2 _ _ _ Hg)).
    unfold names, strip_all. rewrite <- list_fmap_compose. rewrite <- (list_fmap_id g) at 1. apply list_fmap_ext.
    intros j k Hk. rewrite Forall_forall in Hkeys. symmetry. apply Hkeys.
    by eapply list_elem_of_lookup_2.
  - assert (mjoin (strip_all cn <$> bySlot cn.(clustered) (names cn ks)) =
            strip_all cn (mjoin (bySlot cn.(clustered) (names cn ks)))) as ->.
    { generalize (bySlot cn.(clustered) (names cn ks)) as l. clear.
      induction l as [|g l IH]; [done|].
      change (mjoin (strip_all cn <$> g :: l)) with (strip_all cn g ++ mjoin (strip_all cn <$> l)).
      change (mjoin (g :: l)) with (g ++ mjoin l). rewrite IH. unfold strip_all. by rewrite fmap_app. }
    assert (strip_all cn (names cn ks) = ks) as Hid.
    { clear. unfold strip_all, names. induction ks as [|k ks' IHk]; [done|].
      cbn [fmap list_fmap]. rewrite strip_key. f_equal. exact IHk. }
    rewrite <- Hid at 2. unfold strip_all. by rewrite Hp.
  - intros g k k' Hg Hc Hk Hk'. apply list_elem_of_fmap in Hg as (g0 & -> & Hg0).
    rewrite Forall_forall in Hs, Hkeys. specialize (Hs g0 Hg0). specialize (Hkeys g0 Hg0).
    assert (names cn (strip_all cn g0) = g0) as Hback.
    { clear -Hkeys. unfold names, strip_all.
      induction Hkeys as [|x l Hx _ IH]; [done|]. cbn [fmap list_fmap]. rewrite Hx. f_equal. exact IH. }
    rewrite Hback in Hk, Hk'.
    apply (proj1 (sameSlot_spec cn "" g0 Hc)); [|done..].
    unfold sameSlot_of. unfold sameSlot in *. destruct g0 as [|? []]; [done|done|].
    destruct (negb (clustered cn)); [done|]. by destruct (list_find _ _) as [[]|].
Qed.

(** C26: a batch read answers, for each key asked, exactly what the cache holds under that
    application's key, and nothing else, whether it went out as one command or as one for
    each shard; no command names keys of two shards. *)
Theorem GetMany_reads contents ks d cn d1 :
  ks ≠ [] → connect d = (Ok cn, d1) → reads_batches cn contents →
  ∃ found, GetMany ks d = (Ok found, d1) ∧
    ∀ k, found !! k = if decide (k ∈ ks) then contents d1.(config).2 (key cn k) else None.
Proof.
  intros Hne Hcon Hr. unfold RedisCache.GetMany, RedisCache.bind.
  rewrite bool_decide_eq_false_2 by done. rewrite Hcon.
  destruct (groups_of_names cn ks) as (groups & -> & Hp & Hslots).
  assert (∀ gs acc, (∀ g, g ∈ gs → g ∈ groups) → ∃ found,
    for_groups (λ found group, RedisCache.bind
       (send (failed ref "reading a batch" "") (cn.(client).(Maybes) (MGET group)))
       (λ values, ret (take_found cn group values found)))
      (names cn <$> gs) acc d1 = (Ok found, d1) ∧
    ∀ k, found !! k = if decide (k ∈ mjoin gs) then
           match contents d1.(config).2 (key cn k) with Some t => Some t | None => acc !! k end
           else acc !! k) as H.
  { induction gs as [|g gs IH]; intros acc Hin.
    { exists acc. split; [done|]. intros k. by rewrite decide_False by apply not_elem_of_nil. }
    cbn [fmap list_fmap for_groups]. unfold RedisCache.bind at 1 2. unfold send at 1.
    destruct d1 as [o [svc w]] eqn:Ed. cbn [config snd] in *.
    rewrite (Hr (names cn g) w).
    2:{ destruct (clustered cn) eqn:Ec; [right|by left]. intros k k' Hk Hk'.
        by apply (Hslots g k k' (Hin g (list_elem_of_here _ _)) eq_refl). }
    cbn [ret]. unfold ret at 1.
    destruct (IH (take_found cn (names cn g) (contents w <$> names cn g) acc)) as (found & Hf & Hl).
    { intros. apply Hin. by right. }
    exists found. split; [exact Hf|]. intros k. rewrite Hl, take_found_lookup.
    change (mjoin (g :: gs)) with (g ++ mjoin gs).
    destruct (decide (k ∈ mjoin gs)), (decide (k ∈ g)), (decide (k ∈ g ++ mjoin gs)) as [Hd|Hd];
      rewrite elem_of_app in Hd; try tauto; by destruct (contents w (key cn k)). }
  destruct (H groups ∅ (λ g Hg, Hg)) as (found & Hf & Hl). exists found. split; [exact Hf|].
  intros k. rewrite Hl, lookup_empty.
  rewrite (decide_ext (k ∈ mjoin groups) (k ∈ ks)) by (by rewrite Hp).
  destruct (decide _); [|done]. by destruct (contents _ _).
Qed.
End facts.

(** ** Witnesses

    A clustered cache whose world is what it holds. *)
Section examples.
Abbreviation held := (gmap string string).

Definition holding : Client held Z := {|
  Status_ _ w := (None, w);
  Text _ w := (Err (EString "redis: nil"), w);
  Int _ w := (Ok 0%Z, w);
  Bool_ _ w := (Ok false, w);
  Float_ _ w := (Ok 0%Z, w);
  Texts _ w := (Ok [], w);
  Maybes c w := (Ok ((λ k, w !! k) <$> cmd_keys c), w);
  Fields_ _ w := (Ok ∅, w);
  Scored _ w := (Ok [], w);
  Keys_ _ w := (Ok ([], 0%Z), w);
  TxPipelined cmds w := (((λ _, MkCmder (IntCmd 1) None) <$> cmds, None), w);
  Masters := Some [0];
  CloseClient w := (None, w);
|}.

Definition sessions : connected (W := held) (F := Z) := MkConnected holding "app:" true.
Definition open_sessions (w : held) : redisCache :=
  MkCache (Some (Ok sessions)) (None, w).
Definition sessions_ref : Ref := MkRef KindCache "sessions".

Definition two_users : held :=
  {[ "app:{1}name" := "Ada"; "app:{2}name" := "Grace"; "other:{1}name" := "Eve" ]}.

Lemma GetMany_reads_witness :
  ∃ found, (GetMany (λ _, 0%Z) sessions_ref None (λ _, holding) (λ _, None)
              ["{1}name"; "{2}name"; "{3}name"] (open_sessions two_users)).1 = Ok found ∧
    found !! "{2}name" = Some "Grace" ∧ found !! "{3}name" = None.
Proof.
  destruct (GetMany_reads (λ _, 0%Z) sessions_ref None (λ _, holding) (λ _, None)
    (λ w k, w !! k) ["{1}name"; "{2}name"; "{3}name"] (open_sessions two_users) sessions
    (open_sessions two_users)) as (found & Hf & Hl); [done|done|done|].
  exists found. split_and!; [exact (f_equal fst Hf)|exact (Hl "{2}name")|exact (Hl "{3}name")].
Defined.

Lemma transactions_stay_on_one_shard_witness :
  (∃ e, (Transaction (λ _, 0%Z) sessions_ref None (λ _, holding) (λ _, None) (λ _, false)
    [TxIncrement "{1}visits" 1; TxDelete "{2}visits"] (open_sessions two_users)).1 =
    Err (ConfigError (EWrap e ErrCrossSlot))).
Proof.
  destruct (transactions_stay_on_one_shard (λ _, 0%Z) sessions_ref None (λ _, holding)
    (λ _, None) (λ _, false) [TxIncrement "{1}visits" 1; TxDelete "{2}visits"]
    (open_sessions two_users) sessions (open_sessions two_users)) as [[H _]|[[e H] _]];
    [done|done| |].
  - exfalso. specialize (H "app:{1}visits" "app:{2}visits" (list_elem_of_here _ _)
      (list_elem_of_further _ _ _ (list_elem_of_here _ _))). by vm_compute in H.
  - exists e. exact (f_equal fst H).
Defined.
End examples.
