(* ===== verification/AwsService.v ===== *)
(** * What the AWS resources share

    Models [resources/aws/internal/service]: the configuration loaded once, a client for
    each region, the reads of a credential ([session.go], [clients.go], [fields.go]) and
    the registry of linked packages ([registry.go]).  A client is any type [T]; what loads
    the ambient configuration and what makes a client of it are parameters. *)

From S2P Require Import Prelude GoStrings Json JsonText Errors Bind Values Config Resources.
From stdpp Require Import options.

(** [fmt.Errorf("...: %w", err)], of a text. *)
Definition wrapping (msg : string) (err : error) : error := EWrap (msg +:+ ": " +:+ error_text err) err.

(** ** A value built once *)

(** [Lazy]: what its first build gave, an error too. *)
Abbreviation Lazy T := (option (result error T)) (only parsing).

Definition Lazy_Get {S T} (l : Lazy T) (build : S → result error T * S) (s : S) :
    result error T * Lazy T * S :=
  match l with
  | Some r => (r, l, s)
  | None => let '(r, s) := build s in (r, Some r, s)
  end.

(** [Clients]: one entry for a key, whatever building it gave. *)
Abbreviation Clients T := (gmap string (result error T)) (only parsing).

Definition Clients_Get {S T} (built : Clients T) (key : string) (build : S → result error T * S)
    (s : S) : result error T * Clients T * S :=
  let '(r, e, s) := Lazy_Get (built !! key) build s in
  (r, match e with Some r => <[key := r]> built | None => built end, s).

Section session.
Context {W C : Type} (load : W → result error C * W) (traceCalls : C → C).
Context (Region : C → string) (with_region : string → C → C).

(** [Session]: the cell of its [sync.Once]. *)
Definition Session : Type := option (result error C).

Definition Session_Config (s : Session) (w : W) : result error C * Session * W :=
  let '(r, s, w) := Lazy_Get s (λ w, match load w with
                                     | (Ok cfg, w) => (Ok (traceCalls cfg), w)
                                     | (Err err, w) => (Err err, w)
                                     end) w in
  (match r with
   | Ok cfg => Ok cfg
   | Err err => Err (wrapping "celerity: loading AWS configuration to reach a resource" err)
   end, s, w).

Definition ConfigFor (s : Session) (region : string) (w : W) : result error C * Session * W :=
  match Session_Config s w with
  | (Err err, s, w) => (Err err, s, w)
  | (Ok cfg, s, w) =>
      (Ok (if bool_decide (region = "") || bool_decide (region = Region cfg) then cfg
           else with_region region cfg), s, w)
  end.
End session.
Arguments Session : clear implicits.

(** ** Reaching a resource *)

(** What a resource's calls share: the session, the clients built over it, and the
    application's configuration with the world. *)
Record aws (W C T : Type) : Type := MkAws {
  session : Session C;
  clients : Clients T;
  settings : cfg (W := W);
}.
Arguments MkAws {W C T}. Arguments session {W C T}. Arguments clients {W C T}.
Arguments settings {W C T}.

Section calls.
Context {W C T : Type}.

Definition call (A : Type) : Type := aws W C T → result config_error A * aws W C T.

Definition ret {A} (a : A) : call A := λ s, (Ok a, s).
Definition fail {A} (err : config_error) : call A := λ s, (Err err, s).
Definition bind {A B} (m : call A) (f : A → call B) : call B := λ s,
  match m s with (Ok a, s) => f a s | (Err err, s) => (Err err, s) end.
(** A read of the configuration. *)
Definition read {A} (m : reading (W := W) A) : call A := λ s,
  let '(r, c) := m s.(settings) in (r, MkAws s.(session) s.(clients) c).
(** A request, and its failure as the caller reports it. *)
Definition request {A} (failed : error → error) (f : W → result error A * W) : call A := λ s,
  let '(svc, w) := s.(settings) in
  let '(r, w) := f w in
  (match r with Ok a => Ok a | Err err => Err (ConfigError (failed err)) end,
   MkAws s.(session) s.(clients) (svc, w)).
End calls.

Notation "'aws!' x ':=' m 'in' k" := (bind m (λ x, k))
  (at level 10, x pattern, m at level 100, k at level 200) : go_scope.

Section reach.
Context {W C T : Type} (now : W → Z) (load : W → result error C * W) (traceCalls : C → C).
Context (Region : C → string) (with_region : string → C → C).
(** A client stood in by a test, and what makes one of a configuration. *)
Context (api : option T) (NewFromConfig : C → T).

Definition RegionOf (ref : Ref) : reading (W := W) string := Optional now ref FieldRegion "".
(** [KeyFor]: the key is the region. *)
Definition KeyFor (ref : Ref) : reading (W := W) string := RegionOf ref.

(** [queues.sqs], [topics.sns] and [buckets.s3]. *)
Definition client (key : string) : call (W := W) (C := C) T := λ s,
  match api with
  | Some api => (Ok api, s)
  | None =>
      let '(svc, w) := s.(settings) in
      let '(r, built, (sess, w)) := Clients_Get s.(clients) key (λ '(sess, w),
          match ConfigFor load traceCalls Region with_region sess key w with
          | (Ok cfg, sess, w) => (Ok (NewFromConfig cfg), (sess, w))
          | (Err err, sess, w) => (Err err, (sess, w))
          end) (s.(session), w) in
      (match r with Ok c => Ok c | Err err => Err (ConfigError err) end,
       MkAws sess built (svc, w))
  end.

(** [resolve], of every kind: the identifier, then the client for its region. *)
Definition resolve (ref : Ref) : call (W := W) (C := C) (T * string) :=
  aws! id := read (ID now ref) in
  aws! key := read (KeyFor ref) in
  aws! c := client key in ret (c, id).
End reach.

(** ** Work cut into requests *)

(** The loop over chunks, each the work of one request, up to the first that fails: what
    the requests answered, and, where one failed, the work it and those after it had. *)
Fixpoint in_requests {X R E S} (send : list X → S → result E R * S) (cs : list (list X)) (s : S) :
    list R * option (list X * E) * S :=
  match cs with
  | [] => ([], None, s)
  | c :: cs' =>
      match send c s with
      | (Err err, s) => ([], Some (mjoin cs, err), s)
      | (Ok r, s) => let '(rs, stop, s) := in_requests send cs' s in (r :: rs, stop, s)
      end
  end.

(** The work is that of the requests answered, in order, and then what is left. *)
Lemma in_requests_split {X R E S} (I : S → Prop) (P : list X → R → Prop)
    (send : list X → S → result E R * S) n cs s :
  (∀ c s, I s → c ≠ [] → length c ≤ n → I (send c s).2 ∧ ∀ r, (send c s).1 = Ok r → P c r) →
  I s → Forall (λ c, c ≠ [] ∧ length c ≤ n) cs →
  let '(rs, stop, s') := in_requests send cs s in
  I s' ∧ ∃ sent, Forall2 P sent rs ∧
    mjoin cs = mjoin sent ++ match stop with Some (over, _) => over | None => [] end.
Proof.
  intros Hsend Hs Hcs. revert s Hs.
  induction Hcs as [|c cs [Hne Hl] _ IH]; intros s Hs; cbn [in_requests].
  { split; [done|]. by exists []. }
  destruct (Hsend c s Hs Hne Hl) as [HI HP].
  destruct (send c s) as [[r|err] s1]; cbn [fst snd] in *.
  - specialize (IH s1 HI). destruct (in_requests send cs s1) as [[rs stop] s2].
    destruct IH as (H1 & sent & H2 & H3). split; [done|]. exists (c :: sent).
    split; [constructor; [by apply HP|done]|].
    change (c ++ mjoin cs = (c ++ mjoin sent) ++ match stop with Some (over, _) => over | None => [] end).
    by rewrite H3, (assoc_L (++)).
  - split; [done|]. by exists [].
Qed.

(** ** Credentials *)

Section credentials.
Context `{FloatText} {W : Type} (now : W → Z).
(** One read of a secret's string, absent where it holds none. *)
Context (GetSecretValue : string → W → result error (option string) * W).

Definition SecretString (id : string) (w : W) : result error string * W :=
  match GetSecretValue id w with
  | (Err err, w) => (Err err, w)
  | (Ok None, w) => (Err (EString "the secret holds no string value"), w)
  | (Ok (Some s), w) => (Ok s, w)
  end.

(** [Secret]: what was written down, or else what is referred to, where either is. *)
Definition Secret (ref : Ref) (literalSuffix refSuffix : string) :
    reading (W := W) (option string) :=
  then_ (Optional now ref literalSuffix "") (λ literal,
    if negb (bool_decide (literal = "")) then answer (Some literal)
    else then_ (Optional now ref refSuffix "") (λ id,
      if bool_decide (id = "") then answer None
      else λ '(svc, w),
        match SecretString id w with
        | (Ok v, w) => (Ok (Some v), (svc, w))
        | (Err err, w) => (Err (ConfigError (wrapping ("celerity: reading the credential for " +:+
            ref_text ref +:+ " from the secret " +:+ go_quote id) err)), (svc, w))
        end)).

Definition no_password (ref : Ref) : error :=
  EString ("celerity: the secret holding the password for " +:+ ref_text ref +:+
    " is an object with no password field").

Definition PasswordIn (raw : string) (ref : Ref) : result error string :=
  match read_object raw with
  | None => Ok raw
  | Some fields =>
      match fields !! "password" with
      | Some (Values.VString "") => Err (no_password ref)
      | Some (Values.VString password) => Ok password
      | _ => Err (no_password ref)
      end
  end.
End credentials.

(** ** The registry of linked packages *)

Section registry.
Context {S T W : Type}.

Abbreviation Builder := (Ref → result error T) (only parsing).

(** [builderFor]: the registered factory, or the import that is missing. *)
Definition builderFor (f : option (S → Builder)) (s : S) (kind pkg : string) : result error Builder :=
  match f with
  | None => Err (EString ("celerity: this build reaches a " +:+ kind +:+ " resource and does not " +:+
      "link the package that serves one: import _ " +:+
      go_quote ("github.com/newstack-cloud/celerity-go-sdk/resources/aws/" +:+ pkg) +:+
      ", which celerity-go generate writes from the blueprint"))
  | Some f => Ok (f s)
  end.

(** [Provider.build]: the builder found once, then a handle of it. *)
Definition provider_build (held : Lazy Builder) (f : option (S → Builder)) (s : S)
    (kind pkg : string) (ref : Ref) : result error T * Lazy Builder :=
  let '(r, held, _) := Lazy_Get held (λ u : unit, (builderFor f s kind pkg, u)) tt in
  (match r with Ok builder => builder ref | Err err => Err err end, held).

(** [Release]: every releaser is called, and what failed is joined. *)
Fixpoint release_all (releasers : list (W → option error * W)) (w : W) : list error * W :=
  match releasers with
  | [] => ([], w)
  | release :: rest =>
      let '(e, w) := release w in
      let '(errs, w) := release_all rest w in
      (option_list e ++ errs, w)
  end.

Definition Release (releasers : list (W → option error * W)) (w : W) : option error * W :=
  let '(errs, w) := release_all releasers w in
  (match errs with [] => None | _ => Some (EJoin errs) end, w).
End registry.

(** ** What is shared is built once *)

Section facts.
Context {W C T : Type} (load : W → result error C * W) (traceCalls : C → C).
Context (Region : C → string) (with_region : string → C → C) (NewFromConfig : C → T).

Abbreviation client_at key := (client (W := W) load traceCalls Region with_region None NewFromConfig key).

(** A lazily built value is what its first build gave, and is not built again. *)
Lemma Lazy_Get_once {S A} (l : Lazy A) (build build' : S → result error A * S) s s' r l' s1 :
  Lazy_Get l build s = (r, l', s1) → Lazy_Get l' build' s' = (r, l', s').
Proof. destruct l; cbn; [by intros [= <- <- <-]|]. destruct (build s). by intros [= <- <- <-]. Qed.

Lemma Session_Config_once s w r s1 w1 w2 :
  Session_Config load traceCalls s w = (r, s1, w1) →
  Session_Config load traceCalls s1 w2 = (r, s1, w2).
Proof.
  unfold Session_Config.
  destruct (Lazy_Get s _ w) as [[q l] w'] eqn:Hl. intros [= <- <- <-].
  by rewrite (Lazy_Get_once _ _ _ _ _ _ _ _ Hl).
Qed.

(** One client for a region.  Whatever the first call for a region came to, a client
    or a failure, every later call for that region answers the same and touches neither the
    configuration nor the session; a call for another region leaves that entry as it is. *)
Lemma clients_are_built_once key s r s1 :
  client_at key s = (r, s1) →
  (∀ settings', client_at key (MkAws s1.(session) s1.(clients) settings') =
     (r, MkAws s1.(session) s1.(clients) settings')) ∧
  (∀ key', key' ≠ key → s1.(clients) !! key' = s.(clients) !! key') ∧
  s1.(settings).1 = s.(settings).1.
Proof.
  unfold client, Clients_Get. destruct s as [se cl [svc w]]. cbn [settings clients session].
  destruct (Lazy_Get (cl !! key) _ _) as [[q e] [se' w']] eqn:Hl. intros [= <- <-].
  cbn [settings clients session fst].
  assert (e = Some q) as ->.
  { destruct (cl !! key); cbn in Hl; [by simplify_eq|].
    destruct (ConfigFor _ _ _ _ _ _ _) as [[[]]]; by simplify_eq. }
  split_and!; [|intros key' Hne; by rewrite lookup_insert_ne|done].
  intros [svc' w'']. rewrite lookup_insert_eq. cbn. do 2 f_equal. apply insert_insert_eq.
Qed.
End facts.

(** ** Witnesses *)

(** A deployment that recorded one resource under one identifier. *)
Definition recorded_as {W} (kind name id : string) : Service W :=
  WithLinks (Register New ResourcesNamespace
      (NewNamespace (MapBackend {[ "store" := {[ name := id ]} ]}) "store" []))
    {[ name := MkLink kind name ]}.

(** A configuration that loads once, and clients named by their regions. *)
Definition load_home (w : nat) : result error string * nat := (Ok "eu-west-2", S w).

Lemma clients_are_built_once_witness :
  let at_ key := client (W := nat) load_home id id (λ r _, r) None id key in
  let fresh := MkAws None ∅ (None, 0) in
  let '(first, s1) := at_ "us-east-1" fresh in
  first = Ok "us-east-1" ∧ s1.(settings).2 = 1 ∧
  ∀ w, at_ "us-east-1" (MkAws s1.(session) s1.(clients) (None, w)) =
    (Ok "us-east-1", MkAws s1.(session) s1.(clients) (None, w)).
Proof.
  intros at_ fresh.
  destruct (at_ "us-east-1" fresh) as [r s1] eqn:H.
  pose proof (clients_are_built_once _ _ _ _ _ _ _ _ _ H) as (Hc & _ & _).
  assert (r = Ok "us-east-1") as -> by (vm_compute in H; congruence).
  assert (s1.(settings).2 = 1) as H1 by (vm_compute in H; by simplify_eq).
  split_and!; [done|done|]. intros w. exact (Hc (None, w)).
Defined.
