(* ===== verification/Batch.v ===== *)
(** * Queues and topics: sending messages, one or many

    Models [resources/queue], [resources/topic], their clients [resources/aws/queue] and
    [resources/aws/topic], and their doubles [celeritytest/queue.go] and [topic.go].  SQS
    and SNS are parameters: what a request for one message, or for a batch, is answered
    with.  The two contracts promise one thing of a batch, which is [Accounts]. *)

From S2P Require Import Prelude GoStrings Json Errors Bind Config Resources AwsService.
From stdpp Require Import options.

(** ** The contract of a batch *)

Record BatchEntry (O : Type) : Type := MkEntry {
  EntryID : string;
  Body : string;
  Options : list (O → O);
}.
Arguments MkEntry {O}. Arguments EntryID {O}. Arguments Body {O}. Arguments Options {O}.

Record BatchSuccess : Type := MkSuccess { SuccessID : string; MessageID : string }.
Record BatchFailure : Type := MkFailure {
  FailureID : string; FailureCode : string; FailureMessage : string; SenderFault : bool;
}.
Record BatchUnsent : Type := MkUnsent { UnsentID : string; UnsentErr : config_error }.
Record BatchResult : Type := MkBatch {
  Successful : list BatchSuccess;
  Failed : list BatchFailure;
  Unsent : list BatchUnsent;
}.
Definition no_result : BatchResult := MkBatch [] [] [].

(** The entries a result names, by the callers' own names for them. *)
Definition named (r : BatchResult) : list string :=
  (SuccessID <$> r.(Successful)) ++ (FailureID <$> r.(Failed)) ++ (UnsentID <$> r.(Unsent)).

(** What a batch answers: the result, and perhaps an error with it. *)
Definition batch_answer : Type := BatchResult * option config_error.

(** Every entry comes back in exactly one of the three lists, and those that were never
    answered for are there exactly when an error is, and carry it. *)
Definition accounted {O} (entries : list (BatchEntry O)) (a : batch_answer) : Prop :=
  named a.1 ≡ₚ EntryID <$> entries ∧
  match a.2 with
  | None => a.1.(Unsent) = []
  | Some err => Forall (λ u, u.(UnsentErr) = err) a.1.(Unsent)
  end.

(** What [queue.Client] and [topic.Client] promise of a batch, in any state [I] holds of. *)
Class Accounts {O S : Type} (I : S → Prop) (send : list (BatchEntry O) → S → batch_answer * S) : Prop := {
  accounts entries s : I s → accounted entries (send entries s).1;
  accounts_keeps entries s : I s → I (send entries s).2;
}.

(** ** Batches cut into requests *)

Definition unsent {O} (entries : list (BatchEntry O)) (err : config_error) : list BatchUnsent :=
  (λ entry, MkUnsent entry.(EntryID) err) <$> entries.

(** [sendOptions] and [publishOptions]. *)
Definition resolve_options {O} (zero : O) (opts : list (O → O)) : O := foldl (λ o opt, opt o) zero opts.

(** [aws.String] of a text that is there. *)
Definition aws_string (s : string) : option string :=
  if bool_decide (s = "") then None else Some s.

Record MessageAttributeValue : Type := MkAttrValue { DataType : string; StringValue : string }.
Definition attributes (attrs : gmap string string) : option (gmap string MessageAttributeValue) :=
  if bool_decide (attrs = ∅) then None else Some (MkAttrValue "String" <$> attrs).

(** What a service answers a batch with: each id may be missing. *)
Record BatchOk : Type := MkOk { OkId : option string; OkMessageId : option string }.
Record BatchRefused : Type := MkRefused {
  RefusedId : option string; RefusedCode : option string; RefusedMessage : option string;
  RefusedSender : bool;
}.
Record BatchOutput : Type := MkOutput { OutSuccessful : list BatchOk; OutFailed : list BatchRefused }.

(** [indexOf]. *)
Definition indexOf {A} (id : option string) (entries : list A) : option nat :=
  match ParseInt (default "" id) 64 with
  | Ok i => if (0 <=? i)%Z && (i <? Z.of_nat (length entries))%Z then Some (Z.to_nat i) else None
  | Err _ => None
  end.

(** The two loops over an answer: one entry of each, found by its position. *)
Definition settle_ok {O} (unknown : option string → config_error) (entries : list (BatchEntry O))
    (ok : BatchOk) : result config_error BatchSuccess :=
  match indexOf ok.(OkId) entries ≫= (entries !!.) with
  | None => Err (unknown ok.(OkId))
  | Some e => Ok (MkSuccess e.(EntryID) (default "" ok.(OkMessageId)))
  end.
Definition settle_refused {O} (unknown : option string → config_error)
    (entries : list (BatchEntry O)) (no : BatchRefused) : result config_error BatchFailure :=
  match indexOf no.(RefusedId) entries ≫= (entries !!.) with
  | None => Err (unknown no.(RefusedId))
  | Some e => Ok (MkFailure e.(EntryID) (default "" no.(RefusedCode))
                    (default "" no.(RefusedMessage)) no.(RefusedSender))
  end.
Definition settle {O} (unknown : option string → config_error) (entries : list (BatchEntry O))
    (out : BatchOutput) : result config_error BatchResult :=
  let! oks := try_map (settle_ok unknown entries) out.(OutSuccessful) in
  let! nos := try_map (settle_refused unknown entries) out.(OutFailed) in
  Ok (MkBatch oks nos []).

(** A batch: nothing for no entries, and all of it unsent where the resource cannot be
    reached. *)
Definition send_batch {O S T} (resolve : S → result config_error T * S)
    (sendChunk : T → list (BatchEntry O) → S → result config_error BatchResult * S)
    (maxBatchEntries : nat) (entries : list (BatchEntry O)) (s : S) : batch_answer * S :=
  match entries with
  | [] => ((no_result, None), s)
  | _ =>
      match resolve s with
      | (Err err, s) => ((MkBatch [] [] (unsent entries err), Some err), s)
      | (Ok t, s) =>
          let '(rs, stop, s) := in_requests (sendChunk t) (chunks maxBatchEntries entries) s in
          ((MkBatch (rs ≫= Successful) (rs ≫= Failed)
              (match stop with Some (over, err) => unsent over err | None => [] end), snd <$> stop), s)
      end
  end.

(** ** A queue on SQS *)

Module Queue.
Record SendOptions : Type := MkSend {
  Delay : Z;                                        (* nanoseconds *)
  Attributes : gmap string string;
  GroupID : string;
  DeduplicationID : string;
}.
Definition zero_options : SendOptions := MkSend 0 ∅ "" "".
Definition sendOptions : list (SendOptions → SendOptions) → SendOptions := resolve_options zero_options.

Record Message : Type := MkMessage {
  MessageBody : string;
  DelaySeconds : Z;
  MessageGroupId : option string;
  MessageDeduplicationId : option string;
  MessageAttributes : option (gmap string MessageAttributeValue);
}.

Record API (W : Type) : Type := MkAPI {
  SendMessage : string → Message → W → result error (option string) * W;
  SendMessageBatch : string → list (string * Message) → W → result error BatchOutput * W;
}.
Arguments MkAPI {W}. Arguments SendMessage {W}. Arguments SendMessageBatch {W}.

Definition maxBatchEntries : nat := 10.

Section queue.
(** [int32(d.Seconds())] of a delay past 2^22 seconds, where the rounding of a float and
    the range of an int32 come into it. *)
Context (wide_seconds : Z → Z).

Definition delaySeconds (o : SendOptions) : Z :=
  if (o.(Delay) <=? 0)%Z then 0%Z
  else if (o.(Delay) <? 2 ^ 22 * 10 ^ 9)%Z then (o.(Delay) / 10 ^ 9)%Z
  else wide_seconds o.(Delay).

(** A message as SQS takes it: [applyFIFO] and [messageAttributes]. *)
Definition message (body : string) (opts : list (SendOptions → SendOptions)) : Message :=
  let o := sendOptions opts in
  MkMessage body (delaySeconds o) (aws_string o.(GroupID)) (aws_string o.(DeduplicationID))
    (attributes o.(Attributes)).

Definition batchEntries (entries : list (BatchEntry SendOptions)) : list (string * Message) :=
  imap (λ i e, (itoa (Z.of_nat i), message e.(Body) e.(Options))) entries.

Context {W C : Type} (now : W → Z) (load : W → result error C * W) (traceCalls : C → C).
Context (Region : C → string) (with_region : string → C → C).
Context (api : option (API W)) (NewFromConfig : C → API W) (ref : Ref).

Abbreviation call := (call (W := W) (C := C) (T := API W)).
Abbreviation state := (aws W C (API W)).

Definition unknownEntry (id : option string) : config_error :=
  ConfigError (EString ("celerity: sending a batch to " +:+ ref_text ref +:+
    ": SQS answered for an entry " +:+ go_quote (default "" id) +:+ " that was not sent")).

Definition sendChunk (t : API W * string) (entries : list (BatchEntry SendOptions)) :
    call BatchResult :=
  aws! out := request (wrapping ("celerity: sending a batch to " +:+ ref_text ref))
                (t.1.(SendMessageBatch) t.2 (batchEntries entries)) in
  λ s, (settle unknownEntry entries out, s).

Definition reach : call (API W * string) :=
  AwsService.resolve now load traceCalls Region with_region api NewFromConfig ref.

Definition SendBatch : list (BatchEntry SendOptions) → state → batch_answer * state :=
  send_batch reach sendChunk maxBatchEntries.

Definition Send (body : string) (opts : list (SendOptions → SendOptions)) : call string :=
  aws! (client, url) := reach in
  aws! id := request (wrapping ("celerity: sending to " +:+ ref_text ref))
               (client.(SendMessage) url (message body opts)) in
  ret (default "" id).
End queue.
End Queue.

(** ** A topic on SNS *)

Module Topic.
Record SendOptions : Type := MkSend {
  Attributes : gmap string string;
  GroupID : string;
  DeduplicationID : string;
  Subject : string;
}.
Definition zero_options : SendOptions := MkSend ∅ "" "" "".
Definition publishOptions : list (SendOptions → SendOptions) → SendOptions :=
  resolve_options zero_options.

Record Message : Type := MkMessage {
  MessageBody : string;
  MessageSubject : option string;
  MessageGroupId : option string;
  MessageDeduplicationId : option string;
  MessageAttributes : option (gmap string MessageAttributeValue);
}.

Record API (W : Type) : Type := MkAPI {
  Publish_ : string → Message → W → result error (option string) * W;
  PublishBatch_ : string → list (string * Message) → W → result error BatchOutput * W;
}.
Arguments MkAPI {W}. Arguments Publish_ {W}. Arguments PublishBatch_ {W}.

Definition maxBatchEntries : nat := 10.

(** A message as SNS takes it: [subject], [applyFIFO] and [publishAttributes]. *)
Definition message (body : string) (opts : list (SendOptions → SendOptions)) : Message :=
  let o := publishOptions opts in
  MkMessage body (aws_string o.(Subject)) (aws_string o.(GroupID))
    (aws_string o.(DeduplicationID)) (attributes o.(Attributes)).

Definition batchEntries (entries : list (BatchEntry SendOptions)) : list (string * Message) :=
  imap (λ i e, (itoa (Z.of_nat i), message e.(Body) e.(Options))) entries.

Section topic.
Context {W C : Type} (now : W → Z) (load : W → result error C * W) (traceCalls : C → C).
Context (Region : C → string) (with_region : string → C → C).
Context (api : option (API W)) (NewFromConfig : C → API W) (ref : Ref).

Abbreviation call := (call (W := W) (C := C) (T := API W)).
Abbreviation state := (aws W C (API W)).

Definition unknownEntry (id : option string) : config_error :=
  ConfigError (EString ("celerity: publishing a batch to " +:+ ref_text ref +:+
    ": SNS answered for an entry " +:+ go_quote (default "" id) +:+ " that was not sent")).

Definition publishChunk (t : API W * string) (entries : list (BatchEntry SendOptions)) :
    call BatchResult :=
  aws! out := request (wrapping ("celerity: publishing a batch to " +:+ ref_text ref))
                (t.1.(PublishBatch_) t.2 (batchEntries entries)) in
  λ s, (settle unknownEntry entries out, s).

Definition reach : call (API W * string) :=
  AwsService.resolve now load traceCalls Region with_region api NewFromConfig ref.

Definition PublishBatch : list (BatchEntry SendOptions) → state → batch_answer * state :=
  send_batch reach publishChunk maxBatchEntries.

Definition Publish (body : string) (opts : list (SendOptions → SendOptions)) : call string :=
  aws! (client, arn) := reach in
  aws! id := request (wrapping ("celerity: publishing to " +:+ ref_text ref))
               (client.(Publish_) arn (message body opts)) in
  ret (default "" id).
End topic.
End Topic.

(** ** The doubles *)

(** A queue or a topic held in memory, over either contract's options. *)
Module Double.
Section double.
Context {O : Type} (zero : O).

Record SentMessage : Type := MkSent { SentID : string; SentBody : string; SentOptions : O }.

Record double : Type := MkDouble {
  Name : string;
  sent : list SentMessage;
  ids : Z;
  Refuse : option error;
}.

Definition New (name : string) : double := MkDouble name [] 0 None.
Definition Sent (q : double) : list SentMessage := q.(sent).
Definition Len (q : double) : Z := Z.of_nat (length q.(sent)).
Definition Reset (q : double) : double := MkDouble q.(Name) [] q.(ids) q.(Refuse).

Definition takeRefusal (q : double) : option error * double :=
  (q.(Refuse), MkDouble q.(Name) q.(sent) q.(ids) None).

Definition record_ (q : double) (body : string) (opts : list (O → O)) : string * double :=
  let n := (q.(ids) + 1)%Z in
  let id := q.(Name) +:+ "-" +:+ itoa n in
  (id, MkDouble q.(Name) (q.(sent) ++ [MkSent id body (resolve_options zero opts)]) n q.(Refuse)).

Definition Send (body : string) (opts : list (O → O)) (q : double) : result config_error string * double :=
  match takeRefusal q with
  | (Some err, q) => (Err (ConfigError err), q)
  | (None, q) => let '(id, q) := record_ q body opts in (Ok id, q)
  end.

Fixpoint record_all (q : double) (entries : list (BatchEntry O)) : list BatchSuccess * double :=
  match entries with
  | [] => ([], q)
  | e :: es =>
      let '(id, q) := record_ q e.(Body) e.(Options) in
      let '(rest, q) := record_all q es in (MkSuccess e.(EntryID) id :: rest, q)
  end.

Definition SendBatch (entries : list (BatchEntry O)) (q : double) : batch_answer * double :=
  match takeRefusal q with
  | (Some err, q) =>
      ((MkBatch [] [] (unsent entries (ConfigError err)), Some (ConfigError err)), q)
  | (None, q) => let '(oks, q) := record_all q entries in ((MkBatch oks [] [], None), q)
  end.
End double.
Arguments double : clear implicits. Arguments SentMessage : clear implicits.
Arguments MkSent {O}. Arguments SentID {O}. Arguments SentBody {O}. Arguments SentOptions {O}.
Arguments MkDouble {O}. Arguments Name {O}. Arguments sent {O}. Arguments ids {O}. Arguments Refuse {O}.
End Double.

(** ** Positions as ids *)

Lemma position_id i : i < 10 → ParseInt (itoa (Z.of_nat i)) 64 = Ok (Z.of_nat i).
Proof. intros Hi. do 10 (destruct i as [|i]; [reflexivity|]). lia. Qed.

Lemma imap_fst {A B} (f : nat → string) (g : A → B) (l : list A) :
  (imap (λ i e, (f i, g e)) l).*1 = f <$> seq 0 (length l).
Proof.
  revert f. induction l as [|x l IH]; intros f; [done|].
  rewrite imap_cons, fmap_cons. cbn [length seq fst]. rewrite fmap_cons, <- fmap_S_seq, <- list_fmap_compose.
  f_equal. apply (IH (f ∘ S)).
Qed.

Lemma omap_positions {A} (l : list A) :
  omap (λ i, l !! i) (seq 0 (length l)) = l.
Proof.
  induction l as [|x l IH] using rev_ind; [done|].
  rewrite length_app, seq_app, omap_app. cbn [length seq].
  rewrite (omap_ext_in _ (λ i, l !! i)).
  - rewrite IH. f_equal. cbn. by rewrite list_lookup_middle by lia.
  - intros i Hi%elem_of_seq. apply lookup_app_l. lia.
Qed.

Section settling.
Context {O : Type} (unknown : option string → config_error) (entries : list (BatchEntry O)).

Lemma omap_of_fmap {A B C} (f : A → B) (g : B → option C) (l : list A) :
  omap g (f <$> l) = omap (g ∘ f) l.
Proof. induction l as [|x l IH]; [done|]. cbn. by rewrite <- IH. Qed.

(** The entry an id names. *)
Definition entry_at (id : option string) : option (BatchEntry O) :=
  indexOf id entries ≫= (entries !!.).

Definition ids_of (n : nat) : list (option string) := (λ i, Some (itoa (Z.of_nat i))) <$> seq 0 n.

Lemma entry_at_position i :
  length entries ≤ 10 → i < length entries →
  entry_at (Some (itoa (Z.of_nat i))) = entries !! i.
Proof.
  intros Hl Hi. unfold entry_at, indexOf. cbn [from_option id]. rewrite position_id by lia.
  rewrite (proj2 (Z.leb_le _ _)), (proj2 (Z.ltb_lt _ _)) by lia. cbn. by rewrite Nat2Z.id.
Qed.

Lemma entries_at_ids : length entries ≤ 10 → omap entry_at (ids_of (length entries)) = entries.
Proof.
  intros Hl. etrans; [|apply (omap_positions entries)]. unfold ids_of.
  rewrite omap_of_fmap. apply omap_ext_in. intros i Hi%elem_of_seq. cbn.
  apply entry_at_position; lia.
Qed.

(** Answers whose ids all name an entry are settled one for one. *)
Lemma settled_names {A B} (f : A → result config_error B) (id_of : A → option string)
    (name : B → string) xs :
  (∀ x e, entry_at (id_of x) = Some e → ∃ y, f x = Ok y ∧ name y = e.(EntryID)) →
  Forall (λ x, is_Some (entry_at (id_of x))) xs →
  ∃ ys, try_map f xs = Ok ys ∧ name <$> ys = EntryID <$> omap entry_at (id_of <$> xs).
Proof.
  intros Hf. induction 1 as [|x xs [e He] _ (ys & IH & Hn)]; [by exists []|].
  destruct (Hf x e He) as (y & Hy & Hname). exists (y :: ys). cbn [try_map].
  rewrite Hy, IH. split; [done|]. rewrite !fmap_cons. cbn [omap list_omap]. rewrite He.
  by rewrite fmap_cons, Hname, Hn.
Qed.

Lemma settle_accounts out :
  length entries ≤ 10 →
  (OkId <$> out.(OutSuccessful)) ++ (RefusedId <$> out.(OutFailed)) ≡ₚ ids_of (length entries) →
  ∃ r, settle unknown entries out = Ok r ∧ r.(Unsent) = [] ∧ named r ≡ₚ EntryID <$> entries.
Proof.
  intros Hl Hp.
  assert (∀ id, id ∈ (OkId <$> out.(OutSuccessful)) ++ (RefusedId <$> out.(OutFailed)) →
      is_Some (entry_at id)) as Hat.
  { intros id Hid. rewrite Hp in Hid. apply list_elem_of_fmap in Hid as (i & -> & Hi%elem_of_seq).
    rewrite entry_at_position by lia. apply lookup_lt_is_Some_2. lia. }
  destruct (settled_names (settle_ok unknown entries) OkId SuccessID out.(OutSuccessful)) as (oks & Hoks & Hn1).
  { intros x e He. unfold settle_ok. fold (entry_at (OkId x)). rewrite He. eauto. }
  { apply Forall_forall. intros x Hx. apply Hat, elem_of_app. left. by apply list_elem_of_fmap_2. }
  destruct (settled_names (settle_refused unknown entries) RefusedId FailureID out.(OutFailed)) as (nos & Hnos & Hn2).
  { intros x e He. unfold settle_refused. fold (entry_at (RefusedId x)). rewrite He. eauto. }
  { apply Forall_forall. intros x Hx. apply Hat, elem_of_app. right. by apply list_elem_of_fmap_2. }
  exists (MkBatch oks nos []). unfold settle. rewrite Hoks, Hnos. split_and!; [done..|].
  unfold named. cbn. rewrite app_nil_r, Hn1, Hn2, <- fmap_app, <- omap_app, Hp.
  by rewrite entries_at_ids.
Qed.
End settling.

(** ** Batches are accounted for *)

Section batches.
Context {O S T : Type} (I : S → Prop) (P : T → Prop) (resolve : S → result config_error T * S).
Context (sendChunk : T → list (BatchEntry O) → S → result config_error BatchResult * S) (n : nat).

(** A request over a chunk, if it completes, settles every entry of it. *)
Definition settles : Prop := ∀ t c s, P t → I s → c ≠ [] → length c ≤ n →
  I (sendChunk t c s).2 ∧
  ∀ r, (sendChunk t c s).1 = Ok r → r.(Unsent) = [] ∧ named r ≡ₚ EntryID <$> c.
Definition reaches : Prop := ∀ s, I s →
  I (resolve s).2 ∧ ∀ t, (resolve s).1 = Ok t → P t.

#[local] Arguments unsent : simpl never.

Lemma unsent_names (entries : list (BatchEntry O)) err :
  UnsentID <$> unsent entries err = EntryID <$> entries.
Proof. unfold unsent. by rewrite <- list_fmap_compose. Qed.

Lemma unsent_errs (entries : list (BatchEntry O)) err :
  Forall (λ u, u.(UnsentErr) = err) (unsent entries err).
Proof. by apply Forall_fmap, Forall_true. Qed.

Lemma unsent_accounted (entries : list (BatchEntry O)) err :
  accounted entries (MkBatch [] [] (unsent entries err), Some err).
Proof. split; [unfold named; cbn; by rewrite unsent_names|]. apply unsent_errs. Qed.

(** What the requests answered names their entries. *)
Lemma named_requests (sent : list (list (BatchEntry O))) rs us :
  Forall2 (λ c r, r.(Unsent) = [] ∧ named r ≡ₚ EntryID <$> c) sent rs →
  named (MkBatch (rs ≫= Successful) (rs ≫= Failed) us) ≡ₚ
    (EntryID <$> mjoin sent) ++ (UnsentID <$> us).
Proof.
  unfold named. cbn [Successful Failed Unsent].
  induction 1 as [|c r sent rs [Hu Hn] _ IH]; [done|].
  change (mjoin (c :: sent)) with (c ++ mjoin sent). rewrite !bind_cons, !fmap_app.
  rewrite <- (assoc_L (++) (EntryID <$> c)), <- IH, <- Hn, Hu. cbn. rewrite app_nil_r. solve_Permutation.
Qed.

Lemma send_batch_accounts :
  0 < n → settles → reaches → Accounts I (send_batch resolve sendChunk n).
Proof.
  intros Hn Hset Hreach.
  assert (∀ entries s, I s → accounted entries (send_batch resolve sendChunk n entries s).1 ∧
    I (send_batch resolve sendChunk n entries s).2) as H; [|split; intros; by apply H].
  intros entries s Hs. destruct (chunks_spec n entries Hn) as [Hj Hf].
  unfold send_batch. destruct entries as [|e es]; [done|].
  destruct (Hreach s Hs) as [HI HP].
  destruct (resolve s) as [[t|err] s1]; cbn [fst snd] in *; [|split; [apply unsent_accounted|done]].
  pose proof (in_requests_split I (λ c r, r.(Unsent) = [] ∧ named r ≡ₚ EntryID <$> c)
    (sendChunk t) n _ s1 (λ c s Hs Hne Hl, Hset t c s (HP t eq_refl) Hs Hne Hl) HI Hf) as H.
  destruct (in_requests _ _ _) as [[rs stop] s']. destruct H as (H1 & sent & H2 & H3).
  rewrite Hj in H3. split; [|done]. rewrite H3. split; cbn [fst snd].
  - rewrite (named_requests sent) by done. rewrite fmap_app. f_equiv.
    by destruct stop as [[over err]|]; [rewrite unsent_names|].
  - destruct stop as [[over err]|]; cbn; [apply unsent_errs|done].
Qed.
End batches.

(** ** The services *)

(** A request a service takes: a few entries, under ids of their own. *)
Definition takes_request {M} (n : nat) (es : list (string * M)) : Prop :=
  es ≠ [] ∧ length es ≤ n ∧ NoDup es.*1.

(** A service that, where it answers such a request, answers each entry of it once. *)
Definition answers_each {M W} (n : nat)
    (f : string → list (string * M) → W → result error BatchOutput * W) : Prop :=
  ∀ url es w out w', takes_request n es → f url es w = (Ok out, w') →
  (OkId <$> out.(OutSuccessful)) ++ (RefusedId <$> out.(OutFailed)) ≡ₚ Some <$> es.*1.

Lemma request_taken {A M} (g : A → M) (l : list A) n :
  l ≠ [] → length l ≤ n →
  takes_request n (imap (λ i e, (itoa (Z.of_nat i), g e)) l).
Proof.
  intros Hne Hl. split_and!.
  - by destruct l.
  - by rewrite length_imap.
  - rewrite (imap_fst (λ i, itoa (Z.of_nat i))). apply (NoDup_fmap_2 _), NoDup_seq.
Qed.

Section reached.
Context {W C T : Type} (now : W → Z) (load : W → result error C * W) (traceCalls : C → C).
Context (Region : C → string) (with_region : string → C → C).
Context (api : option T) (NewFromConfig : C → T) (ref : Ref) (P : T → Prop).
Context (api_ok : ∀ a, api = Some a → P a) (built_ok : ∀ cfg, P (NewFromConfig cfg)).

(** Every client built so far is one of those. *)
Definition clients_ok (s : aws W C T) : Prop := map_Forall (λ _ r, ∀ c, r = Ok c → P c) s.(clients).

Lemma client_ok key s :
  clients_ok s →
  clients_ok (client load traceCalls Region with_region api NewFromConfig key s).2 ∧
  ∀ c, (client load traceCalls Region with_region api NewFromConfig key s).1 = Ok c → P c.
Proof using api_ok built_ok.
  intros Hs. unfold client. destruct api as [a|] eqn:Ha.
  { split; [done|]. intros c [= <-]. by apply api_ok. }
  destruct s as [se cl [svc w]]. unfold clients_ok in *. unfold Clients_Get. cbn in *.
  destruct (cl !! key) as [r|] eqn:Hr; cbn.
  - rewrite insert_id by done. split; [done|]. intros c. destruct r as [c'|]; [|done].
    intros [= <-]. by apply (Hs key _ Hr).
  - destruct (ConfigFor _ _ _ _ _ _ _) as [[[cfg|err] se'] w']; cbn.
    + split; [|intros c [= <-]; apply built_ok]. apply map_Forall_insert_2; [|done].
      intros c [= <-]. apply built_ok.
    + split; [|done]. apply map_Forall_insert_2; [|done]. done.
Qed.

Lemma reach_ok :
  reaches clients_ok (λ t : T * string, P t.1)
    (resolve now load traceCalls Region with_region api NewFromConfig ref).
Proof using api_ok built_ok.
  intros s Hs. unfold resolve, bind, read.
  destruct (ID now ref s.(settings)) as [[id|err] c1]; cbn; [|done].
  destruct (KeyFor now ref c1) as [[key|err] c2]; cbn; [|done].
  pose proof (client_ok key (MkAws s.(session) s.(clients) c2) Hs) as [H1 H2].
  destruct (client _ _ _ _ _ _ _ _) as [[c|err] s3]; cbn in *; [|done].
  split; [done|]. intros t [= <-]. by apply H2.
Qed.
End reached.

(** One request over a chunk, and what it settles. *)
Lemma request_settles {O M W C T} (P : T → Prop) (n : nat)
    (send : T → string → list (string * M) → W → result error BatchOutput * W)
    (unknown : option string → config_error) (failed : error → error) (g : BatchEntry O → M) :
  n ≤ 10 → (∀ t, P t → answers_each n (send t)) →
  settles (clients_ok (W := W) (C := C) P) (λ t : T * string, P t.1)
    (λ t entries, aws! out := request failed (send t.1 t.2 (imap (λ i e, (itoa (Z.of_nat i), g e)) entries)) in
       λ s, (settle unknown entries out, s)) n.
Proof.
  intros Hn Hsend [t url] c s Ht Hs Hne Hl. unfold bind, request.
  destruct (s.(settings)) as [svc w] eqn:Hset. cbn [fst snd].
  destruct (send t url _ w) as [[out|err] w'] eqn:Hreq; cbn [fst snd]; [|done].
  split; [done|]. intros r Hr.
  pose proof (Hsend t Ht _ _ _ _ _ (request_taken g c n Hne Hl) Hreq) as Hp.
  rewrite (imap_fst (λ i, itoa (Z.of_nat i))), <- list_fmap_compose in Hp.
  destruct (settle_accounts unknown c out ltac:(lia) Hp) as (r' & Hr' & Hu & Hnm).
  rewrite Hr' in Hr. by simplify_eq.
Qed.

Section services.
Context {W C : Type} (now : W → Z) (load : W → result error C * W) (traceCalls : C → C).
Context (Region : C → string) (with_region : string → C → C) (ref : Ref).

Lemma sqs_accounts wide api NewFromConfig :
  (∀ a, api = Some a → answers_each 10 a.(Queue.SendMessageBatch)) →
  (∀ cfg, answers_each 10 (NewFromConfig cfg).(Queue.SendMessageBatch)) →
  Accounts (clients_ok (λ a, answers_each 10 a.(Queue.SendMessageBatch)))
    (Queue.SendBatch wide now load traceCalls Region with_region api NewFromConfig ref).
Proof.
  intros Ha Hb. eapply send_batch_accounts; [unfold Queue.maxBatchEntries; lia| |by apply reach_ok].
  apply (request_settles (λ a, answers_each 10 a.(Queue.SendMessageBatch)) 10 Queue.SendMessageBatch);
    [lia|done].
Qed.

Lemma sns_accounts api NewFromConfig :
  (∀ a, api = Some a → answers_each 10 a.(Topic.PublishBatch_)) →
  (∀ cfg, answers_each 10 (NewFromConfig cfg).(Topic.PublishBatch_)) →
  Accounts (clients_ok (λ a, answers_each 10 a.(Topic.PublishBatch_)))
    (Topic.PublishBatch now load traceCalls Region with_region api NewFromConfig ref).
Proof.
  intros Ha Hb. eapply send_batch_accounts; [unfold Topic.maxBatchEntries; lia| |by apply reach_ok].
  apply (request_settles (λ a, answers_each 10 a.(Topic.PublishBatch_)) 10 Topic.PublishBatch_);
    [lia|done].
Qed.
End services.

(** ** The doubles keep the same promise *)

Section doubles.
Context {O : Type} (zero : O).
Implicit Types (q : Double.double O) (entries : list (BatchEntry O)).

Lemma record_all_names q entries :
  let '(oks, q') := Double.record_all zero q entries in
  SuccessID <$> oks = EntryID <$> entries ∧
  Double.SentID <$> q'.(Double.sent) = (Double.SentID <$> q.(Double.sent)) ++ (MessageID <$> oks) ∧
  (Double.SentBody <$> q'.(Double.sent)) = (Double.SentBody <$> q.(Double.sent)) ++ (Body <$> entries).
Proof.
  revert q. induction entries as [|e es IH]; intros q; cbn [Double.record_all].
  { cbn. by rewrite !app_nil_r. }
  unfold Double.record_. specialize (IH (Double.record_ zero q e.(Body) e.(Options)).2).
  cbn in IH. destruct (Double.record_all _ _ _) as [oks q']. destruct IH as (H1 & H2 & H3).
  rewrite !fmap_cons. cbn. split_and!; [by rewrite H1| |].
  - rewrite H2, fmap_app. by rewrite <- (assoc_L (++)).
  - rewrite H3, fmap_app. by rewrite <- (assoc_L (++)).
Qed.

#[export] Instance double_accounts : Accounts (λ _, True) (Double.SendBatch zero).
Proof.
  split; [|done]. intros entries q _. unfold Double.SendBatch, Double.takeRefusal.
  destruct q.(Double.Refuse) as [err|]; [apply unsent_accounted|].
  pose proof (record_all_names (Double.MkDouble q.(Double.Name) q.(Double.sent) q.(Double.ids) None)
    entries) as H.
  destruct (Double.record_all _ _ _) as [oks q']. destruct H as (H & _). split; [|done].
  unfold named. cbn. by rewrite !app_nil_r, H.
Qed.

(** Every message a double has kept is named by a number it has counted. *)
Definition numbered q : Prop :=
  (0 ≤ q.(Double.ids))%Z ∧ NoDup (Double.SentID <$> q.(Double.sent)) ∧
  ∀ id, id ∈ (Double.SentID <$> q.(Double.sent)) →
    ∃ n, id = q.(Double.Name) +:+ "-" +:+ itoa n ∧ (0 < n ≤ q.(Double.ids))%Z.

Lemma record_numbered q body opts : numbered q → numbered (Double.record_ zero q body opts).2.
Proof.
  intros (Hn & Hd & Hb). unfold numbered. cbn. rewrite fmap_app. cbn. split_and!; [lia| |].
  - apply NoDup_app. split_and!; [done| |apply NoDup_singleton].
    intros id (n & -> & Hle)%Hb Hid%list_elem_of_singleton.
    apply (inj (String.append _)), (inj (String.append _)), (inj pretty) in Hid. lia.
  - intros id [(n & -> & Hle)%Hb| ->%list_elem_of_singleton]%elem_of_app; eexists; split; [done|lia|done|lia].
Qed.
End doubles.

(** ** What holds of a batch *)

(** What is proved against the contract alone: two clients that keep it bring the same
    entries back, whatever either answers of them. *)
Lemma contract_names {O S S'} (I : S → Prop) (I' : S' → Prop)
    (send : list (BatchEntry O) → S → batch_answer * S)
    (send' : list (BatchEntry O) → S' → batch_answer * S')
    `{!Accounts I send, !Accounts I' send'} entries s s' :
  I s → I' s' → named (send entries s).1.1 ≡ₚ named (send' entries s').1.1.
Proof.
  intros Hs Hs'. destruct (accounts (send := send) entries s Hs) as [-> _].
  by destruct (accounts (send := send') entries s' Hs') as [-> _].
Qed.

Section properties.
Context {W C : Type} (now : W → Z) (load : W → result error C * W) (traceCalls : C → C).
Context (Region : C → string) (with_region : string → C → C) (ref : Ref) (wide : Z → Z).
Context (api : option (Queue.API W)) (NewFromConfig : C → Queue.API W).

(** C14: every entry of a batch comes back exactly once.  Where SQS answers each entry of a
    request of at most ten, under distinct ids, once, every entry handed to [SendBatch] is in
    exactly one of the three lists it answers, whatever the size of the batch, whichever
    requests fail and whatever names the caller gave; nothing is unsent without an error, and
    what is unsent carries it.  The in-memory queue brings back the same entries. *)
Theorem batches_are_accounted entries (s : aws W C (Queue.API W)) :
  (∀ a, api = Some a → answers_each 10 a.(Queue.SendMessageBatch)) →
  (∀ cfg, answers_each 10 (NewFromConfig cfg).(Queue.SendMessageBatch)) →
  clients_ok (λ a, answers_each 10 a.(Queue.SendMessageBatch)) s →
  let a := (Queue.SendBatch wide now load traceCalls Region with_region api NewFromConfig ref
              entries s).1 in
  accounted entries a ∧
  ∀ q, named (Double.SendBatch Queue.zero_options entries q).1.1 ≡ₚ named a.1.
Proof.
  intros Ha Hb Hs a.
  pose proof (sqs_accounts now load traceCalls Region with_region ref wide api NewFromConfig Ha Hb).
  split; [by apply accounts|]. intros q. by eapply contract_names; [apply _..| |].
Qed.
End properties.

(** The same of a topic. *)
Lemma published_batches_are_accounted {W C} (now : W → Z) (load : W → result error C * W) traceCalls
    Region with_region ref api NewFromConfig entries (s : aws W C (Topic.API W)) :
  (∀ a, api = Some a → answers_each 10 a.(Topic.PublishBatch_)) →
  (∀ cfg, answers_each 10 (NewFromConfig cfg).(Topic.PublishBatch_)) →
  clients_ok (λ a, answers_each 10 a.(Topic.PublishBatch_)) s →
  let a := (Topic.PublishBatch now load traceCalls Region with_region api NewFromConfig ref
              entries s).1 in
  accounted entries a ∧
  ∀ q, named (Double.SendBatch Topic.zero_options entries q).1.1 ≡ₚ named a.1.
Proof.
  intros Ha Hb Hs a.
  pose proof (sns_accounts now load traceCalls Region with_region ref api NewFromConfig Ha Hb).
  split; [by apply accounts|]. intros q. by eapply contract_names; [apply _..| |].
Qed.

(** ** Witnesses *)

(** A service that takes every message of its first request and answers no other. *)
Definition first_request {M} (url : string) (es : list (string * M)) (w : nat) :
    result error BatchOutput * nat :=
  match w with
  | O => (Ok (MkOutput ((λ e, MkOk (Some e.1) (Some ("m" +:+ e.1))) <$> es) []), 1)
  | _ => (Err (EString "timed out"), S w)
  end.

Lemma first_request_answers {M} n : answers_each (M := M) n first_request.
Proof.
  intros url es w out w' _. destruct w; [|done]. intros [= <- <-]. cbn.
  by rewrite app_nil_r, <- !list_fmap_compose.
Qed.

Definition small_batch : list (BatchEntry Queue.SendOptions) :=
  (λ i, MkEntry ("e" +:+ itoa (Z.of_nat (i / 2))) "body" []) <$> seq 0 12.

Definition orders : Ref := MkRef KindQueue "orders".
Definition one_answer : Queue.API nat := Queue.MkAPI (λ _ _ w, (Ok (Some "m"), w)) first_request.
Definition orders_state : aws nat string (Queue.API nat) :=
  MkAws None ∅ (Some (recorded_as KindQueue "orders" "https://sqs/orders"), 0).

(** Twelve entries, two to a name: ten go in the one request that is answered, and the
    last two are unsent. *)
Lemma batches_are_accounted_witness :
  let a := (Queue.SendBatch (λ _, 0%Z) (λ _ : nat, 0%Z) load_home id id (λ r _, r)
              (Some one_answer) (λ _, one_answer) orders small_batch orders_state).1 in
  length a.1.(Successful) = 10 ∧ UnsentID <$> a.1.(Unsent) = ["e5"; "e5"] ∧
  named a.1 ≡ₚ EntryID <$> small_batch.
Proof.
  intros a. split_and!; [reflexivity|reflexivity|].
  destruct (batches_are_accounted (λ _ : nat, 0%Z) load_home id id (λ r _, r) orders (λ _, 0%Z)
    (Some one_answer) (λ _, one_answer) small_batch orders_state) as [[H _] _].
  - intros b [= <-]. apply first_request_answers.
  - intros _. apply first_request_answers.
  - apply map_Forall_empty.
  - exact H.
Defined.
