(* ===== verification/Bucket.v ===== *)
(** * Buckets: the contract, and the double

    Models [resources/bucket/bucket.go] and [listing.go], and the bucket held in memory of
    [celeritytest/bucket.go].  A version's age is a time given to the operation that makes
    it.  An object's body is the bytes it holds. *)

From S2P Require Import Prelude GoStrings Json Errors Bind Frames Values Store Matching Memory Paging Config Resources.
From stdpp Require Import options.

Definition ErrNotFound : config_error := ConfigError (EString "celerity: not found").

(** ** What a store knows of an object *)

Record ObjectInfo : Type := MkInfo {
  iKey : string;
  iSize : Z;
  iLastModified : Z;
  iETag : string;
  iContentType : string;
  iMetadata : gmap string string;
  iVersionID : string;
}.

Record Object : Type := MkObject {
  oBody : string;
  oInfo : ObjectInfo;
  oContentLength : Z;
}.

Record ObjectRef : Type := MkObjectRef { refKey : string; refVersionID : string }.

Record ObjectVersion : Type := MkVersion {
  vKey : string;
  vVersionID : string;
  vSize : Z;
  vLastModified : Z;
  vETag : string;
  vCurrent : bool;
  vDeleteMarker : bool;
}.

(** Results of writes. *)
Record PutResult : Type := MkPut { putETag : string; putVersionID : string }.
Abbreviation CopyResult := PutResult (only parsing).

Record DeleteFailure : Type := MkDeleteFailure {
  dfRef : ObjectRef; dfCode : string; dfMessage : string;
}.
Record DeleteUnsent : Type := MkDeleteUnsent { duRef : ObjectRef; duErr : config_error }.
Record DeleteManyResult : Type := MkDeleteMany {
  Deleted : list ObjectRef;
  DeleteFailed : list DeleteFailure;
  DeleteUnsent_ : list DeleteUnsent;
}.

(** ** Options *)

Record Range : Type := MkRange { Start : Z; Length : Z }.
Definition Whole (r : Range) : bool := (r.(Start) =? 0)%Z && (r.(Length) =? 0)%Z.

Record GetOptions : Type := MkGet { gRange : Range; gVersionID : string }.
Record PutOptions : Type := MkPutOptions { pContentType : string; pMetadata : gmap string string }.
Definition Replaces (o : PutOptions) : bool :=
  negb (bool_decide (o.(pContentType) = "")) || negb (bool_decide (o.(pMetadata) = ∅)).

Inductive SignAction : Type := SignRead | SignWrite | SignOther (a : string).
Definition action_text (a : SignAction) : string :=
  match a with SignRead => "read" | SignWrite => "write" | SignOther a => a end.
Record SignedURL : Type := MkSigned { URL : string; ExpiresAt : Z }.

Record ListOptions : Type := MkList { lLimit : Z; lCursor : string }.
Abbreviation ListOption := (ListOptions → ListOptions) (only parsing).

Definition apply_options {O} (zero : O) (opts : list (O → O)) : O := foldl (λ o opt, opt o) zero opts.
Definition no_get : GetOptions := MkGet (MkRange 0 0) "".
Definition no_put : PutOptions := MkPutOptions "" ∅.
Definition no_list : ListOptions := MkList 0 "".

(** [Cursor.More]. *)
Definition More (c : string) : bool := negb (bool_decide (c = "")).

(** ** Reading a listing through *)

Section listing.
Context {T S D : Type}.
(** One page of a store: what it holds, the cursor to resume from, and what became of the
    store; or [None], where it panics. *)
Context (page : list ListOption → D → option (result config_error (list T * string) * D)).
Context (yield : result config_error T → S → bool * S).

Definition resumeAt (cursor : string) : ListOption := λ o, MkList o.(lLimit) cursor.

(** The loop over one page: whether the reader wants more. *)
Fixpoint give (l : list T) (s : S) : bool * S :=
  match l with
  | [] => (true, s)
  | x :: l => match yield (Ok x) s with (true, s) => give l s | (false, s) => (false, s) end
  end.

(** One range over [Objects] or [AllVersions].  The options are the function's own and are
    appended to as pages are read, so a later range starts with what is left of them.  The
    fuel is pages; inside it, [None] is a panic. *)
Fixpoint Objects (fuel : nat) (opts : list ListOption) (s : S) (d : D) :
    option (option (S * list ListOption * D)) :=
  match fuel with
  | O => None
  | Datatypes.S fuel =>
      match page opts d with
      | None => Some None
      | Some (Err err, d) => Some (Some ((yield (Err err) s).2, opts, d))
      | Some (Ok (l, cursor), d) =>
          match give l s with
          | (false, s) => Some (Some (s, opts, d))
          | (true, s) =>
              if negb (More cursor) then Some (Some (s, opts, d))
              else Objects fuel (opts ++ [resumeAt cursor]) s d
          end
      end
  end.
End listing.

(** ** The bucket held in memory *)

Record storedObject : Type := MkStored { info : ObjectInfo; body : string; marker : bool }.

Record Bucket : Type := MkBucket {
  bName : string;
  objects : gmap string (list storedObject);        (* oldest first *)
  versions : Z;
}.
Definition NewBucket (name : string) : Bucket := MkBucket name ∅ 0.

Definition bucket_ref (b : Bucket) : Ref := Resources.MkRef KindBucket b.(bName).
Definition absent (b : Bucket) (key : string) : config_error :=
  ConfigError (EWrap ("celerity: " +:+ ref_text (bucket_ref b) +:+ " holds no object " +:+
    go_quote key +:+ ": celerity: not found") (EString "celerity: not found")).

Definition held_at (b : Bucket) (key : string) : list storedObject := default [] (b.(objects) !! key).
Definition newest (b : Bucket) (key : string) : option storedObject := last (held_at b key).

Definition current (b : Bucket) (key : string) : option storedObject :=
  match newest b key with
  | Some o => if o.(marker) then None else Some o
  | None => None
  end.
Definition version (b : Bucket) (key id : string) : option storedObject :=
  list_find (λ o, o.(info).(iVersionID) = id) (held_at b key) ≫= (λ p, Some p.2).
Definition find (b : Bucket) (key versionID : string) : option storedObject :=
  if bool_decide (versionID = "") then newest b key else version b key versionID.
(** A marker holds nothing to read. *)
Definition readable (b : Bucket) (key versionID : string) : option storedObject :=
  match find b key versionID with
  | Some o => if o.(marker) then None else Some o
  | None => None
  end.

Definition sortedKeys (b : Bucket) : list string := sort_strings (keys b.(objects)).
Definition Keys (b : Bucket) : list string :=
  sort_strings (List.filter (λ k, is_some (current b k)) (keys b.(objects))).
Definition Len (b : Bucket) : nat :=
  length (List.filter (λ k, is_some (current b k)) (keys b.(objects))).
Definition Contents (b : Bucket) (key : string) : option string := body <$> current b key.

(** [body[start:end]] of byte offsets, which panics where they are not in order. *)
Definition slice_text (s : string) (start stop : Z) : option string :=
  if (0 <=? start)%Z && (start <=? stop)%Z && (stop <=? Z.of_nat (String.length s))%Z
  then Some (String.substring (Z.to_nat start) (Z.to_nat (stop - start)) s) else None.

(** [applyRange]; [None] where the slice panics. *)
Definition applyRange (s : string) (r : Range) : option (string * Z) :=
  let size := Z.of_nat (String.length s) in
  if Whole r then Some (s, size)
  else
    let start := Z.min r.(Start) size in
    let stop := if (0 <? r.(Length))%Z then Z.min (to_int64 (start + r.(Length))) size else size in
    (λ part, (part, Z.of_nat (String.length part))) <$> slice_text s start stop.

Definition Get (b : Bucket) (key : string) (opts : list (GetOptions → GetOptions)) :
    option (result config_error Object) :=
  let o := apply_options no_get opts in
  match readable b key o.(gVersionID) with
  | None => Some (Err (absent b key))
  | Some obj =>
      (λ '(part, n), Ok (MkObject part obj.(info) n)) <$> applyRange obj.(body) o.(gRange)
  end.

Definition Info (b : Bucket) (key versionID : string) : result config_error ObjectInfo :=
  match readable b key versionID with None => Err (absent b key) | Some o => Ok o.(info) end.
Definition Exists (b : Bucket) (key versionID : string) : bool := is_some (readable b key versionID).

(** [etagOf]: FNV-1a of the content, on 64 bits. *)
Definition fnv_byte (h : Z) (c : ascii) : Z :=
  (Z.lxor h (Z.of_nat (nat_of_ascii c)) * 1099511628211) mod 2 ^ 64.
Fixpoint fnv (h : Z) (s : string) : Z :=
  match s with "" => h | String c s => fnv (fnv_byte h c) s end.
Definition hex_digit (n : Z) : ascii :=
  if (n <? 10)%Z then ascii_of_nat (48 + Z.to_nat n) else ascii_of_nat (87 + Z.to_nat n).
Fixpoint hex_text (digits : nat) (n : Z) (acc : string) : string :=
  match digits with
  | O => acc
  | Datatypes.S k => hex_text k (n / 16) (String (hex_digit (n mod 16)) acc)
  end.
Definition etagOf (content : string) : string := hex_text 16 (fnv 14695981039346656037 content) "".

Definition version_id (n : Z) : string := "v" +:+ itoa n.

(** A version appended to a key. *)
Definition add_version (b : Bucket) (key : string) (o : storedObject) : Bucket :=
  MkBucket b.(bName) (<[key := held_at b key ++ [o]]> b.(objects)) (b.(versions) + 1).

(** [Put] of a body read whole; a body that cannot be read stores nothing. *)
Definition Put (b : Bucket) (now : Z) (key : string) (content : result error string)
    (opts : list (PutOptions → PutOptions)) : result config_error PutResult * Bucket :=
  match content with
  | Err err =>
      (Err (ConfigError (EWrap ("celerity: " +:+ ref_text (bucket_ref b) +:+
         " reading the body for " +:+ go_quote key +:+ ": " +:+ error_text err) err)), b)
  | Ok content =>
      let o := apply_options no_put opts in
      let id := version_id (b.(versions) + 1) in
      let etag := go_quote (etagOf content) in
      (Ok (MkPut etag id),
       add_version b key (MkStored (MkInfo key (Z.of_nat (String.length content)) now etag
         o.(pContentType) o.(pMetadata) id) content false))
  end.

(** [delete]: one version for good, or the key hidden behind a marker. *)
Definition delete_ (b : Bucket) (now : Z) (key versionID : string) : Bucket :=
  if bool_decide (versionID = "") then
    match current b key with
    | None => b
    | Some _ =>
        add_version b key (MkStored (MkInfo key 0 now "" "" ∅ (version_id (b.(versions) + 1))) "" true)
    end
  else
    MkBucket b.(bName)
      (<[key := List.filter (λ o, negb (bool_decide (o.(info).(iVersionID) = versionID))) (held_at b key)]>
         b.(objects)) b.(versions).

Definition Delete := delete_.

Definition DeleteMany (b : Bucket) (now : Z) (refs : list ObjectRef) : DeleteManyResult * Bucket :=
  (MkDeleteMany refs [] [],
   foldl (λ b ref, delete_ b now ref.(refKey) ref.(refVersionID)) b refs).

(** [paginate]; [None] where the slice panics. *)
Definition cursor_start (c : string) : Z :=
  if bool_decide (c = "") then 0%Z else match scan_int c with Ok n => n | Err _ => 0%Z end.
Definition paginate {T} (all : list T) (o : ListOptions) : option (list T * string) :=
  let size := Z.of_nat (length all) in
  let start := Z.min (cursor_start o.(lCursor)) size in
  let stop := if (0 <? o.(lLimit))%Z then Z.min (to_int64 (start + o.(lLimit))) size else size in
  if (start <? 0)%Z || (stop <? start)%Z then None
  else Some (slice (Z.to_nat start) (Z.to_nat stop) all, if (stop <? size)%Z then itoa stop else "").

(** What a listing says of an object: not its headers. *)
Definition listed (i : ObjectInfo) : ObjectInfo :=
  MkInfo i.(iKey) i.(iSize) i.(iLastModified) i.(iETag) "" ∅ "".

Definition all_objects (b : Bucket) (prefix : string) : list ObjectInfo :=
  omap (λ key, if has_prefix key prefix then (λ o, listed o.(info)) <$> current b key else None)
    (sortedKeys b).
Definition List_ (b : Bucket) (prefix : string) (opts : list ListOption) :
    option (list ObjectInfo * string) :=
  paginate (all_objects b prefix) (apply_options no_list opts).

(** The versions of one key, newest first. *)
Definition versions_of (key : string) (l : list storedObject) : list ObjectVersion :=
  reverse (imap (λ i o, MkVersion key o.(info).(iVersionID) o.(info).(iSize)
    o.(info).(iLastModified) o.(info).(iETag) (i =? length l - 1) o.(marker)) l).
Definition all_versions (b : Bucket) (prefix : string) : list ObjectVersion :=
  mjoin ((λ key, if has_prefix key prefix then versions_of key (held_at b key) else []) <$> sortedKeys b).
Definition Versions (b : Bucket) (prefix : string) (opts : list ListOption) :
    option (list ObjectVersion * string) :=
  paginate (all_versions b prefix) (apply_options no_list opts).

(** Where a copy goes: this bucket, another of these, or a store that is not one. *)
Inductive destination : Type := SameStore | Other (b : Bucket) | Foreign.

(** [Copy]: what it answers, and the bucket written to. *)
Definition Copy (b : Bucket) (now : Z) (sourceKey : string) (dest : destination) (destKey : string)
    (opts : list (PutOptions → PutOptions)) : result config_error CopyResult * option Bucket :=
  match current b sourceKey with
  | None => (Err (absent b sourceKey), None)
  | Some source =>
      let o := apply_options no_put opts in
      let carried := if Replaces o then o
                     else MkPutOptions source.(info).(iContentType) source.(info).(iMetadata) in
      let write target :=
        let '(r, target) := Put target now destKey (Ok source.(body)) [λ _, carried] in (r, Some target) in
      match dest with
      | SameStore => write b
      | Other b' => write b'
      | Foreign => (Err (ConfigError (EString ("celerity: the copy destination is not a " +:+
          "*celeritytest.Bucket, so this bucket cannot copy into it"))), None)
      end
  end.

Definition Signed (b : Bucket) (now : Z) (key : string) (a : SignAction) (expiry : Z) : SignedURL :=
  MkSigned ("https://celeritytest.invalid/" +:+ b.(bName) +:+ "/" +:+ key +:+ "?action=" +:+
    action_text a) (now + expiry).

(** ** A listing read through *)

Section reading.
Context {T S : Type} (yield : result config_error T → S → bool * S) (all : list T).

(** Pages cut from one list. *)
Definition cut_page {D} (opts : list ListOption) (d : D) :
    option (result config_error (list T * string) * D) :=
  (λ r, (Ok r, d)) <$> paginate all (apply_options no_list opts).

Lemma give_app a b s :
  give yield (a ++ b) s =
  let '(go, s) := give yield a s in if (go : bool) then give yield b s else (false, s).
Proof.
  revert s. induction a as [|x a IH]; intros s; simpl; [done|].
  destruct (yield (Ok x) s) as [[] s']; [apply IH|done].
Qed.

Lemma apply_options_snoc {O} (zero : O) opts opt :
  apply_options zero (opts ++ [opt]) = opt (apply_options zero opts).
Proof. unfold apply_options. by rewrite foldl_app. Qed.

Lemma cursor_start_itoa n : (0 ≤ n < 2 ^ 63)%Z → cursor_start (itoa n) = n.
Proof.
  intros Hn. unfold cursor_start. rewrite bool_decide_eq_false_2 by (apply itoa_nonempty; lia).
  by rewrite scan_int_itoa.
Qed.

(** From a position on, the pages give the rest of the list. *)
Lemma Objects_rest {D} fuel opts s (d : D) start :
  let o := apply_options no_list opts in
  let size := Z.of_nat (length all) in
  (size < 2 ^ 62)%Z → (o.(lLimit) < 2 ^ 62)%Z →
  cursor_start o.(lCursor) = start → (0 ≤ start ≤ size)%Z →
  Z.to_nat (size - start) < fuel →
  ∃ opts', Objects cut_page yield fuel opts s d =
    Some (Some ((give yield (drop (Z.to_nat start) all) s).2, opts', d)).
Proof.
  intros o size Hsize. subst o. revert opts s start.
  induction fuel as [|fuel IH]; intros opts s start Hlim Hst Hr Hf; [lia|].
  cbn [Objects]. unfold cut_page at 1, paginate. rewrite Hst. fold size.
  rewrite (Z.min_l start size) by lia.
  set (o := apply_options no_list opts) in *.
  set (stop := if (0 <? o.(lLimit))%Z then _ else _).
  assert (start ≤ stop ≤ size ∧ (stop < size → start < stop))%Z as [Hstop Hprog].
  { subst stop. destruct (Z.ltb_spec 0 o.(lLimit)); [|lia]. rewrite to_int64_id by lia. lia. }
  destruct (Z.ltb_spec start 0); [lia|]. destruct (Z.ltb_spec stop start); [lia|]. cbn [orb fmap option_fmap option_map].
  assert (drop (Z.to_nat start) all =
          slice (Z.to_nat start) (Z.to_nat stop) all ++ drop (Z.to_nat stop) all) as ->.
  { unfold slice. rewrite <- (take_drop (Z.to_nat stop - Z.to_nat start) (drop (Z.to_nat start) all)) at 1.
    f_equal. rewrite drop_drop. f_equal. lia. }
  rewrite give_app. destruct (give yield (slice _ _ all) s) as [[] s']; [|by eexists].
  destruct (Z.ltb_spec stop size) as [Hlt|Hge].
  - unfold More. rewrite bool_decide_eq_false_2 by (apply itoa_nonempty; lia). cbn [negb].
    apply IH; rewrite ?apply_options_snoc; [exact Hlim|apply cursor_start_itoa; lia|lia|lia].
  - exists opts. by rewrite drop_ge by lia.
Qed.
End reading.

(** Reading a listing through gives all of it.  Over the bucket in memory, whatever the
    size of a page, [Objects] gives its reader the current object of every key under the
    prefix, each once and in the order of their keys, until the reader stops; and it asks for
    no more pages than there are objects, and one more. *)
Lemma Objects_complete {S} (yield : result config_error ObjectInfo → S → bool * S)
    (b : Bucket) prefix opts s :
  let o := apply_options no_list opts in
  let page := λ opts (b : Bucket), (λ r, (Ok r, b)) <$> List_ b prefix opts in
  o.(lCursor) = "" → (o.(lLimit) < 2 ^ 62)%Z →
  (Z.of_nat (length (all_objects b prefix)) < 2 ^ 62)%Z →
  ∃ opts', Objects page yield (1 + length (all_objects b prefix)) opts s b =
    Some (Some ((give yield (all_objects b prefix) s).2, opts', b)).
Proof.
  intros o page Hc Hl Hsize.
  assert (∀ fuel opts s, Objects page yield fuel opts s b =
    Objects (cut_page (all_objects b prefix)) yield fuel opts s b) as Heq.
  { induction fuel as [|fuel IH]; intros opts' s'; [done|]. cbn [Objects].
    unfold page at 1, cut_page at 1, List_.
    destruct (paginate _ _) as [[l c]|]; [|done]. cbn [fmap option_fmap option_map].
    destruct (give yield l s') as [[] s1]; [|done]. by destruct (negb (More c)). }
  rewrite Heq. apply (Objects_rest _ _ _ _ _ _ 0); [done|done| |lia|lia].
  fold o. by rewrite Hc.
Qed.

(** The second range over one listing starts where the first one's last page did. *)
Definition three_objects : Bucket :=
  foldl (λ b key, (Put b 0 key (Ok "x") []).2) (NewBucket "uploads") ["a"; "b"; "c"].

Lemma a_second_range_gives_the_last_page :
  let page := λ opts (b : Bucket), (λ r, (Ok r, b)) <$> List_ b "" opts in
  let seen := λ (r : result config_error ObjectInfo) s,
    (true, match r with Ok i => s ++ [i.(iKey)] | Err _ => s end) in
  ∃ opts',
    Objects page seen 4 [λ o, MkList 2 o.(lCursor)] [] three_objects =
      Some (Some (["a"; "b"; "c"], opts', three_objects)) ∧
    Objects page seen 4 opts' [] three_objects = Some (Some (["c"], opts', three_objects)).
Proof. eexists. split; reflexivity. Qed.

(** A cursor is an offset: an object deleted between two pages moves those after it, and one
    of them is not listed; a cursor no listing gave starts it again, or panics. *)
Lemma deleting_while_listing_skips :
  let '(page1, c) := default ([], "") (List_ three_objects "" [λ o, MkList 1 o.(lCursor)]) in
  iKey <$> page1 = ["a"] ∧
  (λ r : list ObjectInfo * string, iKey <$> r.1) <$> List_ (Delete three_objects 0 "a" "") "" [λ o, MkList 1 c] = Some ["c"].
Proof. by split. Qed.

Lemma foreign_cursors :
  List_ three_objects "" [λ _, MkList 0 "garbage"] = List_ three_objects "" [] ∧
  List_ three_objects "" [λ _, MkList 0 "-1"] = None.
Proof. by split. Qed.

(** ** Versions *)

Definition ids_of (l : list storedObject) : list string := (λ o, o.(info).(iVersionID)) <$> l.

(** Every version is named by a number the bucket has counted, once to a key. *)
Definition counted (b : Bucket) : Prop :=
  (0 ≤ b.(versions))%Z ∧
  ∀ key, NoDup (ids_of (held_at b key)) ∧
    ∀ id, id ∈ ids_of (held_at b key) → ∃ n, id = version_id n ∧ (0 < n ≤ b.(versions))%Z.

#[export] Instance version_id_inj : Inj (=) (=) version_id.
Proof. intros a b H. unfold version_id in H. by apply (inj (String.append _)), (inj pretty) in H. Qed.

Lemma held_at_insert b k l key v :
  held_at (MkBucket b.(bName) (<[k := l]> b.(objects)) v) key =
  if decide (key = k) then l else held_at b key.
Proof.
  unfold held_at. cbn. case_decide; subst; [by rewrite lookup_insert_eq|].
  by rewrite lookup_insert_ne.
Qed.

Lemma add_version_counted b key o :
  counted b → o.(info).(iVersionID) = version_id (b.(versions) + 1) → counted (add_version b key o).
Proof.
  intros [Hpos Hc] Hid. split; [cbn; lia|]. intros key'. unfold add_version.
  rewrite held_at_insert. cbn [versions]. case_decide as Hk.
  - subst key'. destruct (Hc key) as [Hn Hb]. unfold ids_of in *. rewrite fmap_app. cbn.
    rewrite Hid. split.
    + apply NoDup_app. split_and!; [done| |apply NoDup_singleton].
      intros id (n & -> & Hle)%Hb ->%list_elem_of_singleton%(inj version_id). lia.
    + intros id [(n & -> & Hle)%Hb| ->%list_elem_of_singleton]%elem_of_app; eexists; split; [done|lia|done|lia].
  - destruct (Hc key') as [Hn Hb]. split; [done|]. intros id (n & -> & Hle)%Hb. exists n. split; [done|lia].
Qed.

Lemma sublist_ids P l : ids_of (List.filter P l) `sublist_of` ids_of l.
Proof.
  unfold ids_of. induction l as [|o l IH]; [done|]. cbn [List.filter].
  destruct (P o); cbn; by constructor.
Qed.

Lemma delete_counted b now key v : counted b → counted (delete_ b now key v).
Proof.
  intros Hc. unfold delete_. case_bool_decide.
  - destruct (current b key); [|done]. by apply add_version_counted.
  - destruct Hc as [Hpos Hc]. split; [done|]. intros key'. rewrite held_at_insert. cbn [versions].
    case_decide as Hk; [subst key'|apply Hc]. destruct (Hc key) as [Hn Hb].
    pose proof (sublist_ids (λ o, negb (bool_decide (o.(info).(iVersionID) = v))) (held_at b key)) as Hs.
    split; [by eapply sublist_NoDup|]. intros id Hid. apply Hb. by eapply elem_of_sublist.
Qed.

Lemma Put_counted b now key content opts : counted b → counted (Put b now key content opts).2.
Proof. intros Hc. destruct content; [|done]. by apply add_version_counted. Qed.

Lemma DeleteMany_counted b now refs : counted b → counted (DeleteMany b now refs).2.
Proof.
  intros Hc. unfold DeleteMany. cbn. revert b Hc.
  induction refs as [|r rs IH]; intros b Hc; [done|]. apply IH. by apply delete_counted.
Qed.

Lemma NewBucket_counted name : counted (NewBucket name).
Proof. split; [done|]. intros key. split; [constructor|]. intros id []%not_elem_of_nil. Qed.

Lemma newest_snoc b key o : newest (add_version b key o) key = Some o.
Proof. unfold newest, add_version. rewrite held_at_insert, decide_True by done. apply last_snoc. Qed.

Lemma version_other b key o id :
  o.(info).(iVersionID) ≠ id →
  ∀ key', version (add_version b key o) key' id = version b key' id.
Proof.
  intros Hne key'. unfold version, add_version. rewrite held_at_insert. case_decide; [subst|done].
  destruct (list_find _ (held_at b key)) as [[i x]|] eqn:Hf.
  - by rewrite (list_find_app_l _ _ _ _ _ Hf).
  - rewrite list_find_app_r by done. cbn. by rewrite decide_False.
Qed.

Lemma filter_out_last l o :
  o.(info).(iVersionID) ∉ ids_of l →
  List.filter (λ x, negb (bool_decide (x.(info).(iVersionID) = o.(info).(iVersionID)))) (l ++ [o]) = l.
Proof.
  intros Hn. rewrite List.filter_app. cbn. rewrite bool_decide_eq_true_2, app_nil_r by done.
  induction l as [|x l IH]; [done|]. cbn in *. apply not_elem_of_cons in Hn as [Hx Hn].
  rewrite bool_decide_eq_false_2 by congruence. cbn. f_equal. by apply IH.
Qed.

(** A deletion hides a key and can be undone.  In any bucket the operations reach,
    deleting a key that holds an object leaves nothing to read under it and every version
    readable as before; the newest version is then a marker, and deleting that version for
    good gives back the very objects there were. *)
Lemma a_deletion_is_undone b now later key o :
  counted b → current b key = Some o →
  let b' := Delete b now key "" in
  counted b' ∧ readable b' key "" = None ∧
  ∃ m, newest b' key = Some m ∧ m.(marker) = true ∧
    (∀ key' id, id ≠ "" → id ≠ m.(info).(iVersionID) → readable b' key' id = readable b key' id) ∧
    (Delete b' later key m.(info).(iVersionID)).(objects) = b.(objects).
Proof.
  intros Hc Ho b'.
  set (m := MkStored (MkInfo key 0 now "" "" ∅ (version_id (b.(versions) + 1))) "" true).
  assert (b' = add_version b key m) as Hb'.
  { subst b'. unfold Delete, delete_. rewrite bool_decide_eq_true_2 by done. by rewrite Ho. }
  split; [by apply delete_counted|]. rewrite Hb'. clear b' Hb'.
  split. { unfold readable, find. rewrite bool_decide_eq_true_2 by done. by rewrite newest_snoc. }
  exists m. split_and!; [apply newest_snoc|done| |].
  - intros key' id Hid Hne. unfold readable, find. rewrite bool_decide_eq_false_2 by done.
    by rewrite version_other by done.
  - destruct Hc as [Hpos Hc]. destruct (Hc key) as [_ Hb]. unfold Delete, delete_.
    rewrite bool_decide_eq_false_2 by done. cbn [objects].
    assert (held_at (add_version b key m) key = held_at b key ++ [m]) as ->.
    { unfold add_version. by rewrite held_at_insert, decide_True. }
    rewrite filter_out_last.
    2:{ intros (n & Heq & Hle)%Hb. cbn in Heq. apply (inj version_id) in Heq. lia. }
    unfold add_version. cbn [objects]. rewrite insert_insert_eq. apply insert_id.
    unfold current, newest, held_at in *. by destruct (b.(objects) !! key).
Qed.

(** A copy keeps the invariant of the bucket it writes. *)
Lemma Copy_counted b now k dest k' opts target :
  counted b → (∀ b', dest = Other b' → counted b') →
  (Copy b now k dest k' opts).2 = Some target → counted target.
Proof.
  intros Hb Hd. unfold Copy. destruct (current b k); [|done].
  destruct dest as [|b'|]; cbn; [| |done]; intros [= <-]; apply add_version_counted; auto.
Qed.

(** ** Witnesses *)

Lemma Objects_complete_witness :
  let page := λ opts (b : Bucket), (λ r, (Ok r, b)) <$> List_ b "" opts in
  let count := λ (r : result config_error ObjectInfo) n, (true, Datatypes.S n) in
  ∃ opts', Objects page count 4 [λ o, MkList 2 o.(lCursor)] 0 three_objects =
    Some (Some (3, opts', three_objects)).
Proof.
  intros page count.
  destruct (Objects_complete count three_objects "" [λ o, MkList 2 o.(lCursor)] 0) as [opts' H];
    [reflexivity|done|reflexivity|].
  exists opts'. exact H.
Defined.

Lemma a_deletion_is_undone_witness :
  let b' := Delete three_objects 1 "b" "" in
  Keys b' = ["a"; "c"] ∧ counted b' ∧ (Delete b' 2 "b" "v4").(objects) = three_objects.(objects).
Proof.
  intros b'. assert (counted three_objects) as Hc by (do 3 apply Put_counted; apply NewBucket_counted).
  destruct (a_deletion_is_undone three_objects 1 2 "b" _ Hc eq_refl) as (H1 & _ & m & Hm & _ & _ & H2).
  split_and!; [reflexivity|done|].
  assert (m.(info).(iVersionID) = "v4") as Hid by (revert Hm; vm_compute; by intros [= <-]).
  by rewrite Hid in H2.
Defined.
