(* ===== verification/S3.v ===== *)
(** * A bucket on S3

    Models [resources/aws/bucket]: reads, writes, copies and signed URLs ([bucket.go]),
    versions and deletes of many ([versions.go]), and the cursor of a listing
    ([cursor.go]).  S3 is a parameter, a function for each request the code makes; so are
    the transfer manager and the codes of the API's errors. *)

From S2P Require Import Prelude GoStrings Json Errors Route Bind Frames Encoding DynamoKeys Config Resources AwsService Batch Bucket.
From stdpp Require Import options.

(** ** What a request answers *)

Record GetObjectOutput (B : Type) : Type := MkGetOut {
  outBody : B;
  outContentLength : option Z;
  outContentRange : option string;
  outLastModified : option Z;
  outETag : option string;
  outContentType : option string;
  outMetadata : gmap string string;
  outVersionId : option string;
}.
Arguments MkGetOut {B}. Arguments outBody {B}. Arguments outContentLength {B}.
Arguments outContentRange {B}. Arguments outLastModified {B}. Arguments outETag {B}.
Arguments outContentType {B}. Arguments outMetadata {B}. Arguments outVersionId {B}.

Record s3Object : Type := MkS3Object {
  sKey : option string; sSize : option Z; sLastModified : option Z; sETag : option string;
}.
Record ListOutput : Type := MkListOut { outContents : list s3Object; outIsTruncated : option bool }.

(** A version, or a marker, which has no size and no etag. *)
Record s3Version : Type := MkS3Version {
  svKey : option string; svVersionId : option string; svSize : option Z;
  svLastModified : option Z; svETag : option string; svIsLatest : option bool;
}.
Record VersionsOutput : Type := MkVersionsOut {
  outVersions : list s3Version; outDeleteMarkers : list s3Version; outVTruncated : option bool;
}.

Record DeletedObject : Type := MkDeleted { delKey : option string; delVersionId : option string }.
Record DeleteError : Type := MkDeleteError {
  errKey : option string; errVersionId : option string; errCode : option string;
  errMessage : option string;
}.

Record CopyInput : Type := MkCopyIn {
  cpBucket : string; cpKey : string; cpSource : string;
  cpReplace : option (gmap string string * option string);
}.
Record UploadInput (R : Type) : Type := MkUpload {
  upBucket : string; upKey : string; upBody : R; upContentType : option string;
  upMetadata : option (gmap string string);
}.
Arguments MkUpload {R}.
Record ListInput : Type := MkListIn {
  inBucket : string; inPrefix : option string; inAfter : option string; inMaxKeys : option Z;
}.

(** What this package calls on S3. *)
Record API (B W : Type) : Type := MkAPI {
  GetObject : string → string → option string → option string → W → result error (GetObjectOutput B) * W;
  HeadObject : string → string → option string → W → result error (GetObjectOutput unit) * W;
  DeleteObject : string → string → option string → W → result error () * W;
  ListObjectsV2 : ListInput → W → result error ListOutput * W;
  CopyObject : CopyInput → W → result error (option (option string) * option string) * W;
  DeleteObjects : string → list (string * option string) → W →
    result error (list DeletedObject * list DeleteError) * W;
  ListObjectVersions : ListInput → W → result error VersionsOutput * W;
}.
Arguments MkAPI {B W}. Arguments GetObject {B W}. Arguments HeadObject {B W}.
Arguments DeleteObject {B W}. Arguments ListObjectsV2 {B W}. Arguments CopyObject {B W}.
Arguments DeleteObjects {B W}. Arguments ListObjectVersions {B W}.

Record PresignAPI (W : Type) : Type := MkPresign {
  PresignGetObject : string → string → Z → W → result error string * W;
  PresignPutObject : string → string → option string → Z → W → result error string * W;
}.
Arguments MkPresign {W}. Arguments PresignGetObject {W}. Arguments PresignPutObject {W}.

(** [aws.ToString] and the others of a pointer that may be nil, and [aws.String] of a text
    set only where there is one. *)
Definition to_string (s : option string) : string := default "" s.
Definition some_string (s : string) : option string := if bool_decide (s = "") then None else Some s.

(** ** Ranges, sizes and cursors *)

Definition rangeHeader (r : Range) : string :=
  if Whole r then ""
  else if (r.(Length) <=? 0)%Z then "bytes=" +:+ itoa r.(Start) +:+ "-"
  else "bytes=" +:+ itoa r.(Start) +:+ "-" +:+ itoa (to_int64 (to_int64 (r.(Start) + r.(Length)) - 1)).

Definition totalFromContentRange (header : string) : option Z :=
  match cut "/" header with
  | None => None
  | Some (_, total) => match ParseInt total 64 with Ok n => Some n | Err _ => None end
  end.

Definition objectSize {B} (out : GetObjectOutput B) : Z :=
  match totalFromContentRange (to_string out.(outContentRange)) with
  | Some total => total
  | None => default 0%Z out.(outContentLength)
  end.

Section cursor.
Context (b64_error : string → error).

Definition invalidCursor (err : error) : error :=
  wrapping "celerity: the cursor given is not one this store produced" err.

Definition encodeKeyAfter (key : string) : string := url64_encode key.
Definition keyAfter (cursor : string) : result error string :=
  if bool_decide (cursor = "") then Ok ""
  else match url64_decode cursor with
       | Some key => Ok key
       | None => Err (invalidCursor (b64_error cursor))
       end.
End cursor.

(** ** Versions *)

Definition objectVersion (v : s3Version) : ObjectVersion :=
  MkVersion (to_string v.(svKey)) (to_string v.(svVersionId)) (default 0%Z v.(svSize))
    (default zero_time v.(svLastModified)) (to_string v.(svETag)) (default false v.(svIsLatest)) false.
Definition deleteMarker (m : s3Version) : ObjectVersion :=
  MkVersion (to_string m.(svKey)) (to_string m.(svVersionId)) 0
    (default zero_time m.(svLastModified)) "" (default false m.(svIsLatest)) true.

(** Whether, of a version and a marker, the version comes next. *)
Definition version_first (v m : s3Version) : bool :=
  if negb (bool_decide (to_string v.(svKey) = to_string m.(svKey))) then
    String.ltb (to_string v.(svKey)) (to_string m.(svKey))
  else (default zero_time m.(svLastModified) <? default zero_time v.(svLastModified))%Z.

(** [versionsOf] with [takeVersionNext]: one pass over the two lists. *)
Fixpoint merge_versions (vs : list s3Version) : list s3Version → list ObjectVersion :=
  fix go ms :=
    match vs, ms with
    | [], [] => []
    | v :: vs', [] => objectVersion v :: merge_versions vs' []
    | [], m :: ms' => deleteMarker m :: go ms'
    | v :: vs', m :: ms' =>
        if version_first v m then objectVersion v :: merge_versions vs' ms
        else deleteMarker m :: go ms'
    end.
Definition versionsOf (out : VersionsOutput) : list ObjectVersion :=
  merge_versions out.(outVersions) out.(outDeleteMarkers).

Definition objectsOf (contents : list s3Object) : list ObjectInfo :=
  (λ o, MkInfo (to_string o.(sKey)) (default 0%Z o.(sSize)) (default zero_time o.(sLastModified))
          (to_string o.(sETag)) "" ∅ "") <$> contents.

(** ** Escaping a path segment *)

(** [url.PathEscape]. *)
Definition segment_byte (c : ascii) : string :=
  if unreserved c || byte_in "$" "$" c || byte_in "&" "&" c || byte_in "+" "+" c ||
     byte_in ":" ":" c || byte_in "=" "=" c || byte_in "@" "@" c
  then String c ""
  else let n := nat_of_ascii c in
       String "%" (String (hex_upper (n / 16)) (String (hex_upper (n mod 16)) "")).
Definition PathEscape (s : string) : string := concat_bytes segment_byte s.

(** ** The store *)

Definition maxKeysPerPage : Z := 1000.
Definition maxDeletesPerRequest : nat := 1000.

(** Another handle a copy may be put into. *)
Inductive destination : Type := SameBucket | OtherBucket (ref : Ref) | OtherStore (go_type : string).

Section s3.
Context {W C B R : Type} (now : W → Z) (load : W → result error C * W) (traceCalls : C → C).
Context (Region : C → string) (with_region : string → C → C).
Context (api : option (API B W)) (NewFromConfig : C → API B W).
Context (presignAPI : option (PresignAPI W)) (NewPresignClient : C → PresignAPI W).
(** The transfer manager over a client. *)
Context (UploadObject : API B W → UploadInput R → W → result error (option string * option string) * W).
(** The code of an API error, and what decoding a cursor says. *)
Context (apiCode : error → option string) (b64_error : string → error).
Context (ref : Ref).

Abbreviation call := (call (W := W) (C := C) (T := API B W)).

Definition reach : call (API B W * string) :=
  resolve now load traceCalls Region with_region api NewFromConfig ref.

(** [absent] and [misrouted], the codes that mean something. *)
Definition absent_code (code : string) : bool :=
  bool_decide (code ∈ ["NoSuchKey"; "NoSuchVersion"; "NotFound"]).
Definition misrouted_code (code : string) : bool :=
  bool_decide (code ∈ ["PermanentRedirect"; "AuthorizationHeaderMalformed"]).

Definition holds_no_object (key : string) : error :=
  EWrap ("celerity: " +:+ ref_text ref +:+ " holds no object " +:+ go_quote key +:+
    ": celerity: not found") (EString "celerity: not found").

Definition wrapMisrouted (action key : string) (err : error) : error :=
  wrapping ("celerity: " +:+ ref_text ref +:+ " is not in the region it is being reached from, " +:+
    "so S3 refused to " +:+ action +:+ " " +:+ go_quote key +:+
    " rather than routing the request. A bucket outside this application's own region " +:+
    "has to record the region it is in, which its ARN cannot supply") err.

Definition wrap (action key : string) (err : error) : error :=
  let plain := wrapping ("celerity: " +:+ action +:+ " " +:+ ref_text ref +:+ " " +:+ go_quote key) err in
  match apiCode err with
  | Some code =>
      if absent_code code then holds_no_object key
      else if misrouted_code code then wrapMisrouted action key err
      else plain
  | None => plain
  end.

Definition wrapRead (action key : string) (err : error) : error :=
  if bool_decide (apiCode err = Some "MethodNotAllowed") then holds_no_object key
  else wrap action key err.

Definition info_of {X} (key : string) (size : Z) (out : GetObjectOutput X) : ObjectInfo :=
  MkInfo key size (default zero_time out.(outLastModified)) (to_string out.(outETag))
    (to_string out.(outContentType)) out.(outMetadata) (to_string out.(outVersionId)).

(** The body read from, what is known, and how much of it is read. *)
Definition Get (key : string) (opts : list (GetOptions → GetOptions)) : call (B * ObjectInfo * Z) :=
  aws! (client, name) := reach in
  let o := apply_options no_get opts in
  aws! out := request (wrapRead "reading" key)
    (client.(GetObject) name key (some_string (rangeHeader o.(gRange))) (some_string o.(gVersionID))) in
  ret (out.(outBody), info_of key (objectSize out) out, default 0%Z out.(outContentLength)).

Definition Put (key : string) (body : R) (opts : list (PutOptions → PutOptions)) : call PutResult :=
  aws! (client, name) := reach in
  let o := apply_options no_put opts in
  aws! (etag, version) := request (wrap "writing" key)
    (UploadObject client (MkUpload name key body (some_string o.(pContentType))
       (if bool_decide (o.(pMetadata) = ∅) then None else Some o.(pMetadata)))) in
  ret (MkPut (to_string etag) (to_string version)).

Definition Delete (key versionID : string) : call () :=
  aws! (client, name) := reach in
  request (wrap "deleting" key) (client.(DeleteObject) name key (some_string versionID)).

Definition Info (key versionID : string) : call ObjectInfo :=
  aws! (client, name) := reach in
  aws! out := request (wrapRead "reading the metadata of" key)
    (client.(HeadObject) name key (some_string versionID)) in
  ret (info_of key (default 0%Z out.(outContentLength)) out).

(** [errors.Is(err, bucket.ErrNotFound)]. *)
Definition not_found (err : config_error) : bool :=
  match err with ConfigError err => errors_is "celerity: not found" err | _ => false end.

Definition Exists (key versionID : string) : call bool := λ s,
  match Info key versionID s with
  | (Ok _, s) => (Ok true, s)
  | (Err err, s) => (if not_found err then Ok false else Err err, s)
  end.

(** [destinationOf], as the copy reports it. *)
Definition copying_failed (sourceKey : string) (err : config_error) : config_error :=
  ConfigError (EWrap ("celerity: copying " +:+ ref_text ref +:+ " " +:+ go_quote sourceKey +:+ ": " +:+
    config_error_text err) (match err with ConfigError err => err | _ => EString (config_error_text err) end)).
Definition not_on_aws (go_type : string) : config_error :=
  ConfigError (EString ("the destination is not a bucket on AWS: S3 copies within itself, so both " +:+
    "buckets have to be S3's, and this one is a " +:+ go_type)).
Definition destinationOf (r : Ref) : call (string * string) :=
  aws! name := read (ID now r) in
  aws! region := read (RegionOf now r) in ret (name, region).
Definition as_copy {A} (sourceKey : string) (m : call A) : call A := λ s,
  match m s with (Ok a, s) => (Ok a, s) | (Err err, s) => (Err (copying_failed sourceKey err), s) end.

Definition Copy (sourceKey : string) (dest : destination) (destKey : string)
    (opts : list (PutOptions → PutOptions)) : call CopyResult :=
  aws! name := read (ID now ref) in
  aws! (destName, destRegion) :=
    match dest with
    | SameBucket => aws! region := read (RegionOf now ref) in ret (name, region)
    | OtherBucket r => as_copy sourceKey (destinationOf r)
    | OtherStore go_type => as_copy sourceKey (fail (not_on_aws go_type))
    end in
  aws! client := client load traceCalls Region with_region api NewFromConfig destRegion in
  let o := apply_options no_put opts in
  aws! (copied, version) := request (wrap "copying" sourceKey)
    (client.(CopyObject) (MkCopyIn destName destKey (PathEscape (name +:+ "/" +:+ sourceKey))
       (if Replaces o then Some (o.(pMetadata), some_string o.(pContentType)) else None))) in
  ret (MkPut (match copied with Some etag => to_string etag | None => "" end) (to_string version)).

(** The request for one page of a listing, and the cursor after it. *)
Definition page_request (name prefix after : string) (o : ListOptions) : ListInput :=
  MkListIn name (some_string prefix) (some_string after)
    (if (0 <? o.(lLimit))%Z then Some (Z.min o.(lLimit) maxKeysPerPage) else None).
Definition resume_cursor (truncated : option bool) (last_key : option string) : string :=
  match last_key with
  | Some key => if default false truncated then encodeKeyAfter key else ""
  | None => ""
  end.

Definition after_cursor (o : ListOptions) : call string := λ s,
  (match keyAfter b64_error o.(lCursor) with Ok k => Ok k | Err err => Err (ConfigError err) end, s).

Definition List_ (prefix : string) (opts : list ListOption) : call (list ObjectInfo * string) :=
  aws! (client, name) := reach in
  let o := apply_options no_list opts in
  aws! after := after_cursor o in
  aws! out := request (wrap "listing" prefix) (client.(ListObjectsV2) (page_request name prefix after o)) in
  let found := objectsOf out.(outContents) in
  ret (found, resume_cursor out.(outIsTruncated) (iKey <$> last found)).

Definition Versions (prefix : string) (opts : list ListOption) : call (list ObjectVersion * string) :=
  aws! (client, name) := reach in
  let o := apply_options no_list opts in
  aws! after := after_cursor o in
  aws! out := request (wrap "listing the versions under" prefix)
    (client.(ListObjectVersions) (page_request name prefix after o)) in
  let found := versionsOf out in
  ret (found, resume_cursor out.(outVTruncated) (vKey <$> last found)).

(** One request of a delete of many. *)
Definition deleteChunk (t : API B W * string) (refs : list ObjectRef) :
    call (list ObjectRef * list DeleteFailure) :=
  aws! (deleted, refused) := request (wrapping ("celerity: deleting from " +:+ ref_text ref))
    (t.1.(DeleteObjects) t.2 ((λ r, (r.(refKey), some_string r.(refVersionID))) <$> refs)) in
  ret ((λ d, MkObjectRef (to_string d.(delKey)) (to_string d.(delVersionId))) <$> deleted,
       (λ e, MkDeleteFailure (MkObjectRef (to_string e.(errKey)) (to_string e.(errVersionId)))
               (to_string e.(errCode)) (to_string e.(errMessage))) <$> refused).

Definition unsentRefs (refs : list ObjectRef) (err : config_error) : list DeleteUnsent :=
  (λ r, MkDeleteUnsent r err) <$> refs.

Definition DeleteMany (refs : list ObjectRef) (s : aws W C (API B W)) :
    DeleteManyResult * option config_error * aws W C (API B W) :=
  match refs with
  | [] => (MkDeleteMany [] [] [], None, s)
  | _ =>
      match reach s with
      | (Err err, s) => (MkDeleteMany [] [] (unsentRefs refs err), Some err, s)
      | (Ok t, s) =>
          let '(rs, stop, s) := in_requests (deleteChunk t) (chunks maxDeletesPerRequest refs) s in
          (MkDeleteMany (rs ≫= fst) (rs ≫= snd)
             (match stop with Some (over, err) => unsentRefs over err | None => [] end),
           snd <$> stop, s)
      end
  end.

(** Signing, with the clients that sign: a cache of their own, over the same session. *)
Definition sign (client : PresignAPI W) (name key : string) (action : SignAction) (expiry : Z)
    (contentType : string) (w : W) : result error string * W :=
  match action with
  | SignRead => client.(PresignGetObject) name key expiry w
  | SignWrite => client.(PresignPutObject) name key (some_string contentType) expiry w
  | SignOther a => (Err (EString (go_quote a +:+ " is not an action a URL can be signed for, " +:+
      "which is " +:+ go_quote "read" +:+ " or " +:+ go_quote "write")), w)
  end.

Definition SignedURL_ (key : string) (action : SignAction) (expiry : Z) (contentType : string) :
    AwsService.call (W := W) (C := C) (T := PresignAPI W) SignedURL :=
  aws! name := read (ID now ref) in
  aws! clientKey := read (KeyFor now ref) in
  aws! signer := client load traceCalls Region with_region presignAPI NewPresignClient clientKey in
  aws! url := request (wrap "signing a URL for" key) (sign signer name key action expiry contentType) in
  λ s, (Ok (MkSigned url (now s.(settings).2 + expiry)), s).
End s3.

(** ** Versions, newest first *)

(** A version listed before another: of an earlier key, or of the same and no older. *)
Definition listed_before (a b : ObjectVersion) : Prop :=
  if decide (a.(vKey) = b.(vKey)) then (b.(vLastModified) ≤ a.(vLastModified))%Z
  else String.le a.(vKey) b.(vKey).

Lemma ltb_le a b : String.ltb a b = true → String.le a b.
Proof. unfold String.ltb, String.le, String.leb. by destruct (String.compare a b). Qed.
Lemma ltb_ge a b : String.ltb a b = false → String.le b a.
Proof.
  unfold String.ltb, String.le, String.leb. rewrite (String.compare_antisym b a).
  by destruct (String.compare a b).
Qed.

#[export] Instance listed_before_trans : Transitive listed_before.
Proof.
  intros a b c. unfold listed_before.
  destruct (decide (vKey a = vKey b)) as [Hab|Hab], (decide (vKey b = vKey c)) as [Hbc|Hbc],
    (decide (vKey a = vKey c)) as [Hac|Hac]; try congruence; intros H1 H2; [lia| |by etrans].
  destruct Hab. apply (anti_symm String.le); [done|]. by rewrite Hac.
Qed.

Lemma version_first_before v m :
  if version_first v m then listed_before (objectVersion v) (deleteMarker m)
  else listed_before (deleteMarker m) (objectVersion v).
Proof.
  unfold version_first, listed_before, objectVersion, deleteMarker. cbn [vKey vLastModified].
  destruct (bool_decide_reflect (to_string v.(svKey) = to_string m.(svKey))) as [He|Hne]; cbn [negb].
  - rewrite He, !decide_True by done. destruct (Z.ltb_spec (default zero_time m.(svLastModified))
      (default zero_time v.(svLastModified))); lia.
  - destruct (String.ltb _ _) eqn:Hlt; rewrite decide_False by congruence;
      [by apply ltb_le|by apply ltb_ge].
Qed.

Lemma merge_perm vs ms : merge_versions vs ms ≡ₚ (objectVersion <$> vs) ++ (deleteMarker <$> ms).
Proof.
  revert ms. induction vs as [|v vs IHv]; intros ms.
  - induction ms as [|m ms IHm]; [done|]. cbn in *. by f_equiv.
  - induction ms as [|m ms IHm]; [cbn; f_equiv; apply IHv|]. cbn [merge_versions].
    destruct (version_first v m); [cbn; f_equiv; apply IHv|].
    rewrite (fmap_cons _ m), <- Permutation_middle. f_equiv. apply IHm.
Qed.

Lemma Forall_before_merge a vs ms :
  Forall (listed_before a) (objectVersion <$> vs) → Forall (listed_before a) (deleteMarker <$> ms) →
  Forall (listed_before a) (merge_versions vs ms).
Proof. intros Hv Hm. rewrite merge_perm. by apply Forall_app. Qed.

Lemma before_all a b l : listed_before a b → Forall (listed_before b) l → Forall (listed_before a) (b :: l).
Proof. intros Hab Hl. constructor; [done|]. eapply Forall_impl; [done|]. intros c Hc. by etrans. Qed.

(** The versions of a bucket are listed newest first.  S3 answers with versions and
    deletion markers apart, each in the order of their keys and then of their age; what
    [Versions] makes of them is all of both, each once, in that same order, whatever ties
    there are between a version and a marker. *)
Lemma versions_newest_first out :
  StronglySorted listed_before (objectVersion <$> out.(outVersions)) →
  StronglySorted listed_before (deleteMarker <$> out.(outDeleteMarkers)) →
  StronglySorted listed_before (versionsOf out) ∧
  versionsOf out ≡ₚ (objectVersion <$> out.(outVersions)) ++ (deleteMarker <$> out.(outDeleteMarkers)).
Proof.
  intros Hv Hm. split; [|apply merge_perm]. unfold versionsOf.
  destruct out as [vs ms trunc]. cbn in *. clear trunc. revert ms Hm.
  induction vs as [|v vs IHv]; intros ms Hm.
  - induction ms as [|m ms IHm]; [constructor|]. apply StronglySorted_inv in Hm as [Hm1 Hm2].
    cbn. constructor; [by apply IHm|]. by apply (Forall_before_merge _ []).
  - apply StronglySorted_inv in Hv as [Hv1 Hv2]. specialize (IHv Hv1).
    induction ms as [|m ms IHm].
    { cbn. constructor; [by apply IHv|]. by apply Forall_before_merge. }
    cbn [merge_versions]. pose proof (version_first_before v m) as Hvm.
    pose proof Hm as Hm'. apply StronglySorted_inv in Hm as [Hm1 Hm2].
    destruct (version_first v m); constructor.
    + by apply IHv.
    + apply Forall_before_merge; [done|]. rewrite fmap_cons. by apply before_all.
    + by apply IHm.
    + apply (Forall_before_merge _ (v :: vs)); [|done]. rewrite fmap_cons. by apply before_all.
Qed.

(** ** Deletes of many *)

#[local] Arguments unsentRefs : simpl never.

Section deletes.
Context {W C B : Type} (now : W → Z) (load : W → result error C * W) (traceCalls : C → C).
Context (Region : C → string) (with_region : string → C → C).
Context (api : option (API B W)) (NewFromConfig : C → API B W) (ref : Ref).

(** S3 answering each object of a request of at most a thousand once, by its name. *)
Definition deletes_each (a : API B W) : Prop := ∀ name objs w deleted refused w',
  objs ≠ [] → length objs ≤ 1000 →
  a.(DeleteObjects) name objs w = (Ok (deleted, refused), w') →
  ((λ d, (to_string d.(delKey), to_string d.(delVersionId))) <$> deleted) ++
  ((λ e, (to_string e.(errKey), to_string e.(errVersionId))) <$> refused)
    ≡ₚ (λ o, (o.1, to_string o.2)) <$> objs.

(** Every object handed over is in exactly one of the three lists, and none is unsent
    without an error. *)
Lemma deletes_are_accounted refs s :
  (∀ a, api = Some a → deletes_each a) → (∀ cfg, deletes_each (NewFromConfig cfg)) →
  Batch.clients_ok deletes_each s →
  let '(r, err, _) := DeleteMany now load traceCalls Region with_region api NewFromConfig ref refs s in
  r.(Deleted) ++ (dfRef <$> r.(DeleteFailed)) ++ (duRef <$> r.(DeleteUnsent_)) ≡ₚ refs ∧
  (err = None → r.(DeleteUnsent_) = []).
Proof.
  intros Ha Hb Hs. unfold DeleteMany. destruct refs as [|ref0 refs']; [done|].
  set (refs := ref0 :: refs') in *.
  destruct (chunks_spec maxDeletesPerRequest refs) as [Hj Hf]; [unfold maxDeletesPerRequest; lia|].
  assert (∀ l err, duRef <$> unsentRefs l err = l) as Hun.
  { intros l err. unfold unsentRefs. rewrite <- list_fmap_compose. apply list_fmap_id. }
  pose proof (Batch.reach_ok now load traceCalls Region with_region api NewFromConfig ref deletes_each
    Ha Hb s Hs) as [HI HP]. fold (reach now load traceCalls Region with_region api NewFromConfig ref) in *.
  destruct (reach _ _ _ _ _ _ _ ref s) as [[t|err] s1]; cbn [fst snd] in *.
  2:{ cbn. by rewrite Hun. }
  assert (∀ c (st : aws W C (API B W)), Batch.clients_ok deletes_each st → c ≠ [] → length c ≤ maxDeletesPerRequest →
    Batch.clients_ok deletes_each (deleteChunk ref t c st).2 ∧
    ∀ r, (deleteChunk ref t c st).1 = Ok r → r.1 ++ (dfRef <$> r.2) ≡ₚ c) as Hstep.
  { intros c st Hst Hne Hl. unfold deleteChunk, bind, request.
    destruct (st.(settings)) as [svc w]. destruct (t.1.(DeleteObjects) t.2 _ w) as [[[dl rf]|err] w'] eqn:Hreq;
      cbn [fst snd]; [|done]. split; [done|]. intros r [= <-]. cbn [fst snd].
    apply (HP t eq_refl) in Hreq; [|by destruct c|by rewrite length_fmap].
    apply (fmap_Permutation (λ p, MkObjectRef p.1 p.2)) in Hreq. revert Hreq.
    rewrite fmap_app, <- !list_fmap_compose. intros ->. rewrite <- (list_fmap_id c) at 2.
    eapply reflexive_eq, list_fmap_ext. intros i [k v] _. cbn. f_equal.
    unfold some_string. by case_bool_decide. }
  pose proof (in_requests_split (Batch.clients_ok deletes_each) (λ c r, r.1 ++ (dfRef <$> r.2) ≡ₚ c)
    (deleteChunk ref t) maxDeletesPerRequest _ s1 Hstep HI Hf) as H.
  destruct (in_requests _ _ _) as [[rs stop] s2]. destruct H as (_ & sent & Hsent & Heq).
  rewrite Hj in Heq. split; cbn.
  2:{ by destruct stop as [[over err]|]. }
  rewrite Heq. assert ((rs ≫= fst) ++ (dfRef <$> (rs ≫= snd)) ≡ₚ mjoin sent) as Hr.
  { clear -Hsent. induction Hsent as [|c r sent rs Hr _ IH]; [done|].
    change (mjoin (c :: sent)) with (c ++ mjoin sent). rewrite !bind_cons, fmap_app, <- IH, <- Hr.
    solve_Permutation. }
  rewrite (assoc_L (++)), Hr. f_equiv. destruct stop as [[over err]|]; [by rewrite Hun|done].
Qed.
End deletes.

(** ** A listing read to its end *)

Definition slt (a b : string) : Prop := String.ltb a b = true.

Lemma slt_iff a b : slt a b ↔ String.le a b ∧ a ≠ b.
Proof.
  unfold slt, String.ltb, String.le, String.leb.
  assert (∀ s, String.compare s s = Eq) as Hrefl.
  { induction s as [|c s IH]; [done|]. cbn. unfold Ascii.compare. by rewrite N.compare_refl. }
  destruct (String.compare a b) eqn:Hc; split; try done.
  - intros [_ []]. by apply String.compare_eq_iff.
  - intros _. split; [done|]. intros ->. by rewrite Hrefl in Hc.
  - by intros [[] _].
Qed.

#[export] Instance slt_trans : Transitive slt.
Proof.
  intros a b c [H1 H1']%slt_iff [H2 H2']%slt_iff. apply slt_iff. split; [by etrans|].
  intros ->. apply H1'. by apply (anti_symm String.le).
Qed.

Lemma slt_irrefl a : ¬ slt a a.
Proof. by intros [_ []]%slt_iff. Qed.

Definition key_of (o : s3Object) : string := to_string o.(sKey).

(** What is listed from a key on, of what a bucket holds under a prefix. *)
Definition matched (contents : list s3Object) (prefix after : string) : list s3Object :=
  List.filter (λ o, has_prefix (key_of o) prefix && (bool_decide (after = "") || String.ltb after (key_of o)))
    contents.

(** S3 listing a bucket nobody writes to: the next objects under the prefix after the key
    given, as many as asked for and a thousand at most, and whether there are more. *)
Definition lists {W} (contents : list s3Object) (f : ListInput → W → result error ListOutput * W) : Prop :=
  ∀ i w, let m := matched contents (to_string i.(inPrefix)) (to_string i.(inAfter)) in
    let n := Z.to_nat (Z.min (default 1000%Z i.(inMaxKeys)) 1000) in
    f i w = (Ok (MkListOut (take n m) (Some (n <? length m))), w).

(** In the order of their keys, which are not empty. *)
Definition in_key_order (contents : list s3Object) : Prop :=
  StronglySorted (λ a b, slt (key_of a) (key_of b)) contents ∧
  Forall (λ o, key_of o ≠ "") contents.

Lemma to_some_string s : to_string (some_string s) = s.
Proof. unfold some_string. by case_bool_decide. Qed.

Lemma filter_sorted {A} (R : A → A → Prop) P l : StronglySorted R l → StronglySorted R (List.filter P l).
Proof.
  induction 1 as [|x l Hl IH Hx]; [constructor|]. cbn. destruct (P x); [|done].
  constructor; [done|]. clear -Hx. induction Hx as [|y l Hy _ IH]; [constructor|].
  cbn. destruct (P y); [by constructor|done].
Qed.

Lemma filter_filter_and {A} (P Q : A → bool) l :
  List.filter Q (List.filter P l) = List.filter (λ x, P x && Q x) l.
Proof. induction l as [|x l IH]; [done|]. cbn. destruct (P x); cbn; by rewrite IH. Qed.

Lemma filter_ext_forall {A} (P Q : A → bool) l :
  Forall (λ x, P x = Q x) l → List.filter P l = List.filter Q l.
Proof. induction 1 as [|x l Hx _ IH]; [done|]. cbn. by rewrite Hx, IH. Qed.

(** What follows an element of a sorted list is what is after it. *)
Lemma filter_after l1 x l2 :
  StronglySorted (λ a b, slt (key_of a) (key_of b)) (l1 ++ x :: l2) →
  List.filter (λ o, String.ltb (key_of x) (key_of o)) (l1 ++ x :: l2) = l2.
Proof.
  assert (∀ a b, slt a b → String.ltb b a = false) as Hnot.
  { intros a b Hab. destruct (String.ltb b a) eqn:Hba; [|done].
    destruct (slt_irrefl a). by transitivity b. }
  induction l1 as [|y l1 IH]; cbn; intros Hs.
  - apply StronglySorted_inv in Hs as [_ Hx].
    destruct (String.ltb (key_of x) (key_of x)) eqn:He; [by destruct (slt_irrefl (key_of x))|].
    induction Hx as [|z l Hz _ IHl]; [done|]. cbn. by rewrite Hz, IHl.
  - apply StronglySorted_inv in Hs as [Hs Hy]. rewrite Hnot; [by apply IH|].
    rewrite Forall_forall in Hy. apply Hy. apply elem_of_app. right. by left.
Qed.

Lemma matched_from contents prefix after l1 x l2 :
  in_key_order contents → matched contents prefix after = l1 ++ x :: l2 →
  matched contents prefix (key_of x) = l2 ∧ key_of x ≠ "".
Proof.
  intros [Hs Hne] Hm.
  assert (x ∈ contents ∧ (after = "" ∨ slt after (key_of x))) as [Hx Hafter].
  { assert (x ∈ matched contents prefix after) as Hin by (rewrite Hm; apply elem_of_app; right; by left).
    unfold matched in Hin. apply list_elem_of_In, filter_In in Hin as [Hin Hp].
    split; [by apply list_elem_of_In|]. bools. apply orb_true_iff in H0 as [?%bool_decide_eq_true|?]; auto. }
  assert (key_of x ≠ "") as Hkx by by rewrite Forall_forall in Hne; apply Hne.
  split; [|done].
  assert (StronglySorted (λ a b, slt (key_of a) (key_of b)) (l1 ++ x :: l2)) as Hml.
  { rewrite <- Hm. by apply filter_sorted. }
  rewrite <- (filter_after l1 x l2 Hml), <- Hm. unfold matched. rewrite filter_filter_and.
  apply filter_ext_forall, Forall_forall. intros o Ho. rewrite bool_decide_eq_false_2 by done. cbn.
  destruct (has_prefix (key_of o) prefix); [|done]. cbn.
  destruct (String.ltb (key_of x) (key_of o)) eqn:Hxo; [|by rewrite andb_false_r].
  destruct Hafter as [->|Ha]; [done|]. assert (slt after (key_of o)) as -> by by etrans.
  by rewrite orb_true_r.
Qed.

Lemma keyAfter_encode b64_error k : keyAfter b64_error (encodeKeyAfter k) = Ok k ∧
  (k ≠ "" → encodeKeyAfter k ≠ "").
Proof.
  unfold keyAfter, encodeKeyAfter. pose proof (url64_roundtrip k) as Hr. case_bool_decide as He.
  - rewrite He in Hr. vm_compute in Hr. injection Hr as <-. by split.
  - by rewrite Hr.
Qed.

Section listing.
Context {W C B S : Type} (now : W → Z) (load : W → result error C * W) (traceCalls : C → C).
Context (Region : C → string) (with_region : string → C → C).
Context (api : option (API B W)) (NewFromConfig : C → API B W).
Context (apiCode : error → option string) (b64_error : string → error) (ref : Ref).
Context (yield : result config_error ObjectInfo → S → bool * S).
(** The bucket is reached in any state that [I] holds of, and lists what it holds. *)
Context (I : aws W C (API B W) → Prop) (contents : list s3Object) (c : API B W) (name : string).
Context (reached : ∀ st, I st → ∃ st', I st' ∧
  reach now load traceCalls Region with_region api NewFromConfig ref st = (Ok (c, name), st')).
Context (listed_all : lists contents c.(ListObjectsV2)) (ordered : in_key_order contents).

Abbreviation list_page prefix :=
  (λ opts st, Some (List_ now load traceCalls Region with_region api NewFromConfig apiCode b64_error ref
                      prefix opts st)).

Lemma request_unchanged {A} failed (f : W → result error A * W) (a : A) (st : aws W C (API B W)) :
  (∀ w, f w = (Ok a, w)) → request failed f st = (Ok a, st).
Proof. intros Hf. unfold request. destruct st as [se cl [svc w]]. cbn. by rewrite Hf. Qed.

(** One page, from a cursor. *)
Lemma List_page prefix opts st after :
  I st → keyAfter b64_error (apply_options no_list opts).(lCursor) = Ok after →
  let m := matched contents prefix after in
  let n := Z.to_nat (if (0 <? (apply_options no_list opts).(lLimit))%Z
                     then Z.min (apply_options no_list opts).(lLimit) 1000 else 1000) in
  ∃ st', I st' ∧
    List_ now load traceCalls Region with_region api NewFromConfig apiCode b64_error ref prefix opts st =
    (Ok (objectsOf (take n m),
         resume_cursor (Some (n <? length m)) (iKey <$> last (objectsOf (take n m)))), st').
Proof using reached listed_all.
  intros Hst Hk m n. destruct (reached st Hst) as (st' & Hst' & Hreach). exists st'. split; [done|].
  unfold List_, bind. rewrite Hreach. unfold after_cursor. rewrite Hk.
  rewrite (request_unchanged _ _ _ _ (λ w, listed_all _ w)). unfold page_request. cbn [inPrefix inAfter inMaxKeys].
  rewrite !to_some_string. unfold ret, maxKeysPerPage. cbn [outContents outIsTruncated].
  assert (Z.to_nat (Z.min (default 1000%Z (if (0 <? (apply_options no_list opts).(lLimit))%Z
            then Some (Z.min (apply_options no_list opts).(lLimit) 1000) else None)) 1000) = n) as ->; [|done].
  subst n. destruct (0 <? _)%Z; cbn; lia.
Qed.

Lemma Objects_from prefix fuel opts s st after :
  I st → keyAfter b64_error (apply_options no_list opts).(lCursor) = Ok after →
  length (matched contents prefix after) < fuel →
  ∃ opts' st', Objects (list_page prefix) yield fuel opts s st =
    Some (Some ((give yield (objectsOf (matched contents prefix after)) s).2, opts', st')).
Proof using reached listed_all ordered.
  revert opts s st after. induction fuel as [|fuel IH]; intros opts s st after Hst Hk Hf; [lia|].
  cbn [Objects]. destruct (List_page prefix opts st after Hst Hk) as (st' & Hst' & ->).
  set (m := matched contents prefix after) in *. set (n := Z.to_nat _).
  assert (0 < n) as Hn by (subst n; destruct (Z.ltb_spec 0 (apply_options no_list opts).(lLimit)); lia).
  assert (objectsOf m = objectsOf (take n m) ++ objectsOf (drop n m)) as ->.
  { unfold objectsOf. by rewrite <- fmap_app, take_drop. }
  rewrite give_app.
  destruct (give yield (objectsOf (take n m)) s) as [[] s']; [|by do 2 eexists].
  destruct (Nat.ltb_spec n (length m)) as [Hlt|Hge].
  - destruct (lookup_lt_is_Some_2 m (n - 1)) as [x Hx]; [lia|].
    assert (take n m = take (n - 1) m ++ [x]) as Ht.
    { replace n with (Datatypes.S (n - 1)) at 1 by lia. by apply take_S_r. }
    assert (m = take (n - 1) m ++ x :: drop n m) as Hm.
    { rewrite <- (take_drop n m) at 1. by rewrite Ht, <- (assoc_L (++)). }
    destruct (matched_from contents prefix after _ x _ ordered Hm) as [Hnext Hne].
    assert (iKey <$> last (objectsOf (take n m)) = Some (key_of x)) as ->.
    { rewrite Ht. unfold objectsOf. by rewrite fmap_app, list_fmap_singleton, last_snoc. }
    destruct (keyAfter_encode b64_error (key_of x)) as [Hdec Henc]. cbn [resume_cursor default].
    cbn [from_option id]. unfold More. rewrite bool_decide_eq_false_2 by auto. cbn [negb].
    rewrite <- Hnext. apply IH; [done| |].
    + by rewrite apply_options_snoc.
    + rewrite Hnext, length_drop. lia.
  - rewrite (drop_ge m n) by lia. unfold resume_cursor. cbn [from_option id].
    destruct (iKey <$> last _); by do 2 eexists.
Qed.

(** C25: a bucket is listed whole.  Over an S3 that answers each request with the next keys in
    order, a thousand at most, [Objects] gives its reader every object under the prefix,
    each once and in the order of their keys, whatever the size of a page asked for, until the
    reader stops; the cursor between two pages is the last key read, encoded. *)
Theorem Objects_lists_the_bucket prefix opts s st :
  I st → (apply_options no_list opts).(lCursor) = "" →
  let all := matched contents prefix "" in
  ∃ opts' st', Objects (list_page prefix) yield (1 + length all) opts s st =
    Some (Some ((give yield (objectsOf all) s).2, opts', st')).
Proof using reached listed_all ordered.
  intros Hst Hc all. apply Objects_from; [done| |apply Nat.lt_succ_diag_r]. by rewrite Hc.
Qed.
End listing.

(** ** Witnesses and examples *)

(** An S3 that holds some objects and versions, in order. *)
Section example.
Context (contents : list s3Object) (vs : list s3Version).

Definition list_objects (i : ListInput) (w : nat) : result error ListOutput * nat :=
  let m := matched contents (to_string i.(inPrefix)) (to_string i.(inAfter)) in
  let n := Z.to_nat (Z.min (default 1000%Z i.(inMaxKeys)) 1000) in
  (Ok (MkListOut (take n m) (Some (n <? length m))), w).

(** The versions of the keys after the one given. *)
Definition list_versions (i : ListInput) (w : nat) : result error VersionsOutput * nat :=
  let m := List.filter (λ v, bool_decide (to_string i.(inAfter) = "") ||
                             String.ltb (to_string i.(inAfter)) (to_string v.(svKey))) vs in
  let n := Z.to_nat (Z.min (default 1000%Z i.(inMaxKeys)) 1000) in
  (Ok (MkVersionsOut (take n m) [] (Some (n <? length m))), w).

Definition some_s3 : API unit nat :=
  MkAPI (λ _ _ _ _ w, (Err (EString "unused"), w)) (λ _ _ _ w, (Err (EString "unused"), w))
    (λ _ _ _ w, (Ok (), w)) list_objects (λ _ w, (Err (EString "unused"), w))
    (λ _ _ w, (Ok ([], []), w)) list_versions.
End example.

Definition letters : list s3Object :=
  (λ k, MkS3Object (Some k) (Some 1%Z) (Some 0%Z) None) <$> ["a"; "b"; "c"].
Definition uploads : Ref := Resources.MkRef KindBucket "uploads".
Definition at_start : aws nat string (API unit nat) :=
  MkAws None ∅ (Some (recorded_as KindBucket "uploads" "uploads-1234"), 0).
Definition in_twos : list ListOption := [λ o, MkList 2 o.(lCursor)].

Abbreviation letters_s3 := (some_s3 letters []).
Abbreviation reach_letters :=
  (reach (λ _ : nat, 0%Z) load_home id id (λ r _, r) (Some letters_s3) (λ _, letters_s3) uploads).

Lemma Objects_lists_the_bucket_witness :
  let count := λ (r : result config_error ObjectInfo) n, (true, S n) in
  ∃ opts' st', Objects (λ opts st, Some (List_ (λ _ : nat, 0%Z) load_home id id (λ r _, r)
      (Some letters_s3) (λ _, letters_s3) (λ _, None) EString uploads "" opts st)) count 4 in_twos 0 at_start
    = Some (Some (3, opts', st')).
Proof.
  intros count.
  pose (after := (reach_letters at_start).2).
  assert (reach_letters at_start = (Ok (letters_s3, "uploads-1234"), after)) as H1 by reflexivity.
  assert (reach_letters after = (Ok (letters_s3, "uploads-1234"), after)) as H2 by reflexivity.
  destruct (Objects_lists_the_bucket (λ _ : nat, 0%Z) load_home id id (λ r _, r) (Some letters_s3)
    (λ _, letters_s3) (λ _, None) EString uploads count (λ st, st = at_start ∨ st = after) letters
    letters_s3 "uploads-1234") with (prefix := "") (opts := in_twos) (s := 0) (st := at_start)
    as (opts' & st' & H).
  - intros st [-> | ->]; exists after; by split; [right|].
  - intros i w. reflexivity.
  - split; repeat constructor; done.
  - by left.
  - done.
  - exists opts', st'. exact H.
Defined.

Definition a_version (key id : string) (at_ : Z) : s3Version :=
  MkS3Version (Some key) (Some id) (Some 1%Z) (Some at_) None None.

Lemma versions_newest_first_witness :
  let out := MkVersionsOut [a_version "a" "v3" 30; a_version "a" "v1" 10; a_version "b" "v4" 40]
               [a_version "a" "v2" 20] None in
  StronglySorted listed_before (versionsOf out) ∧
  vVersionID <$> versionsOf out = ["v3"; "v2"; "v1"; "v4"].
Proof.
  intros out. split; [|reflexivity]. apply versions_newest_first; repeat constructor; by vm_compute.
Defined.

(** A page of versions that ends within a key: the cursor names the key alone, and the rest
    of its versions are not read. *)
Lemma versions_of_a_key_are_skipped :
  let s3 := some_s3 [] [a_version "a" "v3" 30; a_version "a" "v2" 20; a_version "a" "v1" 10] in
  let page := λ opts st, Some (Versions (λ _ : nat, 0%Z) load_home id id (λ r _, r)
      (Some s3) (λ _, s3) (λ _, None) EString uploads "" opts st) in
  let seen := λ (r : result config_error ObjectVersion) s,
    (true, match r with Ok v => s ++ [v.(vVersionID)] | Err _ => s end) in
  ∃ opts' st', Objects page seen 4 in_twos [] at_start = Some (Some (["v3"; "v2"], opts', st')).
Proof. do 2 eexists. reflexivity. Qed.

(** A range as HTTP states it, and one past the width of its positions. *)
Lemma rangeHeader_spec r :
  (0 ≤ r.(Start))%Z → (0 < r.(Length))%Z → (r.(Start) + r.(Length) < 2 ^ 63)%Z →
  rangeHeader r = "bytes=" +:+ itoa r.(Start) +:+ "-" +:+ itoa (r.(Start) + r.(Length) - 1).
Proof.
  intros Hs Hl Hw. unfold rangeHeader, Whole. destruct (Z.eqb_spec r.(Length) 0); [lia|].
  rewrite andb_false_r. destruct (Z.leb_spec r.(Length) 0); [lia|].
  by rewrite !to_int64_id by (rewrite ?to_int64_id; lia).
Qed.

Lemma rangeHeader_wraps :
  rangeHeader (MkRange 2 (2 ^ 63 - 1)) = "bytes=2--9223372036854775808" ∧
  applyRange "hello" (MkRange 2 (2 ^ 63 - 1)) = None.
Proof. by split. Qed.
