(* ===== verification/ConfigStores.v ===== *)
(** * The stores configuration is read from

    Models [config/aws] ([backends.go], [extension.go], [provider.go]) and
    [config/local/local.go]: Secrets Manager and the extension that caches it, Parameter
    Store, and a development session's Valkey.  The services, the HTTP client and the
    environment are parameters; the cell an AWS configuration is loaded into is part of
    the world. *)

From S2P Require Import Prelude GoStrings Json JsonText Errors Bind Encoding Values Config AwsService.
From stdpp Require Import options.

Definition StoreSecretsManager : string := "secrets-manager".
Definition StoreParameterStore : string := "parameter-store".
Definition ExtensionPortEnvVar : string := "PARAMETERS_SECRETS_EXTENSION_HTTP_PORT".
Definition SessionTokenEnvVar : string := "AWS_SESSION_TOKEN".

Record Parameter_ : Type := MkParameter { paramName : option string; paramValue : option string }.
Record Page : Type := MkPage { Parameters_ : list Parameter_; NextToken : option string }.

(** ** Names within a store *)

Definition store_path (storeID : string) : string :=
  if has_suffix storeID "/" then storeID else storeID +:+ "/".

(** [collect]: a name longer than the path it starts with is taken from the path on. *)
Definition relative_name (prefix name : string) : string :=
  match cut_prefix prefix name with
  | Some "" | None => name
  | Some rest => rest
  end.

Definition collect (prefix : string) (values : gmap string string) (params : list Parameter_) :
    gmap string string :=
  foldl (λ values p, match p.(paramName), p.(paramValue) with
                     | Some name, Some value => <[relative_name prefix name := value]> values
                     | _, _ => values
                     end) values params.

Section aws.
Context `{FloatText} {W C : Type}.
Context (format_float : float64 → string) (json_error : string → error).
(** The ambient configuration, and the cell it is loaded into. *)
Context (load : W → result error C * W).
Context (cell : W → option (result error C)) (with_cell : option (result error C) → W → W).
Context (GetSecretValue : option C → string → W → result error (option string) * W).
Context (GetParametersByPath : option C → string → option string → W → result error Page * W).
(** Whether a test stands the services in, which need no configuration. *)
Context (stood_in : bool).
(** An HTTP request: a status, its text and the body; and what reading the secret's value out
    of a body that is not the expected JSON says. *)
Context (http_get : string → string → W → result error (Z * string * result error string) * W).
Context (getenv : string → string).

Definition awsConfig (w : W) : result error C * W :=
  let '(r, l, w) := Lazy_Get (cell w) load w in
  (match r with
   | Ok cfg => Ok cfg
   | Err err => Err (wrapping "loading AWS configuration to read a config store" err)
   end, with_cell l w).

(** [client], of either service. *)
Definition config_for (w : W) : result error (option C) * W :=
  if stood_in then (Ok None, w)
  else match awsConfig w with (Ok cfg, w) => (Ok (Some cfg), w) | (Err err, w) => (Err err, w) end.

Definition reading_failed (storeID service : string) (err : error) : config_error :=
  ConfigError (wrapping ("celerity: reading the config store " +:+ go_quote storeID +:+ " from " +:+
    service) err).

(** What a store held as one text is. *)
Definition store_of (raw storeID : string) : result config_error (gmap string string) :=
  if bool_decide (raw = "") then Ok ∅ else ValuesFromJSON format_float json_error raw storeID.

(** [secretsManager.Fetch]. *)
Definition fetch_secret (storeID : string) (w : W) :
    result config_error (gmap string string) * W :=
  match config_for w with
  | (Err err, w) => (Err (ConfigError err), w)
  | (Ok cfg, w) =>
      match GetSecretValue cfg storeID w with
      | (Err err, w) => (Err (reading_failed storeID "Secrets Manager" err), w)
      | (Ok s, w) => (store_of (default "" s) storeID, w)
      end
  end.

(** The loop of [parameterStore.Fetch]; the fuel is its pages. *)
Fixpoint fetch_pages (fuel : nat) (cfg : option C) (storeID : string) (values : gmap string string)
    (next : option string) (w : W) : option (result config_error (gmap string string) * W) :=
  match fuel with
  | O => None
  | S fuel =>
      match GetParametersByPath cfg (store_path storeID) next w with
      | (Err err, w) => Some (Err (reading_failed storeID "Parameter Store" err), w)
      | (Ok out, w) =>
          let values := collect (store_path storeID) values out.(Parameters_) in
          match out.(NextToken) with
          | None | Some "" => Some (Ok values, w)
          | Some token => fetch_pages fuel cfg storeID values (Some token) w
          end
      end
  end.

Definition fetch_parameters (fuel : nat) (storeID : string) (w : W) :
    option (result config_error (gmap string string) * W) :=
  match config_for w with
  | (Err err, w) => Some (Err (ConfigError err), w)
  | (Ok cfg, w) => fetch_pages fuel cfg storeID ∅ None w
  end.

(** ** The extension *)

Definition endpoint (port storeID : string) : string :=
  "http://localhost:" +:+ port +:+ "/secretsmanager/get?secretId=" +:+ QueryEscape storeID.

(** [json.Unmarshal] into the one field that is wanted: its name matches whatever its case,
    [null] leaves it alone, and the last of a repeated name stands. *)
Fixpoint read_answer (ms : list (string * json)) (secret : string) : option string :=
  match ms with
  | [] => Some secret
  | (name, j) :: ms =>
      if bool_decide (to_lower name = "secretstring") then
        match j with
        | JStr s => read_answer ms s
        | JNull => read_answer ms secret
        | _ => None
        end
      else read_answer ms secret
  end.

Definition decodeJSON (raw : string) : result error string :=
  match (match parse raw with
         | Some (JObj ms) => read_answer ms ""
         | Some JNull => Some ""
         | _ => None
         end) with
  | Some s => Ok s
  | None => Err (wrapping "the extension's answer is not the expected JSON" (json_error raw))
  end.

(** [extensionCache.read]. *)
Definition read_extension (port storeID : string) (w : W) : result error string * W :=
  match http_get (endpoint port storeID) (getenv SessionTokenEnvVar) w with
  | (Err err, w) => (Err err, w)
  | (Ok (status, status_text, body), w) =>
      (if negb (status =? 200)%Z then Err (EString ("the extension answered " +:+ status_text))
       else let! body := body in decodeJSON body, w)
  end.

(** ** The provider *)

Inductive backend_ : Type :=
  | ParameterStore
  | SecretsManager
  | ExtensionCache (port : string).

(** [SelfCaching]. *)
Definition Caching_ (b : backend_) : bool := match b with ExtensionCache _ => true | _ => false end.

(** [Fetch], of each. *)
Definition Fetch_ (fuel : nat) (b : backend_) (storeID : string) (w : W) :
    option (result config_error (gmap string string) * W) :=
  match b with
  | ParameterStore => fetch_parameters fuel storeID w
  | SecretsManager => Some (fetch_secret storeID w)
  | ExtensionCache port =>
      Some (match read_extension port storeID w with
            | (Err _, w) => fetch_secret storeID w
            | (Ok raw, w) => (store_of raw storeID, w)
            end)
  end.

Definition Backend_ (kind : string) : result error backend_ :=
  if bool_decide (kind = StoreParameterStore) then Ok ParameterStore
  else if bool_decide (kind = StoreSecretsManager) || bool_decide (kind = "") then
    let port := getenv ExtensionPortEnvVar in
    Ok (if bool_decide (port = "") then SecretsManager else ExtensionCache port)
  else Err (EString ("AWS holds configuration as " +:+ go_quote StoreSecretsManager +:+ " or " +:+
    go_quote StoreParameterStore +:+ ", and the deployment asked for " +:+ go_quote kind)).
End aws.

(** ** A development session *)

Definition HostEnvVar : string := "CELERITY_CONFIG_VALKEY_HOST".
Definition PortEnvVar : string := "CELERITY_CONFIG_VALKEY_PORT".
Definition or_default (v fallback : string) : string := if bool_decide (v = "") then fallback else v.
Definition address (getenv : string → string) : string :=
  or_default (getenv HostEnvVar) "localhost" +:+ ":" +:+ or_default (getenv PortEnvVar) "6379".

Section local.
Context `{FloatText} {W : Type} (format_float : float64 → string) (json_error : string → error).
(** [GET] of a key at an address, absent where it is not there. *)
Context (GET : string → string → W → result error (option string) * W) (getenv : string → string).

(** The local backend: one key to a store, whatever its kind. *)
Definition local_backend (kind : string) : result error (Backend W) :=
  Ok (MkBackend (λ storeID w,
    match GET (address getenv) storeID w with
    | (Err err, w) => (Err (ConfigError (wrapping ("celerity: reading the config store " +:+
        go_quote storeID +:+ " from the local session at " +:+ address getenv) err)), w)
    | (Ok None, w) => (Ok ∅, w)
    | (Ok (Some raw), w) => (ValuesFromJSON format_float json_error raw storeID, w)
    end) false).

Definition local_provider : Provider W := MkProvider "local-valkey" PlatformLocal local_backend.
End local.

(** ** A store of parameters is read whole *)

Section paging.
Context {W C : Type} (GetParametersByPath : option C → string → option string → W → result error Page * W).

(** Pages chained by their tokens: each is answered for the token before it, and the last
    names no other. *)
Fixpoint chained (cfg : option C) (path : string) (token : option string)
    (pages : list (list Parameter_)) : Prop :=
  match pages with
  | [] => False
  | p :: rest =>
      ∃ next, (∀ w, GetParametersByPath cfg path token w = (Ok (MkPage p next), w)) ∧
        match rest with
        | [] => next = None ∨ next = Some ""
        | _ => ∃ t, next = Some t ∧ t ≠ "" ∧ chained cfg path (Some t) rest
        end
  end.

Lemma fetch_pages_collects cfg storeID pages values token fuel w :
  chained cfg (store_path storeID) token pages → length pages ≤ fuel →
  fetch_pages GetParametersByPath fuel cfg storeID values token w =
  Some (Ok (collect (store_path storeID) values (mjoin pages)), w).
Proof.
  revert values token fuel. induction pages as [|p rest IH]; intros values token fuel; [done|].
  intros (next & Hget & Hnext) Hf. destruct fuel as [|fuel]; [simpl in Hf; lia|].
  cbn [fetch_pages]. rewrite Hget. cbn [NextToken Parameters_].
  change (mjoin (p :: rest)) with (p ++ mjoin rest).
  assert (∀ vs a b, collect (store_path storeID) vs (a ++ b) =
    collect (store_path storeID) (collect (store_path storeID) vs a) b) as Happ.
  { intros vs a b. apply foldl_app. }
  rewrite Happ. destruct rest as [|p' rest'].
  - by destruct Hnext as [-> | ->].
  - destruct Hnext as (t & -> & Ht & Hc). destruct t as [|c t]; [done|].
    apply IH; [done|simpl in *; lia].
Qed.

(** A parameter of a store, by its name within it. *)
Definition parameter (path : string) (kv : string * string) : Parameter_ :=
  MkParameter (Some (path +:+ kv.1)) (Some kv.2).

Lemma relative_name_app path k : k ≠ "" → relative_name path (path +:+ k) = k.
Proof. intros Hk. unfold relative_name. rewrite cut_prefix_app. by destruct k. Qed.

Lemma collect_lookup path (kvs : list (string * string)) :
  Forall (λ kv, kv.1 ≠ "") kvs → NoDup kvs.*1 →
  collect path ∅ (parameter path <$> kvs) = list_to_map kvs.
Proof.
  intros Hne Hnd.
  assert (∀ m : gmap string string, (∀ k, k ∈ kvs.*1 → m !! k = None) →
    collect path m (parameter path <$> kvs) = list_to_map kvs ∪ m) as H.
  { induction kvs as [|[k v] kvs IH]; intros m Hm; [symmetry; apply (left_id_L ∅ (∪))|].
    apply Forall_cons in Hne as [Hk Hne]. apply NoDup_cons in Hnd as [Hin Hnd].
    cbn [fst] in *. rewrite fmap_cons. unfold collect in *. cbn [foldl parameter paramName paramValue fst snd].
    rewrite relative_name_app by done. rewrite IH; [|done|done|].
    - change (list_to_map ((k, v) :: kvs)) with (<[k:=v]> (list_to_map kvs : gmap string string)).
      assert ((list_to_map kvs : gmap string string) !! k = None) as Hno
        by by apply not_elem_of_list_to_map.
      rewrite <- insert_union_r by done. by rewrite insert_union_l.
    - intros k' Hk'. rewrite lookup_insert_ne by (by intros ->). apply Hm. by right. }
  rewrite H; [apply (right_id_L ∅ (∪))|]. intros. apply lookup_empty.
Qed.

Definition page_of (path : string) (p : list (string * string)) : list Parameter_ :=
  parameter path <$> p.

(** However many pages a store of parameters comes in, what is read of it is every one of
    them, under its name within the store, in as many requests as there are pages. *)
Lemma parameters_are_read_whole cfg storeID (pages : list (list (string * string)))
    (all : list (string * string)) fuel w :
  chained cfg (store_path storeID) None (map (page_of (store_path storeID)) pages) →
  all = mjoin pages → Forall (λ kv, kv.1 ≠ "") all → NoDup all.*1 → length pages ≤ fuel →
  fetch_pages GetParametersByPath fuel cfg storeID ∅ None w = Some (Ok (list_to_map all), w).
Proof.
  intros Hc -> Hne Hnd Hf.
  rewrite (fetch_pages_collects _ _ _ _ _ _ _ Hc) by by rewrite List.length_map.
  rewrite <- (collect_lookup (store_path storeID)) by done. do 4 f_equal.
  clear. induction pages as [|p pages IH]; [done|].
  change (mjoin (p :: pages)) with (p ++ mjoin pages). rewrite fmap_app, <- IH. done.
Qed.
End paging.
