(* ===== verification/LocalSession.v ===== *)
(** * The resources of a development session

    Models [resources/local]: the provider that serves queues and topics itself and hands
    every other kind to the platform's ([local.go], [internal/backend/registry.go]), and the
    queue and the topic over the session's Redis ([redis/connection.go], [queue.go],
    [topic.go]).  Redis is a parameter: one command, or a pipeline whose commands each have
    an answer. *)

From S2P Require Import Prelude GoStrings Json JsonText Errors Bind Encoding Values Config Resources AwsService Batch.
From stdpp Require Import options.

(** ** The connection *)

Definition EndpointEnvVar : string := "CELERITY_REDIS_ENDPOINT".
Definition DefaultEndpoint : string := "redis://localhost:6379".

(** What is sent: an entry of a stream, or a message on a channel. *)
Inductive redis_cmd : Type :=
  | XADD (stream : string) (fields : gmap string string)
  | PUBLISH (channel payload : string).

Record RedisClient (W : Type) : Type := MkRedis {
  Do : redis_cmd → W → result error string * W;
  (** A pipeline: an error of the whole, and the answer of the command in each place. *)
  Exec : list redis_cmd → W → (option error * (nat → result error string)) * W;
  CloseRedis : W → option error * W;
}.
Arguments MkRedis {W}. Arguments Do {W}. Arguments Exec {W}. Arguments CloseRedis {W}.

Record local (W : Type) : Type := MkLocal {
  conn : option (result error (RedisClient W));     (* what its [sync.Once] left *)
  l_settings : cfg (W := W);
}.
Arguments MkLocal {W}. Arguments conn {W}. Arguments l_settings {W}.

(** ** What is written *)

Definition streamKey (name : string) : string := "celerity:queue:" +:+ name.
Definition channelKey (name : string) : string := "celerity:topic:channel:" +:+ name.

Definition messageTypeText : Z := 0.
Definition messageTypeBinary : Z := 1.

(** [json.Marshal] of a map of strings. *)
Definition strings_json (m : gmap string string) : json :=
  JObj ((λ '(k, v), (k, JStr v)) <$> entries m).

Definition streamFields (seconds : Z) (body : string) (o : Queue.SendOptions) : gmap string string :=
  let fields : gmap string string := {[ "timestamp" := itoa seconds ]} in
  let fields := if utf8_valid body
    then <["body" := body]> (<["message_type" := itoa messageTypeText]> fields)
    else <["body" := b64_encode body]> (<["message_type" := itoa messageTypeBinary]> fields) in
  let fields := if bool_decide (o.(Queue.GroupID) = "") then fields
                else <["group_id" := o.(Queue.GroupID)]> fields in
  let fields := if bool_decide (o.(Queue.DeduplicationID) = "") then fields
                else <["dedup_id" := o.(Queue.DeduplicationID)]> fields in
  if bool_decide (o.(Queue.Attributes) = ∅) then fields
  else <["attributes" := json_text (strings_json o.(Queue.Attributes))]> fields.

Definition not_text : error := EString (
  "a topic in a development session carries text: the session relays a publish through a channel " +:+
  "that has no way to mark a body as binary, so bytes that are not valid UTF-8 cannot be published " +:+
  "until the session can say so").

(** The payload, its members in the order [json.Marshal] sorts them. *)
Definition payload_of (id body : string) (o : Topic.SendOptions) : json :=
  JObj ((if bool_decide (o.(Topic.Attributes) = ∅) then []
         else [("attributes", strings_json o.(Topic.Attributes))]) ++
        [("body", JStr body); ("messageId", JStr id)] ++
        (if bool_decide (o.(Topic.Subject) = "") then [] else [("subject", JStr o.(Topic.Subject))])).

Section session.
Context {W : Type} (now : W → Z) (getenv : string → string).
(** [goredis.ParseURL] and the client it gives options for, whether an error is a command's
    own, and [uuid.NewRandom]. *)
Context (open : string → result error (RedisClient W)) (redis_error : error → bool).
Context (NewRandom : W → result error string * W).
Context (ref : Ref).

Definition run (A : Type) : Type := local W → result config_error A * local W.

(** [connection.get]: the endpoint resolved once, and what that gave kept. *)
Definition get : run (RedisClient W) := λ s,
  let '(r, l, _) := Lazy_Get s.(conn) (λ u : unit,
      let endpoint := if bool_decide (getenv EndpointEnvVar = "") then DefaultEndpoint
                      else getenv EndpointEnvVar in
      (match open endpoint with
       | Ok c => Ok c
       | Err err => Err (wrapping ("celerity: " +:+ EndpointEnvVar +:+ " is not a Redis URL: " +:+
                           go_quote endpoint) err)
       end, u)) tt in
  (match r with Ok c => Ok c | Err err => Err (ConfigError err) end, MkLocal l s.(l_settings)).

(** [connection.close]: what was opened, if anything was. *)
Definition close (s : local W) : option error * local W :=
  match s.(conn) with
  | Some (Ok c) =>
      let '(svc, w) := s.(l_settings) in
      let '(e, w) := c.(CloseRedis) w in
      (wrapping "celerity: closing the connection to the session's Redis" <$> e,
       MkLocal s.(conn) (svc, w))
  | _ => (None, s)
  end.

(** [resolve], of either: the identifier, then the connection. *)
Definition resolve_at (key : string → string) : run (RedisClient W * string) := λ s,
  let '(r, c) := ID now ref s.(l_settings) in
  match r with
  | Err err => (Err err, MkLocal s.(conn) c)
  | Ok name => let '(r, s) := get (MkLocal s.(conn) c) in
               (match r with Ok cl => Ok (cl, key name) | Err err => Err err end, s)
  end.

(** A command, or a pipeline, in the session's world. *)
Definition in_world {A} (f : W → A * W) (s : local W) : A * local W :=
  let '(svc, w) := s.(l_settings) in let '(a, w) := f w in (a, MkLocal s.(conn) (svc, w)).
Definition clock (s : local W) : Z := (now s.(l_settings).2 / 10 ^ 9)%Z.

(** The answers of a pipeline, entry by entry. *)
Definition answered {O} (id_of : nat → string → string) (answers : nat → result error string) (i : nat)
    (e : BatchEntry O) : BatchSuccess + BatchFailure :=
  match answers i with
  | Ok id => inl (MkSuccess e.(EntryID) (id_of i id))
  | Err err => inr (MkFailure e.(EntryID) "RedisError" (error_text err) false)
  end.
Definition lefts {A B} (l : list (A + B)) : list A :=
  omap (λ x, match x with inl a => Some a | inr _ => None end) l.
Definition rights {A B} (l : list (A + B)) : list B :=
  omap (λ x, match x with inl _ => None | inr b => Some b end) l.

(** A pipeline run for a batch: all of it unsent where it was not run at all, and otherwise
    what each command answered. *)
Definition run_pipeline {O} (client : RedisClient W) (doing : string) (cmds : list redis_cmd)
    (id_of : nat → string → string) (entries : list (BatchEntry O)) (s : local W) :
    batch_answer * local W :=
  let '((err, answers), s) := in_world (client.(Exec) cmds) s in
  match err with
  | Some err =>
      if negb (redis_error err) then
        let wrapped := ConfigError (wrapping ("celerity: " +:+ doing +:+ " " +:+ ref_text ref) err) in
        ((MkBatch [] [] (unsent entries wrapped), Some wrapped), s)
      else let all := imap (answered id_of answers) entries in
           ((MkBatch (lefts all) (rights all) [], None), s)
  | None => let all := imap (answered id_of answers) entries in
            ((MkBatch (lefts all) (rights all) [], None), s)
  end.

(** *** The queue *)

Definition queue_Send (body : string) (opts : list (Queue.SendOptions → Queue.SendOptions)) :
    run string := λ s,
  match resolve_at streamKey s with
  | (Err err, s) => (Err err, s)
  | (Ok (client, key), s) =>
      let '(r, s') := in_world (client.(Do) (XADD key (streamFields (clock s) body (Queue.sendOptions opts)))) s in
      (match r with
       | Ok id => Ok id
       | Err err => Err (ConfigError (wrapping ("celerity: sending to " +:+ ref_text ref) err))
       end, s')
  end.

Definition queue_SendBatch (entries : list (BatchEntry Queue.SendOptions)) (s : local W) :
    batch_answer * local W :=
  match entries with
  | [] => ((no_result, None), s)
  | _ =>
      match resolve_at streamKey s with
      | (Err err, s) => ((MkBatch [] [] (unsent entries err), Some err), s)
      | (Ok (client, key), s) =>
          run_pipeline client "sending a batch to"
            ((λ e, XADD key (streamFields (clock s) e.(Body) (Queue.sendOptions e.(Options)))) <$> entries)
            (λ _ id, id) entries s
      end
  end.

(** *** The topic *)

Definition messageID (w : W) : result error string * W :=
  match NewRandom w with
  | (Ok id, w) => (Ok id, w)
  | (Err err, w) => (Err (wrapping "naming a message" err), w)
  end.

Definition envelope (body : string) (o : Topic.SendOptions) (w : W) :
    result error (string * string) * W :=
  if negb (utf8_valid body) then (Err not_text, w)
  else match messageID w with
       | (Err err, w) => (Err err, w)
       | (Ok id, w) => (Ok (id, json_text (payload_of id body o)), w)
       end.

Definition topic_Publish (body : string) (opts : list (Topic.SendOptions → Topic.SendOptions)) :
    run string := λ s,
  match resolve_at channelKey s with
  | (Err err, s) => (Err err, s)
  | (Ok (client, channel), s) =>
      let failed err := ConfigError (wrapping ("celerity: publishing to " +:+ ref_text ref) err) in
      match in_world (envelope body (Topic.publishOptions opts)) s with
      | (Err err, s) => (Err (failed err), s)
      | (Ok (id, payload), s) =>
          let '(r, s) := in_world (client.(Do) (PUBLISH channel payload)) s in
          (match r with Ok _ => Ok id | Err err => Err (failed err) end, s)
      end
  end.

(** The loop that makes every envelope before anything is sent. *)
Fixpoint envelopes (entries : list (BatchEntry Topic.SendOptions)) (w : W) :
    result error (list (string * string)) * W :=
  match entries with
  | [] => (Ok [], w)
  | e :: es =>
      match envelope e.(Body) (Topic.publishOptions e.(Options)) w with
      | (Err err, w) => (Err err, w)
      | (Ok p, w) => match envelopes es w with
                     | (Ok ps, w) => (Ok (p :: ps), w)
                     | (Err err, w) => (Err err, w)
                     end
      end
  end.

Definition topic_PublishBatch (entries : list (BatchEntry Topic.SendOptions)) (s : local W) :
    batch_answer * local W :=
  match entries with
  | [] => ((no_result, None), s)
  | _ =>
      match resolve_at channelKey s with
      | (Err err, s) => ((MkBatch [] [] (unsent entries err), Some err), s)
      | (Ok (client, channel), s) =>
          match in_world (envelopes entries) s with
          | (Err err, s) =>
              let wrapped := ConfigError (wrapping ("celerity: publishing a batch to " +:+ ref_text ref) err) in
              ((MkBatch [] [] (unsent entries wrapped), Some wrapped), s)
          | (Ok ps, s) =>
              run_pipeline client "publishing a batch to" ((λ p, PUBLISH channel p.2) <$> ps)
                (λ i _, default "" (fst <$> ps !! i)) entries s
          end
      end
  end.
End session.

(** ** The provider *)

Section provider.
Context {T : Type}.

Definition missing_backend (kind : string) : error :=
  EString ("celerity: a development session has no backend linked for a " +:+ kind +:+
    ". The generated platform file should import one, for example:" +:+ newline +:+ newline +:+
    tab +:+ "import _ " +:+
    go_quote "github.com/newstack-cloud/celerity-go-sdk/resources/local/redis").

(** [Queue] and [Topic], of the backend that was linked. *)
Definition serve_local (build : option (Ref → result error T)) (kind : string) (ref : Ref) : result error T :=
  match build with None => Err (missing_backend kind) | Some build => build ref end.

(** [delegate], to a platform's provider: the one a test stands in, or the other one linked. *)
Definition delegate (stood_in fallback : option (Ref → result error T)) (ref : Ref) : result error T :=
  match (match stood_in with Some p => Some p | None => fallback end) with
  | Some build => build ref
  | None => Err (EString ("celerity: a development session serves a queue and a topic itself and " +:+
      "leaves " +:+ ref_text ref +:+ " to the platform's provider, but none is linked. The " +:+
      "generated platform file should import one alongside this package"))
  end.
End provider.

(** ** Both keep the contract of a batch *)

Section contract.
Context {W : Type} (now : W → Z) (getenv : string → string) (ref : Ref).
Context (open : string → result error (RedisClient W)) (redis_error : error → bool).
Context (NewRandom : W → result error string * W).

Lemma answered_names {O} id_of answers (entries : list (BatchEntry O)) :
  let all := imap (answered id_of answers) entries in
  (SuccessID <$> lefts all) ++ (FailureID <$> rights all) ≡ₚ EntryID <$> entries.
Proof.
  cbn zeta. revert id_of answers. induction entries as [|e es IH]; intros id_of answers; [done|].
  rewrite imap_cons, fmap_cons.
  specialize (IH (id_of ∘ S) (answers ∘ S)).
  change (imap (answered id_of answers ∘ S) es) with (imap (answered (id_of ∘ S) (answers ∘ S)) es).
  revert IH. generalize (imap (answered (id_of ∘ S) (answers ∘ S)) es). intros all IH.
  unfold answered. destruct (answers 0); unfold lefts, rights in *; cbn; rewrite <- IH; [done|].
  by rewrite Permutation_middle.
Qed.

Lemma run_pipeline_accounted {O} client doing cmds id_of (entries : list (BatchEntry O)) (s : local W) :
  accounted entries (run_pipeline redis_error ref client doing cmds id_of entries s).1.
Proof.
  unfold run_pipeline. destruct (in_world (client.(Exec) cmds) s) as [[err answers] s'].
  assert (accounted entries (MkBatch (lefts (imap (answered id_of answers) entries))
    (rights (imap (answered id_of answers) entries)) [], None)) as H.
  { split; [|done]. unfold named. cbn. rewrite app_nil_r. apply answered_names. }
  destruct err as [err|]; [|done]. destruct (negb (redis_error err)); [apply unsent_accounted|done].
Qed.

#[export] Instance local_queue_accounts :
  Accounts (λ _, True) (queue_SendBatch now getenv open redis_error ref).
Proof.
  split; [|done]. intros entries s _. unfold queue_SendBatch. destruct entries as [|e es]; [done|].
  destruct (resolve_at _ _ _ _ _ _) as [[[client key]|err] s1]; [|apply unsent_accounted].
  apply run_pipeline_accounted.
Qed.

#[export] Instance local_topic_accounts :
  Accounts (λ _, True) (topic_PublishBatch now getenv open redis_error NewRandom ref).
Proof.
  split; [|done]. intros entries s _. unfold topic_PublishBatch. destruct entries as [|e es]; [done|].
  destruct (resolve_at _ _ _ _ _ _) as [[[client key]|err] s1]; [|apply unsent_accounted].
  destruct (in_world _ s1) as [[ps|err] s2]; [apply run_pipeline_accounted|apply unsent_accounted].
Qed.
End contract.

(** ** What is written is read back *)

(** What the consumer takes of an entry: its body, by the type it is marked with. *)
Definition read_body (fields : gmap string string) : option string :=
  body ← fields !! "body"; kind ← fields !! "message_type";
  if bool_decide (kind = itoa messageTypeText) then Some body
  else if bool_decide (kind = itoa messageTypeBinary) then b64_decode body
  else None.

(** The other fields a send may write leave one of these alone. *)
Lemma streamFields_lookup seconds body o k :
  k ≠ "group_id" → k ≠ "dedup_id" → k ≠ "attributes" →
  streamFields seconds body o !! k =
  (if utf8_valid body
   then <["body" := body]> (<["message_type" := itoa messageTypeText]> {[ "timestamp" := itoa seconds ]})
   else <["body" := b64_encode body]> (<["message_type" := itoa messageTypeBinary]>
          {[ "timestamp" := itoa seconds ]}) : gmap string string) !! k.
Proof.
  intros H1 H2 H3. unfold streamFields.
  repeat (case_bool_decide; rewrite ?lookup_insert_ne by congruence); done.
Qed.

(** Any bytes come out of the stream as they were sent, text or not, under the time they were
    sent at. *)
Lemma stream_carries_the_body seconds body o :
  read_body (streamFields seconds body o) = Some body ∧
  streamFields seconds body o !! "timestamp" = Some (itoa seconds).
Proof.
  unfold read_body. rewrite !streamFields_lookup by done.
  destruct (utf8_valid body).
  - rewrite lookup_insert_eq, lookup_insert_ne, lookup_insert_eq by done. by split.
  - rewrite lookup_insert_eq, lookup_insert_ne, lookup_insert_eq by done. cbn.
    split; [apply b64_roundtrip|done].
Qed.

(** What the session's bridge reads of a publish is what was published: the document is
    read back as it was written. *)
Lemma envelope_is_read_back id body o :
  parse (json_text (payload_of id body o)) = Some (payload_of id body o).
Proof.
  apply parse_json_text. unfold payload_of, strings_json.
  assert (∀ l : list (string * string), numerals (JObj ((λ '(k, v), (k, JStr v)) <$> l))) as Hs.
  { induction l as [|[k v] l IH]; [done|]. split; [done|]. apply IH. }
  case_bool_decide; case_bool_decide; cbn [app]; repeat split; apply Hs.
Qed.
