(* ===== verification/Manifest.v ===== *)
(** * The handler manifest

    Models [celerity/manifest.go] and [manifest/manifest.go]: what an application says of
    its handlers when it is asked to describe itself.  The document is built from the
    registry the dispatcher routes against; its encoding is a tree of JSON, whose
    indentation is not modelled.  [filepath.Rel] is a parameter, and so is where the module
    is taken to be. *)

From S2P Require Import Prelude GoStrings Json Errors Handler Route Layer Values Registry App Pipeline.
From stdpp Require Import options.

Definition Version : string := "v1".

(** ** Annotations *)

Definition AnnotationHTTP : string := "celerity.handler.http".
Definition AnnotationHTTPMethod : string := "celerity.handler.http.method".
Definition AnnotationHTTPPath : string := "celerity.handler.http.path".
Definition AnnotationWebSocket : string := "celerity.handler.websocket".
Definition AnnotationWebSocketRoute : string := "celerity.handler.websocket.route".
Definition AnnotationConsumer : string := "celerity.handler.consumer".
Definition AnnotationConsumerSource : string := "celerity.handler.consumer.source".
Definition AnnotationSchedule : string := "celerity.handler.schedule".
Definition AnnotationTag : string := "celerity.handler.tag".
Definition AnnotationGuardProtectedBy : string := "celerity.handler.guard.protectedBy".
Definition AnnotationPublic : string := "celerity.handler.public".
Definition AnnotationResourceRef : string := "celerity.handler.resource.ref".

(** ** The document *)

Record Spec : Type := MkSpec { HandlerName : string; CodeLocation : string; SpecHandler : string }.

Record FunctionHandler : Type := MkFunctionHandler {
  ResourceName : string;
  ExportName : string;
  HandlerSource : string;
  Annotations : gmap string json;
  HandlerSpec : Spec;
  HandlerFuncPath : string;
}.

(** [Manifest]; a Go application has no class handlers and writes no guard handlers. *)
Record Manifest : Type := MkManifest {
  ManifestVersion : string;
  FunctionHandlers : list FunctionHandler;
  LinkedAdapters : list string;
  LinkedResourceProviders : list string;
}.

Definition strings (l : list string) : json := JArr (JStr <$> l).

(** A member left out where it is empty. *)
Definition omit_empty {A} (name : string) (f : list A → json) (l : list A) : list (string * json) :=
  match l with [] => [] | _ => [(name, f l)] end.

Definition spec_json (s : Spec) : json :=
  JObj [("handlerName", JStr s.(HandlerName)); ("codeLocation", JStr s.(CodeLocation));
        ("handler", JStr s.(SpecHandler))].
Definition handler_json (h : FunctionHandler) : json :=
  JObj ([("resourceName", JStr h.(ResourceName)); ("exportName", JStr h.(ExportName));
         ("sourceFile", JStr h.(HandlerSource))] ++
        omit_empty "annotations" JObj (entries h.(Annotations)) ++
        [("spec", spec_json h.(HandlerSpec))] ++
        (if bool_decide (h.(HandlerFuncPath) = "") then [] else [("funcPath", JStr h.(HandlerFuncPath))])).

(** [writeManifest], up to its indentation. *)
Definition writeManifest (m : Manifest) : json :=
  JObj ([("version", JStr m.(ManifestVersion)); ("handlers", JArr []);
         ("functionHandlers", JArr (handler_json <$> m.(FunctionHandlers))); ("guardHandlers", JArr [])] ++
        omit_empty "linkedAdapters" strings m.(LinkedAdapters) ++
        omit_empty "linkedResourceProviders" strings m.(LinkedResourceProviders)).

(** ** Built from the registry *)

Section manifest.
Context {W : Type}.

Definition annotationsFor (reg : Registration W) : gmap string json :=
  let a : gmap string json := {[ AnnotationTag := JStr reg.(Tag) ]} in
  let a :=
    if bool_decide (reg.(RegKind) = KindHTTP) then
      <[AnnotationHTTPPath := JStr reg.(RegRoute)]>
        (<[AnnotationHTTPMethod := JStr reg.(RegMethod)]> (<[AnnotationHTTP := JBool true]> a))
    else if bool_decide (reg.(RegKind) = KindWebSocket) then
      <[AnnotationWebSocketRoute := JStr reg.(RegRoute)]> (<[AnnotationWebSocket := JBool true]> a)
    else if bool_decide (reg.(RegKind) = KindConsumer) then
      <[AnnotationConsumerSource := JStr reg.(SourceID)]> (<[AnnotationConsumer := JBool true]> a)
    else if bool_decide (reg.(RegKind) = KindSchedule) then <[AnnotationSchedule := JBool true]> a
    else a in
  let a := match reg.(Guards) with [] => a | gs => <[AnnotationGuardProtectedBy := strings gs]> a end in
  let a := if reg.(RegPublic) then <[AnnotationPublic := JBool true]> a else a in
  match reg.(RegUses) with [] => a | us => <[AnnotationResourceRef := strings us]> a end.

Context (Rel : string → string → option string) (root : string).

(** [relativeTo]. *)
Definition relativeTo (path : string) : string :=
  if bool_decide (root = "") || bool_decide (path = "") then path
  else match cut root path with
       | Some (_, rest) => trim_prefix rest "/"
       | None =>
           match Rel root path with
           | Some rel => if has_prefix rel ".." then path else rel
           | None => path
           end
       end.

Definition handler_of (reg : Registration W) : FunctionHandler :=
  MkFunctionHandler reg.(Name) reg.(Name) (relativeTo reg.(SourceFile)) (annotationsFor reg)
    (MkSpec reg.(PublishedName) "" reg.(Name)) reg.(FuncPath).

(** [App.Manifest]; [None] where it dereferences a nil registration. *)
Definition manifest_of (s : Registry W) (adapters providers : list string) : option Manifest :=
  regs ← mapM (λ p, i ← p; s.(heap) !! i) (All s);
  Some (MkManifest Version (handler_of <$> regs) adapters providers).

(** What a handler of the document says its tag is. *)
Definition tag_of (h : FunctionHandler) : option json := h.(Annotations) !! AnnotationTag.

Lemma annotated_tag (reg : Registration W) : annotationsFor reg !! AnnotationTag = Some (JStr reg.(Tag)).
Proof.
  unfold annotationsFor.
  repeat (case_match || rewrite lookup_insert_ne by done); apply lookup_singleton_eq.
Qed.

Lemma tags_listed (s : Registry W) :
  registry_wf s →
  ∃ regs, mapM (λ p, i ← p; s.(heap) !! i) (All s) = Some regs ∧ Tag <$> regs = s.(order).
Proof.
  intros Hwf. unfold All.
  assert (Forall (λ t, ∃ i reg, s.(byTag) !! t = Some i ∧ s.(heap) !! i = Some reg ∧ reg.(Tag) = t)
    s.(order)) as H.
  { apply Forall_forall. intros t [i Hi]%(wf_dom _ Hwf).
    destruct (wf_tag _ Hwf t i Hi) as (reg & ? & ?). eauto. }
  clear Hwf. induction H as [|t ts (i & reg & Hi & Hr & <-) _ (regs & IH & Hts)]; [by exists []|].
  exists (reg :: regs). split; [|cbn; by rewrite Hts].
  cbn. rewrite Hi. cbn. rewrite Hr. cbn. by rewrite IH.
Qed.
End manifest.

(** ** What is listed is what is served *)

(** The manifest lists what the binary serves.  Of an application with a well-formed
    registry, the document describes one handler for each registration, in the order they
    were made and under the tag each carries; and a tag is in it exactly where the
    dispatcher resolves it to a pipeline. *)
Lemma manifest_lists_what_is_served {W F} `{Tracer W} (a : App (W := W) (F := F)) Rel root
    adapters providers :
  registry_wf a.(registry) →
  ∃ m, manifest_of Rel root a.(registry) adapters providers = Some m ∧
    tag_of <$> m.(FunctionHandlers) = (λ t, Some (JStr t)) <$> a.(registry).(order) ∧
    ∀ tag, Some (JStr tag) ∈ (tag_of <$> m.(FunctionHandlers)) ↔ is_Some (resolvePipeline a tag).
Proof.
  intros Hwf. destruct (tags_listed _ Hwf) as (regs & Hregs & Htags).
  eexists. unfold manifest_of. rewrite Hregs. split; [done|]. cbn [FunctionHandlers mbind option_bind].
  assert (tag_of <$> (handler_of Rel root <$> regs) = (λ t, Some (JStr t)) <$> a.(registry).(order)) as Ht.
  { rewrite <- Htags, <- !list_fmap_compose. apply list_fmap_ext. intros i reg _. apply annotated_tag. }
  split; [exact Ht|]. intros tag. rewrite Ht, resolvePipeline_iff by done.
  destruct (Tags_spec _ Hwf) as [-> _]. rewrite elem_of_sort_strings, list_elem_of_fmap.
  split; [by intros (t & [= <-] & ?)|]. intros Hin. by exists tag.
Qed.

(** A module path that begins another names the file of the other wrongly; one that is no part
    of the path, which is what a module outside GOPATH has, leaves the path of the build
    machine. *)
Lemma relativeTo_examples Rel :
  relativeTo Rel "github.com/acme/app" "/go/src/github.com/acme/app/orders/create.go" = "orders/create.go" ∧
  relativeTo Rel "github.com/acme/app" "/go/src/github.com/acme/apples/main.go" = "les/main.go" ∧
  (Rel "github.com/acme/app" "/home/me/app/main.go" = None →
   relativeTo Rel "github.com/acme/app" "/home/me/app/main.go" = "/home/me/app/main.go").
Proof. split_and!; [reflexivity..|]. intros Hr. unfold relativeTo. cbn. by rewrite Hr. Qed.

Lemma manifest_lists_what_is_served_witness :
  let _ := @noopTracer nat in
  ∃ m, manifest_of (λ _ _, None) "" plain_app.(registry) ["aws"] [] = Some m ∧
    tag_of <$> m.(FunctionHandlers) = [Some (JStr "custom::a")] ∧ is_Some (resolvePipeline plain_app "custom::a").
Proof.
  cbn zeta.
  destruct (manifest_lists_what_is_served (H := noopTracer) plain_app (λ _ _, None) "" ["aws"] []
    plain_app_wf) as (m & Hm & Ht & Hiff).
  exists m. split; [exact Hm|]. assert (tag_of <$> m.(FunctionHandlers) = [Some (JStr "custom::a")]) as Heq
    by exact Ht.
  split; [exact Heq|]. apply Hiff. rewrite Heq. by left.
Defined.
