(* ===== verification/GoSyntax.v ===== *)
(** * Go source as the command reads it, and the functions the runtime names

    What [cmd/celerity-go] uses of [go/ast] and of the names package runtime gives functions,
    with [cmd/celerity-go/funcpath.go].  A node carries what type checking says of it: the
    objects an identifier defines and uses, and the constant a call names its resource with.
    [ast.Inspect] is [inspect], which is proved to be a fold over the nodes of a tree in the
    order they are written. *)

From S2P Require Import Prelude GoStrings Json Errors Bind.
From stdpp Require Import options.

(** ** Syntax *)

(** An object, by its identity. *)
Abbreviation obj := nat.

(** The type a method is on, as its declaration writes it. *)
Inductive rtype : Type :=
  | RIdent (name : string)
  | RStar (x : rtype)
  | RIndex (x : rtype)
  | ROther.

Inductive node : Type :=
  | Ident (def use : option obj)
  | Selector (x : node) (use : option obj)
  (** A call, where it is, and the constant string its second argument is, if it is one. *)
  | CallExpr (pos : string) (fn : node) (args : list node) (name : option string)
  | KeyValueExpr (key value : node)
  | CompositeLit (elts : list node)
  | AssignStmt (lhs rhs : list node)
  | ValueSpec (names values : list node)
  | ReturnStmt (results : list node)
  | FuncLit (parts : list node)
  | FuncDecl (name : string) (def : option obj) (recv : option rtype) (parts : list node)
      (body : option node)
  | Other (parts : list node).

(** What [ast.Walk] visits below a node, in its order. *)
Definition children (n : node) : list node :=
  match n with
  | Ident _ _ => []
  | Selector x use => [x; Ident None use]
  | CallExpr _ fn args _ => fn :: args
  | KeyValueExpr key value => [key; value]
  | CompositeLit ns | ReturnStmt ns | FuncLit ns | Other ns => ns
  | AssignStmt ns ms | ValueSpec ns ms => ns ++ ms
  | FuncDecl _ def _ parts body => Ident def None :: parts ++ option_list body
  end.

(** Induction over the nodes below. *)
Section induction.
Context (P : node → Prop) (H : ∀ n, Forall P (children n) → P n).

Fixpoint node_ind' (n : node) : P n.
Proof using H.
  assert (∀ ns : list node, Forall P ns) as all.
  { fix all 1. intros [|m ns]; [constructor|]. constructor; [apply node_ind'|apply all]. }
  assert (∀ def use, P (Ident def use)) as Hid by (intros; apply H, Forall_nil_2).
  apply H. destruct n as [|x ?|? fn args ?|k v|ns|ns ms|ns ms|ns|ns|? ? ? parts body|ns]; cbn [children].
  2: { apply Forall_cons_2; [apply node_ind'|]. apply Forall_cons_2; [apply Hid|apply Forall_nil_2]. }
  3: { do 2 (apply Forall_cons_2; [apply node_ind'|]). apply Forall_nil_2. }
  8: { apply Forall_cons_2; [apply Hid|]. apply Forall_app_2; [apply all|].
       destruct body; [apply Forall_cons_2; [apply node_ind'|]|]; apply Forall_nil_2. }
  - apply Forall_nil_2.
  - apply Forall_cons_2; [apply node_ind'|apply all].
  - apply all.
  - apply Forall_app_2; apply all.
  - apply Forall_app_2; apply all.
  - apply all.
  - apply all.
  - apply all.
Defined.
End induction.

(** [ast.Inspect]: a node, and the ones below it where it is told to go on. *)
Section inspect.
Context {S : Type}.

Fixpoint inspect (f : node → S → bool * S) (n : node) (s : S) : S :=
  let all := fix all (ns : list node) (s : S) : S :=
    match ns with [] => s | m :: ns => all ns (inspect f m s) end in
  let '(deeper, s) := f n s in
  if deeper then
    match n with
    | Ident _ _ => s
    | Selector x use => (f (Ident None use) (inspect f x s)).2
    | CallExpr _ fn args _ => all args (inspect f fn s)
    | KeyValueExpr k v => inspect f v (inspect f k s)
    | CompositeLit ns | ReturnStmt ns | FuncLit ns | Other ns => all ns s
    | AssignStmt ns ms | ValueSpec ns ms => all ms (all ns s)
    | FuncDecl _ def _ parts body =>
        let s := all parts (f (Ident def None) s).2 in
        match body with Some b => inspect f b s | None => s end
    end
  else s.

Definition inspect_all (f : node → S → bool * S) (ns : list node) (s : S) : S :=
  foldl (λ s m, inspect f m s) s ns.

Lemma inspect_unfold f n s :
  inspect f n s = let '(deeper, s) := f n s in if deeper then inspect_all f (children n) s else s.
Proof.
  assert (∀ ns s, (fix all (ns : list node) (s : S) : S :=
      match ns with [] => s | m :: ns => all ns (inspect f m s) end) ns s = inspect_all f ns s) as Hall.
  { induction ns as [|m ns IH]; intros s'; [done|]. apply IH. }
  assert (∀ def use s, inspect f (Ident def use) s = (f (Ident def use) s).2) as Hid.
  { intros def use s'. cbn. by destruct (f (Ident def use) s') as [[] ?]. }
  destruct n; cbn [inspect children]; destruct (f _ s) as [[] s']; try done;
    rewrite ?Hall; unfold inspect_all; cbn [foldl]; rewrite ?foldl_app, ?Hid; try done.
  by destruct body.
Qed.
End inspect.

(** The nodes of a tree, each before the ones below it. *)
Fixpoint subnodes (n : node) : list node :=
  let all := fix all (ns : list node) : list node :=
    match ns with [] => [] | m :: ns => subnodes m ++ all ns end in
  n :: match n with
       | Ident _ _ => []
       | Selector x use => subnodes x ++ [Ident None use]
       | CallExpr _ fn args _ => subnodes fn ++ all args
       | KeyValueExpr k v => subnodes k ++ subnodes v
       | CompositeLit ns | ReturnStmt ns | FuncLit ns | Other ns => all ns
       | AssignStmt ns ms | ValueSpec ns ms => all ns ++ all ms
       | FuncDecl _ def _ parts body =>
           Ident def None :: all parts ++ match body with Some b => subnodes b | None => [] end
       end.

Lemma subnodes_unfold n : subnodes n = n :: mjoin (subnodes <$> children n).
Proof.
  assert (∀ ns, (fix all (ns : list node) : list node :=
      match ns with [] => [] | m :: ns => subnodes m ++ all ns end) ns = mjoin (subnodes <$> ns)) as Hall.
  { induction ns as [|m ns IH]; [done|]. cbn. by rewrite IH. }
  destruct n as [| | | | | | | | |? ? ? parts body|]; cbn [subnodes children]; f_equal;
    rewrite ?Hall, ?fmap_app, ?join_app; try done.
  - cbn. by rewrite app_nil_r.
  - cbn. f_equal. rewrite fmap_app, join_app. f_equal. destruct body; [|done].
    cbn. by rewrite app_nil_r.
Qed.

Lemma subnodes_self n : n ∈ subnodes n.
Proof. rewrite subnodes_unfold. left. Qed.

Lemma elem_of_subnodes m n : m ∈ subnodes n ↔ m = n ∨ ∃ c, c ∈ children n ∧ m ∈ subnodes c.
Proof.
  rewrite subnodes_unfold, elem_of_cons, list_elem_of_join. setoid_rewrite list_elem_of_fmap.
  split; intros [?|?]; [by left| |by left|]; right; naive_solver.
Qed.

(** What is below what is below is below. *)
Lemma subnodes_trans k m n : k ∈ subnodes m → m ∈ subnodes n → k ∈ subnodes n.
Proof.
  intros Hk. induction n as [n IH] using node_ind'. rewrite elem_of_subnodes.
  intros [->|(c & Hc & Hm)]; [done|]. rewrite elem_of_subnodes. right. exists c. split; [done|].
  rewrite Forall_forall in IH. auto.
Qed.

Lemma subnodes_children c m n : m ∈ subnodes n → c ∈ children m → c ∈ subnodes n.
Proof.
  intros Hm Hc. eapply subnodes_trans; [|exact Hm]. rewrite elem_of_subnodes. right.
  eauto using subnodes_self.
Qed.

Lemma inspect_ext {S} (f g : node → S → bool * S) n s :
  (∀ m s, f m s = g m s) → inspect f n s = inspect g n s.
Proof.
  intros H. revert s. induction n as [n IH] using node_ind'. intros s. rewrite !inspect_unfold, H.
  destruct (g n s) as [[] s']; [|done]. unfold inspect_all. revert s'.
  induction IH as [|c cs Hc _ IHcs]; intros s'; [done|]. cbn. rewrite Hc. apply IHcs.
Qed.

(** What holds of a state and is kept by every node of a tree holds after an inspection. *)
Lemma inspect_inv {S} (P : S → Prop) (f : node → S → bool * S) n s :
  (∀ m s, m ∈ subnodes n → P s → P (f m s).2) → P s → P (inspect f n s).
Proof.
  revert s. induction n as [n IH] using node_ind'. intros s Hf Hs. rewrite inspect_unfold.
  pose proof (Hf n s (subnodes_self n) Hs) as Hn. destruct (f n s) as [[] s']; [|done]. cbn in Hn.
  assert (∀ c m, c ∈ children n → m ∈ subnodes c → m ∈ subnodes n) as Hsub.
  { intros c m Hc Hm. apply elem_of_subnodes. right. eauto. }
  clear Hs s. revert s' Hn Hsub. unfold inspect_all. induction IH as [|c cs Hc _ IHcs]; [done|].
  intros s Hs Hsub. cbn. apply IHcs.
  - apply Hc; [|done]. intros. apply Hf; [|done]. eapply Hsub; [left|done].
  - intros. eapply Hsub; [right|]; done.
Qed.

(** An inspection that only stops once it is done is a fold over the nodes, in order. *)
Lemma inspect_until {S} (stop : S → bool) (step : node → S → S) n s :
  inspect (λ m s, if stop s then (false, s) else (true, step m s)) n s =
  foldl (λ s m, if stop s then s else step m s) s (subnodes n).
Proof.
  revert s. induction n as [n IH] using node_ind'. intros s.
  rewrite inspect_unfold, subnodes_unfold. cbn [foldl].
  assert (∀ ms s, stop s = true → foldl (λ s m, if stop s then s else step m s) s ms = s) as Hstop.
  { induction ms as [|m ms IHm]; intros s' Hs; [done|]. cbn. rewrite Hs. by apply IHm. }
  destruct (stop s) eqn:Hs; [by rewrite Hstop|]. generalize (step n s). clear s Hs.
  induction IH as [|c cs Hc _ IHcs]; intros s; [done|].
  unfold inspect_all in *. cbn. rewrite foldl_app, Hc. apply IHcs.
Qed.

Corollary inspect_fold {S} (step : node → S → S) n s :
  inspect (λ m s, (true, step m s)) n s = foldl (λ s m, step m s) s (subnodes n).
Proof. apply (inspect_until (λ _, false)). Qed.

(** ** Functions as the runtime names them *)

Definition methodValueSuffix : string := "-fm".

Record funcPath : Type := MkFuncPath { pkg : string; steps : list string }.

Definition splitSteps (rest : string) : list string :=
  if negb (has_prefix rest "(") then split_on "." rest
  else match cut ")" rest with
       | None => split_on "." rest
       | Some (type, rest) =>
           match split_on "." (trim_prefix rest ".") with
           | [] => []
           | method :: literals => (type +:+ ")" +:+ "." +:+ method) :: literals
           end
       end.

Definition parseFuncPath (name : string) : result error funcPath :=
  let segment := after_last "/" name in
  match cut "." segment with
  | None => Err (EString (go_quote name +:+ " names no package"))
  | Some (base, rest) =>
      match splitSteps rest with
      | [] => Err (EString (go_quote name +:+ " names no function"))
      | steps => Ok (MkFuncPath (default "" (cut_suffix segment name) +:+ base) steps)
      end
  end.

Definition trim_suffix (s p : string) : string := default s (cut_suffix p s).

Definition splitReceiver (step : string) : string * string :=
  if negb (has_prefix step "(") then ("", trim_suffix step methodValueSuffix)
  else match cut ")" step with
       | None => ("", step)
       | Some (type, rest) =>
           (trim_prefix (trim_prefix type "(") "*", trim_suffix (trim_prefix rest ".") methodValueSuffix)
       end.

Definition receiverName (recv : option rtype) : string :=
  match recv with
  | Some (RStar (RIdent name)) | Some (RIdent name) | Some (RIndex (RIdent name)) => name
  | _ => ""
  end.

(** A package that was loaded: its files, each a node over its declarations. *)
Record package : Type := MkPackage { PkgPath : string; PkgName : string; Syntax : list node }.

(** Whether a declaration is the function a step names; one without a body is none. *)
Definition declares (receiver name : string) (d : node) : option node :=
  match d with
  | FuncDecl n _ recv _ (Some body) =>
      if bool_decide (n = name) && bool_decide (receiverName recv = receiver) then Some body else None
  | _ => None
  end.

Definition declarationNamed (p : package) (step : string) : option node :=
  let '(receiver, name) := splitReceiver step in
  head (omap (declares receiver name) (p.(Syntax) ≫= children)).

(** The literal a step numbers, and how many were seen before it was. *)
Definition number_literal (index : Z) (n : node) (s : option node * Z) : bool * (option node * Z) :=
  match n with
  | FuncLit _ => let seen := (s.2 + 1)%Z in
                 (false, (if (seen =? index)%Z then Some n else s.1, seen))
  | _ => (negb (is_some s.1), s)
  end.

Definition literalNamed (body : node) (step : string) : option node :=
  match ParseInt (trim_prefix step "func") 64 with
  | Ok index => if (index <? 1)%Z then None else (inspect (number_literal index) body (None, 0%Z)).1
  | Err _ => None
  end.

(** [bodyOf]: the declaration, and then a literal in it for each further step. *)
Definition bodyOf (loaded : gmap string package) (path : funcPath) : option node :=
  p ← loaded !! path.(pkg);
  match path.(steps) with
  | [] => None
  | first :: literals =>
      body ← declarationNamed p first;
      foldl (λ b step, b ← b; literalNamed b step) (Some body) literals
  end.

(** *** What is named is what is parsed *)

(** A name of one of the shapes the runtime gives: steps after the first are numbered
    literals, and the first may be a type in parentheses and a method on it. *)
Inductive runtime_steps : list string → Prop :=
  | plain_steps name literals :
      has_prefix name "(" = false → Forall (λ x, no_byte "." x = true) (name :: literals) →
      runtime_steps (name :: literals)
  | method_steps type method literals :
      no_byte ")" type = true → Forall (λ x, no_byte "." x = true) (method :: literals) →
      runtime_steps (("(" +:+ type +:+ ")." +:+ method) :: literals).

Lemma split_join_steps name literals :
  Forall (λ x, no_byte "." x = true) (name :: literals) →
  split_on "." (join (name :: literals) ".") = name :: literals.
Proof. intros. by apply (split_join "."). Qed.

Lemma has_prefix_paren name literals :
  has_prefix name "(" = false → has_prefix (join (name :: literals) ".") "(" = false.
Proof.
  destruct name as [|c name]; [by destruct literals|].
  destruct literals as [|l ls]; [done|]. rewrite join_cons, append_cons. unfold has_prefix.
  cbn [cut_prefix]. by destruct (Ascii.eqb "(" c).
Qed.

Lemma join_append x y ys sep : join ((x +:+ y) :: ys) sep = x +:+ join (y :: ys) sep.
Proof. destruct ys; [done|]. by rewrite !join_cons, append_assoc. Qed.

Lemma splitSteps_join ss : runtime_steps ss → splitSteps (join ss ".") = ss.
Proof.
  destruct 1 as [name literals Hp Hf|type method literals Ht Hf]; unfold splitSteps.
  - rewrite has_prefix_paren by done. cbn [negb]. by apply split_join_steps.
  - rewrite !join_append, has_prefix_app. cbn [negb].
    change (")." +:+ join (method :: literals) ".") with (")" +:+ "." +:+ join (method :: literals) ".").
    rewrite <- append_assoc, cut_app by done.
    change (trim_prefix ("." +:+ join (method :: literals) ".") ".") with (join (method :: literals) ".").
    by rewrite split_join_steps, append_assoc.
Qed.

Lemma after_last_dir sep dir s :
  no_byte sep s = true → dir = "" ∨ (∃ d, dir = d +:+ String sep "") → after_last sep (dir +:+ s) = s.
Proof.
  intros Hs [->|[d ->]]; unfold after_last.
  - by rewrite append_nil_l, split_on_single.
  - rewrite append_assoc, append_cons, append_nil_l, split_on_app_gen, (split_on_single _ s) by done.
    by rewrite last_snoc.
Qed.

(** Every name of those shapes is read as the package and the steps it was made of, whatever
    dots the directories of the package's path hold. *)
Lemma parseFuncPath_reads dir base ss :
  dir = "" ∨ (∃ d, dir = d +:+ "/") → no_byte "." base = true → runtime_steps ss →
  no_byte "/" (base +:+ "." +:+ join ss ".") = true →
  parseFuncPath (dir +:+ base +:+ "." +:+ join ss ".") = Ok (MkFuncPath (dir +:+ base) ss).
Proof.
  intros Hd Hb Hss Hs. unfold parseFuncPath. rewrite after_last_dir by done.
  rewrite cut_app by done. rewrite splitSteps_join by done.
  destruct ss as [|s ss]; [by inversion Hss|].
  assert (cut_suffix (base +:+ "." +:+ join (s :: ss) ".") (dir +:+ base +:+ "." +:+ join (s :: ss) ".")
    = Some dir) as -> by by apply cut_suffix_Some.
  done.
Qed.

(** A method registered by its value is found under either spelling of its receiver; one on a
    value receiver, whose name the runtime gives without parentheses, is read as a function
    with a step inside it. *)
Lemma parseFuncPath_examples :
  parseFuncPath "example.com/app/orders.Create" = Ok (MkFuncPath "example.com/app/orders" ["Create"]) ∧
  parseFuncPath "example.com/app/orders.(*Service).Get-fm.func1" =
    Ok (MkFuncPath "example.com/app/orders" ["(*Service).Get-fm"; "func1"]) ∧
  parseFuncPath "example.com/app/orders.Service.Get-fm" =
    Ok (MkFuncPath "example.com/app/orders" ["Service"; "Get-fm"]) ∧
  is_ok (parseFuncPath "main") = false.
Proof. by split_and!. Qed.

(** *** Literals are numbered as the runtime numbers them *)

(** The literals of a node that are in no other, in the order they are written. *)
Definition outermost (n : node) (acc : list node) : bool * list node :=
  match n with FuncLit _ => (false, acc ++ [n]) | _ => (true, acc) end.
Definition literals_of (n : node) : list node := inspect outermost n [].

Lemma outermost_app n acc : inspect outermost n acc = acc ++ literals_of n.
Proof.
  unfold literals_of. revert acc. induction n as [n IH] using node_ind'. intros acc.
  rewrite !(inspect_unfold _ n).
  assert (∀ cs acc, Forall (λ c, ∀ acc, inspect outermost c acc = acc ++ inspect outermost c []) cs →
    inspect_all outermost cs acc = acc ++ inspect_all outermost cs []) as Hall.
  { intros cs a H. revert a. unfold inspect_all. induction H as [|c cs Hc _ IHcs]; intros a; cbn.
    - by rewrite app_nil_r.
    - rewrite IHcs, Hc, (IHcs (inspect outermost c [])). by rewrite app_assoc. }
  destruct n; cbn [outermost]; try apply Hall; done.
Qed.

(** What has been counted of the literals met so far. *)
Definition counted (index : Z) (s : option node * Z) (acc : list node) : Prop :=
  s.1 = acc !! Z.to_nat (index - 1) ∧
  (if is_some s.1 then index ≤ s.2 else s.2 = Z.of_nat (length acc) ∧ s.2 < index)%Z.

Lemma counted_literal index s acc n :
  (1 ≤ index)%Z → counted index s acc →
  counted index ((if (s.2 + 1 =? index)%Z then Some n else s.1), (s.2 + 1)%Z) (acc ++ [n]).
Proof.
  intros Hi [Hs Hc]. unfold counted in *. destruct s as [found k]. cbn [fst snd] in *.
  destruct found as [m|]; cbn [is_some] in Hc.
  - destruct (Z.eqb_spec (k + 1) index); [lia|]. cbn [is_some].
    symmetry in Hs. split; [|lia]. symmetry. by apply lookup_app_l_Some.
  - destruct Hc as [-> Hlt]. destruct (Z.eqb_spec (Z.of_nat (length acc) + 1) index) as [<-|Hne]; cbn [is_some].
    + split; [|lia]. replace (Z.to_nat (Z.of_nat (length acc) + 1 - 1)) with (length acc) by lia.
      by rewrite list_lookup_middle.
    + rewrite length_app. cbn [length]. split; [|lia]. symmetry. apply lookup_ge_None.
      rewrite length_app. cbn [length]. lia.
Qed.

Lemma counted_app index s acc more :
  is_some s.1 = true → counted index s acc → counted index s (acc ++ more).
Proof.
  intros Hs [He Hc]. destruct s as [[m|] k]; [|done]. split; [|done]. cbn [fst] in *.
  symmetry. apply lookup_app_l_Some. by symmetry.
Qed.

Lemma counted_inspect index n s acc :
  (1 ≤ index)%Z → counted index s acc →
  counted index (inspect (number_literal index) n s) (inspect outermost n acc).
Proof.
  intros Hi. revert s acc. induction n as [n IH] using node_ind'. intros s acc Hc.
  assert (is_some s.1 = true → counted index s (inspect outermost n acc)) as Hfound
    by (intros; rewrite outermost_app; by apply counted_app).
  rewrite inspect_unfold. rewrite inspect_unfold in *.
  assert (counted index (inspect_all (number_literal index) (children n) s)
    (inspect_all outermost (children n) acc)) as Hall.
  { clear Hfound. revert s acc Hc. unfold inspect_all. induction IH as [|c cs Hcs _ IHcs]; [done|].
    intros s acc Hc. cbn. apply IHcs. by apply Hcs. }
  destruct n; cbn [number_literal outermost] in *; try (by apply counted_literal);
    destruct (is_some s.1); cbn [negb]; auto.
Qed.

(** In a declaration's body, a numbered step is the literal that many places along. *)
Lemma literalNamed_spec body step index :
  ParseInt (trim_prefix step "func") 64 = Ok index →
  literalNamed body step = if (index <? 1)%Z then None else literals_of body !! Z.to_nat (index - 1).
Proof.
  intros Hp. unfold literalNamed. rewrite Hp. destruct (Z.ltb_spec index 1); [done|].
  by destruct (counted_inspect index body (None, 0%Z) [] ltac:(lia) ltac:(split; cbn; [done|lia])) as [-> _].
Qed.

(** In a literal it is not: the inspection starts at the literal itself, so the first step
    into one names it again, and a second names nothing. *)
Lemma a_literal_within_a_literal parts n :
  literalNamed (FuncLit parts) "1" = Some (FuncLit parts) ∧
  literalNamed (FuncLit parts) "2" = None ∧
  literals_of (Other [FuncLit [n]; FuncLit parts]) !! 1 = Some (FuncLit parts).
Proof. by split_and!. Qed.

(** A method on a pointer is found by the name of its value; one on a value is not, and
    neither is a method on a pointer to a generic type. *)
Lemma methods_found body :
  let found recv name :=
    bodyOf {[ "app" := MkPackage "app" "app" [Other [FuncDecl "Get" (Some 1) (Some recv) [] (Some body)]] ]}
      (MkFuncPath "app" (splitSteps name)) in
  found (RStar (RIdent "Service")) "(*Service).Get-fm" = Some body ∧
  found (RIdent "Service") "Service.Get-fm" = None ∧
  found (RStar (RIndex (RIdent "Service"))) "(*Service[...]).Get-fm" = None.
Proof. by split_and!. Qed.
