(* ===== verification/References.v ===== *)
(** * Which resources a handler reaches

    Models [cmd/celerity-go/references.go], the static pass of extraction, and the merging of
    what it finds into a manifest ([cmd/celerity-go/extract.go]).  The pass is two fixed
    points: what holds a resource is gathered over the whole source until nothing more is
    learnt, and what a handler reaches is gathered over the bodies its calls lead to.  The
    packages are loaded and type checked by [go/packages]: an object's declaration, and the
    methods a type has, are parameters. *)

From S2P Require Import Prelude GoStrings Json Errors Registry Manifest GoSyntax.
From stdpp Require Import options.

(** ** Objects *)

Record object : Type := MkObject {
  obj_name : string;
  obj_pkg : option string;        (* the path of its package, where it has one *)
  is_func : bool;                 (* a declared function or method *)
  func_typed : bool;              (* its type is a function *)
  params : list obj;
  variadic : bool;
  on_interface : option nat;      (* the interface it is a method of *)
  named_type : bool;              (* a named type that is no interface *)
}.

Definition resourceKinds : gmap string string :=
  list_to_map [("Bucket", "bucket"); ("Queue", "queue"); ("Topic", "topic"); ("Cache", "cache");
               ("Datastore", "datastore"); ("SQLDatabase", "sqlDatabase")].
Definition resourcesPackage : string := "github.com/newstack-cloud/celerity-go-sdk/resources".
Definition defaultResourceName : string := "default".
Definition mainPackage : string := "main".

Record resolver : Type := MkResolver {
  handles : gmap obj (gset string);
  bodies : gmap obj node;
  aliases : gmap obj obj;
  produced : gmap obj obj;
}.
Definition newResolver : resolver := MkResolver ∅ ∅ ∅ ∅.

(** ** What an expression names *)

(** [objectOf]: what is assigned to. *)
Definition objectOf (e : node) : option obj :=
  match e with
  | Ident (Some def) _ => Some def
  | Ident None use | Selector _ use => use
  | _ => None
  end.

(** [referenced]: what is read. *)
Definition referenced (e : node) : option obj :=
  match e with Ident _ use | Selector _ use => use | _ => None end.

(** The expressions a body returns, but not those of a literal inside it. *)
Definition returned_by (n : node) (out : list node) : bool * list node :=
  match n with
  | FuncLit _ => (false, out)
  | ReturnStmt results => (true, out ++ results)
  | _ => (true, out)
  end.
Definition returnedExprs (body : node) : list node := inspect returned_by body [].

Section resolver.
Context (objects : obj → object).
(** The scopes of the loaded packages, whether a type or a pointer to it satisfies an
    interface, and the method of a name either has. *)
Context (scopes : list (list obj)) (Implements : bool → obj → nat → bool)
  (LookupMethod : bool → obj → string → option obj).

Definition not_constant (pos name : string) : error := EString (
  pos +:+ ": the name given to resources." +:+ name +:+ " is not a constant, so extraction " +:+
  "cannot tell which resource it is." +:+ newline +:+ "Name it with a literal or a " +:+
  "constant, or declare it with celerity.Uses on the handler").

(** [constructed]: the resource a constructor's call answers with. *)
Definition constructed (e : node) : result error (option string) :=
  match e with
  | CallExpr pos (Selector _ (Some fn)) args name =>
      let o := objects fn in
      if negb o.(is_func) || negb (bool_decide (o.(obj_pkg) = Some resourcesPackage)) then Ok None
      else match resourceKinds !! o.(obj_name) with
           | None => Ok None
           | Some kind =>
               if length args <? 2 then Ok (Some (kind +:+ "/" +:+ defaultResourceName))
               else match name with
                    | Some name => Ok (Some (kind +:+ "/" +:+ name))
                    | None => Err (not_constant pos o.(obj_name))
                    end
           end
  | _ => Ok None
  end.

(** [calledFunc]: a function, or the one behind an alias. *)
Definition calledFunc (r : resolver) (fn : node) : option obj :=
  o ← referenced fn;
  if (objects o).(is_func) then Some o else r.(aliases) !! o.

(** [held] and [returned]; the fuel is the functions whose returns are not being read. *)
Fixpoint held_by (fuel : nat) (r : resolver) (resolving : gset obj) (e : node) :
    result error (gset string) :=
  match constructed e with
  | Err err => Err err
  | Ok (Some ref) => Ok {[ ref ]}
  | Ok None =>
      match referenced e with
      | Some o => Ok (default ∅ (r.(handles) !! o))
      | None =>
          match e with
          | CallExpr _ fn _ _ =>
              match calledFunc r fn with
              | None => Ok ∅
              | Some f =>
                  if bool_decide (f ∈ resolving) then Ok ∅
                  else match r.(bodies) !! f, fuel with
                       | Some body, S fuel =>
                           foldl (λ acc e, let! acc := acc in
                                           let! refs := held_by fuel r ({[ f ]} ∪ resolving) e in
                                           Ok (acc ∪ refs))
                             (Ok ∅) (returnedExprs body)
                       | _, _ => Ok ∅
                       end
              end
          | _ => Ok ∅
          end
      end
  end.
Definition held (r : resolver) (e : node) : result error (gset string) :=
  held_by (size r.(bodies)) r ∅ e.

(** ** Gathering what holds a resource *)

Definition with_handles (m : gmap obj (gset string)) (r : resolver) : resolver :=
  MkResolver m r.(bodies) r.(aliases) r.(produced).

(** [note]. *)
Definition note (o : option obj) (refs : gset string) (r : resolver) : resolver :=
  match o with
  | Some o => if bool_decide (refs = ∅) then r
              else with_handles (<[o := default ∅ (r.(handles) !! o) ∪ refs]> r.(handles)) r
  | None => r
  end.

(** [noteFunction]. *)
Definition noteFunction (target value : node) (r : resolver) : resolver :=
  match objectOf target with
  | None => r
  | Some o =>
      if negb (objects o).(func_typed) then r
      else match value with
           | CallExpr _ fn _ _ =>
               match calledFunc r fn with
               | Some f => MkResolver r.(handles) r.(bodies) r.(aliases) (<[o := f]> r.(produced))
               | None => r
               end
           | _ =>
               match referenced value with
               | Some f => if (objects f).(is_func)
                           then MkResolver r.(handles) r.(bodies) (<[o := f]> r.(aliases)) r.(produced)
                           else r
               | None => r
               end
           end
  end.

(** Steps taken one after another, of which any may fail. *)
Definition step : Type := resolver → result error resolver.
Definition in_turn {A} (f : A → step) (l : list A) : step := λ r,
  foldl (λ r a, let! r := r in f a r) (Ok r) l.

(** One name and the value it is given. *)
Definition assign (target value : node) : step := λ r,
  let! refs := held r value in
  Ok (noteFunction target value (note (objectOf target) refs r)).

(** [collectResults]: the value is read once, and every name is given what it holds. *)
Definition collectResults (targets : list node) (value : node) : step := λ r,
  let! refs := held r value in
  Ok (foldl (λ r target, noteFunction target value (note (objectOf target) refs r)) r targets).

Definition collectAssignment (lhs rhs : list node) : step := λ r,
  match rhs with
  | [value] => if 1 <? length lhs then collectResults lhs value r
               else in_turn (λ '(t, v), assign t v) (zip lhs rhs) r
  | _ => if length lhs =? length rhs then in_turn (λ '(t, v), assign t v) (zip lhs rhs) r
         else Ok r
  end.

(** [collectLiteral]: what a field is given. *)
Definition set_field (e : node) : step := λ r,
  match e with
  | KeyValueExpr key value =>
      let! refs := held r value in
      Ok (match key with Ident _ use => note use refs r | _ => r end)
  | _ => Ok r
  end.
Definition collectLiteral (elts : list node) : step := in_turn set_field elts.

(** [collectCall]: what a parameter is given; a variadic one lines up with no argument. *)
Definition fixed_params (f : obj) : list obj :=
  let o := objects f in if o.(variadic) then take (length o.(params) - 1) o.(params) else o.(params).
Definition bind_param (given : obj * node) : step := λ r,
  let! refs := held r given.2 in Ok (note (Some given.1) refs r).
Definition collectCall (fn : node) (args : list node) : step := λ r,
  match calledFunc r fn with
  | None => Ok r
  | Some f =>
      in_turn bind_param (zip (fixed_params f) args) r
  end.

(** One node of [collectFile]. *)
Definition collect_node (n : node) : step := λ r,
  match n with
  | FuncDecl _ (Some o) _ _ (Some body) =>
      Ok (MkResolver r.(handles) (<[o := body]> r.(bodies)) r.(aliases) r.(produced))
  | AssignStmt lhs rhs | ValueSpec lhs rhs => collectAssignment lhs rhs r
  | CompositeLit elts => collectLiteral elts r
  | CallExpr _ fn args _ => collectCall fn args r
  | _ => Ok r
  end.

(** [collectFile]: nothing more is looked at once something has failed. *)
Definition collectFile (file : node) : step := λ r,
  inspect (λ n s, match s with
                  | Err err => (false, Err err)
                  | Ok r => (true, collect_node n r)
                  end) file (Ok r).

Definition refCount (r : resolver) : nat :=
  map_fold (λ _ refs n, size refs + n) (size r.(aliases) + size r.(produced)) r.(handles).

(** [collectHandles]: passes over the files, each in the order it meets them in, until one
    has learnt nothing; the fuel is the passes. *)
Fixpoint collectHandles (fuel : nat) (order : nat → list node) (r : resolver) :
    option (result error resolver) :=
  match fuel with
  | O => None
  | S fuel =>
      match in_turn collectFile (order 0) r with
      | Err err => Some (Err err)
      | Ok r' => if refCount r' =? refCount r then Some (Ok r')
                 else collectHandles fuel (order ∘ S) r'
      end
  end.

(** ** What a body reaches *)

(** [behind]: the function a variable holds, or the one that answered with what it holds. *)
Definition behind (r : resolver) (o : obj) : option obj :=
  match r.(aliases) !! o with Some f => Some f | None => r.(produced) !! o end.

(** [satisfying]: the methods a type puts behind an interface's. *)
Definition satisfying (iface : nat) (fn t : obj) : list obj :=
  if (objects t).(named_type) then
    omap (λ pointer, if Implements pointer t iface
                     then LookupMethod pointer t (objects fn).(obj_name) else None) [false; true]
  else [].
(** [implementations]. *)
Definition implementations (iface : nat) (fn : obj) : list obj :=
  mjoin scopes ≫= satisfying iface fn.

(** What [followInterface] walks: the application's methods behind an interface's. *)
Definition behind_interface (o : obj) : list obj :=
  let fn := objects o in
  match fn.(on_interface) with
  | Some iface => if fn.(is_func) && is_some fn.(obj_pkg) then implementations iface o else []
  | None => []
  end.

(** The name of a resource a reference names: what follows its kind. *)
Definition name_of (ref : string) : string :=
  match cut "/" ref with Some (_, name) => name | None => "" end.

(** [record]. *)
Definition record_ (r : resolver) (use : option obj) (found : gset string) : gset string :=
  match use with
  | Some o => found ∪ set_map name_of (default ∅ (r.(handles) !! o))
  | None => found
  end.

(** What has been found, and what has been visited. *)
Definition reached : Type := gset string * gset obj.
Definition visit (o : obj) (s : reached) : reached := (s.1, {[ o ]} ∪ s.2).

(** [walk], [follow] and [followInterface]; the fuel is the functions not yet visited. *)
Section walk.
Context (r : resolver) (walk : node → reached → reached).

(** The body of a function that has just been visited, if it has one here. *)
Definition walk_body (o : obj) (s : reached) : reached :=
  match r.(bodies) !! o with Some body => walk body s | None => s end.
Definition followInterface (o : obj) (s : reached) : reached :=
  foldl (λ s m, if bool_decide (m ∈ s.2) then s else walk_body m (visit m s)) s (behind_interface o).
Definition follow (fn : node) (s : reached) : reached :=
  match referenced fn with
  | None => s
  | Some o =>
      if bool_decide (o ∈ s.2) then s
      else let s := visit o s in
           match r.(bodies) !! o with
           | Some body => walk body s
           | None =>
               match behind r o with
               | Some f =>
                   if bool_decide (f ∈ s.2) then followInterface o s
                   else let s := visit f s in
                        match r.(bodies) !! f with
                        | Some body => walk body s
                        | None => followInterface o s
                        end
               | None => followInterface o s
               end
           end
  end.
Definition walk_node (n : node) (s : reached) : reached :=
  match n with
  | Ident _ use | Selector _ use => (record_ r use s.1, s.2)
  | CallExpr _ fn _ _ => follow fn s
  | _ => s
  end.
End walk.

Fixpoint walk (fuel : nat) (r : resolver) (body : node) (s : reached) : reached :=
  match fuel with
  | O => s
  | S fuel => inspect (λ n s, (true, walk_node r (walk fuel r) n s)) body s
  end.

(** The objects a body calls, all that following one may visit, and all that following any
    of a body's or of a known body's may. *)
Definition callees (body : node) : list obj :=
  omap (λ n, match n with CallExpr _ fn _ _ => referenced fn | _ => None end) (subnodes body).
Definition lead_to (r : resolver) (o : obj) : list obj :=
  o :: option_list (behind r o) ++ behind_interface o.
Definition visitable (r : resolver) (body : node) : gset obj :=
  list_to_set ((body :: (map_to_list r.(bodies)).*2) ≫= λ b, callees b ≫= lead_to r).

(** [reach]: nothing where the handler is in a package that was not loaded. *)
Definition reach (r : resolver) (loaded : gmap string package) (handler : string) :
    result error (list string) :=
  match parseFuncPath handler with
  | Err err => Err (EWrap ("reading the handler name " +:+ go_quote handler +:+ ": " +:+ error_text err) err)
  | Ok path =>
      match bodyOf loaded path with
      | None => Ok []
      | Some body => Ok (sort_strings (elements (walk (S (size (visitable r body))) r body (∅, ∅)).1))
      end
  end.

(** [newResolver]'s packages: a main package is known by that name as well. *)
Definition load (pkgs : list package) : gmap string package :=
  foldl (λ loaded p,
    let loaded := <[p.(PkgPath) := p]> loaded in
    if bool_decide (p.(PkgName) = mainPackage) then <[mainPackage := p]> loaded else loaded) ∅ pkgs.

Fixpoint reach_all (r : resolver) (loaded : gmap string package) (handlers : list string) :
    result error (gmap string (list string)) :=
  match handlers with
  | [] => Ok ∅
  | handler :: handlers =>
      let! names := reach r loaded handler in
      let! resolved := reach_all r loaded handlers in
      Ok (match names with [] => resolved | _ => <[handler := names]> resolved end)
  end.

(** [resolveReferences], of packages that loaded. *)
Definition resolveReferences (fuel : nat) (order : nat → list node) (pkgs : list package)
    (handlers : list string) : option (result error (gmap string (list string))) :=
  r ← collectHandles fuel order newResolver;
  Some (let! r := r in reach_all r (load pkgs) handlers).
End resolver.

(** ** Into the manifest *)

(** [handlerPaths]. *)
Definition handlerPaths (m : Manifest) : list string :=
  filter (λ p, p ≠ "") (HandlerFuncPath <$> m.(FunctionHandlers)).

(** [declared], of a manifest that has been through JSON. *)
Definition declared (h : FunctionHandler) : list string :=
  match h.(Annotations) !! AnnotationResourceRef with
  | Some (JArr names) => omap (λ j, match j with JStr s => Some s | _ => None end) names
  | _ => []
  end.

Definition merge_handler (found : gmap string (list string)) (h : FunctionHandler) : FunctionHandler :=
  let names := foldl (λ names name, if bool_decide (name ∈ names) then names else names ++ [name])
                 (declared h) (default [] (found !! h.(HandlerFuncPath))) in
  let names := sort_strings names in
  MkFunctionHandler h.(ResourceName) h.(ExportName) h.(HandlerSource)
    (match names with
     | [] => h.(Annotations)
     | _ => <[AnnotationResourceRef := strings names]> h.(Annotations)
     end) h.(HandlerSpec) "".

(** [merge]. *)
Definition merge (found : gmap string (list string)) (m : Manifest) : Manifest :=
  MkManifest m.(ManifestVersion) (merge_handler found <$> m.(FunctionHandlers)) m.(LinkedAdapters)
    m.(LinkedResourceProviders).

(** What a handler declared is kept beside what was found of it, and nothing else of its
    annotations is touched. *)
Lemma merge_handler_spec found h :
  (∀ name, name ∈ declared (merge_handler found h) ↔
    name ∈ declared h ∨ name ∈ default [] (found !! h.(HandlerFuncPath))) ∧
  StronglySorted String.le (declared (merge_handler found h)) ∧
  (∀ key, key ≠ AnnotationResourceRef →
    (merge_handler found h).(Annotations) !! key = h.(Annotations) !! key) ∧
  (merge_handler found h).(HandlerFuncPath) = "".
Proof.
  unfold merge_handler. cbn zeta. set (reached := default [] _).
  set (names := foldl _ (declared h) reached).
  assert (∀ name, name ∈ names ↔ name ∈ declared h ∨ name ∈ reached) as Hnames.
  { subst names. generalize (declared h) as l. induction reached as [|x xs IH]; intros l name; cbn.
    - rewrite elem_of_nil. naive_solver.
    - rewrite IH, elem_of_cons. case_bool_decide; [|rewrite elem_of_app, list_elem_of_singleton]; naive_solver. }
  assert (declared (MkFunctionHandler h.(ResourceName) h.(ExportName) h.(HandlerSource)
    match sort_strings names with
    | [] => h.(Annotations)
    | _ => <[AnnotationResourceRef := strings (sort_strings names)]> h.(Annotations)
    end h.(HandlerSpec) "") = sort_strings names) as ->.
  { destruct (sort_strings names) as [|x xs] eqn:Hs; unfold declared; cbn [Annotations].
    - assert (names = []) as Hnil by (apply Permutation_nil_r; by rewrite <- Hs, sort_strings_perm).
      destruct (declared h) as [|d ds] eqn:Hd; [exact Hd|]. exfalso.
      rewrite Hnil in Hnames. by apply (not_elem_of_nil d), Hnames; left; left.
    - rewrite lookup_insert_eq. unfold strings. generalize (x :: xs) as l.
      induction l as [|y l IH]; [done|]. cbn. by rewrite IH. }
  split_and!; [|apply sort_strings_sorted| |done].
  - intros name. by rewrite elem_of_sort_strings.
  - intros key Hk. cbn [Annotations]. destruct (sort_strings names); [done|]. by apply lookup_insert_ne.
Qed.

(** ** The fuel of [held] is enough *)

Implicit Type r : resolver.

(** A sum of results taken in turn. *)
Lemma union_ext {A} (f g : A → result error (gset string)) l acc :
  (∀ a, a ∈ l → f a = g a) →
  foldl (λ acc e, let! acc := acc in let! refs := f e in Ok (acc ∪ refs)) acc l =
  foldl (λ acc e, let! acc := acc in let! refs := g e in Ok (acc ∪ refs)) acc l.
Proof.
  revert acc. induction l as [|a l IH]; intros acc H; [done|]. cbn. rewrite (H a) by left.
  apply IH. intros. apply H. by right.
Qed.

(** Functions not yet being read, of those that have a body. *)
Definition unread r (resolving : gset obj) : nat := size (dom r.(bodies) ∖ resolving).

Lemma unread_less r resolving f :
  f ∉ resolving → is_Some (r.(bodies) !! f) → unread r ({[ f ]} ∪ resolving) < unread r resolving.
Proof.
  intros Hf Hb. unfold unread. apply subset_size. apply elem_of_dom in Hb. set_solver.
Qed.

Section facts.
Context (objects : obj → object).

Lemma held_by_enough r e n1 n2 resolving :
  unread r resolving ≤ n1 → unread r resolving ≤ n2 →
  held_by objects n1 r resolving e = held_by objects n2 r resolving e.
Proof.
  revert n2 resolving e. induction n1 as [|n1 IH]; intros n2 resolving e H1 H2; destruct n2 as [|n2];
    cbn [held_by]; try done.
  all: destruct (constructed objects e) as [[ref|]|]; try done.
  all: destruct (referenced e); [done|]; destruct e; try done.
  all: destruct (calledFunc _ _ _) as [f|]; [|done]; case_bool_decide as Hf; [done|].
  all: destruct (bodies r !! f) as [body|] eqn:Hb; [|done].
  all: pose proof (unread_less r resolving f Hf ltac:(eauto)); try lia.
  apply union_ext. intros a _. apply IH; lia.
Qed.

(** However deep calls are read through, fuel past the functions declared changes nothing. *)
Lemma held_total r e fuel : size r.(bodies) ≤ fuel → held_by objects fuel r ∅ e = held objects r e.
Proof.
  intros Hf. apply held_by_enough; unfold unread; rewrite difference_empty_L, size_dom; done.
Qed.

(** What an expression holds depends on what is known, not on how it came to be. *)
Definition holding r (o : obj) : gset string := default ∅ (r.(handles) !! o).
Definition agree r r' : Prop :=
  (∀ o, holding r o = holding r' o) ∧ r.(bodies) = r'.(bodies) ∧ r.(aliases) = r'.(aliases).

Lemma calledFunc_agree r r' fn : agree r r' → calledFunc objects r fn = calledFunc objects r' fn.
Proof. intros (_ & _ & Ha). unfold calledFunc. by rewrite Ha. Qed.

Lemma held_agree r r' e : agree r r' → held objects r e = held objects r' e.
Proof.
  intros H. pose proof H as (Hh & Hb & _). unfold held. rewrite Hb.
  generalize (size r'.(bodies)) as fuel, (∅ : gset obj) as resolving. intros fuel. revert e.
  induction fuel as [|fuel IH]; intros e resolving; cbn [held_by]; rewrite Hb.
  all: destruct (constructed objects e) as [[ref|]|]; try done.
  all: destruct (referenced e) as [o|]; [f_equal; apply Hh|]; destruct e; try done.
  all: rewrite (calledFunc_agree _ _ _ H); destruct (calledFunc _ _ _) as [f|]; [|done].
  all: case_bool_decide; [done|]; destruct (bodies r' !! f); [|done].
  all: try done. apply union_ext. intros; apply IH.
Qed.
End facts.
