(* ===== verification/Gathering.v ===== *)
(** * What gathering learns

    The fixed point of [References.collectHandles]: it ends, whatever the source, since what
    can be learnt is finite and every pass but the last learns some of it; and once it has
    ended, everything the source gives a name is held by it, unless the first pass learnt
    nothing. *)

From S2P Require Import Prelude GoStrings Json Errors GoSyntax References.
From stdpp Require Import options.

(** ** Steps in turn *)

Section in_turn.
Context {A : Type} (f : A → step).

Lemma in_turn_err l e :
  foldl (λ r a, let! r := r in f a r) (Err e) l = (Err e : result error resolver).
Proof. by induction l. Qed.

Lemma in_turn_cons a l r : in_turn f (a :: l) r = let! r := f a r in in_turn f l r.
Proof. unfold in_turn. cbn. destruct (f a r); [done|apply in_turn_err]. Qed.

Lemma in_turn_app l1 l2 r :
  in_turn f (l1 ++ l2) r = let! r := in_turn f l1 r in in_turn f l2 r.
Proof.
  revert r. induction l1 as [|a l1 IH]; intros r; [done|].
  rewrite <- app_comm_cons, !in_turn_cons. destruct (f a r); [|done]. apply IH.
Qed.

(** One step of those taken, between what came before it and what came after. *)
Lemma in_turn_split a l r r' :
  a ∈ l → in_turn f l r = Ok r' →
  ∃ l1 l2 s s', l = l1 ++ a :: l2 ∧ in_turn f l1 r = Ok s ∧ f a s = Ok s' ∧ in_turn f l2 s' = Ok r'.
Proof.
  intros (l1 & l2 & ->)%list_elem_of_split. rewrite in_turn_app.
  destruct (in_turn f l1 r) as [s|e] eqn:Hs; [|done]. rewrite in_turn_cons.
  destruct (f a s) as [s'|e] eqn:Hs'; [|done]. intros H. eauto 10.
Qed.

(** What one step keeps and relates, all of them do. *)
Lemma in_turn_kept (I : resolver → Prop) (R : resolver → resolver → Prop) `{!PreOrder R} l r r' :
  (∀ a r r', a ∈ l → I r → f a r = Ok r' → I r' ∧ R r r') →
  I r → in_turn f l r = Ok r' → I r' ∧ R r r'.
Proof.
  revert r. induction l as [|a l IH]; intros r Hf Hr; [by intros [= <-]|].
  rewrite in_turn_cons. destruct (f a r) as [s|e] eqn:Hs; [|done]. intros H.
  destruct (Hf a r s) as [Hi Hrs]; [left|done|done|].
  destruct (IH s) as [Hi' Hrs']; [intros; eapply Hf; [right|..]; done|done|done|].
  split; [done|]. by etransitivity.
Qed.
End in_turn.

Lemma collectFile_nodes objects file r :
  collectFile objects file r = in_turn (collect_node objects) (subnodes file) r.
Proof.
  unfold collectFile. rewrite (inspect_ext _
    (λ n s, if negb (is_ok s) then (false, s) else (true, let! r := s in collect_node objects n r)))
    by (by intros n [?|?]).
  rewrite inspect_until. unfold in_turn. generalize (Ok r : result error resolver).
  induction (subnodes file) as [|n ns IH]; intros s; [done|]. cbn. rewrite IH. by destruct s.
Qed.

(** A pass is one step for each node of its files. *)
Lemma pass_nodes objects files r :
  in_turn (collectFile objects) files r = in_turn (collect_node objects) (files ≫= subnodes) r.
Proof.
  revert r. induction files as [|f fs IH]; intros r; [done|].
  rewrite in_turn_cons, collectFile_nodes, bind_cons, in_turn_app.
  destruct (in_turn _ (subnodes f) r); [apply IH|done].
Qed.

(** ** What can be learnt *)

(** One state knows no more than another. *)
Record grows (r r' : resolver) : Prop := {
  grows_holding o : holding r o ⊆ holding r' o;
  grows_aliases : dom r.(aliases) ⊆ dom r'.(aliases);
  grows_produced : dom r.(produced) ⊆ dom r'.(produced);
  grows_bodies : dom r.(bodies) ⊆ dom r'.(bodies);
}.
#[export] Instance grows_preorder : PreOrder grows.
Proof.
  split; [by intros r|]. intros r1 r2 r3 [H1 H2 H3 H4] [H1' H2' H3' H4'].
  split; [intros o; by rewrite H1|by rewrite H2|by rewrite H3|by rewrite H4].
Qed.

Lemma holding_note r o refs p :
  holding (note o refs r) p = if bool_decide (o = Some p) then holding r p ∪ refs else holding r p.
Proof.
  unfold note, holding. destruct o as [o|]; [|done]. case_bool_decide as He.
  - subst refs. case_bool_decide; [set_solver|done].
  - cbn. destruct (decide (o = p)) as [->|Hne].
    + rewrite lookup_insert_eq, bool_decide_true by done. done.
    + rewrite lookup_insert_ne, bool_decide_false by congruence. done.
Qed.

Lemma holding_noteFunction objects t v r p : holding (noteFunction objects t v r) p = holding r p.
Proof. unfold noteFunction. repeat case_match; done. Qed.

Lemma note_grows r o refs : grows r (note o refs r).
Proof.
  split.
  - intros p. rewrite holding_note. case_bool_decide; set_solver.
  - unfold note. destruct o; [|done]. by case_bool_decide.
  - unfold note. destruct o; [|done]. by case_bool_decide.
  - unfold note. destruct o; [|done]. by case_bool_decide.
Qed.

(** ** What is counted *)

Definition weight (k : nat) (m : gmap obj (gset string)) : nat :=
  map_fold (λ _ refs n, size refs + n) k m.

Lemma weight_insert k m o refs :
  m !! o = None → weight k (<[o:=refs]> m) = size refs + weight k m.
Proof. intros Ho. unfold weight. rewrite map_fold_insert_L; [done| |done]. intros; lia. Qed.

Lemma weight_delete k m o : weight k m = size (default ∅ (m !! o)) + weight k (delete o m).
Proof.
  destruct (m !! o) as [refs|] eqn:Ho; cbn.
  - rewrite <- (insert_delete_id m o refs Ho) at 1. by rewrite weight_insert by apply lookup_delete_eq.
  - by rewrite delete_id, size_empty.
Qed.

Lemma weight_le k m : k ≤ weight k m.
Proof.
  unfold weight. apply (map_fold_weak_ind (λ n _, k ≤ n)); [done|]. intros; lia.
Qed.

(** A count grows with what is known, and only with it. *)
Lemma weight_grows m1 m2 k1 k2 :
  (∀ o, default ∅ (m1 !! o) ⊆ default ∅ (m2 !! o)) → k1 ≤ k2 →
  weight k1 m1 ≤ weight k2 m2 ∧
  (weight k1 m1 = weight k2 m2 → k1 = k2 ∧ ∀ o, default ∅ (m1 !! o) = default ∅ (m2 !! o)).
Proof.
  intros Hm Hk. revert m2 Hm. induction m1 as [|o refs m1 Ho IH] using map_ind; intros m2 Hm.
  - pose proof (weight_le k2 m2). unfold weight at 1 3. rewrite map_fold_empty.
    split; [lia|]. intros Heq. split; [lia|]. intros o. rewrite lookup_empty. cbn.
    rewrite (weight_delete k2 m2 o) in Heq. pose proof (weight_le k2 (delete o m2)).
    symmetry. apply leibniz_equiv, size_empty_iff. lia.
  - rewrite weight_insert, (weight_delete k2 m2 o) by done.
    pose proof (Hm o) as Hr. rewrite lookup_insert_eq in Hr. cbn in Hr.
    pose proof (subseteq_size _ _ Hr).
    destruct (IH (delete o m2)) as [Hle Heq].
    { intros p. specialize (Hm p). destruct (decide (o = p)) as [<-|Hne].
      - rewrite Ho. cbn. apply empty_subseteq.
      - by rewrite lookup_insert_ne in Hm; rewrite ?lookup_delete_ne. }
    split; [lia|]. intros H'. destruct Heq as [-> Heq]; [lia|]. split; [done|]. intros p.
    destruct (decide (o = p)) as [<-|Hne].
    + rewrite lookup_insert_eq. cbn. apply set_subseteq_size_eq; [done|lia].
    + rewrite lookup_insert_ne by done. specialize (Heq p). by rewrite lookup_delete_ne in Heq.
Qed.

Lemma weight_bound k m (most : nat) :
  (∀ o, size (default ∅ (m !! o)) ≤ most) → weight k m ≤ k + size m * most.
Proof.
  induction m as [|o refs m Ho IH] using map_ind; intros Hm.
  - unfold weight. rewrite map_fold_empty. lia.
  - rewrite weight_insert, map_size_insert_None by done.
    pose proof (Hm o) as H. rewrite lookup_insert_eq in H. cbn in H.
    assert (weight k m ≤ k + size m * most); [|lia]. apply IH. intros p.
    destruct (decide (o = p)) as [<-|Hne]; [rewrite Ho; cbn; rewrite size_empty; lia|].
    specialize (Hm p). by rewrite lookup_insert_ne in Hm.
Qed.

Lemma grows_count r r' : grows r r' → refCount r ≤ refCount r'.
Proof.
  intros [H1 H2 H3 _]. apply subseteq_size in H2, H3. rewrite !size_dom in H2, H3.
  apply weight_grows; [exact H1|lia].
Qed.

(** A state that counts as much knows as much. *)
Lemma grows_same r r' :
  grows r r' → refCount r = refCount r' →
  (∀ o, holding r o = holding r' o) ∧ dom r.(aliases) = dom r'.(aliases) ∧
  dom r.(produced) = dom r'.(produced).
Proof.
  intros [H1 H2 H3 _] Heq. pose proof (subseteq_size _ _ H2) as S2. pose proof (subseteq_size _ _ H3) as S3.
  rewrite !size_dom in S2, S3.
  destruct (weight_grows r.(handles) r'.(handles)
    (size r.(aliases) + size r.(produced)) (size r'.(aliases) + size r'.(produced)) H1 ltac:(lia)) as [_ H].
  destruct (H Heq) as [Hk Hh]. split; [exact Hh|].
  split; apply set_subseteq_size_eq; try done; rewrite !size_dom; lia.
Qed.

Section program.
Context (objects : obj → object) (files : list node).

Definition nodes : list node := files ≫= subnodes.
(** The objects the source reads, the ones it may give something, and the resources it
    constructs. *)
Definition read : gset obj := list_to_set (omap referenced nodes).
Definition targets : gset obj :=
  list_to_set (omap objectOf nodes) ∪ read ∪
  list_to_set (elements read ≫= λ f, params (objects f)).
Definition made : gset string :=
  list_to_set (omap (λ n, match constructed objects n with Ok ref => ref | Err _ => None end) nodes).

(** The names an assignment gives a value, each with the value it is given: one value may
    be given to several names. *)
Definition assigned_pairs (lhs rhs : list node) : list (node * node) :=
  match rhs with
  | [v] => if 1 <? length lhs then (λ t, (t, v)) <$> lhs else zip lhs rhs
  | _ => if length lhs =? length rhs then zip lhs rhs else []
  end.
Definition assigned (n : node) : list (node * node) :=
  match n with AssignStmt lhs rhs | ValueSpec lhs rhs => assigned_pairs lhs rhs | _ => [] end.
Definition paired (t v : node) : Prop := ∃ n, n ∈ nodes ∧ (t, v) ∈ assigned n.

(** The functions a variable is assigned, and the bodies a function is declared with. *)
Definition alias_of (o f : obj) : Prop :=
  ∃ t v, paired t v ∧ objectOf t = Some o ∧ referenced v = Some f ∧ is_func (objects f) = true.
Definition body_of (o : obj) (b : node) : Prop :=
  ∃ name recv parts, FuncDecl name (Some o) recv parts (Some b) ∈ nodes.

(** All that is known is of the source. *)
Record within (r : resolver) : Prop := {
  within_handles : dom r.(handles) ⊆ targets;
  within_holding o : holding r o ⊆ made;
  within_aliases : dom r.(aliases) ⊆ targets;
  within_produced : dom r.(produced) ⊆ targets;
  within_aliased o f : r.(aliases) !! o = Some f → alias_of o f;
  within_bodies o b : r.(bodies) !! o = Some b → body_of o b;
}.

Lemma nodes_children m n : n ∈ nodes → m ∈ children n → m ∈ nodes.
Proof.
  unfold nodes. rewrite !list_elem_of_bind. intros (f & Hn & Hf) Hm. exists f.
  eauto using subnodes_children.
Qed.

Lemma nodes_subnodes m n : n ∈ nodes → m ∈ subnodes n → m ∈ nodes.
Proof.
  unfold nodes. rewrite !list_elem_of_bind. intros (f & Hn & Hf) Hm. exists f.
  eauto using subnodes_trans.
Qed.

Lemma read_spec n o : n ∈ nodes → referenced n = Some o → o ∈ read.
Proof. intros. apply elem_of_list_to_set, list_elem_of_omap. eauto. Qed.

Lemma target_spec n o : n ∈ nodes → objectOf n = Some o → o ∈ targets.
Proof.
  intros. do 2 apply elem_of_union_l. apply elem_of_list_to_set, list_elem_of_omap. eauto.
Qed.

Lemma read_targets o : o ∈ read → o ∈ targets.
Proof. intros. apply elem_of_union_l, elem_of_union_r. done. Qed.

Lemma param_targets f p : f ∈ read → p ∈ fixed_params objects f → p ∈ targets.
Proof.
  intros Hf Hp. apply elem_of_union_r, elem_of_list_to_set, list_elem_of_bind.
  exists f. split; [|by apply elem_of_elements]. unfold fixed_params in Hp. cbv zeta in Hp.
  destruct (variadic _); [|done].
  rewrite <- (take_drop (length (params (objects f)) - 1) (params (objects f))), elem_of_app. by left.
Qed.

Lemma paired_nodes t v : paired t v → t ∈ nodes ∧ v ∈ nodes.
Proof.
  intros (n & Hn & Htv). pose proof (λ m, nodes_children m n Hn) as Hc.
  assert (∀ lhs rhs, (t, v) ∈ assigned_pairs lhs rhs → t ∈ lhs ∧ v ∈ rhs) as H.
  { intros lhs rhs. unfold assigned_pairs.
    assert ((t, v) ∈ zip lhs rhs → t ∈ lhs ∧ v ∈ rhs) as Hz
      by (intros; split; [by eapply elem_of_zip_l|by eapply elem_of_zip_r]).
    destruct rhs as [|v' [|v'' vs]]; case_match; try done; try (by intros ?%not_elem_of_nil).
    intros (t' & [= <- <-] & ?)%list_elem_of_fmap. split; [done|left]. }
  destruct n; cbn in *; try (by apply not_elem_of_nil in Htv).
  all: destruct (H _ _ Htv); split; apply Hc, elem_of_app; auto.
Qed.

Lemma alias_read o f : alias_of o f → f ∈ read.
Proof. intros (t & v & [_ Hv]%paired_nodes & _ & Hf & _). by eapply read_spec. Qed.

Lemma body_nodes o b : body_of o b → b ∈ nodes.
Proof.
  intros (name & recv & parts & Hn). eapply nodes_children; [exact Hn|].
  right. apply elem_of_app. right. left.
Qed.

Lemma made_spec n ref : n ∈ nodes → constructed objects n = Ok (Some ref) → ref ∈ made.
Proof.
  intros Hn H. apply elem_of_list_to_set, list_elem_of_omap. exists n. by rewrite H.
Qed.

(** ** Every step keeps to the source, and loses nothing *)

Lemma calledFunc_read r fn f :
  within r → fn ∈ nodes → calledFunc objects r fn = Some f → f ∈ read.
Proof.
  intros Hr Hn. unfold calledFunc. destruct (referenced fn) as [o|] eqn:Ho; [|done]. cbn.
  destruct (is_func _); [|intros; by eapply alias_read, within_aliased]. intros [= <-]. by eapply read_spec.
Qed.

Lemma returnedExprs_nodes body e : body ∈ nodes → e ∈ returnedExprs body → e ∈ nodes.
Proof.
  intros Hb. unfold returnedExprs. revert e.
  apply (inspect_inv (λ out, ∀ e, e ∈ out → e ∈ nodes)); [|by intros e ?%not_elem_of_nil].
  intros m out Hm Hout e. destruct m; cbn; try apply Hout.
  rewrite elem_of_app. intros [?|He]; [auto|]. eapply (nodes_children _ (ReturnStmt _)); [|exact He].
  by eapply nodes_subnodes.
Qed.

Lemma union_made (f : node → result error (gset string)) l acc refs :
  (∀ e refs, e ∈ l → f e = Ok refs → refs ⊆ made) → (∀ refs, acc = Ok refs → refs ⊆ made) →
  foldl (λ acc e, let! acc := acc in let! refs := f e in Ok (acc ∪ refs)) acc l = Ok refs →
  refs ⊆ made.
Proof.
  revert acc. induction l as [|a l IH]; intros acc Hf Hacc; [apply Hacc|].
  cbn. apply IH; [intros; eapply Hf; [by right|done]|].
  intros refs' H. destruct acc as [acc|]; [|done]. destruct (f a) as [refs_a|] eqn:Ha; [|done].
  injection H as <-. apply union_least; [by apply Hacc|]. eapply Hf; [left|done].
Qed.

Lemma held_made r e refs : within r → e ∈ nodes → held objects r e = Ok refs → refs ⊆ made.
Proof.
  intros Hr. unfold held. generalize (size r.(bodies)) as fuel, (∅ : gset obj) as resolving.
  intros fuel. revert e refs. induction fuel as [|fuel IH]; intros e refs resolving He; cbn [held_by].
  all: destruct (constructed objects e) as [[ref|]|] eqn:Hc; [intros [= <-]; apply singleton_subseteq_l;
    by eapply made_spec| |done].
  all: destruct (referenced e) as [o|]; [intros [= <-]; apply (within_holding _ Hr)|].
  all: destruct e; try (intros [= <-]; set_solver).
  all: destruct (calledFunc _ _ _) as [f|]; [|intros [= <-]; set_solver].
  all: case_bool_decide; [intros [= <-]; set_solver|].
  all: destruct (bodies r !! f) as [body|] eqn:Hb; [|intros [= <-]; set_solver].
  - intros [= <-]; set_solver.
  - apply union_made; [|intros ? [= <-]; set_solver].
    intros a refs' Ha. apply IH. eapply returnedExprs_nodes; [|done]. by eapply body_nodes, within_bodies.
Qed.

Lemma note_within r o refs :
  within r → (∀ p, o = Some p → p ∈ targets) → refs ⊆ made → within (note o refs r).
Proof.
  intros [H1 H2 H3 H4 H5 H6] Ho Hrefs.
  assert (∀ p, holding (note o refs r) p ⊆ made) as Hh.
  { intros p. rewrite holding_note. pose proof (H2 p). case_bool_decide; set_solver. }
  split; [|exact Hh|..]; unfold note; destruct o as [o|]; try done; case_bool_decide; try done.
  cbn. rewrite dom_insert. specialize (Ho o eq_refl). set_solver.
Qed.

Lemma noteFunction_kept r t v :
  within r → paired t v →
  within (noteFunction objects t v r) ∧ grows r (noteFunction objects t v r).
Proof.
  intros Hr Htv. pose proof (paired_nodes _ _ Htv) as [Ht Hv]. unfold noteFunction. destruct (objectOf t) as [o|] eqn:Ho; [|by split].
  assert (o ∈ targets) as Hot by by apply (target_spec t).
  destruct (func_typed _); cbn [negb]; [|by split].
  assert (∀ f, alias_of o f → within (MkResolver r.(handles) r.(bodies) (<[o:=f]> r.(aliases)) r.(produced)) ∧
    grows r (MkResolver r.(handles) r.(bodies) (<[o:=f]> r.(aliases)) r.(produced))) as Ha.
  { intros f Hf. destruct Hr as [H1 H2 H3 H4 H5 H6]. split; split; cbn; try done.
    - rewrite dom_insert. clear -H3 Hot. set_solver.
    - intros o' f' [[<- <-]|[_ ?]]%lookup_insert_Some; [done|eauto].
    - rewrite dom_insert. clear. set_solver. }
  destruct v; cbn [referenced]; try (by split).
  1,2: destruct use as [f|] eqn:Hf; [|by split]; destruct (is_func _) eqn:Hif; [|by split];
    subst; apply Ha; eexists _, _; by split_and!.
  destruct (calledFunc _ _ _) as [f|] eqn:Hf; [|by split].
  destruct Hr as [H1 H2 H3 H4 H5 H6]. split; split; cbn; try done.
  - rewrite dom_insert. clear -H4 Hot. set_solver.
  - rewrite dom_insert. clear. set_solver.
Qed.

(** What a step does of a state that is of the source. *)
Definition kept (f : step) : Prop :=
  ∀ r r', within r → f r = Ok r' → within r' ∧ grows r r'.

Lemma kept_in_turn {A} (f : A → step) l : (∀ a, a ∈ l → kept (f a)) → kept (in_turn f l).
Proof. intros Hf r r' Hr. apply in_turn_kept; [apply _| |done]. intros; by eapply Hf. Qed.

(** What is noted of a value that is read. *)
Lemma kept_note o v :
  (∀ p, o = Some p → p ∈ targets) → v ∈ nodes →
  kept (λ r, let! refs := held objects r v in Ok (note o refs r)).
Proof.
  intros Ho Hv r r' Hr. destruct (held _ r v) as [refs|] eqn:Hh; [|done]. intros [= <-].
  split; [|apply note_grows]. apply note_within; [done|done|]. by eapply held_made.
Qed.

Lemma give_kept t v refs r :
  within r → paired t v → refs ⊆ made →
  within (noteFunction objects t v (note (objectOf t) refs r)) ∧
  grows r (noteFunction objects t v (note (objectOf t) refs r)).
Proof.
  intros Hr Htv Hrefs. pose proof (paired_nodes _ _ Htv) as [Ht Hv].
  pose proof (note_grows r (objectOf t) refs) as Hg.
  destruct (noteFunction_kept (note (objectOf t) refs r) t v) as [Hw Hg']; [|done|].
  - apply note_within; [done| |done]. intros p Hp. by apply (target_spec t).
  - split; [done|]. by etransitivity.
Qed.

Lemma kept_assign t v : paired t v → kept (assign objects t v).
Proof.
  intros Htv r r' Hr. pose proof (paired_nodes _ _ Htv) as [_ Hv]. unfold assign.
  destruct (held _ r v) as [refs|] eqn:Hh; [|done].
  intros [= <-]. apply give_kept; try done. by eapply held_made.
Qed.

(** One value given to names in turn: each is given it, between two states. *)
Lemma give_all_kept ts v refs r :
  within r → (∀ t, t ∈ ts → paired t v) → refs ⊆ made →
  let r' := foldl (λ r t, noteFunction objects t v (note (objectOf t) refs r)) r ts in
  within r' ∧ grows r r' ∧ ∀ t o, t ∈ ts → objectOf t = Some o → refs ⊆ holding r' o.
Proof.
  cbn zeta. intros Hr Hts Hrefs. revert r Hr. induction ts as [|t ts IH]; intros r Hr.
  - split_and!; [done..|]. by intros ? ? ?%not_elem_of_nil.
  - cbn. destruct (give_kept t v refs r) as [Hw Hg]; [done|apply Hts; left|done|].
    destruct (IH ltac:(intros; apply Hts; by right) _ Hw) as (Hw' & Hg' & Hin).
    split_and!; [done|by etransitivity|]. intros t' o [->|Ht']%elem_of_cons Ho; [|by eapply Hin].
    etransitivity; [|apply Hg']. rewrite holding_noteFunction, Ho, holding_note, bool_decide_true by done.
    clear. set_solver.
Qed.

Lemma kept_results ts v :
  (∀ t, t ∈ ts → paired t v) → v ∈ nodes → kept (collectResults objects ts v).
Proof.
  intros Ht Hv r r' Hr. unfold collectResults. destruct (held _ r v) as [refs|] eqn:Hh; [|done].
  intros [= <-]. destruct (give_all_kept ts v refs r) as (? & ? & _); try done. by eapply held_made.
Qed.

Lemma kept_assignment lhs rhs :
  (∀ t v, (t, v) ∈ assigned_pairs lhs rhs → paired t v) → kept (collectAssignment objects lhs rhs).
Proof.
  intros Hp. assert (assigned_pairs lhs rhs = zip lhs rhs →
    kept (in_turn (λ '(t, v), assign objects t v) (zip lhs rhs))) as Hz.
  { intros Heq. apply kept_in_turn. intros [t v] Htv. apply kept_assign, Hp. by rewrite Heq. }
  unfold collectAssignment, assigned_pairs in *. destruct rhs as [|v [|v' vs]].
  - intros r r'. case_match; [by apply Hz|]. by intros ? [= <-].
  - destruct (1 <? length lhs) eqn:Hlen; intros r r'; [|by apply Hz].
    assert (∀ t, t ∈ lhs → paired t v) as Hp' by (intros; apply Hp, list_elem_of_fmap; eauto).
    apply kept_results; [done|]. destruct lhs as [|t lhs]; [done|].
    by destruct (paired_nodes t v ltac:(apply Hp'; left)).
  - intros r r'. case_match; [by apply Hz|]. by intros ? [= <-].
Qed.

Lemma kept_param f args given :
  f ∈ read → (∀ a, a ∈ args → a ∈ nodes) → given ∈ zip (fixed_params objects f) args →
  kept (bind_param objects given).
Proof.
  destruct given as [p a]. intros Hf Hargs Hpa. apply kept_note.
  - intros ? [= <-]. eapply param_targets; [done|by eapply elem_of_zip_l].
  - apply Hargs. by eapply elem_of_zip_r.
Qed.

Lemma kept_field e : e ∈ nodes → kept (set_field objects e).
Proof.
  intros He. destruct e as [| | |key value| | | | | | |]; try (by intros ? ? ? [= <-]).
  assert (∀ m, m = key ∨ m = value → m ∈ nodes) as Hkv.
  { intros m Hm. eapply (nodes_children _ (KeyValueExpr key value)); [done|]. clear -Hm. set_solver. }
  destruct key as [def use| | | | | | | | | |];
    try (intros s s' Hs; unfold set_field; destruct (held objects s value); [|done]; by intros [= <-]).
  apply kept_note; [|by auto]. intros p ->.
  eapply read_targets, read_spec; [apply Hkv; by left|done].
Qed.

Lemma kept_node n : n ∈ nodes → kept (collect_node objects n).
Proof.
  intros Hn. pose proof (λ m, nodes_children m n Hn) as Hc. intros r r' Hr.
  destruct n as [| |pos fn args name| |elts|lhs rhs|lhs rhs| | |name [o|] recv parts [body|]|];
    cbn [collect_node children] in *; try (by intros [= <-]).
  - unfold collectCall. destruct (calledFunc objects r fn) as [f|] eqn:Hf; [|by intros [= <-]].
    apply kept_in_turn; [|done]. intros given. apply (kept_param f args); [|intros; apply Hc; by right].
    eapply calledFunc_read; [done| |done]. apply Hc. left.
  - apply kept_in_turn; [|done]. intros e He. by apply kept_field, Hc.
  - apply kept_assignment; [|done]. intros t v Htv. eexists; split; [exact Hn|done].
  - apply kept_assignment; [|done]. intros t v Htv. eexists; split; [exact Hn|done].
  - intros [= <-]. destruct Hr as [H1 H2 H3 H4 H5 H6]. split; split; try done; cbn [bodies].
    + intros o' b [[<- <-]|[_ ?]]%lookup_insert_Some; [|eauto]. by eexists _, _, _.
    + rewrite dom_insert. clear. set_solver.
Qed.

(** A pass over files of the source. *)
Lemma kept_pass fs : (∀ f, f ∈ fs → f ∈ files) → kept (in_turn (collectFile objects) fs).
Proof.
  intros Hfs r r' Hr. rewrite pass_nodes. apply kept_in_turn; [|done].
  intros n (f & Hn & Hf)%list_elem_of_bind. apply kept_node.
  apply list_elem_of_bind. eauto.
Qed.

(** ** It ends *)

Lemma within_new : within newResolver.
Proof.
  split; cbn; try (intros o; rewrite ?lookup_empty); try done; rewrite ?dom_empty_L; try apply empty_subseteq.
Qed.

(** The most that can be known of a source. *)
Definition most : nat := size targets * (2 + size made).

Lemma within_most r : within r → refCount r ≤ most.
Proof.
  intros [H1 H2 H3 H4 _ _]. unfold refCount.
  change (map_fold _ ?k _) with (weight k r.(handles)).
  etransitivity; [apply (weight_bound _ _ (size made))|].
  - intros o. apply subseteq_size, H2.
  - apply subseteq_size in H1, H3, H4. rewrite size_dom in H1. rewrite size_dom in H3, H4. unfold most. nia.
Qed.

Lemma collecting_ends_from fuel order r :
  (∀ k f, f ∈ order k → f ∈ files) → within r → most < fuel + refCount r →
  ∃ a, collectHandles objects fuel order r = Some a.
Proof.
  revert order r. induction fuel as [|fuel IH]; intros order r Ho Hr Hf.
  - pose proof (within_most r Hr). lia.
  - cbn [collectHandles]. destruct (in_turn _ _ r) as [r'|e] eqn:Hp; [|eauto].
    destruct (kept_pass _ (Ho 0) r r' Hr Hp) as [Hr' Hg].
    destruct (Nat.eqb_spec (refCount r') (refCount r)); [eauto|].
    pose proof (grows_count _ _ Hg). apply IH; [intros k f; apply (Ho (S k))|done|lia].
Qed.

(** The number of passes that are enough for any source, in any order, is known before. *)
Lemma collecting_ends order :
  (∀ k f, f ∈ order k → f ∈ files) →
  ∃ a, collectHandles objects (S most) order newResolver = Some a.
Proof. intros Ho. apply collecting_ends_from; [done|apply within_new|lia]. Qed.

(** ** What it ends with *)

(** Each variable is assigned one function at most, and each function is declared once. *)
Definition aliased_once : Prop := ∀ o f f', alias_of o f → alias_of o f' → f = f'.
Definition declared_once : Prop := ∀ o b b', body_of o b → body_of o b' → b = b'.

(** Every body is known. *)
Definition complete r : Prop := ∀ o b, body_of o b → o ∈ dom r.(bodies).

(** The objects a node gives a value, each with the value. *)
Definition gives r (n : node) : list (option obj * node) :=
  match n with
  | AssignStmt lhs rhs | ValueSpec lhs rhs => (λ '(t, v), (objectOf t, v)) <$> assigned_pairs lhs rhs
  | CompositeLit elts =>
      omap (λ e, match e with KeyValueExpr (Ident _ use) v => Some (use, v) | _ => None end) elts
  | CallExpr _ fn args _ =>
      match calledFunc objects r fn with
      | Some f => (λ '(p, a), (Some p, a)) <$> zip (fixed_params objects f) args
      | None => []
      end
  | _ => []
  end.

(** What a node gives an object, the object holds. *)
Definition settled r (n : node) : Prop :=
  ∀ o v refs, (Some o, v) ∈ gives r n → held objects r v = Ok refs → refs ⊆ holding r o.

(** A step, between the states it is taken in. *)
Lemma kept_split {A} (f : A → step) l a r r' :
  (∀ a, a ∈ l → kept (f a)) → a ∈ l → within r → in_turn f l r = Ok r' →
  ∃ s s', f a s = Ok s' ∧ within s ∧ within s' ∧ grows r s ∧ grows s s' ∧ grows s' r'.
Proof.
  intros Hf Ha Hr H. destruct (in_turn_split f a l r r' Ha H) as (l1 & l2 & s & s' & -> & H1 & Hs & H2).
  destruct (kept_in_turn f l1 ltac:(intros; apply Hf, elem_of_app; by left) r s Hr H1) as [Hws Hrs].
  destruct (Hf a Ha s s' Hws Hs) as [Hws' Hss'].
  destruct (kept_in_turn f l2 ltac:(intros; apply Hf, elem_of_app; right; by right) s' r' Hws' H2) as [_ ?].
  exists s, s'. by split_and!.
Qed.

(** A step that notes what a value holds of an object. *)
Definition notes (f : step) (o : obj) (v : node) : Prop :=
  ∀ m m', within m → f m = Ok m' → ∃ refs, held objects m v = Ok refs ∧ refs ⊆ holding m' o.

Lemma notes_note o v : notes (λ r, let! refs := held objects r v in Ok (note (Some o) refs r)) o v.
Proof.
  intros m m' _. destruct (held objects m v) as [refs|]; [|done]. intros Hm.
  assert (note (Some o) refs m = m') as <- by congruence. exists refs. split; [done|].
  rewrite holding_note, bool_decide_true by done. clear. set_solver.
Qed.

Lemma notes_assign t v o : objectOf t = Some o → notes (assign objects t v) o v.
Proof.
  intros Ho m m' _. unfold assign. destruct (held objects m v) as [refs|]; [|done]. intros [= <-].
  exists refs. split; [done|]. rewrite holding_noteFunction, Ho, holding_note, bool_decide_true by done.
  clear. set_solver.
Qed.

Lemma notes_results ts t v o :
  (∀ t, t ∈ ts → paired t v) → t ∈ ts → objectOf t = Some o → notes (collectResults objects ts v) o v.
Proof.
  intros Hp Ht Ho m m' Hm. unfold collectResults. destruct (held objects m v) as [refs|] eqn:Hh; [|done].
  intros [= <-]. exists refs. split; [done|].
  destruct (paired_nodes t v (Hp t Ht)) as [_ Hv].
  destruct (give_all_kept ts v refs m Hm Hp) as (_ & _ & Hin); [by eapply held_made|]. by eapply Hin.
Qed.

Section last_pass.
Context (Ha : aliased_once) (Hd : declared_once) (r r' : resolver)
  (Hr : within r) (Hr' : within r') (Hc : complete r) (Heq : refCount r = refCount r').

Lemma between s : within s → grows r s → grows s r' → agree s r'.
Proof using Ha Hd Hr' Hc Heq.
  intros Hs Hrs Hsr. pose proof (grows_count _ _ Hrs). pose proof (grows_count _ _ Hsr).
  destruct (grows_same s r' Hsr ltac:(lia)) as (Hh & Hdom & _). split; [done|].
  split; apply map_eq; intros o.
  - destruct (bodies s !! o) as [b|] eqn:Hb, (bodies r' !! o) as [b'|] eqn:Hb'; try done.
    + f_equal. by apply (Hd o); [apply (within_bodies s)|apply (within_bodies r')].
    + apply elem_of_dom_2, (grows_bodies _ _ Hsr), elem_of_dom in Hb. rewrite Hb' in Hb. by destruct Hb.
    + apply (within_bodies _ Hr'), Hc, (grows_bodies _ _ Hrs), elem_of_dom in Hb'.
      rewrite Hb in Hb'. by destruct Hb'.
  - destruct (aliases s !! o) as [f|] eqn:Hf, (aliases r' !! o) as [f'|] eqn:Hf'; try done.
    + f_equal. by apply (Ha o); [apply (within_aliased s)|apply (within_aliased r')].
    + apply elem_of_dom_2 in Hf. rewrite Hdom, elem_of_dom, Hf' in Hf. by destruct Hf.
    + apply elem_of_dom_2 in Hf'. rewrite <- Hdom, elem_of_dom, Hf in Hf'. by destruct Hf'.
Qed.

(** What a step between the two notes of a value is held at the end. *)
Lemma noted_is_held f s s' o v refs :
  notes f o v → within s → f s = Ok s' → grows r s → grows s s' → grows s' r' →
  held objects r' v = Ok refs → refs ⊆ holding r' o.
Proof using Ha Hd Hr' Hc Heq.
  intros Hf Hs Hss' Hrs Hg Hsr' Hv. destruct (Hf s s' Hs Hss') as (refs' & Hh & Hsub).
  assert (grows s r') as Hsr by by etransitivity.
  rewrite (held_agree _ _ _ v (between s Hs Hrs Hsr)), Hv in Hh.
  injection Hh as <-. etransitivity; [exact Hsub|]. apply (grows_holding _ _ Hsr').
Qed.

Lemma in_turn_noted {A} (f : A → step) l a s s' o v refs :
  (∀ a, a ∈ l → kept (f a)) → a ∈ l → notes (f a) o v → within s → in_turn f l s = Ok s' →
  grows r s → grows s' r' → held objects r' v = Ok refs → refs ⊆ holding r' o.
Proof using Ha Hd Hr' Hc Heq.
  intros Hk Hin Hf Hs Hss' Hrs Hsr' Hv.
  destruct (kept_split f l a s s' Hk Hin Hs Hss') as (m & m' & Hm & Hwm & _ & Hsm & Hmm & Hms).
  eapply (noted_is_held (f a) m m'); eauto; by etransitivity.
Qed.

Lemma assignment_noted lhs rhs s s' t v o refs :
  (∀ t v, (t, v) ∈ assigned_pairs lhs rhs → paired t v) → (t, v) ∈ assigned_pairs lhs rhs →
  objectOf t = Some o → within s → collectAssignment objects lhs rhs s = Ok s' →
  grows r s → grows s s' → grows s' r' → held objects r' v = Ok refs → refs ⊆ holding r' o.
Proof using Ha Hd Hr' Hc Heq.
  intros Hp Htv Ho Hs Hss' Hrs Hg Hsr' Hv.
  assert (assigned_pairs lhs rhs = zip lhs rhs →
    in_turn (λ '(t, v), assign objects t v) (zip lhs rhs) s = Ok s' → refs ⊆ holding r' o) as Hz.
  { intros Heqp Hturn. rewrite Heqp in *.
    eapply (in_turn_noted (λ '(t, v), assign objects t v)); [|exact Htv|by apply (notes_assign t)|exact Hs|exact Hturn|done|done|done].
    intros [t' v'] Hin. by apply kept_assign, Hp. }
  unfold collectAssignment, assigned_pairs in *. destruct rhs as [|v1 [|v2 vs]].
  - case_match; [by apply Hz|by apply not_elem_of_nil in Htv].
  - case_match; [|by apply Hz]. apply list_elem_of_fmap in Htv as (t' & [= -> ->] & Hin).
    eapply (noted_is_held (collectResults objects lhs v1) s s'); try done.
    eapply notes_results; [|exact Hin|done]. intros. apply Hp, list_elem_of_fmap. eauto.
  - case_match; [by apply Hz|by apply not_elem_of_nil in Htv].
Qed.
End last_pass.

(** After a pass that learnt nothing, in which every body was known, what each node gives
    is held. *)
Lemma last_pass_settles fs r r' n :
  aliased_once → declared_once → (∀ f, f ∈ fs → f ∈ files) → n ∈ fs ≫= subnodes →
  within r → complete r → in_turn (collectFile objects) fs r = Ok r' → refCount r' = refCount r →
  settled r' n.
Proof.
  intros Ha Hd Hfs Hn Hr Hc Hpass Heq. destruct (kept_pass fs Hfs r r' Hr Hpass) as [Hr' Hg].
  assert (∀ m, m ∈ fs ≫= subnodes → kept (collect_node objects m)) as Hk.
  { intros m (f & Hm & Hf)%list_elem_of_bind. apply kept_node, list_elem_of_bind. eauto. }
  rewrite pass_nodes in Hpass.
  destruct (kept_split _ _ n r r' Hk Hn Hr Hpass) as (s & s' & Hs & Hw & Hw' & Hrs & Hss & Hsr).
  assert (agree s r') as Hagree
    by (eapply (between Ha Hd r r' Hr' Hc (eq_sym Heq)); [done|done|by etransitivity]).
  intros o v refs Hov Hv.
  pose proof (λ A, in_turn_noted (A := A) Ha Hd r r' Hr' Hc (eq_sym Heq)) as Hnoted.
  assert (n ∈ nodes) as Hnn.
  { apply list_elem_of_bind in Hn as (f & Hn & Hf). apply list_elem_of_bind. eauto. }
  pose proof (λ m, nodes_children m n Hnn) as Hch.
  destruct n as [| |pos fn args name| |elts|lhs rhs|lhs rhs| | | |];
    cbn [gives collect_node children] in *; try (by apply not_elem_of_nil in Hov).
  - rewrite <- (calledFunc_agree objects s r') in Hov by done. unfold collectCall in Hs.
    destruct (calledFunc objects s fn) as [f|] eqn:Hf; [|by apply not_elem_of_nil in Hov].
    apply list_elem_of_fmap in Hov as ([p a] & [= -> ->] & Hpa).
    eapply (Hnoted _ (bind_param objects)); [|exact Hpa|apply notes_note|exact Hw|exact Hs|done|done|exact Hv].
    intros given. apply kept_param; [|intros; apply Hch; by right].
    eapply calledFunc_read; [exact Hw| |done]. apply Hch. left.
  - apply list_elem_of_omap in Hov as (e & He & Hov). destruct e as [| | |key value| | | | | | |]; try done.
    destruct key as [def use| | | | | | | | | |]; try done. injection Hov as -> ->.
    eapply (Hnoted _ (set_field objects)); [|exact He|apply notes_note|exact Hw|exact Hs|done|done|exact Hv].
    intros e He'. by apply kept_field, Hch.
  - apply list_elem_of_fmap in Hov as ([t v'] & [= Ho ->] & Htv).
    eapply (assignment_noted Ha Hd r r' Hr' Hc (eq_sym Heq) lhs rhs s s'); try done.
    intros t' v'' Hin. eexists. split; [exact Hnn|done].
  - apply list_elem_of_fmap in Hov as ([t v'] & [= Ho ->] & Htv).
    eapply (assignment_noted Ha Hd r r' Hr' Hc (eq_sym Heq) lhs rhs s s'); try done.
    intros t' v'' Hin. eexists. split; [exact Hnn|done].
Qed.

Lemma pass_completes fs r r' :
  (∀ f, f ∈ files ↔ f ∈ fs) → within r → in_turn (collectFile objects) fs r = Ok r' → complete r'.
Proof.
  intros Hfs Hr Hpass o b (name & recv & parts & Hn). rewrite pass_nodes in Hpass.
  assert (∀ n, n ∈ nodes ↔ n ∈ fs ≫= subnodes) as Hnodes.
  { intros n. unfold nodes. rewrite !list_elem_of_bind. by setoid_rewrite Hfs. }
  apply Hnodes in Hn.
  destruct (kept_split _ _ _ r r' ltac:(intros; by apply kept_node, Hnodes) Hn Hr Hpass)
    as (s & s' & Hs & _ & _ & _ & _ & Hg).
  apply (grows_bodies _ _ Hg). injection Hs as <-. cbn. rewrite dom_insert. set_solver.
Qed.

(** How it ended: with a pass that learnt nothing, which was the first, or had every body. *)
Lemma collecting_ended fuel order r r' :
  (∀ k f, f ∈ files ↔ f ∈ order k) → within r →
  collectHandles objects fuel order r = Some (Ok r') →
  in_turn (collectFile objects) (order 0) r = Ok r' ∧ refCount r' = refCount r ∨
  ∃ k s, within s ∧ complete s ∧ in_turn (collectFile objects) (order k) s = Ok r' ∧ refCount r' = refCount s.
Proof.
  revert order r. induction fuel as [|fuel IH]; intros order r Ho Hr; [done|]. cbn [collectHandles].
  destruct (in_turn _ _ r) as [s|e] eqn:Hp; [|done].
  destruct (kept_pass _ (λ f, proj2 (Ho 0 f)) r s Hr Hp) as [Hs Hg].
  destruct (Nat.eqb_spec (refCount s) (refCount r)) as [Heq|Hne]; [intros [= <-]; by left|].
  intros Hc. right. pose proof (pass_completes (order 0) r s (Ho 0) Hr Hp) as Hcomplete.
  destruct (IH (order ∘ S) s (λ k, Ho (S k)) Hs Hc) as [[Hp' Heq]|(k & s' & H)].
  - exists 1, s. by split_and!.
  - by exists (S k), s'.
Qed.

(** Unless the first pass learnt nothing, all that the source gives a name is held by it. *)
Lemma collecting_settles fuel order r n :
  aliased_once → declared_once → (∀ k f, f ∈ files ↔ f ∈ order k) → n ∈ nodes →
  collectHandles objects fuel order newResolver = Some (Ok r) → refCount r ≠ 0 → settled r n.
Proof.
  intros Ha Hd Ho Hn Hc Hlearnt.
  destruct (collecting_ended fuel order newResolver r Ho within_new Hc)
    as [[_ Heq]|(k & s & Hs & Hcomplete & Hp & Heq)]; [done|].
  eapply (last_pass_settles (order k)); try done.
  - intros f Hf. by apply Ho in Hf.
  - unfold nodes in Hn. rewrite !list_elem_of_bind in *. by setoid_rewrite <- (Ho k).
Qed.
End program.
