(* ===== verification/Reaching.v ===== *)
(** * What walking reports

    [References.walk] marks the functions it visits and follows each once.  It reports nothing
    but what some body the handler's calls lead to refers to, and all of that but what it only
    comes to through an object it has already marked in passing, however many times and in
    whatever order calls lead there; and with what [Gathering] shows, a resource the source
    gives a name is reported of every handler that reaches the name. *)

From S2P Require Import Prelude GoStrings Json Errors Manifest GoSyntax References Gathering.
From stdpp Require Import options.

Lemma unvisited_visit (all : gset obj) o (s : References.reached) :
  o ∈ all → o ∉ s.2 → size (all ∖ (visit o s).2) < size (all ∖ s.2).
Proof. intros. apply subset_size. cbn. set_solver. Qed.

Section walking.
Context (objects : obj → object) (scopes : list (list obj)) (Implements : bool → obj → nat → bool)
  (LookupMethod : bool → obj → string → option obj) (r : resolver).

Abbreviation behind_interface := (behind_interface objects scopes Implements LookupMethod).
Abbreviation walk := (walk objects scopes Implements LookupMethod).
Abbreviation lead_to := (lead_to objects scopes Implements LookupMethod r).
Abbreviation walk_body := (walk_body r).
Abbreviation followInterface := (followInterface objects scopes Implements LookupMethod r).
Abbreviation follow := (follow objects scopes Implements LookupMethod r).
Abbreviation walk_node := (walk_node objects scopes Implements LookupMethod r).

(** ** What is reached *)

(** The resources a node refers to. *)
Definition names_of (n : node) : gset string :=
  match n with Ident _ use | Selector _ use => record_ r use ∅ | _ => ∅ end.

(** Where calling an object leads: to its own body, or to the function behind it and what the
    application puts behind it. *)
Definition leads (o : obj) : list obj :=
  match r.(bodies) !! o with
  | Some _ => [o]
  | None => option_list (behind r o) ++ behind_interface o
  end.

(** The bodies calls lead to, from one. *)
Inductive reaches (start : node) : node → Prop :=
  | reaches_start : reaches start start
  | reaches_call b o f b' :
      reaches start b → o ∈ callees b → f ∈ leads o → r.(bodies) !! f = Some b' → reaches start b'.

Definition reported (start : node) (name : string) : Prop :=
  ∃ b n, reaches start b ∧ n ∈ subnodes b ∧ name ∈ names_of n.

(** What is marked in passing, and is then not followed when it is called itself: an object
    without a body that a variable holds, or that a type puts behind an interface. *)
Definition spoiled (f : obj) : Prop := ∃ o, f ∈ lead_to o ∧ f ≠ o ∧ r.(bodies) !! f = None.

(** Where calling an object always leads, unless it is spoiled: to its own body, to the body of
    the function behind it, or to whatever the application puts behind it. *)
Definition surely_leads (o : obj) : list obj :=
  match r.(bodies) !! o with
  | Some _ => [o]
  | None =>
      match behind r o with
      | Some f => match r.(bodies) !! f with Some _ => [f] | None => behind_interface o end
      | None => behind_interface o
      end
  end.

(** The bodies that are walked into, from one. *)
Inductive surely_reaches (start : node) : node → Prop :=
  | surely_start : surely_reaches start start
  | surely_call b o f b' :
      surely_reaches start b → o ∈ callees b → ¬ spoiled o → f ∈ surely_leads o →
      r.(bodies) !! f = Some b' → surely_reaches start b'.

Definition surely_reported (start : node) (name : string) : Prop :=
  ∃ b n, surely_reaches start b ∧ n ∈ subnodes b ∧ name ∈ names_of n.

(** Where what is spoiled leads nowhere, and no variable is itself a method of an interface, as
    none is in Go, the two are one. *)
Record followable : Prop := {
  variables o f : behind r o = Some f → behind_interface o = [];
  unspoiled o : spoiled o → leads o = [];
}.

Lemma leads_surely o f b : followable → r.(bodies) !! f = Some b → f ∈ leads o → f ∈ surely_leads o.
Proof.
  intros Hf Hb. unfold leads, surely_leads. destruct (bodies r !! o); [done|].
  destruct (behind r o) as [f'|] eqn:Hbo; [|done]. rewrite (variables Hf o f' Hbo), app_nil_r.
  intros ->%list_elem_of_singleton. rewrite Hb. left.
Qed.

Lemma reported_surely start name : followable → reported start name → surely_reported start name.
Proof.
  intros Hf (b & n & Hb & Hn & Hname). exists b, n. split; [|done]. clear Hn Hname.
  induction Hb as [|b o f b' _ IH Ho Hlf Hb']; [constructor|].
  eapply surely_call; [done|done| |by eapply leads_surely|done].
  intros Hs. rewrite (unspoiled Hf o Hs) in Hlf. by apply not_elem_of_nil in Hlf.
Qed.

(** ** Nothing else is reported *)

Section sound.
Context (start : node) (go : node → References.reached → References.reached).

Definition only_reported (s : References.reached) : Prop := ∀ name, name ∈ s.1 → reported start name.
Context (Hgo : ∀ b s, reaches start b → only_reported s → only_reported (go b s)).

Lemma walk_body_sound b o f s :
  reaches start b → o ∈ callees b → f ∈ leads o → only_reported s → only_reported (walk_body go f s).
Proof using Hgo.
  intros Hb Ho Hf Hs. unfold References.walk_body. destruct (bodies r !! f) as [b'|] eqn:Hbf; [|done].
  apply Hgo; [|done]. by eapply reaches_call.
Qed.

Lemma followInterface_sound b o s :
  reaches start b → o ∈ callees b → r.(bodies) !! o = None → only_reported s →
  only_reported (followInterface go o s).
Proof using Hgo.
  intros Hb Ho Hno Hs. unfold References.followInterface. apply foldl_ind; [done|].
  intros s' m Hm Hs'. case_bool_decide; [done|].
  eapply walk_body_sound; [exact Hb|exact Ho| |exact Hs'].
  unfold leads. rewrite Hno, elem_of_app. by right.
Qed.

Lemma follow_sound b fn o s :
  reaches start b → o ∈ callees b → referenced fn = Some o → only_reported s →
  only_reported (follow go fn s).
Proof using Hgo.
  intros Hb Ho Hfn Hs. unfold References.follow. rewrite Hfn. case_bool_decide; [done|].
  destruct (bodies r !! o) as [b'|] eqn:Hbo.
  { apply Hgo; [|done]. eapply (reaches_call _ b o o); [done|done| |done]. unfold leads. rewrite Hbo. left. }
  destruct (behind r o) as [f|] eqn:Hf; [|by eapply followInterface_sound].
  case_bool_decide; [by eapply followInterface_sound|].
  destruct (bodies r !! f) as [b'|] eqn:Hbf; [|by eapply followInterface_sound].
  apply Hgo; [|done]. eapply (reaches_call _ b o f); [done|done| |done].
  unfold leads. rewrite Hbo, Hf. left.
Qed.
End sound.

Lemma walk_sound fuel start b s :
  reaches start b → only_reported start s → only_reported start (walk fuel r b s).
Proof.
  revert b s. induction fuel as [|fuel IH]; intros b s Hb Hs; [done|]. cbn [References.walk].
  apply (inspect_inv (only_reported start)); [|done]. intros n s' Hn Hs'. cbn [snd].
  assert (∀ use, names_of n = record_ r use ∅ → only_reported start (record_ r use s'.1, s'.2)) as Hid.
  { intros use Huse name Hname. destruct (decide (name ∈ s'.1)); [by apply Hs'|].
    exists b, n. split_and!; [done|done|]. rewrite Huse. unfold record_ in *. cbn in Hname.
    destruct use; set_solver. }
  destruct n; cbn [References.walk_node]; try done; try (by apply Hid).
  destruct (referenced n) as [o|] eqn:Ho; [|by unfold References.follow; rewrite Ho].
  eapply follow_sound; [exact IH|exact Hb| |exact Ho|exact Hs'].
  apply list_elem_of_omap. exists (CallExpr pos n args name). by split.
Qed.

(** ** Nothing is left out *)

Definition covered (s : References.reached) (b : node) : Prop :=
  (∀ n, n ∈ subnodes b → names_of n ⊆ s.1) ∧ (∀ o, o ∈ callees b → o ∈ s.2).
(** A visited function has been followed. *)
Definition followed (s : References.reached) (o : obj) : Prop :=
  match r.(bodies) !! o with
  | Some b => covered s b
  | None => ¬ spoiled o → ∀ f, f ∈ surely_leads o → f ∈ s.2
  end.

(** What a walk leaves: no less than there was, and every function visited since followed. *)
Record advances (s s' : References.reached) : Prop := {
  advances_found : s.1 ⊆ s'.1;
  advances_visited : s.2 ⊆ s'.2;
  advances_followed o : o ∈ s'.2 → o ∉ s.2 → followed s' o;
}.

Lemma covered_mono s s' b : s.1 ⊆ s'.1 → s.2 ⊆ s'.2 → covered s b → covered s' b.
Proof. intros H1 H2 [Hn Ho]. split; [intros n Hin; by rewrite Hn|intros o Hin; auto]. Qed.
Lemma followed_mono s s' o : s.1 ⊆ s'.1 → s.2 ⊆ s'.2 → followed s o → followed s' o.
Proof.
  intros H1 H2. unfold followed. destruct (bodies r !! o); [by apply covered_mono|]. intros H Hs f Hf. auto.
Qed.

#[export] Instance advances_preorder : PreOrder advances.
Proof.
  split; [by intros s; split|]. intros s1 s2 s3 [H1 H2 H3] [H1' H2' H3'].
  split; [by etransitivity|by etransitivity|]. intros o Ho Hno.
  destruct (decide (o ∈ s2.2)); [|auto]. eapply followed_mono; [done|done|auto].
Qed.

(** Visiting one function and then walking advances, once that function is followed. *)
Lemma advances_visit o s s' : advances (visit o s) s' → followed s' o → advances s s'.
Proof.
  intros [H1 H2 H3] Ho. unfold visit in *. cbn in *. split; [done|set_solver|].
  intros o' Ho' Hno. destruct (decide (o' = o)) as [->|]; [done|]. apply H3; set_solver.
Qed.

Section complete.
Context (all : gset obj).
Abbreviation unvisited s := (size (all ∖ s.2)).

Lemma unvisited_advances s s' : advances s s' → unvisited s' ≤ unvisited s.
Proof. intros [_ H _]. apply subseteq_size. by apply difference_mono_l. Qed.

Definition in_scope (b : node) : Prop := ∀ o f, o ∈ callees b → f ∈ lead_to o → f ∈ all.
Context (Hscope : ∀ o b, r.(bodies) !! o = Some b → in_scope b).

Context (fuel : nat) (go : node → References.reached → References.reached).
Context (Hgo : ∀ b s, in_scope b → unvisited s < fuel → advances s (go b s) ∧ covered (go b s) b).

(** A function visited just now, with its body or without. *)
Lemma walk_body_advances f s :
  f ∈ all → f ∉ s.2 → unvisited s < S fuel → (r.(bodies) !! f = None → spoiled f) →
  advances s (walk_body go f (visit f s)) ∧ f ∈ (walk_body go f (visit f s)).2.
Proof using Hgo Hscope.
  intros Hf Hno Hfuel Hleads. pose proof (unvisited_visit all f s Hf Hno) as Hless.
  unfold References.walk_body. destruct (bodies r !! f) as [b|] eqn:Hb.
  - destruct (Hgo b (visit f s) (Hscope f b Hb) ltac:(lia)) as [Ha Hc].
    split; [|apply (advances_visited _ _ Ha); cbn; set_solver].
    apply (advances_visit f); [done|]. unfold followed. by rewrite Hb.
  - split; [|cbn; set_solver]. apply (advances_visit f); [done|].
    unfold followed. rewrite Hb. intros Hns. by destruct (Hns (Hleads eq_refl)).
Qed.

Lemma followInterface_advances o s :
  (∀ m, m ∈ behind_interface o → m ∈ all ∧ (m ∉ s.2 → r.(bodies) !! m = None → spoiled m)) →
  unvisited s < S fuel →
  advances s (followInterface go o s) ∧ ∀ m, m ∈ behind_interface o → m ∈ (followInterface go o s).2.
Proof using Hgo Hscope.
  unfold References.followInterface. generalize (behind_interface o) as ms. intros ms. revert s.
  induction ms as [|m ms IH]; intros s Hms Hfuel; [by split; [|intros ? ?%not_elem_of_nil]|]. cbn.
  set (s1 := if bool_decide (m ∈ s.2) then s else walk_body go m (visit m s)).
  assert (advances s s1 ∧ m ∈ s1.2) as [H1 Hm].
  { subst s1. case_bool_decide; [done|]. destruct (Hms m) as [Hall Hl]; [left|].
    apply walk_body_advances; auto. }
  pose proof (unvisited_advances _ _ H1).
  destruct (IH s1) as [H2 Hin]; [|lia|].
  { intros m' Hm'. destruct (Hms m') as [? Hl]; [by right|]. split; [done|]. intros Hno. apply Hl.
    intros Hin. by apply Hno, (advances_visited _ _ H1). }
  split; [by etransitivity|]. intros m' [->|Hm']%elem_of_cons; [|auto]. by apply (advances_visited _ _ H2).
Qed.

(** A call is followed wherever it leads. *)
Lemma follow_advances b fn o s :
  in_scope b → o ∈ callees b → referenced fn = Some o → unvisited s < S fuel →
  advances s (follow go fn s) ∧ o ∈ (follow go fn s).2.
Proof using Hgo Hscope.
  intros Hb Ho Hfn Hfuel. unfold References.follow. rewrite Hfn. case_bool_decide as Hv; [done|].
  assert (∀ f, f ∈ lead_to o → f ∈ all) as Hall by (intros; by eapply Hb).
  pose proof (unvisited_visit all o s ltac:(apply Hall; left) Hv) as Hless.
  assert (∀ f, f ∈ lead_to o → f ∉ (visit o s).2 → bodies r !! f = None → spoiled f) as Hl.
  { intros f Hf Hno Hnb. exists o. split_and!; [done| |done]. intros ->. apply Hno. cbn. set_solver. }
  destruct (bodies r !! o) as [b'|] eqn:Hbo.
  { destruct (Hgo b' (visit o s) (Hscope o b' Hbo) ltac:(lia)) as [Ha Hc].
    split; [|apply (advances_visited _ _ Ha); cbn; set_solver].
    apply (advances_visit o); [done|]. unfold followed. by rewrite Hbo. }
  assert (∀ s', advances (visit o s) s' → (∀ f, f ∈ surely_leads o → f ∈ s'.2) → advances s s' ∧ o ∈ s'.2) as Hdone.
  { intros s' Ha Hin. split; [|apply (advances_visited _ _ Ha); cbn; set_solver].
    apply (advances_visit o); [done|]. unfold followed. by rewrite Hbo. }
  assert (∀ m, m ∈ behind_interface o → m ∈ lead_to o) as Hbi by (intros; right; apply elem_of_app; by right).
  assert (∀ s1, advances (visit o s) s1 → advances s1 (followInterface go o s1) ∧
    ∀ m, m ∈ behind_interface o → m ∈ (followInterface go o s1).2) as Hfi.
  { intros s1 Hs1. pose proof (unvisited_advances _ _ Hs1). apply followInterface_advances; [|lia].
    intros m Hm. split; [by apply Hall, Hbi|]. intros Hno. apply Hl; [by apply Hbi|].
    intros Hin. by apply Hno, (advances_visited _ _ Hs1). }
  destruct (behind r o) as [f|] eqn:Hf.
  2:{ destruct (Hfi (visit o s)) as [Ha Hin]; [done|]. apply Hdone; [done|].
      unfold surely_leads. by rewrite Hbo, Hf. }
  assert (f ∈ lead_to o) as Hfl by (right; rewrite Hf; left).
  case_bool_decide as Hfv.
  - destruct (Hfi (visit o s)) as [Ha Hin]; [done|]. apply Hdone; [done|]. unfold surely_leads.
    rewrite Hbo, Hf. destruct (bodies r !! f); [|done]. intros f' ->%list_elem_of_singleton.
    by apply (advances_visited _ _ Ha).
  - destruct (walk_body_advances f (visit o s)) as [Ha Hfin]; [by apply Hall|done|lia|by apply Hl|].
    unfold References.walk_body in *. destruct (bodies r !! f) as [bf|] eqn:Hbf.
    + apply Hdone; [done|]. unfold surely_leads. rewrite Hbo, Hf, Hbf. by intros f' ->%list_elem_of_singleton.
    + destruct (Hfi (visit f (visit o s)) Ha) as [Ha' Hin]. apply Hdone; [by etransitivity|].
      unfold surely_leads. by rewrite Hbo, Hf, Hbf.
Qed.

(** One node of a body: what it refers to is found, and what it calls is followed. *)
Lemma walk_node_advances b n s :
  in_scope b → n ∈ subnodes b → unvisited s < S fuel →
  advances s (walk_node go n s) ∧ names_of n ⊆ (walk_node go n s).1 ∧
  ∀ pos fn args name o, n = CallExpr pos fn args name → referenced fn = Some o →
    o ∈ (walk_node go n s).2.
Proof using Hgo Hscope.
  intros Hb Hn Hfuel.
  assert (∀ use, advances s (record_ r use s.1, s.2) ∧ record_ r use ∅ ⊆ record_ r use s.1) as Hid.
  { intros use. unfold record_. destruct use as [o|]; [|by split; [split|apply empty_subseteq]].
    split; [split; cbn; [apply union_subseteq_l|done|done]|]. apply union_mono_r, empty_subseteq. }
  destruct n; cbn [References.walk_node names_of];
    try (split_and!; [done|apply empty_subseteq|done]); try (split_and!; [apply Hid..|done]).
  destruct (referenced n) as [o|] eqn:Ho.
  - destruct (follow_advances b n o s) as [Ha Hin]; [done| |done|done|].
    { apply list_elem_of_omap. eexists. split; [exact Hn|done]. }
    split_and!; [done|apply empty_subseteq|]. intros ? ? ? ? o' [= <- <- <- <-]. by rewrite Ho; intros [= <-].
  - unfold References.follow. rewrite Ho. split_and!; [done|apply empty_subseteq|].
    intros ? ? ? ? o' [= <- <- <- <-]. by rewrite Ho.
Qed.

Lemma walk_nodes_advances b ns s :
  in_scope b → (∀ n, n ∈ ns → n ∈ subnodes b) → unvisited s < S fuel →
  let s' := foldl (λ s n, walk_node go n s) s ns in
  advances s s' ∧ ∀ n, n ∈ ns → names_of n ⊆ s'.1 ∧
    ∀ pos fn args name o, n = CallExpr pos fn args name → referenced fn = Some o → o ∈ s'.2.
Proof using Hgo Hscope.
  intros Hb. cbn zeta. revert s. induction ns as [|n ns IH]; intros s Hns Hfuel.
  { split; [done|]. by intros n ?%not_elem_of_nil. }
  cbn. destruct (walk_node_advances b n s) as (H1 & Hn & Hc); [done|apply Hns; left|done|].
  pose proof (unvisited_advances _ _ H1).
  destruct (IH (walk_node go n s)) as [H2 Hrest]; [intros; apply Hns; by right|lia|].
  split; [by etransitivity|]. intros n' [->|Hn']%elem_of_cons; [|auto].
  split; [etransitivity; [exact Hn|apply (advances_found _ _ H2)]|].
  intros. eapply (advances_visited _ _ H2), Hc; done.
Qed.
End complete.

Lemma walk_advances all fuel b s :
  (∀ o b, r.(bodies) !! o = Some b → in_scope all b) → in_scope all b →
  size (all ∖ s.2) < fuel → advances s (walk fuel r b s) ∧ covered (walk fuel r b s) b.
Proof.
  intros Hscope. revert b s. induction fuel as [|fuel IH]; intros b s Hb Hfuel; [lia|].
  cbn [References.walk]. rewrite inspect_fold.
  destruct (walk_nodes_advances all Hscope fuel (walk fuel r) IH b (subnodes b) s Hb
    ltac:(done) Hfuel) as [Ha Hn].
  split; [exact Ha|]. split; [intros n Hin; by apply Hn|].
  intros o (n & Hin & Ho)%list_elem_of_omap. destruct n; try done. by eapply Hn.
Qed.

(** ** What is reported is what is reached *)

Abbreviation walked start :=
  (walk (S (size (visitable objects scopes Implements LookupMethod r start))) r start (∅, ∅)).1.

Lemma walk_only start name : name ∈ walked start → reported start name.
Proof. apply walk_sound; [constructor|by intros ? ?%not_elem_of_empty]. Qed.

Lemma walk_all start name : surely_reported start name → name ∈ walked start.
Proof.
  set (all := visitable _ _ _ _ r start).
  assert (∀ b, b = start ∨ (∃ o, bodies r !! o = Some b) → in_scope all b) as Hscope.
  { intros b Hb o f Ho Hf. apply elem_of_list_to_set, list_elem_of_bind. exists b.
    split; [apply list_elem_of_bind; eauto|]. destruct Hb as [->|[o' Hb]]; [left|right].
    apply list_elem_of_fmap. exists (o', b). split; [done|]. by apply elem_of_map_to_list. }
  destruct (walk_advances all (S (size all)) start (∅, ∅)) as [Ha Hc]; [by eauto|by eauto| |].
  { cbn. rewrite difference_empty_L. lia. }
  set (s' := walk _ r start (∅, ∅)) in *.
  assert (∀ b, surely_reaches start b → covered s' b) as Hall.
  { induction 1 as [|b o f b' _ IH Ho Hns Hf Hb']; [done|].
    assert (∀ o, o ∈ s'.2 → followed s' o) as Hfo.
    { intros o' Ho'. apply (advances_followed _ _ Ha); [done|]. apply not_elem_of_empty. }
    pose proof (Hfo o (proj2 IH o Ho)) as Hfol. unfold followed in Hfol.
    assert (f ∈ s'.2) as Hin.
    { destruct (bodies r !! o) as [bo|] eqn:Hbo; [|by apply Hfol].
      unfold surely_leads in Hf. rewrite Hbo in Hf. apply list_elem_of_singleton in Hf as ->. by apply IH. }
    specialize (Hfo f Hin). unfold followed in Hfo. by rewrite Hb' in Hfo. }
  intros (b & n & Hb & Hn & Hname). by apply (proj1 (Hall b Hb) n Hn).
Qed.
End walking.

(** C10: what a handler is reported to reach.  For a handler whose body is in the source, the
    walk answers names, sorted and once each.  Each of them is a resource that the body refers
    to or that some body its calls lead to refers to: through functions, methods, variables
    that were given a function, and every implementation of an interface.  And every such
    resource is among them but those that calls lead to only through an object which the walk
    has marked in passing and does not follow, a function without a body here that a variable
    holds or that implements a method, such as a method of an interface held in a variable;
    where no such object leads anywhere the names are exactly the resources reached. *)
Theorem reach_lists objects scopes Implements LookupMethod r loaded handler path body :
  parseFuncPath handler = Ok path → bodyOf loaded path = Some body →
  ∃ names, reach objects scopes Implements LookupMethod r loaded handler = Ok names ∧
    StronglySorted String.le names ∧ NoDup names ∧
    (∀ name, name ∈ names → reported objects scopes Implements LookupMethod r body name) ∧
    (∀ name, surely_reported objects scopes Implements LookupMethod r body name → name ∈ names) ∧
    (followable objects scopes Implements LookupMethod r →
     ∀ name, name ∈ names ↔ reported objects scopes Implements LookupMethod r body name).
Proof.
  intros Hpath Hbody. unfold reach. rewrite Hpath, Hbody. eexists. split; [done|].
  split_and!; [apply sort_strings_sorted|apply sort_strings_NoDup, NoDup_elements|..].
  - intros name. rewrite elem_of_sort_strings, elem_of_elements. apply walk_only.
  - intros name. rewrite elem_of_sort_strings, elem_of_elements. apply walk_all.
  - intros Hf name. rewrite elem_of_sort_strings, elem_of_elements.
    split; [apply walk_only|]. intros H%reported_surely; [|done]. by apply walk_all.
Qed.

(** C11: no resource the source gives a name is lost.  In a source where no variable is given
    two functions and no function is declared twice, once gathering has ended, having learnt
    something in its first pass, whatever an assignment, a field or an argument gives an object
    of a resource is reported of every handler that is walked into a mention of that object:
    whether the value is a constructor's call, another name, or a call to a function that
    answers with either. *)
Theorem nothing_is_lost objects scopes Implements LookupMethod files order fuel r n o v refs ref
    loaded handler path body b m :
  aliased_once objects files → declared_once files → (∀ k f, f ∈ files ↔ f ∈ order k) →
  collectHandles objects fuel order newResolver = Some (Ok r) → refCount r ≠ 0 →
  n ∈ nodes files → (Some o, v) ∈ gives objects r n → held objects r v = Ok refs → ref ∈ refs →
  parseFuncPath handler = Ok path → bodyOf loaded path = Some body →
  surely_reaches objects scopes Implements LookupMethod r body b → m ∈ subnodes b → referenced m = Some o →
  ∃ names, reach objects scopes Implements LookupMethod r loaded handler = Ok names ∧ name_of ref ∈ names.
Proof.
  intros Ha Hd Ho Hc Hlearnt Hn Hg Hv Href Hpath Hbody Hb Hm Hmo.
  unfold reach. rewrite Hpath, Hbody. eexists. split; [done|].
  rewrite elem_of_sort_strings, elem_of_elements. apply walk_all.
  exists b, m. split_and!; [done|done|].
  pose proof (collecting_settles objects files fuel order r n Ha Hd Ho Hn Hc Hlearnt o v refs Hg Hv) as Hh.
  assert (names_of r m = record_ r (Some o) ∅) as ->.
  { destruct m; try done; cbn [referenced] in Hmo; by subst. }
  cbn. apply elem_of_union_r, elem_of_map. exists ref. split; [done|]. by apply Hh.
Qed.

(** ** Two applications *)

Section examples.

(** The bucket constructor (1), a function answering with one (2), the variable it is put in (3),
    a method of an interface (4), its only implementation (5), and a variable holding the
    former (6). *)
Definition app_objects (o : obj) : object :=
  match o with
  | 1 => MkObject "Bucket" (Some resourcesPackage) true true [] false None false
  | 2 => MkObject "openStore" (Some "app") true true [] false None false
  | 4 => MkObject "Save" (Some "app") true true [] false (Some 0) false
  | 5 => MkObject "Save" (Some "app") true true [] false None false
  | 6 => MkObject "save" (Some "app") false true [] false None false
  | 7 => MkObject "repo" (Some "app") false false [] false None true
  | 12 => MkObject "toBucket" (Some "app") true true [] false None false
  | 13 => MkObject "toLog" (Some "app") true true [] false None false
  | _ => MkObject "" (Some "app") false false [] false None false
  end.
Definition use (o : obj) : node := Ident None (Some o).
Definition new_bucket : node :=
  CallExpr "app.go:3:9" (Selector (use 9) (Some 1)) [use 8; Other []] (Some "uploads").
Definition open_store : node :=
  FuncDecl "openStore" (Some 2) None [] (Some (Other [ReturnStmt [new_bucket]])).
Definition main_func : node :=
  FuncDecl "main" (Some 10) None []
    (Some (Other [AssignStmt [Ident (Some 3) None] [CallExpr "" (use 2) [use 8] None]; FuncLit [use 3]])).
Definition app_package (files : list node) : gmap string package := load [MkPackage "acme.io/app" "main" files].

Abbreviation reach_app := (reach app_objects [[7]] (λ p _ _, p) (λ _ _ _, Some 5)).
Definition reached_of (files : list node) : option (result error (list string)) :=
  r ← collectHandles app_objects 5 (λ _, files) newResolver;
  Some (let! r := r in reach_app r (app_package files) "main.main.func1").

(** What a function answers with reaches the variable it is assigned to; but not where nothing
    was learnt before the function was met, which is the order they are commonly written in. *)
Lemma a_late_constructor_is_lost :
  reached_of [Other [open_store]; Other [main_func]] = Some (Ok ["uploads"]) ∧
  reached_of [Other [main_func]; Other [open_store]] = Some (Ok []).
Proof. by vm_compute. Qed.

Definition known : resolver :=
  MkResolver {[ 3 := {[ "bucket/uploads" ]} ]} {[ 5 := Other [use 3] ]} {[ 6 := 4 ]} ∅.
Definition walked (body : list node) : list string :=
  elements (walk app_objects [[7]] (λ p _ _, p) (λ _ _ _, Some 5) 9 known (Other body) (∅, ∅)).1.

(** A method called through a variable that holds an interface's is not followed, and then
    neither is the method itself; nor is a function that is handed to another, or called with
    its type parameters written out. *)
Lemma calls_not_followed :
  walked [CallExpr "" (Selector (use 8) (Some 4)) [] None] = ["uploads"] ∧
  walked [CallExpr "" (use 6) [] None; CallExpr "" (Selector (use 8) (Some 4)) [] None] = [] ∧
  walked [CallExpr "" (use 20) [use 5] None] = [] ∧
  walked [CallExpr "" (Other [use 5; use 8]) [] None] = [].
Proof. by vm_compute. Qed.

(** Of two functions a variable is given only the last is followed: what the other reaches is
    reported of no handler that calls the variable. *)
Definition two_functions (assigned : list node) : list node :=
  [Other [open_store]; Other [FuncDecl "toBucket" (Some 12) None [] (Some (Other [use 3]))];
   Other [FuncDecl "toLog" (Some 13) None [] (Some (Other []))];
   Other [FuncDecl "main" (Some 10) None []
     (Some (Other (AssignStmt [Ident (Some 3) None] [CallExpr "" (use 2) [use 8] None] :: assigned ++
                   [FuncLit [CallExpr "" (use 6) [] None]])))]].
Lemma one_function_of_two_is_followed :
  reached_of (two_functions [AssignStmt [Ident (Some 6) None] [use 13]; AssignStmt [use 6] [use 12]]) = Some (Ok ["uploads"]) ∧
  reached_of (two_functions [AssignStmt [Ident (Some 6) None] [use 12]; AssignStmt [use 6] [use 13]]) = Some (Ok []).
Proof. by vm_compute. Qed.

(** *** The first of them, through *)

Definition app_files : list node := [Other [open_store]; Other [main_func]].

Definition app_known : resolver :=
  MkResolver {[ 3 := {[ "bucket/uploads" ]} ]}
    {[ 2 := Other [ReturnStmt [new_bucket]];
       10 := Other [AssignStmt [Ident (Some 3) None] [CallExpr "" (use 2) [use 8] None]; FuncLit [use 3]] ]}
    ∅ ∅.
Lemma app_gathered : collectHandles app_objects 5 (λ _, app_files) newResolver = Some (Ok app_known).
Proof. by vm_compute. Qed.

Lemma app_aliased : aliased_once app_objects app_files.
Proof.
  intros o f f' (t & v & (n & Hn & Htv) & _ & Hv & _) _.
  assert (Forall (λ n, Forall (λ p, referenced p.2 = None) (assigned n)) (nodes app_files)) as H
    by by repeat constructor.
  rewrite Forall_forall in H. specialize (H n Hn). rewrite Forall_forall in H.
  specialize (H _ Htv). cbn in H. congruence.
Qed.

Lemma app_declared : declared_once app_files.
Proof.
  assert (Forall (λ n, match n with
      | FuncDecl _ (Some o) _ _ (Some b) =>
          (if bool_decide (o = 2) then Some (Other [ReturnStmt [new_bucket]])
           else Some (Other [AssignStmt [Ident (Some 3) None] [CallExpr "" (use 2) [use 8] None];
                             FuncLit [use 3]])) = Some b
      | _ => True end) (nodes app_files)) as H by by repeat constructor.
  rewrite Forall_forall in H.
  intros o b b' (name & recv & parts & Hn) (name' & recv' & parts' & Hn').
  pose proof (H _ Hn) as Hb. pose proof (H _ Hn') as Hb'. cbn in Hb, Hb'. congruence.
Qed.

Lemma app_followable r :
  r.(aliases) = ∅ → r.(produced) = ∅ →
  followable app_objects [[7]] (λ p _ _, p) (λ _ _ _, Some 5) r.
Proof.
  intros Ha Hp. assert (∀ o, behind r o = None) as Hb.
  { intros o. unfold behind. by rewrite Ha, Hp, !lookup_empty. }
  split; [intros o f; by rewrite Hb|].
  intros f (o & Hf & Hne & Hno). unfold lead_to in Hf. rewrite Hb in Hf. cbn [option_list app] in Hf.
  apply elem_of_cons in Hf as [->|Hf]; [done|]. assert (f = 5) as ->.
  { do 14 (destruct o as [|o]; [vm_compute in Hf; set_solver|]). vm_compute in Hf. set_solver. }
  unfold leads. by rewrite Hno, Hb.
Qed.

Lemma app_walked : surely_reaches app_objects [[7]] (λ p _ _, p) (λ _ _ _, Some 5) app_known (FuncLit [use 3]) (FuncLit [use 3]).
Proof. constructor. Qed.

Lemma reach_lists_witness :
  ∃ names, reach_app app_known (app_package app_files) "main.main.func1" = Ok names ∧ NoDup names ∧
    "uploads" ∈ names ∧
    ∀ name, name ∈ names ↔ reported app_objects [[7]] (λ p _ _, p) (λ _ _ _, Some 5) app_known (FuncLit [use 3]) name.
Proof.
  destruct (reach_lists app_objects [[7]] (λ p _ _, p) (λ _ _ _, Some 5) app_known (app_package app_files)
    "main.main.func1" (MkFuncPath "main" ["main"; "func1"]) (FuncLit [use 3])
    ltac:(by vm_compute) ltac:(by vm_compute)) as (names & Hn & _ & Hnd & _ & Hall & Hexact).
  exists names. split; [exact Hn|]. split; [exact Hnd|]. split; [|exact (Hexact (app_followable app_known eq_refl eq_refl))].
  apply Hall. exists (FuncLit [use 3]), (use 3). split; [exact app_walked|].
  split; [right; left|apply (bool_decide_eq_true_1 _); vm_compute; reflexivity].
Defined.

Lemma nothing_is_lost_witness :
  ∃ names, reach_app app_known (app_package app_files) "main.main.func1" = Ok names ∧ "uploads" ∈ names.
Proof.
  destruct (nothing_is_lost app_objects [[7]] (λ p _ _, p) (λ _ _ _, Some 5) app_files (λ _, app_files) 5
    app_known (AssignStmt [Ident (Some 3) None] [CallExpr "" (use 2) [use 8] None]) 3
    (CallExpr "" (use 2) [use 8] None) {[ "bucket/uploads" ]} "bucket/uploads"
    (app_package app_files) "main.main.func1" (MkFuncPath "main" ["main"; "func1"]) (FuncLit [use 3])
    (FuncLit [use 3]) (use 3)
    app_aliased app_declared (λ _ _, iff_refl _) app_gathered ltac:(vm_compute; discriminate)
    ltac:(vm_compute; set_solver) ltac:(vm_compute; set_solver) ltac:(vm_compute; reflexivity)
    ltac:(set_solver) ltac:(by vm_compute) ltac:(by vm_compute)
    app_walked ltac:(vm_compute; set_solver) eq_refl) as (names & Hn & Hin).
  exists names. exact (conj Hn Hin).
Defined.
End examples.
