(* ===== verification/Generate.v ===== *)
(** * The imports a deploy target is built with

    Models [cmd/celerity-go/platform.go], and of [main.go] and [testpackages.go] what decides
    what is written and where: the file that links a target's packages into an application,
    and the same for the test packages that reach live resources.  Reading a directory,
    loading packages and [constraint.Parse] are parameters. *)

From S2P Require Import Prelude GoStrings Json Errors GoSyntax References.
From stdpp Require Import options.

(** ** What there is to link *)

Definition TargetAWS : string := "aws".
Definition TargetAWSServerless : string := "aws-serverless".
Definition TargetGCloud : string := "gcloud".
Definition TargetGCloudServerless : string := "gcloud-serverless".
Definition TargetAzure : string := "azure".
Definition TargetAzureServerless : string := "azure-serverless".

Record platform : Type := MkPlatform { Adapter : string; Resources_ : string; Config_ : string }.

Definition modulePath : string := "github.com/newstack-cloud/celerity-go-sdk".
Definition module (path : string) : string := modulePath +:+ path.

Definition platforms : gmap string platform := list_to_map
  [(TargetAWS, MkPlatform "" (module "/resources/aws") (module "/config/aws"));
   (TargetAWSServerless, MkPlatform (module "/serverless/aws") (module "/resources/aws") (module "/config/aws"));
   (TargetGCloud, MkPlatform "" (module "/resources/gcp") (module "/config/gcp"));
   (TargetGCloudServerless, MkPlatform (module "/serverless/gcp") (module "/resources/gcp") (module "/config/gcp"));
   (TargetAzure, MkPlatform "" (module "/resources/azure") (module "/config/azure"));
   (TargetAzureServerless, MkPlatform (module "/serverless/azure") (module "/resources/azure") (module "/config/azure"))].

Definition LocalConfig : string := module "/config/local".
Definition LocalResources : string := module "/resources/local".
Definition LocalResourceBackend : string := module "/resources/local/redis".

Definition Telemetry : gmap string string := list_to_map
  [("otel", module "/telemetry/otel"); ("opentelemetry", module "/telemetry/otel"); ("none", "")].
Definition Instrumentation : gmap string (gmap string string) :=
  {[ module "/telemetry/otel" :=
       list_to_map [("redis", module "/resources/redis/otel"); ("sqldb", module "/resources/sqldb/otel")] ]}.

Record GenerateOptions : Type := MkGenerateOptions {
  BuildTags : list string;
  Local_ : bool;
  SQLEngines : list string;
  Resources : list string;
  TelemetryName : string;
}.

Definition resourcePackages : gmap string string := list_to_map
  [("bucket", "bucket"); ("queue", "queue"); ("topic", "topic"); ("cache", "cache");
   ("datastore", "datastore"); ("sqlDatabase", "sqldb")].
Definition RedisCache : string := module "/resources/redis".

Definition enginePostgres : string := "postgres".
Definition engineMySQL : string := "mysql".
Definition sqlDrivers : gmap string string := list_to_map
  [(enginePostgres, "github.com/jackc/pgx/v5/stdlib"); (engineMySQL, "github.com/go-sql-driver/mysql")].

Definition built : list string :=
  [module "/serverless/aws"; module "/resources/aws"; module "/config/aws"; LocalConfig; LocalResources;
   LocalResourceBackend; module "/telemetry/otel"; module "/resources/aws/otel";
   module "/resources/redis/otel"; module "/resources/sqldb/otel"].
Definition implemented : list string := [TargetAWS; TargetAWSServerless].

(** ** Refusals *)

(** [sortedKeys]. *)
Definition sortedKeys {V} (m : gmap string V) : list string := sort_strings (keys m).

Definition UnknownResourceError (kind : string) : error :=
  EString ("unknown resource kind " +:+ go_quote kind +:+ ". Supported: " +:+
    join (sortedKeys resourcePackages) ", ").
Definition UnknownEngineError (engine : string) : error :=
  EString ("unknown database engine " +:+ go_quote engine +:+ ". Supported: " +:+
    join (sortedKeys sqlDrivers) ", ").
Definition UnsupportedTargetError (target : string) : error :=
  let supported := join (sort_strings implemented) ", " in
  EString (if is_some (platforms !! target)
           then "the Go SDK does not support the " +:+ go_quote target +:+
                " deploy target yet. Supported: " +:+ supported
           else "unknown deploy target " +:+ go_quote target +:+ ". Supported: " +:+ supported).
Definition unknown_telemetry (name : string) : error :=
  EString ("unknown telemetry " +:+ go_quote name +:+ ": pass one of " +:+
    join (sortedKeys Telemetry) ", " +:+ ", or leave it unset to link none").

(** ** What a blueprint asks for *)

Definition PlatformFor (target : string) : result error platform :=
  match platforms !! target with
  | Some p => if bool_decide (target ∈ implemented) then Ok p else Err (UnsupportedTargetError target)
  | None => Err (UnsupportedTargetError target)
  end.

Fixpoint kind_imports (resources : string) (kinds : list string) : result error (list string) :=
  match kinds with
  | [] => Ok []
  | kind :: kinds =>
      match resourcePackages !! kind with
      | None => Err (UnknownResourceError kind)
      | Some pkg =>
          let! imports := kind_imports resources kinds in
          Ok ((resources +:+ "/" +:+ pkg) :: (if bool_decide (kind = "cache") then [RedisCache] else []) ++ imports)
      end
  end.
Definition resourceImports (resources : string) (kinds : list string) : result error (list string) :=
  if bool_decide (resources = "") then Ok [] else kind_imports resources kinds.

Fixpoint sqlDriverImports (engines : list string) : result error (list string) :=
  match engines with
  | [] => Ok []
  | engine :: engines =>
      match cut "=" engine with
      | Some (_, path) => let! imports := sqlDriverImports engines in Ok (path :: imports)
      | None => match sqlDrivers !! engine with
                | None => Err (UnknownEngineError engine)
                | Some path => let! imports := sqlDriverImports engines in Ok (path :: imports)
                end
      end
  end.

Definition telemetryImport (name : string) : result error string :=
  if bool_decide (name = "") then Ok ""
  else match Telemetry !! name with Some pkg => Ok pkg | None => Err (unknown_telemetry name) end.

Definition backendsFor (kinds : list string) : list string :=
  sort_strings (remove_dups (omap (λ kind,
    if bool_decide (kind = "cache") then Some "redis"
    else if bool_decide (kind = "sqlDatabase") then Some "sqldb" else None) kinds)).

(** [slices.Compact]: a run of one value is one of it. *)
Fixpoint Compact (l : list string) : list string :=
  match l with
  | [] => []
  | x :: xs => x :: match Compact xs with
                    | y :: ys => if bool_decide (x = y) then ys else y :: ys
                    | [] => []
                    end
  end.

(** What is linked whatever the kinds of resource, before it is known what is there. *)
Definition linked (p : platform) (tracing : string) (opts : GenerateOptions) : list string :=
  [p.(Adapter); p.(Resources_); p.(Config_)] ++
  (if opts.(Local_) then [LocalConfig; LocalResources; LocalResourceBackend] else []) ++
  [tracing] ++
  ((λ backend, default "" (Instrumentation !! tracing ≫= λ m, m !! backend)) <$> backendsFor opts.(Resources)).
Definition linkable (pkg : string) : bool := negb (bool_decide (pkg = "")) && bool_decide (pkg ∈ built).

Definition platformImports (p : platform) (opts : GenerateOptions) : result error (list string) :=
  let! tracing := telemetryImport opts.(TelemetryName) in
  let! kinds := resourceImports p.(Resources_) opts.(Resources) in
  Ok (Compact (sort_strings (List.filter linkable (linked p tracing opts) ++ kinds))).

(** ** The file *)

Definition writeHeader (packageName target constrained : string) (local : bool) : string :=
  (if bool_decide (constrained = "") then "" else "//go:build " +:+ constrained +:+ newline +:+ newline) +:+
  "// Code generated by celerity-go for the " +:+ go_quote target +:+ " deploy target. DO NOT EDIT." +:+ newline +:+
  (if local then "//" +:+ newline +:+ "// Built for a local development session." +:+ newline else "") +:+
  "//" +:+ newline +:+ "// Regenerate with: celerity-go generate --target <target>" +:+ newline +:+ newline +:+
  "package " +:+ packageName +:+ newline +:+ newline.

Definition import_line (path : string) : string := tab +:+ "_ " +:+ go_quote path +:+ newline.
Definition import_lines (paths : list string) : string :=
  foldr (λ path text, import_line path +:+ text) "" paths.

Definition writeDrivers (imports : nat) (drivers : list string) : string :=
  match drivers with
  | [] => ""
  | _ => (if 0 <? imports then newline else "") +:+ tab +:+
         "// The database drivers the blueprint's engines need." +:+ newline +:+ import_lines drivers
  end.

Definition writeImports (imports drivers : list string) : string :=
  match (imports ++ drivers)%list with
  | [path] => "import _ " +:+ go_quote path +:+ newline
  | _ => "import (" +:+ newline +:+ import_lines imports +:+
         writeDrivers (length imports) drivers +:+ ")" +:+ newline
  end.

Section generate.
(** [constraint.Parse], of an expression: what it refuses it with. *)
Context (parse_constraint : string → option error).

(** [strings.TrimSpace] of each, and the ones that name something. *)
Definition named (items : list string) : list string :=
  List.filter (λ s, negb (bool_decide (s = ""))) (TrimSpace <$> items).

Definition buildConstraint (tags : list string) : result error string :=
  match named tags with
  | [] => Ok ""
  | tags =>
      let expression := join tags " || " in
      match parse_constraint expression with
      | None => Ok expression
      | Some err => Err (EWrap (go_quote expression +:+ " cannot be a build constraint: " +:+
          error_text err +:+ "." +:+ newline +:+ "A build tag is letters, digits, underscores and dots, " +:+
          "and --test-tags takes them comma separated") err)
      end
  end.

Definition GeneratePlatformFile (packageName target : string) (opts : GenerateOptions) :
    result error string :=
  let! p := PlatformFor target in
  let! imports := platformImports p opts in
  let! drivers := sqlDriverImports opts.(SQLEngines) in
  let! constrained := buildConstraint opts.(BuildTags) in
  Ok (writeHeader packageName target constrained opts.(Local_) +:+
      writeImports imports (Compact (sort_strings drivers))).

(** ** What the command is told *)

(** [splitList]. *)
Definition splitList (value : string) : list string := named (split_on "," value).

Definition GeneratedFileName : string := "celerity_platform_gen.go".

(** [packageNameOf]: a directory's entries in their order, each with whether it is a directory,
    and the clause of a file whose clause parses. *)
Definition packageNameOf (dir : string) (entries : list (string * bool * option string)) :
    result error string :=
  match omap (λ '(name, is_dir, clause),
      if is_dir || bool_decide (name = GeneratedFileName) || negb (has_suffix name ".go") then None
      else clause) entries with
  | name :: _ => Ok name
  | [] => Err (EString ("no Go package found at " +:+ dir))
  end.

(** ** Test packages *)

Definition liveFunc : string := "Live".
Definition celeritytestPath : string := module "/celeritytest".
Definition DefaultTestTags : string := "integration".

Record LivePackage : Type := MkLivePackage { LiveName : string; LiveDir : string }.
#[export] Instance LivePackage_eq_dec : EqDecision LivePackage.
Proof. solve_decision. Defined.

Definition FileName (p : LivePackage) : string :=
  if has_suffix p.(LiveName) "_test" then "celerity_live_gen_test.go"
  else "celerity_live_gen_internal_test.go".
Definition Path (p : LivePackage) : string := p.(LiveDir) +:+ "/" +:+ FileName p.

(** A package that was loaded: its name, whether it has what type checking found, and its
    files, each with the directory it is in where its position has a file's name. *)
Record read_package : Type := MkRead {
  ReadName : string; TypesInfo : bool; ReadFiles : list (node * option string) }.

(** The function a selector is looked for: declared, of its name and its package. *)
Definition is_live (objects : obj → object) (o : obj) : bool :=
  (objects o).(is_func) && bool_decide ((objects o).(obj_name) = liveFunc) &&
  bool_decide ((objects o).(obj_pkg) = Some celeritytestPath).

(** [referencesLive]: a selector whose object is the function, looked for until it is found. *)
Definition referencesLive (objects : obj → object) (file : node) : bool :=
  inspect (λ n found, match n with
                      | Selector _ (Some o) =>
                          if found then (false, true) else (negb (is_live objects o), is_live objects o)
                      | _ => (negb found, found)
                      end) file false.

(** [callsLive]: the directory of the first file that calls it; a file that has no name is
    passed over. *)
Definition callsLive (objects : obj → object) (p : read_package) : option string :=
  if p.(TypesInfo) then head (omap (λ '(file, dir), if referencesLive objects file then dir else None) p.(ReadFiles))
  else None.

Definition live_le (a b : LivePackage) : Prop :=
  a.(LiveDir) ≠ b.(LiveDir) ∧ String.le a.(LiveDir) b.(LiveDir) ∨
  a.(LiveDir) = b.(LiveDir) ∧ String.le a.(LiveName) b.(LiveName).
#[export] Instance live_le_dec : RelDecision live_le.
Proof. intros a b. unfold live_le. apply _. Defined.

(** [sorted], of what is [found]: each once, by directory and then by name. *)
Definition live_package (objects : obj → object) (p : read_package) : option LivePackage :=
  MkLivePackage p.(ReadName) <$> callsLive objects p.
Definition LivePackages (objects : obj → object) (loaded : list read_package) : list LivePackage :=
  merge_sort live_le (remove_dups (omap (live_package objects) loaded)).

(** [ModuleRoot], of the segments of an absolute path, innermost first. *)
Fixpoint ModuleRoot (has_module : list string → bool) (dir : list string) : option (list string) :=
  if has_module dir then Some dir
  else match dir with [] => None | _ :: parent => ModuleRoot has_module parent end.

Definition buildTags (tags : list string) : list string :=
  match named tags with [] => [] | tags => ["-tags=" +:+ join tags ","] end.

End generate.

(** ** What is linked is what the blueprint asks for *)

Lemma elem_of_LivePackages objects loaded live :
  live ∈ LivePackages objects loaded ↔ ∃ p, p ∈ loaded ∧ live_package objects p = Some live.
Proof. unfold LivePackages. by rewrite merge_sort_Permutation, elem_of_remove_dups, list_elem_of_omap. Qed.

(** Go's rule of a directory: one package, and that of its external tests. *)
Definition one_package_each (objects : obj → object) (loaded : list read_package) : Prop :=
  ∀ p q dir, p ∈ loaded → q ∈ loaded → callsLive objects p = Some dir → callsLive objects q = Some dir →
    trim_suffix p.(ReadName) "_test" = trim_suffix q.(ReadName) "_test".

Lemma trim_suffix_inj a b p :
  has_suffix a p = has_suffix b p → trim_suffix a p = trim_suffix b p → a = b.
Proof.
  unfold has_suffix, trim_suffix. destruct (cut_suffix p a) as [x|] eqn:Ha, (cut_suffix p b) as [y|] eqn:Hb; cbn; try done.
  apply cut_suffix_Some in Ha as ->, Hb as ->. by intros _ ->.
Qed.

Lemma Path_inj a b : Path a = Path b → a.(LiveDir) = b.(LiveDir) ∧ FileName a = FileName b.
Proof.
  intros H. assert (FileName a = FileName b) as Hn.
  { apply (f_equal str_rev) in H. unfold Path in H. rewrite !str_rev_append in H. unfold FileName in *.
    destruct (has_suffix (LiveName a) _), (has_suffix (LiveName b) _); [done| | |done];
      vm_compute in H; discriminate H. }
  split; [|done]. unfold Path in H. rewrite Hn in H. by apply append_cancel_r in H.
Qed.

(** A file is written for one package only. *)
Lemma live_paths objects loaded :
  one_package_each objects loaded → NoDup (Path <$> LivePackages objects loaded).
Proof.
  intros Hone. apply NoDup_fmap_2_strong.
  - intros a b (p & Hp & Ha)%elem_of_LivePackages (q & Hq & Hb)%elem_of_LivePackages [Hd Hn]%Path_inj.
    unfold live_package in Ha, Hb. apply fmap_Some in Ha as (da & Hca & ->), Hb as (db & Hcb & ->). cbn in *. subst db.
    f_equal. apply (trim_suffix_inj _ _ "_test"); [|by eapply Hone].
    unfold FileName in Hn. cbn in Hn. by destruct (has_suffix (ReadName p) _), (has_suffix (ReadName q) _).
  - unfold LivePackages. rewrite merge_sort_Permutation. apply NoDup_remove_dups.
Qed.

Lemma elem_of_Compact x l : x ∈ Compact l ↔ x ∈ l.
Proof.
  induction l as [|y l IH]; [done|]. cbn [Compact]. rewrite (elem_of_cons l), <- IH.
  destruct (Compact l) as [|z zs]; [by rewrite elem_of_cons|].
  case_bool_decide as Hyz; rewrite !elem_of_cons; [subst|]; tauto.
Qed.

Lemma Compact_sorted l :
  StronglySorted String.le l → StronglySorted String.le (Compact l) ∧ NoDup (Compact l).
Proof.
  induction 1 as [|x l Hl [IH1 IH2] Hx]; [by split; constructor|]. cbn [Compact].
  assert (Forall (String.le x) (Compact l)) as Hx'.
  { rewrite !Forall_forall in *. intros y. rewrite elem_of_Compact. apply Hx. }
  destruct (Compact l) as [|y ys]; [by split; repeat constructor; set_solver|].
  apply StronglySorted_inv in IH1 as [Hys Hy]. apply NoDup_cons in IH2 as [Hny Hnd].
  apply Forall_cons in Hx' as [Hxy Hxys].
  case_bool_decide as Heq; [subst; by split; constructor|]. split; [by repeat constructor|].
  constructor; [|by constructor]. rewrite elem_of_cons. intros [->|Hin]; [done|].
  rewrite Forall_forall in Hy. apply Heq. apply (anti_symm String.le); [done|by apply Hy].
Qed.

(** What is sorted and compacted is known by what is in it. *)
Lemma Compact_sort_ext l1 l2 :
  (∀ x, x ∈ l1 ↔ x ∈ l2) → Compact (sort_strings l1) = Compact (sort_strings l2).
Proof.
  intros H. destruct (Compact_sorted _ (sort_strings_sorted l1)) as [Hs1 Hn1].
  destruct (Compact_sorted _ (sort_strings_sorted l2)) as [Hs2 Hn2].
  rewrite <- (sort_strings_id _ Hs1), <- (sort_strings_id _ Hs2).
  apply sort_strings_unique, NoDup_Permutation; [done..|].
  intros x. by rewrite !elem_of_Compact, !elem_of_sort_strings.
Qed.

(** The packages of a kind of resource. *)
Definition packages_of (resources kind : string) : list string :=
  match resourcePackages !! kind with
  | Some pkg => (resources +:+ "/" +:+ pkg) :: (if bool_decide (kind = "cache") then [RedisCache] else [])
  | None => []
  end.

Lemma kind_imports_spec resources kinds :
  match kind_imports resources kinds with
  | Ok imports => imports = kinds ≫= packages_of resources ∧ ∀ k, k ∈ kinds → is_Some (resourcePackages !! k)
  | Err err => ∃ k, k ∈ kinds ∧ resourcePackages !! k = None ∧ err = UnknownResourceError k
  end.
Proof.
  induction kinds as [|k kinds IH]; [by split; [|intros ? ?%not_elem_of_nil]|]. cbn [kind_imports].
  destruct (resourcePackages !! k) as [pkg|] eqn:Hk; [|exists k; split_and!; [left|done|done]].
  destruct (kind_imports resources kinds) as [imports|err].
  - destruct IH as [-> IH]. split; [|intros k' [->|?]%elem_of_cons; eauto].
    rewrite bind_cons. unfold packages_of at 2. by rewrite Hk.
  - destruct IH as (k' & ? & ? & ?). exists k'. split_and!; [by right|done|done].
Qed.

(** The driver of an engine, where it names one or is known. *)
Definition driver_of (engine : string) : option string :=
  match cut "=" engine with Some (_, path) => Some path | None => sqlDrivers !! engine end.

Lemma sqlDriverImports_spec engines :
  match sqlDriverImports engines with
  | Ok drivers => Some <$> drivers = driver_of <$> engines
  | Err err => ∃ e, e ∈ engines ∧ driver_of e = None ∧ err = UnknownEngineError e
  end.
Proof.
  induction engines as [|e engines IH]; cbn [sqlDriverImports]; [done|]. unfold driver_of at 1.
  rewrite fmap_cons. unfold driver_of at 1.
  destruct (cut "=" e) as [[name path]|] eqn:Hc; [|destruct (sqlDrivers !! e) as [path|] eqn:He].
  3: exists e; split_and!; [left|unfold driver_of; by rewrite Hc|done].
  all: destruct (sqlDriverImports engines) as [drivers|err];
    [by rewrite fmap_cons, IH|destruct IH as (e' & ? & ?); exists e'; split; [by right|done]].
Qed.

Lemma elem_of_filter_by {A} (f : A → bool) l x : x ∈ List.filter f l ↔ x ∈ l ∧ f x = true.
Proof. by rewrite !list_elem_of_In, filter_In. Qed.

(** What is imported of a target is sorted, once each, and exactly what there is to link of it
    and the packages of the kinds declared. *)
Lemma platformImports_exact p opts imports :
  p.(Resources_) ≠ "" → platformImports p opts = Ok imports →
  StronglySorted String.le imports ∧ NoDup imports ∧ ∃ tracing, telemetryImport opts.(TelemetryName) = Ok tracing ∧
  ∀ path, path ∈ imports ↔
    path ∈ linked p tracing opts ∧ linkable path = true ∨
    ∃ kind, kind ∈ opts.(Resources) ∧ path ∈ packages_of p.(Resources_) kind.
Proof.
  intros Hr. unfold platformImports. destruct (telemetryImport _) as [tracing|]; [|done].
  unfold resourceImports. rewrite bool_decide_false by done.
  pose proof (kind_imports_spec p.(Resources_) opts.(Resources)) as Hk.
  destruct (kind_imports _ _) as [kinds|]; [|done]. destruct Hk as [-> _].
  set (all := List.filter linkable _ ++ _). intros Heq.
  assert (imports = Compact (sort_strings all)) as -> by congruence.
  destruct (Compact_sorted _ (sort_strings_sorted all)) as [Hs Hn].
  split_and!; [done|done|]. exists tracing. split; [done|]. intros path.
  subst all. rewrite elem_of_Compact, elem_of_sort_strings, elem_of_app, elem_of_filter_by, list_elem_of_bind. naive_solver.
Qed.

(** C37: the file follows the blueprint and nothing else.  Two readings of a blueprint that
    declare the same kinds of resource and the same engines, in whatever order and however
    often, generate the same file; and what is refused of one is refused of the other. *)
Theorem the_file_follows_the_blueprint parse_constraint packageName target opts opts' :
  opts.(BuildTags) = opts'.(BuildTags) → opts.(Local_) = opts'.(Local_) →
  opts.(TelemetryName) = opts'.(TelemetryName) →
  (∀ kind, kind ∈ opts.(Resources) ↔ kind ∈ opts'.(Resources)) →
  (∀ engine, engine ∈ opts.(SQLEngines) ↔ engine ∈ opts'.(SQLEngines)) →
  match GeneratePlatformFile parse_constraint packageName target opts with
  | Ok file => GeneratePlatformFile parse_constraint packageName target opts' = Ok file
  | Err _ => is_ok (GeneratePlatformFile parse_constraint packageName target opts') = false
  end.
Proof.
  intros Htags Hlocal Htel Hkinds Hengines. unfold GeneratePlatformFile. rewrite <- Htags, <- Hlocal.
  destruct (PlatformFor target) as [p|]; [|done].
  assert (match platformImports p opts with
    | Ok imports => platformImports p opts' = Ok imports
    | Err _ => is_ok (platformImports p opts') = false
    end) as Himports.
  { unfold platformImports. rewrite <- Htel. destruct (telemetryImport _) as [tracing|]; [|done].
    assert (∀ kinds kinds', (∀ path, path ∈ kinds ↔ path ∈ kinds') →
      Compact (sort_strings (List.filter linkable (linked p tracing opts) ++ kinds)) =
      Compact (sort_strings (List.filter linkable (linked p tracing opts') ++ kinds'))) as Hext.
    { intros kinds kinds' Hk. apply Compact_sort_ext. intros path. rewrite !elem_of_app, Hk.
      rewrite !elem_of_filter_by. unfold linked. rewrite <- Hlocal.
      assert (backendsFor opts.(Resources) = backendsFor opts'.(Resources)) as ->; [|done].
      unfold backendsFor. apply sort_strings_unique, NoDup_Permutation; [apply NoDup_remove_dups..|].
      intros b. rewrite !elem_of_remove_dups, !list_elem_of_omap. by setoid_rewrite Hkinds. }
    unfold resourceImports. case_bool_decide; [by rewrite (Hext [] [])|].
    pose proof (kind_imports_spec p.(Resources_) opts.(Resources)) as Hk.
    pose proof (kind_imports_spec p.(Resources_) opts'.(Resources)) as Hk'.
    destruct (kind_imports _ opts.(Resources)) as [kinds|err], (kind_imports _ opts'.(Resources)) as [kinds'|err'].
    - destruct Hk as [-> _], Hk' as [-> _]. f_equal. symmetry. apply Hext. intros path.
      rewrite !list_elem_of_bind. by setoid_rewrite Hkinds.
    - destruct Hk as [_ Hk], Hk' as (k & Hin & Hno & _). apply Hkinds, Hk in Hin. rewrite Hno in Hin. by destruct Hin.
    - destruct Hk' as [_ Hk'], Hk as (k & Hin & Hno & _). apply Hkinds, Hk' in Hin. rewrite Hno in Hin. by destruct Hin.
    - done. }
  destruct (platformImports p opts) as [imports|]; [rewrite Himports|by destruct (platformImports p opts')].
  pose proof (sqlDriverImports_spec opts.(SQLEngines)) as Hd.
  pose proof (sqlDriverImports_spec opts'.(SQLEngines)) as Hd'.
  destruct (sqlDriverImports opts.(SQLEngines)) as [drivers|], (sqlDriverImports opts'.(SQLEngines)) as [drivers'|].
  - destruct (buildConstraint _ _); [|done].
    assert (Compact (sort_strings drivers') = Compact (sort_strings drivers)) as ->; [|done].
    apply Compact_sort_ext. intros d.
    assert (∀ (l : list string), Some d ∈ Some <$> l ↔ d ∈ l) as Hsome.
    { intros l. rewrite list_elem_of_fmap. naive_solver. }
    rewrite <- !Hsome, Hd, Hd', !list_elem_of_fmap. by setoid_rewrite Hengines.
  - destruct Hd' as (eng & Hin & Hno & _). apply Hengines, (list_elem_of_fmap_2 driver_of) in Hin.
    rewrite <- Hd, Hno in Hin. by apply list_elem_of_fmap in Hin as (? & ? & _).
  - destruct Hd as (eng & Hin & Hno & _). apply Hengines, (list_elem_of_fmap_2 driver_of) in Hin.
    rewrite <- Hd', Hno in Hin. by apply list_elem_of_fmap in Hin as (? & ? & _).
  - done.
Qed.

Lemma the_file_follows_the_blueprint_witness :
  let opts kinds engines := MkGenerateOptions [] true engines kinds "otel" in
  ∃ file, GeneratePlatformFile (λ _, None) "main" TargetAWSServerless (opts ["cache"; "datastore"] ["postgres"]) = Ok file ∧
    GeneratePlatformFile (λ _, None) "main" TargetAWSServerless (opts ["datastore"; "cache"; "datastore"] ["postgres"; "postgres"]) = Ok file.
Proof.
  cbn zeta. eexists. split; [by vm_compute|].
  exact (the_file_follows_the_blueprint (λ _, None) "main" TargetAWSServerless
    (MkGenerateOptions [] true ["postgres"] ["cache"; "datastore"] "otel")
    (MkGenerateOptions [] true ["postgres"; "postgres"] ["datastore"; "cache"; "datastore"] "otel")
    eq_refl eq_refl eq_refl ltac:(set_solver) ltac:(set_solver)).
Defined.

(** A driver that is named without a path is imported as one, and the package of a test file is
    taken for the application's where it is listed first. *)
Lemma what_is_taken_as_it_is :
  sqlDriverImports ["postgres="] = Ok [""] ∧
  packageNameOf "." [("api_test.go", false, Some "main_test"); ("main.go", false, Some "main")] = Ok "main_test" ∧
  splitList " bucket, ,queue," = ["bucket"; "queue"].
Proof. by vm_compute. Qed.
