(* ===== verification/Contracts.v ===== *)
(** * What a resource's client is asked

    The contracts of [resources/queue], [topic], [bucket], [datastore], [cache] and [sqldb] as
    families of operations, each operation indexed by what it answers with.  A client is a
    function from operations, as a Go client is a value of the contract's interface; what it
    answers may come with an error, as two results of a Go call do. *)

From S2P Require Import Prelude GoStrings Json Errors Handler Layer Values Store Config Resources Batch Bucket RedisCache.
From stdpp Require Import options.

(** A client of a contract, in a world [W]. *)
Definition client (W : Type) (O : Type → Type) : Type := ∀ A, O A → Ctx → W → outcome A * W.

(** [queue.Client]. *)
Inductive queue_op : Type → Type :=
  | QSend (body : string) (opts : list (Queue.SendOptions → Queue.SendOptions)) : queue_op string
  | QSendBatch (entries : list (BatchEntry Queue.SendOptions)) : queue_op BatchResult.

(** [topic.Client]. *)
Inductive topic_op : Type → Type :=
  | TPublish (body : string) (opts : list (Topic.SendOptions → Topic.SendOptions)) : topic_op string
  | TPublishBatch (entries : list (BatchEntry Topic.SendOptions)) : topic_op BatchResult.

(** [sqldb.Client], of connections [C]. *)
Inductive sql_op (C : Type) : Type → Type :=
  | SQLWriter : sql_op C C
  | SQLReader : sql_op C C.
Arguments SQLWriter {C}. Arguments SQLReader {C}.

(** [bucket.Store], of bodies read from an [R], and of stores [S] a copy may be put into. *)
Inductive bucket_op (R S : Type) : Type → Type :=
  | BGet (key : string) (opts : list (GetOptions → GetOptions)) : bucket_op R S (option Object)
  | BPut (key : string) (body : R) (opts : list (PutOptions → PutOptions)) : bucket_op R S PutResult
  | BDelete (key versionID : string) : bucket_op R S ()
  | BDeleteMany (refs : list ObjectRef) : bucket_op R S DeleteManyResult
  | BInfo (key versionID : string) : bucket_op R S ObjectInfo
  | BExists (key versionID : string) : bucket_op R S bool
  | BList (prefix : string) (opts : list ListOption) : bucket_op R S (list ObjectInfo * string)
  | BVersions (prefix : string) (opts : list ListOption) : bucket_op R S (list ObjectVersion * string)
  | BCopy (sourceKey : string) (dest : option S) (destKey : string)
      (opts : list (PutOptions → PutOptions)) : bucket_op R S PutResult
  | BSignedURL (key : string) (action : SignAction) (expiry : Z) : bucket_op R S SignedURL.
Arguments BGet {R S}. Arguments BPut {R S}. Arguments BDelete {R S}. Arguments BDeleteMany {R S}.
Arguments BInfo {R S}. Arguments BExists {R S}. Arguments BList {R S}. Arguments BVersions {R S}.
Arguments BCopy {R S}. Arguments BSignedURL {R S}.

(** [datastore.Client]; a [T] is what [out] is filled with. *)
Inductive datastore_op (T : Type) : Type → Type :=
  | DGet (key : Store.Key) : datastore_op T (T * Revision)
  | DPut (key : Store.Key) (it : item) (opts : list WriteOption) : datastore_op T Revision
  | DDelete (key : Store.Key) (opts : list WriteOption) : datastore_op T ()
  | DQuery (q : Query) : datastore_op T (T * Store.Cursor)
  | DScan (s : Store.Scan) : datastore_op T (T * Store.Cursor)
  | DBatchGet (keys : list Store.Key) : datastore_op T (T * list Store.Key)
  | DUpdate (key : Store.Key) (updates : list Update) (opts : list WriteOption) : datastore_op T Revision
  | DBatchWrite (ops : list BatchOp) : datastore_op T (list BatchOp)
  | DAtomically (partition : string) (ops : list AtomicOp) : datastore_op T ().
Arguments DGet {T}. Arguments DPut {T}. Arguments DDelete {T}. Arguments DQuery {T}.
Arguments DScan {T}. Arguments DBatchGet {T}. Arguments DUpdate {T}. Arguments DBatchWrite {T}.
Arguments DAtomically {T}.

(** ** The groups of [cache.Client] *)

Inductive strings_op : Type → Type :=
  | CGet (key : string) : strings_op string
  | CSet (key value : string) (opts : list SetOption) : strings_op bool
  | CDelete (key : string) : strings_op bool
  | CGetSet (key value : string) : strings_op string
  | CAppend (key value : string) : strings_op Z
  | CGetMany (keys : list string) : strings_op (gmap string string)
  | CSetMany (values : gmap string string) : strings_op ()
  | CDeleteMany (keys : list string) : strings_op Z.

(** [Keys], but for [Scan], which answers with an iterator and no error. *)
Inductive keys_op : Type → Type :=
  | KExists (key : string) : keys_op bool
  | KTTL (key : string) : keys_op (Z * bool)
  | KExpire (key : string) (ttl : Z) : keys_op bool
  | KPersist (key : string) : keys_op bool
  | KType (key : string) : keys_op string
  | KRename (key newKey : string) : keys_op ().

Inductive counters_op (F : Type) : Type → Type :=
  | NIncrement (key : string) (delta : Z) : counters_op F Z
  | NDecrement (key : string) (delta : Z) : counters_op F Z
  | NIncrementFloat (key : string) (delta : F) : counters_op F F.
Arguments NIncrement {F}. Arguments NDecrement {F}. Arguments NIncrementFloat {F}.

Inductive hashes_op : Type → Type :=
  | HashGet_ (key field : string) : hashes_op string
  | HashSet_ (key : string) (fields : gmap string string) : hashes_op ()
  | HashDelete_ (key : string) (fields : list string) : hashes_op Z
  | HashGetAll_ (key : string) : hashes_op (gmap string string)
  | HashExists_ (key field : string) : hashes_op bool
  | HashIncrement_ (key field : string) (delta : Z) : hashes_op Z
  | HashKeys_ (key : string) : hashes_op (list string)
  | HashLen_ (key : string) : hashes_op Z.

Inductive lists_op : Type → Type :=
  | ListPush_ (key : string) (values : list string) (opts : list EndOption) : lists_op Z
  | ListPop_ (key : string) (count : Z) (opts : list EndOption) : lists_op (list string)
  | ListRange_ (key : string) (start stop : Z) : lists_op (list string)
  | ListLen_ (key : string) : lists_op Z
  | ListTrim_ (key : string) (start stop : Z) : lists_op ()
  | ListIndex_ (key : string) (index : Z) : lists_op string.

Inductive sets_op : Type → Type :=
  | SetAdd_ (key : string) (members : list string) : sets_op Z
  | SetRemove_ (key : string) (members : list string) : sets_op Z
  | SetMembers_ (key : string) : sets_op (list string)
  | SetIsMember_ (key member : string) : sets_op bool
  | SetLen_ (key : string) : sets_op Z
  | SetUnion_ (keys : list string) : sets_op (list string)
  | SetIntersect_ (keys : list string) : sets_op (list string)
  | SetDiff_ (keys : list string) : sets_op (list string).

Inductive sorted_op (F : Type) : Type → Type :=
  | SortedSetAdd_ (key : string) (members : list (string * F)) : sorted_op F Z
  | SortedSetRemove_ (key : string) (members : list string) : sorted_op F Z
  | SortedSetScore_ (key member : string) : sorted_op F F
  | SortedSetRank_ (key member : string) (opts : list RangeOption) : sorted_op F Z
  | SortedSetRange_ (key : string) (start stop : Z) (opts : list RangeOption) : sorted_op F (list (string * F))
  | SortedSetRangeByScore_ (key : string) (scores : ScoreRange F) (opts : list RangeOption) :
      sorted_op F (list (string * F))
  | SortedSetIncrement_ (key member : string) (delta : F) : sorted_op F F
  | SortedSetLen_ (key : string) : sorted_op F Z
  | SortedSetCountByScore_ (key : string) (scores : ScoreRange F) : sorted_op F Z
  | SortedSetRemoveByRank_ (key : string) (start stop : Z) : sorted_op F Z
  | SortedSetRemoveByScore_ (key : string) (scores : ScoreRange F) : sorted_op F Z.
Arguments SortedSetAdd_ {F}. Arguments SortedSetRemove_ {F}. Arguments SortedSetScore_ {F}.
Arguments SortedSetRank_ {F}. Arguments SortedSetRange_ {F}. Arguments SortedSetRangeByScore_ {F}.
Arguments SortedSetIncrement_ {F}. Arguments SortedSetLen_ {F}. Arguments SortedSetCountByScore_ {F}.
Arguments SortedSetRemoveByRank_ {F}. Arguments SortedSetRemoveByScore_ {F}.

(** [Transactor] and [Connector], of what is queued [Q], what a write answered [V] and what a
    cache is reached with [C]. *)
Inductive whole_op (Q V C : Type) : Type → Type :=
  | Transaction_ (queue : Q) : whole_op Q V C (list V)
  | Connection__ : whole_op Q V C C.
Arguments Transaction_ {Q V C}. Arguments Connection__ {Q V C}.

Inductive cache_op (F Q V C : Type) (A : Type) : Type :=
  | CStrings (op : strings_op A)
  | CKeys (op : keys_op A)
  | CCounters (op : counters_op F A)
  | CHashes (op : hashes_op A)
  | CLists (op : lists_op A)
  | CSets (op : sets_op A)
  | CSortedSets (op : sorted_op F A)
  | CWhole (op : whole_op Q V C A).
Arguments CStrings {F Q V C A}. Arguments CKeys {F Q V C A}. Arguments CCounters {F Q V C A}.
Arguments CHashes {F Q V C A}. Arguments CLists {F Q V C A}. Arguments CSets {F Q V C A}.
Arguments CSortedSets {F Q V C A}. Arguments CWhole {F Q V C A}.
