(* ===== verification/Traced.v ===== *)
(** * Handles trace what they are asked

    Models [resources/traced.go], [traced_bucket.go], [traced_datastore.go] and
    [traced_cache.go]: every handle an application takes wraps the client its provider built,
    and opens a span round each call.  What the wrappers differ in is a [TracedOp], an
    instance per contract; what they share is [traced].  A walk of a cache's keys is wrapped
    apart, as it is no one call. *)

From S2P Require Import Prelude GoStrings Json Errors Handler Values Store Config Resources Batch Bucket RedisCache Contracts Layer.
From stdpp Require Import options.

Definition String_ (key value : string) : Attr := (key, Layer.AString value).
Definition Int_ (key : string) (n : Z) : Attr := (key, Layer.AInt n).
Definition Bool_ (key : string) (b : bool) : Attr := (key, Layer.ABool b).
(** [telemetry.Int] of a [len]. *)
Definition Count_ {A} (key : string) (l : list A) : Attr := Int_ key (Z.of_nat (length l)).

Definition resourceAttrs (ref : Ref) (kind : string) (extra : list Attr) : list Attr :=
  String_ (kind +:+ ".resource") ref.(RefName) :: extra.

(** ** What a wrapper records of an operation *)

(** The name of its span, what is recorded before the call and, of what it answered, after. *)
Class TracedOp (O : Type → Type) : Type := {
  span_name {A} : O A → string;
  attrs_before {A} : Ref → O A → list Attr;
  attrs_after {A} : O A → A → option (list Attr);
}.

Section traced.
Context {W : Type} `{Tracer W} {O : Type → Type} `{TracedOp O}.

(** A wrapper's method: [telemetry.Traced] over the call of the client it wraps. *)
Definition traced (ref : Ref) (inner : client W O) : client W O := λ A op c w,
  Traced c (span_name op) (attrs_before ref op) (λ c span w,
    match inner A op c w with
    | (Returned a err, w) =>
        (Returned a err, match attrs_after op a with Some attrs => SetAttributes span attrs w | None => w end)
    | (Panicked v, w) => (Panicked v, w)
    end) w.
End traced.

(** *** Queues and topics *)

Definition batch_attrs (kind : string) (r : BatchResult) : list Attr :=
  [Count_ (kind +:+ ".successful_count") r.(Successful); Count_ (kind +:+ ".failed_count") r.(Failed);
   Count_ (kind +:+ ".unsent_count") r.(Unsent)].

Definition queue_span {A} (op : queue_op A) : string :=
  match op with
  | QSend _ _ => "celerity.queue.send_message"
  | QSendBatch _ => "celerity.queue.send_message_batch"
  end.
Definition queue_before {A} (ref : Ref) (op : queue_op A) : list Attr := resourceAttrs ref "queue"
  match op with
  | QSend body _ => [Int_ "queue.body_size" (Z.of_nat (len body))]
  | QSendBatch entries => [Count_ "queue.message_count" entries]
  end.
Definition queue_after {A} (op : queue_op A) : A → option (list Attr) :=
  match op with
  | QSend _ _ => λ _, None
  | QSendBatch _ => λ result, Some (batch_attrs "queue" result)
  end.
#[export] Instance tracedQueue : TracedOp queue_op := {|
  span_name A := queue_span; attrs_before A := queue_before; attrs_after A := queue_after;
|}.

Definition topic_span {A} (op : topic_op A) : string :=
  match op with
  | TPublish _ _ => "celerity.topic.publish"
  | TPublishBatch _ => "celerity.topic.publish_batch"
  end.
Definition topic_before {A} (ref : Ref) (op : topic_op A) : list Attr := resourceAttrs ref "topic"
  match op with
  | TPublish body _ => [Int_ "topic.body_size" (Z.of_nat (len body))]
  | TPublishBatch entries => [Count_ "topic.message_count" entries]
  end.
Definition topic_after {A} (op : topic_op A) : A → option (list Attr) :=
  match op with
  | TPublish _ _ => λ _, None
  | TPublishBatch _ => λ result, Some (batch_attrs "topic" result)
  end.
#[export] Instance tracedTopic : TracedOp topic_op := {|
  span_name A := topic_span; attrs_before A := topic_before; attrs_after A := topic_after;
|}.

(** *** SQL databases: only the taking of a connection *)

Definition sql_span {C A} (op : sql_op C A) : string :=
  match op with SQLWriter => "celerity.sql_database.writer" | SQLReader => "celerity.sql_database.reader" end.
#[export] Instance tracedDatabase {C} : TracedOp (sql_op C) := {|
  span_name A := sql_span; attrs_before A ref _ := resourceAttrs ref "db" []; attrs_after A _ _ := None;
|}.

(** *** Buckets *)

Section bucket.
Context {R S : Type}.

Definition bucket_span {A} (op : bucket_op R S A) : string := "celerity.bucket." +:+
  match op with
  | BGet _ _ => "get" | BPut _ _ _ => "put" | BDelete _ _ => "delete" | BDeleteMany _ => "delete_many"
  | BInfo _ _ => "info" | BExists _ _ => "exists" | BList _ _ => "list_page" | BVersions _ _ => "list_versions"
  | BCopy _ _ _ _ => "copy" | BSignedURL _ _ _ => "sign_url"
  end.

Definition bucket_before {A} (ref : Ref) (op : bucket_op R S A) : list Attr := resourceAttrs ref "bucket"
  match op with
  | BGet key _ | BPut key _ _ | BDelete key _ | BInfo key _ | BExists key _ => [String_ "bucket.key" key]
  | BDeleteMany refs => [Count_ "bucket.object_count" refs]
  | BList prefix _ | BVersions prefix _ => [String_ "bucket.prefix" prefix]
  | BCopy sourceKey dest destKey _ =>
      [String_ "bucket.source_key" sourceKey; String_ "bucket.dest_key" destKey;
       Bool_ "bucket.cross_bucket" (is_some dest)]
  | BSignedURL key action _ =>
      [String_ "bucket.key" key; String_ "bucket.sign_operation" (action_text action)]
  end.

(** The counts are recorded of a failed call too; an object's length only where there is one. *)
Definition bucket_after {A} (op : bucket_op R S A) : A → option (list Attr) :=
  match op with
  | BGet _ _ => λ object, match object with
                          | Some o => Some [Int_ "bucket.content_length" o.(oContentLength)]
                          | None => None
                          end
  | BDeleteMany _ => λ r, Some
      [Count_ "bucket.deleted_count" r.(Deleted); Count_ "bucket.failed_count" r.(DeleteFailed);
       Count_ "bucket.unsent_count" r.(DeleteUnsent_)]
  | BExists _ _ => λ held, Some [Bool_ "bucket.exists" held]
  | BList _ _ => λ '(page, next), Some
      [Count_ "bucket.object_count" page; Bool_ "bucket.has_more" (Bucket.More next)]
  | BVersions _ _ => λ '(page, next), Some
      [Count_ "bucket.version_count" page; Bool_ "bucket.has_more" (Bucket.More next)]
  | _ => λ _, None
  end.
End bucket.

#[export] Instance tracedBucket {R S} : TracedOp (bucket_op R S) := {|
  span_name A := bucket_span; attrs_before A := bucket_before; attrs_after A := bucket_after;
|}.

(** *** Data stores *)

Section datastore.
Context {T : Type}.

Definition keyAttrs (ref : Ref) (key : Store.Key) : list Attr := resourceAttrs ref "datastore"
  [String_ "datastore.partition" key.(Partition);
   Bool_ "datastore.sorted" (negb (bool_decide (key.(Sort) = "")))].
Definition conditionAttrs (ref : Ref) (key : Store.Key) (opts : list WriteOption) : list Attr :=
  let options := ResolveWriteOptions opts in
  keyAttrs ref key ++
  [Bool_ "datastore.conditional" (is_some options.(optCondition) || is_some options.(optRevision))].

Definition datastore_span {A} (op : datastore_op T A) : string := "celerity.datastore." +:+
  match op with
  | DGet _ => "get_item" | DPut _ _ _ => "put_item" | DDelete _ _ => "delete_item" | DQuery _ => "query_page"
  | DScan _ => "scan_page" | DBatchGet _ => "batch_get_items" | DUpdate _ _ _ => "update_item"
  | DBatchWrite _ => "batch_write_items" | DAtomically _ _ => "atomic_write"
  end.

Definition datastore_before {A} (ref : Ref) (op : datastore_op T A) : list Attr :=
  match op with
  | DGet key => keyAttrs ref key
  | DPut key _ opts | DDelete key opts => conditionAttrs ref key opts
  | DQuery q => resourceAttrs ref "datastore"
      [String_ "datastore.partition" q.(qPartition); String_ "datastore.index" q.(qIndex);
       Bool_ "datastore.sort_condition" (is_some q.(qSort)); Bool_ "datastore.filtered" (is_some q.(qFilter))]
  | DScan s => resourceAttrs ref "datastore" [Bool_ "datastore.filtered" (is_some s.(sFilter))]
  | DBatchGet keys => resourceAttrs ref "datastore" [Count_ "datastore.batch_size" keys]
  | DUpdate key updates opts => conditionAttrs ref key opts ++ [Count_ "datastore.update_count" updates]
  | DBatchWrite ops => resourceAttrs ref "datastore" [Count_ "datastore.batch_size" ops]
  | DAtomically partition ops => resourceAttrs ref "datastore"
      [String_ "datastore.partition" partition; Count_ "datastore.operation_count" ops]
  end.

Definition datastore_after {A} (op : datastore_op T A) : A → option (list Attr) :=
  match op with
  | DQuery _ | DScan _ => λ '(_, cursor), Some [Bool_ "datastore.has_more" (Store.More cursor)]
  | DBatchGet _ => λ '(_, missing), Some [Count_ "datastore.missing_count" missing]
  | DBatchWrite _ => λ unapplied, Some [Count_ "datastore.unapplied_count" unapplied]
  | _ => λ _, None
  end.
End datastore.

#[export] Instance tracedDatastore {T} : TracedOp (datastore_op T) := {|
  span_name A := datastore_span; attrs_before A := datastore_before; attrs_after A := datastore_after;
|}.

(** *** Caches *)

Definition cache_attrs (ref : Ref) (key : string) : list Attr :=
  resourceAttrs ref "cache" (if bool_decide (key = "") then [] else [String_ "cache.key" key]).

(** Each group's operations: what the span is called, and the key the operation is about. *)
Definition strings_span {A} (op : strings_op A) : string * string :=
  match op with
  | CAppend key _ => ("append", key) | CDelete key => ("delete", key) | CDeleteMany _ => ("delete_many", "")
  | CGet key => ("get", key) | CGetMany _ => ("get_many", "") | CGetSet key _ => ("get_set", key)
  | CSet key _ _ => ("set", key) | CSetMany _ => ("set_many", "")
  end.
Definition keys_span {A} (op : keys_op A) : string * string :=
  match op with
  | KExists key => ("exists", key) | KTTL key => ("ttl", key) | KExpire key _ => ("expire", key)
  | KPersist key => ("persist", key) | KType key => ("type", key) | KRename key _ => ("rename", key)
  end.
Definition counters_span {F A} (op : counters_op F A) : string * string :=
  match op with
  | NDecrement key _ => ("decrement", key) | NIncrement key _ => ("increment", key)
  | NIncrementFloat key _ => ("increment_float", key)
  end.
Definition hashes_span {A} (op : hashes_op A) : string * string :=
  match op with
  | HashDelete_ key _ => ("hash_delete", key) | HashExists_ key _ => ("hash_exists", key)
  | HashGet_ key _ => ("hash_get", key) | HashGetAll_ key => ("hash_get_all", key)
  | HashIncrement_ key _ _ => ("hash_increment", key) | HashKeys_ key => ("hash_keys", key)
  | HashLen_ key => ("hash_len", key) | HashSet_ key _ => ("hash_set", key)
  end.
Definition lists_span {A} (op : lists_op A) : string * string :=
  match op with
  | ListIndex_ key _ => ("list_index", key) | ListLen_ key => ("list_len", key)
  | ListPop_ key _ _ => ("list_pop", key) | ListPush_ key _ _ => ("list_push", key)
  | ListRange_ key _ _ => ("list_range", key) | ListTrim_ key _ _ => ("list_trim", key)
  end.
Definition sets_span {A} (op : sets_op A) : string * string :=
  match op with
  | SetAdd_ key _ => ("set_add", key) | SetDiff_ _ => ("set_diff", "") | SetIntersect_ _ => ("set_intersect", "")
  | SetIsMember_ key _ => ("set_is_member", key) | SetLen_ key => ("set_len", key)
  | SetMembers_ key => ("set_members", key) | SetRemove_ key _ => ("set_remove", key)
  | SetUnion_ _ => ("set_union", "")
  end.
Definition sorted_span {F A} (op : sorted_op F A) : string * string :=
  match op with
  | SortedSetAdd_ key _ => ("sorted_set_add", key)
  | SortedSetCountByScore_ key _ => ("sorted_set_count_by_score", key)
  | SortedSetIncrement_ key _ _ => ("sorted_set_increment", key)
  | SortedSetLen_ key => ("sorted_set_len", key)
  | SortedSetRange_ key _ _ _ => ("sorted_set_range", key)
  | SortedSetRangeByScore_ key _ _ => ("sorted_set_range_by_score", key)
  | SortedSetRank_ key _ _ => ("sorted_set_rank", key)
  | SortedSetRemove_ key _ => ("sorted_set_remove", key)
  | SortedSetRemoveByRank_ key _ _ => ("sorted_set_remove_by_rank", key)
  | SortedSetRemoveByScore_ key _ => ("sorted_set_remove_by_score", key)
  | SortedSetScore_ key _ => ("sorted_set_score", key)
  end.
Definition whole_span {Q V C A} (op : whole_op Q V C A) : string * string :=
  match op with Transaction_ _ => ("transaction", "") | Connection__ => ("connection", "") end.

Definition cache_span {F Q V C A} (op : cache_op F Q V C A) : string * string :=
  match op with
  | CStrings op => strings_span op | CKeys op => keys_span op | CCounters op => counters_span op
  | CHashes op => hashes_span op | CLists op => lists_span op | CSets op => sets_span op
  | CSortedSets op => sorted_span op | CWhole op => whole_span op
  end.

Definition keys_after {A} (op : keys_op A) : A → option (list Attr) :=
  match op with KTTL _ => λ '(_, expires), Some [Bool_ "cache.expires" expires] | _ => λ _, None end.

#[export] Instance tracedCache {F Q V C} : TracedOp (cache_op F Q V C) := {|
  span_name A op := "celerity.cache." +:+ (cache_span op).1;
  attrs_before A ref op := cache_attrs ref (cache_span op).2;
  attrs_after A op := match op with CKeys op => keys_after op | _ => λ _, None end;
|}.

(** ** A walk of a cache's keys *)

(** A sequence: what ranging over it does, given the body of the loop, which is told a key or
    what failed and answers whether to go on.  Either may panic. *)
Definition Seq (W : Type) : Type := ∀ S : Type,
  (string → option error → S → W → result panic_value (bool * S) * W) → S → W → result panic_value S * W.

Section scan.
Context {W : Type} `{Tracer W}.

(** The body of the loop over what the cache yields, with the keys walked so far and whether
    the reader has stopped. *)
Definition walk_step {S} (span : Span)
    (yield : string → option error → S → W → result panic_value (bool * S) * W)
    (key : string) (err : option error) : S * Z * bool → W → result panic_value (bool * (S * Z * bool)) * W :=
  λ '(s, walked, _) w,
    let w := match err with Some err => RecordError span err w | None => w end in
    let walked := (walked + 1)%Z in
    match yield key err s w with
    | (Err v, w) => (Err v, w)
    | (Ok (true, s), w) => (Ok (true, (s, walked, false)), w)
    | (Ok (false, s), w) =>
        (Ok (false, (s, walked, true)),
         SetAttributes span [Int_ "cache.key_count" walked; Bool_ "cache.stopped_early" true] w)
    end.

(** One range over what [Scan] answers with. *)
Definition walk_traced (span : Span) (inner : Seq W) : Seq W := λ S yield s w,
  match inner (S * Z * bool)%type (walk_step span yield) (s, 0%Z, false) w with
  | (Err v, w) => (Err v, End_ span w)
  | (Ok (s, _, true), w) => (Ok s, End_ span w)
  | (Ok (s, walked, false), w) => (Ok s, End_ span (SetAttributes span [Int_ "cache.key_count" walked] w))
  end.

(** [tracedCache.Scan]: the span is opened here, and ended by ranging over the answer. *)
Definition traced_scan (ref : Ref) (inner : Ctx → W → Seq W * W) (c : Ctx) (w : W) : Seq W * W :=
  let '((c, span), w) := Start c "celerity.cache.scan" (cache_attrs ref "") w in
  let '(walk, w) := inner c w in
  (walk_traced span walk, w).
End scan.
