(* ===== verification/Recording.v ===== *)
(** * What a traced call leaves behind

    Models the recording tracer of [celeritytest/tracer.go], an implementation of the tracing
    interface, and proves of every traced client what it records: one span for the call,
    around those the client itself opens, ended whatever the call did.  Spans are kept in a
    heap, as a span's handle goes on pointing at what it recorded once [Reset] has forgotten
    it. *)

From S2P Require Import Prelude GoStrings Json Errors Handler Values Store Config Resources Batch Bucket RedisCache S3 Contracts Layer Traced.
From stdpp Require Import options.

Record RecordedSpan : Type := MkRecordedSpan {
  spName : string;
  spTraceID : string;
  spSpanID : string;
  spAttrs : list Attr;
  spErr : option error;
  spParent : string;
  spEnded : bool;
}.

(** [RecordedSpan.Attr]: the first of a key. *)
Definition Attr_ (s : RecordedSpan) (key : string) : option attr_value :=
  snd <$> head (List.filter (λ a, bool_decide (a.1 = key)) s.(spAttrs)).

Record Recorder : Type := MkRecorder { heap : list RecordedSpan; recorded : list nat }.
Definition no_spans : Recorder := MkRecorder [] [].

Definition Spans (r : Recorder) : list RecordedSpan := omap (r.(heap) !!.) r.(recorded).
Definition Names (r : Recorder) : list string := spName <$> Spans r.
Definition Span_ (r : Recorder) (name : string) : option RecordedSpan :=
  head (List.filter (λ s, bool_decide (s.(spName) = name)) (Spans r)).
Definition Reset_ (r : Recorder) : Recorder := MkRecorder r.(heap) [].

(** What [AssertSpan] fails a test with, or the span. *)
Definition AssertSpan (r : Recorder) (name : string) : result string RecordedSpan :=
  match Span_ r name with
  | Some span => Ok span
  | None => Err ("celeritytest: no span was recorded as " +:+ go_quote name +:+ "." +:+ newline +:+
      "Recorded:" +:+ newline +:+ tab +:+
      match Names r with [] => "nothing" | names => join names (newline +:+ tab) end)
  end.

(** [Tracer.Start]: the context keeps the span's name, for a parent, and its trace. *)
Definition open_span (c : Ctx) (name : string) (attrs : list Attr) (r : Recorder) : RecordedSpan :=
  let n := itoa (Z.of_nat (length r.(recorded)) + 1) in
  MkRecordedSpan name
    (match c.(ctxSpan) with Some (_, trace) => if bool_decide (trace = "") then "trace-" +:+ n else trace
                          | None => "trace-" +:+ n end)
    ("span-" +:+ n) attrs None (match c.(ctxSpan) with Some (parent, _) => parent | None => "" end) false.

Definition add_attrs (attrs : list Attr) (s : RecordedSpan) : RecordedSpan :=
  MkRecordedSpan s.(spName) s.(spTraceID) s.(spSpanID) (s.(spAttrs) ++ attrs) s.(spErr) s.(spParent) s.(spEnded).
Definition set_err (err : error) (s : RecordedSpan) : RecordedSpan :=
  MkRecordedSpan s.(spName) s.(spTraceID) s.(spSpanID) s.(spAttrs) (Some err) s.(spParent) s.(spEnded).
Definition set_ended (s : RecordedSpan) : RecordedSpan :=
  MkRecordedSpan s.(spName) s.(spTraceID) s.(spSpanID) s.(spAttrs) s.(spErr) s.(spParent) true.

Definition at_span {W} (span : nat * SpanContext) (f : RecordedSpan → RecordedSpan) (w : Recorder * W) :
    Recorder * W :=
  (MkRecorder (alter f span.1 w.1.(heap)) w.1.(recorded), w.2).

Lemma at_span_twice {W} span f g (w : Recorder * W) :
  at_span span f (at_span span g w) = at_span span (f ∘ g) w.
Proof.
  unfold at_span. cbn. do 2 f_equal. generalize w.1.(heap) as l. generalize span.1 as i.
  induction i; intros [|s l]; cbn; f_equal; auto.
Qed.

(** The recorder with a span added to it. *)
Definition started (r : Recorder) (s : RecordedSpan) : Recorder :=
  MkRecorder (r.(heap) ++ [s]) (r.(recorded) ++ [length r.(heap)]).
Definition within (c : Ctx) (s : RecordedSpan) : Ctx := WithSpan c (s.(spName), s.(spTraceID)).

#[export] Instance recording {W} : Tracer (Recorder * W) := {|
  Span := nat * SpanContext;
  Start c name attrs w :=
    let s := open_span c name attrs w.1 in
    ((within c s, (length w.1.(heap), MkSpanContext s.(spTraceID) s.(spSpanID))), (started w.1 s, w.2));
  SetAttributes span attrs := at_span span (add_attrs attrs);
  RecordError span err := at_span span (set_err err);
  End_ span := at_span span set_ended;
  SpanOf := snd;
|}.

#[export] Instance recording_laws {W} : TracerLaws (Recorder * W).
Proof. split. intros c name attrs w c' s w' [= <- <- <-]. done. Qed.

(** ** One span for a call *)

(** What a call leaves of a recorder it does not reset: what was recorded, as it was, before the
    spans it adds. *)
Definition adds (new : list RecordedSpan) (r r' : Recorder) : Prop :=
  r'.(heap) = r.(heap) ++ new ∧ r'.(recorded) = r.(recorded) ++ seq (length r.(heap)) (length new).

(** A span once its call is over. *)
Definition closed (s : RecordedSpan) (after : list Attr) (err : option error) : RecordedSpan :=
  MkRecordedSpan s.(spName) s.(spTraceID) s.(spSpanID) (s.(spAttrs) ++ after) err s.(spParent) true.

Definition outcome_error {A} (o : outcome A) : option error :=
  match o with Returned _ err => err | Panicked _ => None end.
Definition learnt {O} `{TracedOp O} {A} (op : O A) (o : outcome A) : list Attr :=
  match o with Returned a _ => default [] (attrs_after op a) | Panicked _ => [] end.

(** The span of a call, once it is ended, before what was recorded while it was open. *)
Lemma adds_closed {W} r s ids (w1 : Recorder * W) new f :
  adds new (started r s) w1.1 →
  adds (f s :: new) r (at_span (length r.(heap), ids) f w1).1.
Proof.
  intros [Hh Hr]. unfold adds, at_span. cbn in *. rewrite Hh, Hr, <- !app_assoc.
  rewrite alter_app_r_alt, Nat.sub_diag by lia. cbn. by rewrite length_app, Nat.add_1_r.
Qed.

(** The trace a span is of: the one it was called in, or a new one. *)
Definition trace_of (c : Ctx) (r : Recorder) : string :=
  match c.(ctxSpan) with
  | Some (_, trace) => if bool_decide (trace = "") then "trace-" +:+ itoa (Z.of_nat (length r.(recorded)) + 1) else trace
  | None => "trace-" +:+ itoa (Z.of_nat (length r.(recorded)) + 1)
  end.

(** C17: a traced call is the call, and one span.  Every operation of a queue, a topic, a
    database, a bucket, a data store or a cache but the walk of a cache's keys, asked of a
    handle, answers and leaves the world exactly as the client it wraps does, called in the
    span's own context.  Over a client that leaves what is recorded already alone, what is
    left recorded is one span for the call, before those the client itself opened, which are
    as it left them: ended, though the call panicked, with the operation's name, the trace and
    the parent it was called in, the attributes of the operation and then of what it answered,
    and the error it answered with. *)
Theorem traced_records {W O} `{TracedOp O} (ref : Ref) (inner : client (Recorder * W) O) A (op : O A) c r w new :
  let id := "span-" +:+ itoa (Z.of_nat (length r.(recorded)) + 1) in
  let opened := MkRecordedSpan (span_name op) (trace_of c r) id (attrs_before ref op) None
    (match c.(ctxSpan) with Some (parent, _) => parent | None => "" end) false in
  let called := inner A op (WithSpan c (span_name op, trace_of c r))
    (MkRecorder (r.(heap) ++ [opened]) (r.(recorded) ++ [length r.(heap)]), w) in
  adds new (MkRecorder (r.(heap) ++ [opened]) (r.(recorded) ++ [length r.(heap)])) called.2.1 →
  let '(o, (r', w')) := traced ref inner A op c (r, w) in
  o = called.1 ∧ w' = called.2.2 ∧
  adds (MkRecordedSpan (span_name op) (trace_of c r) id (attrs_before ref op ++ learnt op o) (outcome_error o)
          (match c.(ctxSpan) with Some (parent, _) => parent | None => "" end) true :: new) r r'.
Proof.
  intros id opened called Hinner. unfold traced, Traced. cbn [Start SetAttributes RecordError End_ recording fst snd].
  change (open_span c (span_name op) (attrs_before ref op) r) with opened.
  change (inner A op (within c opened) (started r opened, w)) with called.
  destruct called as [o w1] eqn:Hc. cbn [fst snd] in Hinner |- *.
  assert (∀ o' f, o' = o → f opened = MkRecordedSpan (span_name op) (trace_of c r) id
      (attrs_before ref op ++ learnt op o) (outcome_error o)
      (match c.(ctxSpan) with Some (parent, _) => parent | None => "" end) true →
    let '(o', (r', w'')) := (o', at_span (length r.(heap), MkSpanContext opened.(spTraceID) opened.(spSpanID)) f w1) in
    o' = o ∧ w'' = w1.2 ∧ adds (MkRecordedSpan (span_name op) (trace_of c r) id
      (attrs_before ref op ++ learnt op o') (outcome_error o')
      (match c.(ctxSpan) with Some (parent, _) => parent | None => "" end) true :: new) r r') as Hdone.
  { intros o' f -> Hf. pose proof (adds_closed r opened (MkSpanContext opened.(spTraceID) opened.(spSpanID)) w1 new f Hinner) as Ha.
    rewrite Hf in Ha. unfold at_span in Ha |- *. by split_and!. }
  destruct o as [a [err|]|v]; [destruct (attrs_after op a) as [attrs|] eqn:E..|];
    rewrite ?at_span_twice; apply Hdone; [done| |done| |done| |done| |done|];
    unfold learnt; cbn; rewrite ?E; cbn; by rewrite ?app_nil_r.
Qed.

(** A queue that takes every message, and reports one of a batch as refused. *)
Definition a_queue : client (Recorder * ()) queue_op := λ A op c w,
  match op in queue_op A return outcome A * (Recorder * ()) with
  | QSend _ _ => (Returned "m-1" None, w)
  | QSendBatch _ => (Returned (MkBatch [] [MkFailure "a" "Throttled" "" false] []) (Some (EString "in part")), w)
  end.

Lemma traced_records_witness :
  let c := WithSpan Background ("POST /orders", "trace-1") in
  let batch := QSendBatch [MkEntry "a" "{}" []] in
  let '(o, (r', _)) := traced (MkRef KindQueue "orders") a_queue _ batch c (no_spans, ()) in
  o = (a_queue _ batch c (no_spans, ())).1 ∧
  Spans r' = [MkRecordedSpan "celerity.queue.send_message_batch" "trace-1" "span-1"
    [String_ "queue.resource" "orders"; Int_ "queue.message_count" 1; Int_ "queue.successful_count" 0;
     Int_ "queue.failed_count" 1; Int_ "queue.unsent_count" 0] (Some (EString "in part")) "POST /orders" true].
Proof.
  intros c batch.
  pose proof (traced_records (MkRef KindQueue "orders") a_queue _ batch c no_spans () [] ltac:(by split)) as H.
  destruct (traced (MkRef KindQueue "orders") a_queue _ batch c (no_spans, ())) as [o [r' w']].
  destruct H as (Ho & _ & Hh & Hr). split; [exact Ho|]. rewrite Ho in Hh. unfold Spans. rewrite Hr, Hh.
  vm_compute. reflexivity.
Defined.

(** ** A walk of a cache's keys *)

(** A cache that yields these, in order, until the body of the loop stops or panics. *)
Fixpoint yield_all {W S} (yield : string → option error → S → W → result panic_value (bool * S) * W)
    (l : list (string * option error)) (s : S) (w : W) : result panic_value S * W :=
  match l with
  | [] => (Ok s, w)
  | (key, err) :: l => match yield key err s w with
                       | (Err v, w) => (Err v, w)
                       | (Ok (true, s), w) => yield_all yield l s w
                       | (Ok (false, s), w) => (Ok s, w)
                       end
  end.
Definition yields {W} (l : list (string * option error)) : Seq W := λ S yield, yield_all yield l.

(** The body of a loop that does nothing to the recorder. *)
Definition beside {W S} (y : string → option error → S → W → result panic_value (bool * S) * W)
    (key : string) (err : option error) (s : S) (w : Recorder * W) : result panic_value (bool * S) * (Recorder * W) :=
  let '(o, w') := y key err s w.2 in (o, (w.1, w')).

Lemma at_span_beside {W} span f r (w : W) : at_span span f (r, w) = ((at_span span f (r, w)).1, w).
Proof. done. Qed.

(** A walk gives the body of a loop what the cache yields, and ends the span however the loop
    ends. *)
Lemma walk_is_traced {W S} (y : string → option error → S → W → result panic_value (bool * S) * W)
    span l s r w :
  let '(o, w') := yield_all y l s w in
  ∃ f, walk_traced span (yields l) S (beside y) s (r, w) = (o, at_span span f (r, w')) ∧
    ∀ s, (f s).(spEnded) = true.
Proof.
  assert (∀ l s n b g w,
    let '(o, w') := yield_all y l s w in
    ∃ f n' b', yield_all (walk_step span (beside y)) l (s, n, b) (at_span span g (r, w)) =
      (match o with Ok s => Ok (s, n', b') | Err v => Err v end, at_span span f (r, w'))) as Hgo.
  { clear. induction l as [|[key err] l IH]; intros s n b g w; cbn [yield_all].
    { by exists g, n, b. }
    unfold walk_step at 1.
    assert (∃ g', (match err with Some err => RecordError span err (at_span span g (r, w)) | None => at_span span g (r, w) end)
      = at_span span g' (r, w)) as [g' ->].
    { destruct err; [|by exists g]. eexists. apply at_span_twice. }
    unfold beside at 1. rewrite (at_span_beside _ g'). cbn [fst snd].
    destruct (y key err s w) as [[[[] s']|v] w'].
    - apply (IH s' _ _ g').
    - eexists _, _, _. f_equal. exact (at_span_twice span _ g' (r, w')).
    - by exists g', 0%Z, true. }
  specialize (Hgo l s 0%Z false id w). destruct (yield_all y l s w) as [o w'].
  destruct Hgo as (f & n & b & Hgo).
  assert (at_span span id (r, w) = (r, w)) as Hid.
  { assert (∀ i (h : list RecordedSpan), alter id i h = h) as Hh.
    { induction i; intros [|x h]; cbn; f_equal; auto. }
    unfold at_span. cbn. rewrite Hh. by destruct r. }
  rewrite Hid in Hgo. unfold walk_traced, yields. rewrite Hgo.
  destruct o as [s'|v]; [destruct b|]; cbn [SetAttributes End_ recording]; rewrite ?at_span_twice;
    eexists; (split; [reflexivity|done]).
Qed.

(** The span of a walk is opened when the walk is asked for: it stays open where the walk is
    never ranged over. *)
Lemma a_walk_not_taken :
  let '(_, (r, _)) := traced_scan (MkRef KindCache "sessions") (λ _ w, (yields [("a", None)], w)) Background (no_spans, ()) in
  spEnded <$> Spans r = [false].
Proof. done. Qed.
