(* ===== verification/Doubles.v ===== *)
(** * What a test's application reaches

    Models the rest of [celeritytest]'s doubles: the cache stub ([cache_stub.go]), the provider
    that hands doubles out in place of deployed resources, or beside live ones ([provider.go],
    [live.go]), and the database that refuses ([database.go]).  A test that fails stops, and is
    an [Err] with what it is told; a double is known by its identity, the order it was made in. *)

From S2P Require Import Prelude GoStrings Json Errors Handler Values Store Config Resources Batch Bucket RedisCache S3 Contracts Layer Traced Recording.
From stdpp Require Import options.

(** ** The cache stub *)

(** [notConfigured]. *)
Definition notConfigured (resource call : string) : error := EString ("celeritytest: " +:+ resource +:+
  " was asked for " +:+ call +:+ ", which this test did not arrange. Set the matching function " +:+
  "on the stub to say what it should answer").

(** Each method of the stub: the call it records, and what goes with the error where nothing
    was arranged. *)
Definition stub_string {A} (op : strings_op A) : string * A :=
  match op with
  | CAppend _ _ => ("Append", 0%Z) | CDelete _ => ("Delete", false) | CDeleteMany _ => ("DeleteMany", 0%Z)
  | CGet _ => ("Get", "") | CGetMany _ => ("GetMany", ∅) | CGetSet _ _ => ("GetSet", "")
  | CSet _ _ _ => ("Set", false) | CSetMany _ => ("SetMany", ())
  end.
Definition stub_key {A} (op : keys_op A) : string * A :=
  match op with
  | KExists _ => ("Exists", false) | KTTL _ => ("TTL", (0%Z, false)) | KExpire _ _ => ("Expire", false)
  | KPersist _ => ("Persist", false) | KType _ => ("Type", "") | KRename _ _ => ("Rename", ())
  end.
Definition stub_counter {F A} (fzero : F) (op : counters_op F A) : string * A :=
  match op with
  | NDecrement _ _ => ("Decrement", 0%Z) | NIncrement _ _ => ("Increment", 0%Z)
  | NIncrementFloat _ _ => ("IncrementFloat", fzero)
  end.
Definition stub_hash {A} (op : hashes_op A) : string * A :=
  match op with
  | HashDelete_ _ _ => ("HashDelete", 0%Z) | HashExists_ _ _ => ("HashExists", false)
  | HashGet_ _ _ => ("HashGet", "") | HashGetAll_ _ => ("HashGetAll", ∅)
  | HashIncrement_ _ _ _ => ("HashIncrement", 0%Z) | HashKeys_ _ => ("HashKeys", [])
  | HashLen_ _ => ("HashLen", 0%Z) | HashSet_ _ _ => ("HashSet", ())
  end.
Definition stub_list {A} (op : lists_op A) : string * A :=
  match op with
  | ListIndex_ _ _ => ("ListIndex", "") | ListLen_ _ => ("ListLen", 0%Z) | ListPop_ _ _ _ => ("ListPop", [])
  | ListPush_ _ _ _ => ("ListPush", 0%Z) | ListRange_ _ _ _ => ("ListRange", [])
  | ListTrim_ _ _ _ => ("ListTrim", ())
  end.
Definition stub_set {A} (op : sets_op A) : string * A :=
  match op with
  | SetAdd_ _ _ => ("SetAdd", 0%Z) | SetDiff_ _ => ("SetDiff", []) | SetIntersect_ _ => ("SetIntersect", [])
  | SetIsMember_ _ _ => ("SetIsMember", false) | SetLen_ _ => ("SetLen", 0%Z)
  | SetMembers_ _ => ("SetMembers", []) | SetRemove_ _ _ => ("SetRemove", 0%Z) | SetUnion_ _ => ("SetUnion", [])
  end.
Definition stub_sorted {F A} (fzero : F) (op : sorted_op F A) : string * A :=
  match op with
  | SortedSetAdd_ _ _ => ("SortedSetAdd", 0%Z)
  | SortedSetCountByScore_ _ _ => ("SortedSetCountByScore", 0%Z)
  | SortedSetIncrement_ _ _ _ => ("SortedSetIncrement", fzero)
  | SortedSetLen_ _ => ("SortedSetLen", 0%Z)
  | SortedSetRange_ _ _ _ _ => ("SortedSetRange", [])
  | SortedSetRangeByScore_ _ _ _ => ("SortedSetRangeByScore", [])
  | SortedSetRank_ _ _ _ => ("SortedSetRank", 0%Z)
  | SortedSetRemove_ _ _ => ("SortedSetRemove", 0%Z)
  | SortedSetRemoveByRank_ _ _ _ => ("SortedSetRemoveByRank", 0%Z)
  | SortedSetRemoveByScore_ _ _ => ("SortedSetRemoveByScore", 0%Z)
  | SortedSetScore_ _ _ => ("SortedSetScore", fzero)
  end.
Definition stub_whole {Q V C A} (no_connection : C) (op : whole_op Q V C A) : string * A :=
  match op with Transaction_ _ => ("Transaction", []) | Connection__ => ("Connection", no_connection) end.

Section stub.
Context {W F Q V C : Type} (fzero : F) (no_connection : C).

Definition stub_call {A} (op : cache_op F Q V C A) : string * A :=
  match op with
  | CStrings op => stub_string op | CKeys op => stub_key op | CCounters op => stub_counter fzero op
  | CHashes op => stub_hash op | CLists op => stub_list op | CSets op => stub_set op
  | CSortedSets op => stub_sorted fzero op | CWhole op => stub_whole no_connection op
  end.

(** [CacheStub], apart from the calls it has recorded: the functions a test has set. *)
Record CacheStub : Type := MkStub {
  stubName : string;
  arranged : gset string;
  functions : client W (cache_op F Q V C);
  ScanFunc : option (Ctx → W → Seq (list string * W) * W);
}.

(** A method of the stub, over the calls recorded so far. *)
Definition stub (s : CacheStub) : client (list string * W) (cache_op F Q V C) := λ A op c '(calls, w),
  let '(call, nothing) := stub_call op in
  if bool_decide (call ∈ s.(arranged)) then
    let '(o, w) := s.(functions) A op c w in (o, (calls ++ [call], w))
  else (Returned nothing (Some (notConfigured s.(stubName) call)), (calls ++ [call], w)).

Definition stub_scan (s : CacheStub) (c : Ctx) : list string * W → Seq (list string * W) * (list string * W) :=
  λ '(calls, w),
  match s.(ScanFunc) with
  | Some f => let '(walk, w) := f c w in (walk, (calls ++ ["Scan"], w))
  | None => (λ S yield s' w, match yield "" (Some (notConfigured s.(stubName) "Scan")) s' w with
                             | (Ok (_, s'), w) => (Ok s', w)
                             | (Err v, w) => (Err v, w)
                             end, (calls ++ ["Scan"], w))
  end.

(** [Called]. *)
Definition Called (calls : list string) (name : string) : bool := bool_decide (name ∈ calls).
End stub.
Arguments CacheStub : clear implicits.

(** ** The database that refuses *)

Definition refuse (name call : string) : error := EString ("celeritytest: " +:+ name +:+ " was asked for " +:+
  call +:+ ", and a SQL database has no in-memory double: a statement is only right or wrong against an " +:+
  "engine. Run one, which a celerity dev session does, and hand it over with " +:+
  "Resources().WithDatabase(" +:+ go_quote name +:+ ", client)").
Definition refusingDatabase {W C} (name : string) (nil : C) : client W (sql_op C) := λ A op c w,
  match op in sql_op _ A return outcome A * W with
  | SQLWriter => (Returned nil (Some (refuse name "Writer")), w)
  | SQLReader => (Returned nil (Some (refuse name "Reader")), w)
  end.

(** ** The provider *)

Section provider.
Context {W C : Type}.

(** What a handle is taken of: a double, what a live provider built, the client a test
    supplied, or the database that refuses. *)
Inductive handed : Type :=
  | ADouble (id : nat)
  | Live (client : C)
  | Supplied (client : C)
  | Refusing (name : string).

(** The doubles of every kind, by kind and name; [made_so_far] is how many were made. *)
Record provider : Type := MkTestProvider {
  doubles : gmap (string * string) nat;
  made_so_far : nat;
  databases : gmap string C;
  live : option (Provider (W := W) (C := C));
  taken : gset string;
  closed_ : bool;
}.

(** [Resources] and [LiveWith]. *)
Definition Resources_of (live : option (Provider (W := W) (C := C))) : provider :=
  MkTestProvider ∅ 0 ∅ live ∅ false.

(** The kinds of resource there is a double of: all but a database. *)
Inductive doubled : Type := DoubleBucket | DoubleQueue | DoubleTopic | DoubleDatastore | DoubleCache.
Definition kind_of (d : doubled) : string :=
  match d with
  | DoubleBucket => KindBucket | DoubleQueue => KindQueue | DoubleTopic => KindTopic
  | DoubleDatastore => KindDatastore | DoubleCache => KindCache
  end.
Coercion kind_of : doubled >-> string.

Definition taken_key (kind name : string) : string := kind +:+ "/" +:+ name.
Definition took (kind name : string) (p : provider) : provider :=
  MkTestProvider p.(doubles) p.(made_so_far) p.(databases) p.(live) ({[ taken_key kind name ]} ∪ p.(taken)) p.(closed_).
Definition held (p : provider) (kind name : string) : option nat := p.(doubles) !! (kind, name).
Definition made (kind name : string) (p : provider) : nat * provider :=
  match held p kind name with
  | Some existing => (existing, p)
  | None => (p.(made_so_far),
             MkTestProvider (<[(kind, name) := p.(made_so_far)]> p.(doubles)) (S p.(made_so_far)) p.(databases)
               p.(live) p.(taken) p.(closed_))
  end.

(** [Bucket], [Queue], [Topic], [Datastore] and [Cache]. *)
Definition take (kind : doubled) (name : string) (p : provider) : result error handed * provider :=
  let p := took kind name p in
  match held p kind name with
  | Some double => (Ok (ADouble double), p)
  | None =>
      match p.(live) with
      | Some l => (match l.(provider_build) (MkRef kind name) with Ok c => Ok (Live c) | Err err => Err err end, p)
      | None => let '(double, p) := made kind name p in (Ok (ADouble double), p)
      end
  end.

(** [SQLDatabase]. *)
Definition SQLDatabase_ (name : string) (p : provider) : result error handed * provider :=
  let p := took KindSQLDatabase name p in
  match p.(databases) !! name with
  | Some supplied => (Ok (Supplied supplied), p)
  | None =>
      match p.(live) with
      | Some l => (match l.(provider_build) (MkRef KindSQLDatabase name) with Ok c => Ok (Live c) | Err err => Err err end, p)
      | None => (Ok (Refusing name), p)
      end
  end.
Definition WithDatabase (name : string) (client : C) (p : provider) : provider :=
  MkTestProvider p.(doubles) p.(made_so_far) (<[name := client]> p.(databases)) p.(live) p.(taken) p.(closed_).

(** [substituting]. *)
Definition too_late (kind name : string) : string := "celeritytest: the application already took a handle for " +:+
  kind +:+ " " +:+ go_quote name +:+ ", and these are live resources, so it holds the live one. Ask for the " +:+
  "double before building the application, not after".
Definition substituting (kind name : string) (p : provider) : option string :=
  match p.(live) with
  | None => None
  | Some _ => if bool_decide (taken_key kind name ∈ p.(taken)) then Some (too_late kind name) else None
  end.

(** [BucketNamed], [QueueNamed], [TopicNamed], [DatastoreNamed] and [CacheNamed]. *)
Definition Named (kind : doubled) (name : string) (p : provider) : result string nat * provider :=
  match substituting kind name p with
  | Some text => (Err text, p)
  | None => let '(double, p) := made kind name p in (Ok double, p)
  end.

(** [Close]: what is live is released once. *)
Definition Close_ (p : provider) (w : W) : option error * provider * W :=
  if p.(closed_) then (None, p, w)
  else let p := MkTestProvider p.(doubles) p.(made_so_far) p.(databases) p.(live) p.(taken) true in
       match p.(live) ≫= provider_close with
       | Some close => let '(err, w) := close w in (err, p, w)
       | None => (None, p, w)
       end.

(** [notDetected]: why nothing serves live resources. *)
Definition notDetected (linked : list string) : string :=
  let import_ path := tab +:+ tab +:+ "_ " +:+ in_quotes ("github.com/newstack-cloud/celerity-go-sdk/" +:+ path) +:+ newline in
  match linked with
  | [] => "no resource provider is linked, so there is nothing to reach live " +:+
      "resources through. A test using Live links the providers a development " +:+
      "session links:" +:+ newline +:+ newline +:+ tab +:+ "import (" +:+ newline +:+
      import_ "resources/aws" +:+ import_ "resources/local" +:+ import_ "resources/local/redis" +:+
      tab +:+ ")" +:+ newline +:+ newline +:+ "and runs with " +:+ PlatformEnvVar +:+ "=local."
  | _ => "resource providers are linked but none of them serves this platform, so " +:+
      "one was not selected: with more than one linked, which serves is read from " +:+
      PlatformEnvVar +:+ " rather than from the import order. Set " +:+ PlatformEnvVar +:+
      "=local to reach what a development session runs." +:+ newline +:+ "Linked: " +:+ join linked ", "
  end.

(** [Live]. *)
Definition Live_ (ps : list (Provider (W := W) (C := C))) (w : W) : result string provider :=
  match DetectedProvider ps w with
  | Some p => Ok (Resources_of (Some p))
  | None => Err ("celeritytest: " +:+ notDetected (RegisteredProviders ps))
  end.

(** *** Whatever order a test and its application ask in *)

(** What is asked of a provider: a handle, by the application, or a double, by the test. *)
Inductive asked : Type := Take (kind : doubled) (name : string) | AskFor (kind : doubled) (name : string).

(** What is handed out for it, if anything is. *)
Definition ask (a : asked) (p : provider) : (string * string) * option handed * provider :=
  match a with
  | Take kind name =>
      let '(r, p) := take kind name p in
      ((kind : string, name), match r with Ok h => Some h | Err _ => None end, p)
  | AskFor kind name =>
      let '(r, p) := Named kind name p in
      ((kind : string, name), match r with Ok d => Some (ADouble d) | Err _ => None end, p)
  end.
Fixpoint history (l : list asked) (p : provider) : list ((string * string) * handed) :=
  match l with
  | [] => []
  | a :: l => let '(key, h, p) := ask a p in
              match h with Some h => (key, h) :: history l p | None => history l p end
  end.

(** The double handed out, where it was one. *)
Definition as_double (h : handed) : option nat := match h with ADouble d => Some d | _ => None end.

(** What a provider may still hand out under a name: its double; or nothing but the live
    one, where the application has taken that. *)
Definition settled (p : provider) (key : string * string) (h : handed) : Prop :=
  match as_double h with
  | Some d => p.(doubles) !! key = Some d
  | None => p.(doubles) !! key = None ∧ is_Some p.(live) ∧ taken_key key.1 key.2 ∈ p.(taken)
  end.

Lemma settled_took kind name p key h : settled p key h → settled (took kind name p) key h.
Proof. unfold settled. cbn. destruct (as_double h); [done|]. intros (? & ? & ?). split_and!; [done..|]. set_solver. Qed.

Lemma made_settled kind name p : settled (made kind name p).2 (kind, name) (ADouble (made kind name p).1).
Proof. unfold made, held. destruct (_ !! _) eqn:E; [done|]. apply lookup_insert_eq. Qed.

Lemma settled_made kind name p key h :
  substituting kind name p = None → settled p key h → settled (made kind name p).2 key h.
Proof.
  intros Hs Hh. unfold made, held. destruct (p.(doubles) !! (kind, name)) eqn:E; [done|].
  unfold settled, substituting in *. cbn. destruct (decide (key = (kind, name))) as [->|Hk].
  - destruct (as_double h); [congruence|]. destruct Hh as (_ & [l Hl] & Ht). rewrite Hl in Hs.
    by rewrite bool_decide_true in Hs.
  - by rewrite lookup_insert_ne.
Qed.

(** A provider keeps to what it handed out. *)
Lemma ask_settles a p :
  let '(key, h, p') := ask a p in
  match h with Some h => settled p' key h | None => True end ∧
  ∀ key h, settled p key h → settled p' key h.
Proof.
  destruct a as [kind name|kind name]; unfold ask.
  - unfold take. destruct (held (took kind name p) kind name) as [d|] eqn:Hd.
    { split; [done|]. intros. by apply settled_took. }
    destruct (live (took kind name p)) as [l|] eqn:Hl.
    + destruct (provider_build l _); (split; [|intros; by apply settled_took]); [|done].
      unfold settled. cbn in *. rewrite Hl. split_and!; [done|by eexists|set_solver].
    + pose proof (made_settled kind name (took kind name p)) as Hm.
      assert (∀ key h, settled p key h → settled (made kind name (took kind name p)).2 key h) as Hk.
      { intros. apply settled_made; [|by apply settled_took]. unfold substituting. by rewrite Hl. }
      by destruct (made kind name (took kind name p)).
  - unfold Named. destruct (substituting kind name p) eqn:Hs; [done|].
    pose proof (made_settled kind name p) as Hm.
    assert (∀ key h, settled p key h → settled (made kind name p).2 key h) as Hk by (intros; by apply settled_made).
    by destruct (made kind name p).
Qed.

Lemma history_settled l p key h key' h' :
  settled p key h → (key', h') ∈ history l p → key' = key → as_double h' = as_double h.
Proof.
  revert p. induction l as [|a l IH]; intros p Hs Hin Hk; [by apply elem_of_nil in Hin|]. cbn in Hin.
  pose proof (ask_settles a p) as Ha. destruct (ask a p) as [[k o] p']. destruct Ha as [Ho Hkeep].
  apply Hkeep in Hs. destruct o as [h0|]; [|by eapply IH].
  apply elem_of_cons in Hin as [Heq|Hin]; [|by eapply IH]. simplify_eq.
  unfold settled in *. destruct (as_double h), (as_double h0); naive_solver congruence.
Qed.
End provider.

(** C31: under one name there is one thing.  In whatever order a test asks a provider for
    doubles and its application takes handles, everything handed out for one name of a kind is
    the same double, or all of it is the live provider's: a handler never holds one thing
    while the test reads another. *)
Theorem one_thing_per_name {W C} (l : list asked) (from : option (Provider (W := W) (C := C))) key h h' :
  (key, h) ∈ history l (Resources_of from) → (key, h') ∈ history l (Resources_of from) →
  as_double h = as_double h'.
Proof.
  generalize (Resources_of from) as p. induction l as [|a l IH]; intros p H H'; [by apply elem_of_nil in H|].
  cbn in *. pose proof (ask_settles a p) as Ha. destruct (ask a p) as [[k o] p']. destruct Ha as [Ho _].
  destruct o as [h0|]; [|by eapply IH].
  apply elem_of_cons in H as [Heq|H]; apply elem_of_cons in H' as [Heq'|H']; simplify_eq; [done|..].
  - symmetry. by eapply history_settled.
  - by eapply history_settled.
  - by eapply IH.
Qed.

Lemma one_thing_per_name_witness :
  let key := (KindBucket, "uploads") in
  let l := [Take DoubleQueue "q"; AskFor DoubleBucket "uploads"; Take DoubleBucket "uploads"; AskFor DoubleBucket "uploads"] in
  (key, ADouble 1) ∈ history (W := ()) (C := ()) l (Resources_of None) ∧
  as_double (C := ()) (ADouble 1) = as_double (C := ()) (ADouble 1).
Proof.
  assert ((KindBucket, "uploads", ADouble 1) ∈ history (W := ()) (C := ())
    [Take DoubleQueue "q"; AskFor DoubleBucket "uploads"; Take DoubleBucket "uploads"; AskFor DoubleBucket "uploads"]
    (Resources_of None)) as Hin by (vm_compute; right; left).
  split; [exact Hin|]. exact (one_thing_per_name _ None _ _ _ Hin Hin).
Defined.

(** Under live resources a test that made a double cannot ask for it again once the
    application has taken it: it is told the application holds the live one. *)
Lemma a_double_is_not_asked_for_twice {W C} (from : Provider (W := W) (C := C)) :
  let '(first, p) := Named DoubleQueue "orders" (Resources_of (Some from)) in
  let '(handle, p) := take DoubleQueue "orders" p in
  first = Ok 0 ∧ handle = Ok (ADouble 0) ∧
  (Named DoubleQueue "orders" p).1 = Err (too_late KindQueue "orders").
Proof. by vm_compute. Qed.

(** What is live is released once, however often a provider is closed. *)
Lemma closed_once {W C} (p : provider (W := W) (C := C)) w :
  let '(_, p', w') := Close_ p w in Close_ p' w' = (None, p', w').
Proof.
  unfold Close_. destruct p.(closed_) eqn:E; [by rewrite E|]. cbn.
  destruct (p.(live) ≫= provider_close) as [close|]; [by destruct (close w)|done].
Qed.

(** ** What a stub is asked through a handle *)

Definition bare_stub : client (Recorder * (list string * ())) (cache_op Z () () ()) := λ A op c '(r, w),
  let '(o, w) := stub 0%Z () (MkStub "sessions" ∅ (λ A op c w, (Panicked (PanicText ""), w)) None) A op c w in (o, (r, w)).

(** A call a test did not arrange is recorded, answered with an error that names it, and the
    error is on the call's span. *)
Lemma a_call_not_arranged :
  let '(o, (r, (calls, _))) :=
    traced (MkRef KindCache "sessions") bare_stub _ (CStrings (CGet "user:1")) Background (no_spans, ([], ())) in
  let err := notConfigured "sessions" "Get" in
  o = Returned "" (Some err) ∧ calls = ["Get"] ∧
  ((λ s, (s.(spName), s.(spAttrs), s.(spErr))) <$> Spans r) =
    [("celerity.cache.get", [String_ "cache.resource" "sessions"; String_ "cache.key" "user:1"], Some err)].
Proof. by vm_compute. Qed.

(** ** Copying between handles *)

(** A [bucket.Store]: one a provider built, or a handle on one. *)
Inductive go_store (B : Type) : Type :=
  | Built (b : B)
  | Handle (ref : Ref) (inner : go_store B).
Arguments Built {B} b. Arguments Handle {B} ref inner.
Fixpoint go_map {B B'} (f : B → B') (s : go_store B) : go_store B' :=
  match s with Built b => Built (f b) | Handle ref inner => Handle ref (go_map f inner) end.

(** The assertion a destination is put to, by [destinationOf] of S3's buckets and by [Copy]
    of the double. *)
Definition s3_destination (dest : option (go_store Ref)) : S3.destination :=
  match dest with
  | None => S3.SameBucket
  | Some (Built r) => S3.OtherBucket r
  | Some (Handle _ _) => S3.OtherStore "resources.tracedBucket"
  end.
Definition double_destination (dest : option (go_store Bucket.Bucket)) : Bucket.destination :=
  match dest with
  | None => Bucket.SameStore
  | Some (Built b) => Bucket.Other b
  | Some (Handle _ _) => Bucket.Foreign
  end.

Lemma a_handle_is_a_handle {W B} (ps : list (Provider (W := W) (C := go_store B))) h w name dest h' :
  resolve ps h w KindBucket name Handle = (Some dest, h') → ∃ ref inner, dest = Handle ref inner.
Proof.
  unfold resolve. destruct (providerFor _ _ _) as [p|]; [|done].
  destruct (provider_build p _); [|done]. intros [= <- _]. eauto.
Qed.

(** A bucket is taken as a handle, which wraps what the provider built, and that is what a
    copy's destination is: neither S3's buckets nor the doubles see the bucket behind it, so no
    copy from one bucket an application took into another is made, whatever the two are. *)
Lemma copies_between_handles_are_refused {W B} (ps : list (Provider (W := W) (C := go_store B))) h w name dest h' :
  resolve ps h w KindBucket name Handle = (Some dest, h') →
  (∀ (seen : B → Ref) W' C A now load traceCalls Region with_region api New apiCode ref key destKey opts
     (s : AwsService.aws W' C (API A W')),
     is_ok (S3.Copy now load traceCalls Region with_region api New apiCode ref key
       (s3_destination (Some (go_map seen dest))) destKey opts s).1 = false) ∧
  (∀ (seen : B → Bucket.Bucket) b now key destKey opts,
     (Bucket.Copy b now key
       (double_destination (Some (go_map seen dest))) destKey opts).2 = None).
Proof.
  intros H. destruct (a_handle_is_a_handle _ _ _ _ _ _ H) as (r & i & ->). cbn. split.
  - intros. unfold S3.Copy, AwsService.bind, as_copy, AwsService.fail.
    by destruct (AwsService.read _ s) as [[] ?].
  - intros. unfold Bucket.Copy. by destruct (current b key).
Qed.
