(* ===== verification/SqlDatabase.v ===== *)
(** * A relational database on RDS

    Models [resources/aws/sqldb]: what a deployment recorded and the pool a process wants of
    it ([sqlsettings.go]), the connection strings, the two pools and their shutdown
    ([sqldatabase.go], [client.go]), and the opening of a pool ([resources/sqldb]).
    [database/sql], a driver and the signing of a token are parameters: a pool is opened of a
    connector, which builds a connection string for each connection. *)

From S2P Require Import Prelude GoStrings Json Errors Bind Route Encoding Values Store Matching Memory Paging Config Resources RedisSlots RedisCache AwsService.
From stdpp Require Import options.

Definition EnginePostgres : string := "postgres".
Definition EngineMySQL : string := "mysql".

(** ** What a deployment recorded *)

Record poolSettings : Type := MkPoolSettings { max_ : Z; idle : Z; idleFor : Z; lifetime : Z }.
Definition lambdaPool : poolSettings := MkPoolSettings 2 1 Second (5 * 60 * Second).
Definition runtimePool : poolSettings := MkPoolSettings 10 2 (30 * Second) (30 * 60 * Second).

Record connection : Type := MkConn {
  host : string; readHost : string; port : Z; user : string; database : string; engine : string;
  authMode : string; cPassword : string; ssl : bool; region : string; cPool : poolSettings;
}.

Definition defaultPostgresPort : Z := 5432.
Definition defaultMySQLPort : Z := 3306.
Definition defaultPortFor (engine : string) : Z :=
  if bool_decide (engine = EngineMySQL) then defaultMySQLPort else defaultPostgresPort.

Section settings.
Context `{FloatText} {W : Type} (now : W → Z) (Getenv : W → string → string) (ref : Ref).
Context (GetSecretValue : string → W → result error (option string) * W).

(** [readRecorded]: nine reads through one reader; a signed token is not sent in the clear. *)
Definition readRecorded : reading (W := W) connection := λ c,
  let '(h, rd, c) := read_required now ref "_host" None c in
  let '(u, rd, c) := read_required now ref "_user" rd c in
  let '(e, rd, c) := read_optional now ref "_engine" EnginePostgres rd c in
  let '(p, rd, c) := read_number now ref "_port" (defaultPortFor e) rd c in
  let '(d, rd, c) := read_optional now ref "_database" ref.(RefName) rd c in
  let '(r, rd, c) := read_optional now ref "_readHost" "" rd c in
  let '(a, rd, c) := read_optional now ref "_authMode" AuthPassword rd c in
  let '(g, rd, c) := read_optional now ref "_region" "" rd c in
  let '(s, rd, c) := read_boolean now ref "_ssl" true rd c in
  match rd with
  | Some err => (Err err, c)
  | None => (Ok (MkConn h r p u d e a "" (s || bool_decide (a = AuthIAM)) g (MkPoolSettings 0 0 0 0)), c)
  end.

Definition LambdaFunctionEnvVar : string := "AWS_LAMBDA_FUNCTION_NAME".

(** [readPool], of the process it is read in. *)
Definition poolFor (w : W) : poolSettings :=
  if bool_decide (Getenv w LambdaFunctionEnvVar = "") then runtimePool else lambdaPool.
Definition readPool : reading (W := W) poolSettings := λ c,
  let wanted := poolFor c.2 in
  let '(m, rd, c) := read_number now ref "_poolMax" wanted.(max_) None c in
  let '(i, rd, c) := read_number now ref "_poolMin" wanted.(idle) rd c in
  let '(f, rd, c) := read_number now ref "_poolIdleTimeoutMs" (wanted.(idleFor) / Millisecond)%Z rd c in
  match rd with
  | Some err => (Err err, c)
  | None => (Ok (MkPoolSettings m i (to_int64 (f * Millisecond)) wanted.(lifetime)), c)
  end.

Definition neither : config_error := ConfigError (EString ("celerity: " +:+ ref_text ref +:+
  " is reached with a password, and the deployment recorded neither " +:+ go_quote "_password" +:+
  " nor " +:+ go_quote "_credentialsSecretId")).
Definition readPassword (authMode : string) : reading (W := W) string :=
  if bool_decide (authMode = AuthIAM) then answer ""
  else then_ (Secret now GetSecretValue ref "_password" "_credentialsSecretId") (λ found,
    match found with
    | None => refuse neither
    | Some raw => match PasswordIn raw ref with
                  | Ok password => answer password
                  | Err err => refuse (ConfigError err)
                  end
    end).

Definition with_access (c : connection) (pool : poolSettings) (password : string) : connection :=
  MkConn c.(host) c.(readHost) c.(port) c.(user) c.(database) c.(engine) c.(authMode) password c.(ssl)
    c.(region) pool.
Definition readSettings : reading (W := W) connection :=
  then_ readRecorded (λ c, then_ readPool (λ pool, then_ (readPassword c.(authMode)) (λ password,
    answer (with_access c pool password)))).
End settings.

(** ** Connection strings *)

(** [net/url]'s [escape]: what a part of a URL may not hold is written as a percent sign and
    two digits. *)
Definition percent (c : ascii) : string :=
  let n := nat_of_ascii c in
  String "%" (String (hex_upper (n / 16)) (String (hex_upper (n mod 16)) "")).
Definition escape_byte (keep : list ascii) (c : ascii) : string :=
  if unreserved c || bool_decide (c ∈ keep) then String c "" else percent c.
Definition escape (keep : list ascii) (s : string) : string := concat_bytes (escape_byte keep) s.

(** What [encodeUserPassword], [encodeHost] and [encodePath] leave. *)
Definition in_userinfo : list ascii := ["$"; "&"; "+"; ","; ";"; "="]%char.
Definition in_host : list ascii :=
  ["!"; "$"; "&"; "'"; "("; ")"; "*"; "+"; ","; ";"; "="; ":"; "["; "]"; "<"; ">"; dquote]%char.
Definition in_path : list ascii := ["$"; "&"; "+"; ","; "/"; ":"; ";"; "="; "@"]%char.

(** [connection.dsn], of a host and whatever stands in for a password. *)
Definition dsn (c : connection) (host password : string) : string :=
  let address := join_host_port host (itoa c.(port)) in
  if bool_decide (c.(engine) = EngineMySQL) then
    c.(user) +:+ ":" +:+ QueryEscape password +:+ "@tcp(" +:+ address +:+ ")/" +:+ c.(database) +:+
    "?tls=" +:+ (if c.(ssl) then "true" else "false") +:+ "&parseTime=true"
  else
    "postgres://" +:+ escape in_userinfo c.(user) +:+ ":" +:+ escape in_userinfo password +:+ "@" +:+
    escape in_host address +:+ escape in_path ("/" +:+ c.(database)) +:+
    "?sslmode=" +:+ (if c.(ssl) then "require" else "disable").

(** ** The driver of an engine *)

Definition driverNames (engine : string) : option (list string) :=
  if bool_decide (engine = EnginePostgres) then Some ["pgx"; "postgres"]
  else if bool_decide (engine = EngineMySQL) then Some ["mysql"] else None.
Definition importFor (engine : string) : string :=
  if bool_decide (engine = EngineMySQL) then "_ " +:+ in_quotes "github.com/go-sql-driver/mysql"
  else "_ " +:+ in_quotes "github.com/jackc/pgx/v5/stdlib".
Definition unknown_engine (engine : string) : error := EString ("the deployment recorded the engine " +:+
  go_quote engine +:+ ", and Celerity supports " +:+ go_quote EnginePostgres +:+ " and " +:+ go_quote EngineMySQL).
Definition no_driver (engine : string) : error := EString ("no " +:+ engine +:+
  " driver is linked into this application." +:+ newline +:+ newline +:+
  "The build normally links one: celerity-go generate takes --sql-engine " +:+ engine +:+ " from " +:+
  "the blueprint, so a database the blueprint declares is a driver in the binary. " +:+
  "Reaching one it does not declare, or building outside the Celerity CLI, needs " +:+
  "the import written by hand:" +:+ newline +:+ newline +:+ tab +:+ importFor engine).
Definition driverFor (registered : list string) (engine : string) : result error string :=
  match driverNames engine with
  | None => Err (unknown_engine engine)
  | Some candidates =>
      match List.filter (λ name, bool_decide (name ∈ registered)) candidates with
      | name :: _ => Ok name
      | [] => Err (no_driver engine)
      end
  end.

(** ** Pools *)

Section database.
Context `{FloatText} {W C D P K Q : Type} (now : W → Z) (Getenv : W → string → string) (ref : Ref).
Context (GetSecretValue : string → W → result error (option string) * W).
(** The ambient AWS configuration, the region it is for, and a token signed with it for an
    address, a region and a user. *)
Context (load : W → result error C * W) (traceCalls : C → C) (Region : C → string).
Context (BuildAuthToken : C → string → string → string → W → result error string * W).
(** [sql.Drivers], [driverOf], and a connection by a connection string: of a driver that makes
    connectors, or of one that does not. *)
Context (Drivers : list string) (driverOf : string → result error D).
Context (OpenConnector : D → option (string → result error (W → result error K * W))).
Context (Driver_Open : D → string → W → result error K * W).

(** The session the databases share, and the world. *)
Abbreviation shared := (Session C * W)%type.

(** [signingConnector]. *)
Record signingConnector : Type := MkConnector {
  driver : D; build_dsn : shared → result error string * shared;
}.

Definition on_world {A} (f : W → result error A * W) : shared → result error A * shared :=
  λ '(s, w), let '(r, w) := f w in (r, (s, w)).

(** [signingConnector.Connect]: a connection string is built for it. *)
Definition Connect (c : signingConnector) : shared → result error K * shared := λ s,
  match c.(build_dsn) s with
  | (Err err, s) => (Err err, s)
  | (Ok text, s) =>
      match OpenConnector c.(driver) with
      | Some open => match open text with
                     | Err err => (Err err, s)
                     | Ok connect => on_world connect s
                     end
      | None => on_world (Driver_Open c.(driver) text) s
      end
  end.

(** [token] and [dsnBuilder]. *)
Definition token (settings : connection) (host : string) : shared → result error string * shared :=
  λ '(s, w),
  match Session_Config load traceCalls s w with
  | (Err err, s, w) => (Err err, (s, w))
  | (Ok cfg, s, w) =>
      let region := if bool_decide (settings.(region) = "") then Region cfg else settings.(region) in
      match BuildAuthToken cfg (join_host_port host (itoa settings.(port))) region settings.(user) w with
      | (Ok token, w) => (Ok token, (s, w))
      | (Err err, w) => (Err (wrapping ("signing a connection token for " +:+ ref_text ref) err), (s, w))
      end
  end.
Definition dsnBuilder (settings : connection) (host : string) : shared → result error string * shared := λ s,
  if negb (bool_decide (settings.(authMode) = AuthIAM)) then (Ok (dsn settings host settings.(cPassword)), s)
  else match token settings host s with
       | (Ok token, s) => (Ok (dsn settings host token), s)
       | (Err err, s) => (Err err, s)
       end.

(** [sqldb.Open], [sql.OpenDB], the limits put on a pool, and taking a connection of one. *)
Context (instrumentation : option (signingConnector → string → W → result error P * W)).
Context (OpenDB : signingConnector → P) (SetLimits : P → poolSettings → W → W).
Context (Conn_ : P → shared → result error Q * shared).
Context (InUse : P → W → Z) (Close_pool : P → W → option error * W).
(** Waiting to look again: whether the context was done first. *)
Context (wait : W → bool * W).

Definition Open_ (c : signingConnector) (engine : string) (w : W) : result error P * W :=
  match instrumentation with None => (Ok (OpenDB c), w) | Some hook => hook c engine w end.

Record rdsDatabase : Type := MkRds {
  recorded_ : option (result config_error connection);
  writer : option (result config_error P);
  reader : option (result config_error P);
  rSession : Session C;
  rConfig : cfg (W := W);
}.

Definition connecting (err : error) : config_error :=
  ConfigError (wrapping ("celerity: connecting to " +:+ ref_text ref) err).

(** [connectionSettings]: read once. *)
Definition connectionSettings (d : rdsDatabase) : result config_error connection * rdsDatabase :=
  match d.(recorded_) with
  | Some r => (r, d)
  | None => let '(r, c) := readSettings now Getenv ref GetSecretValue d.(rConfig) in
            (r, MkRds (Some r) d.(writer) d.(reader) d.(rSession) c)
  end.

(** [build], with [openWith]: a pool for one of the endpoints. *)
Definition endpoint (settings : connection) (read : bool) : string :=
  if read && negb (bool_decide (settings.(readHost) = "")) then settings.(readHost) else settings.(host).
Definition build (settings : connection) (read : bool) (w : W) : result config_error P * W :=
  match (let! name := driverFor Drivers settings.(engine) in driverOf name) with
  | Err err => (Err (connecting err), w)
  | Ok base =>
      match Open_ (MkConnector base (dsnBuilder settings (endpoint settings read))) settings.(engine) w with
      | (Err err, w) => (Err (connecting err), w)
      | (Ok db, w) => (Ok db, SetLimits db settings.(cPool) w)
      end
  end.
(** The pool of an endpoint, and what keeps it. *)
Definition pool_of (read : bool) (d : rdsDatabase) : option (result config_error P) :=
  if read then d.(reader) else d.(writer).
Definition keep_pool (read : bool) (r : result config_error P) (w : W) (d : rdsDatabase) : rdsDatabase :=
  MkRds d.(recorded_) (if read then d.(writer) else Some r) (if read then Some r else d.(reader))
    d.(rSession) (d.(rConfig).1, w).

(** [open]: each pool is built once, whatever came of building it. *)
Definition open (read : bool) (d : rdsDatabase) : result config_error P * rdsDatabase :=
  match connectionSettings d with
  | (Err err, d) => (Err err, d)
  | (Ok settings, d) =>
      match pool_of read d with
      | Some r => (r, d)
      | None => let '(r, w) := build settings read d.(rConfig).2 in (r, keep_pool read r w d)
      end
  end.

(** [conn], and so [Writer] and [Reader]. *)
Definition conn (read : bool) (d : rdsDatabase) : result config_error Q * rdsDatabase :=
  match open read d with
  | (Err err, d) => (Err err, d)
  | (Ok db, d) =>
      let '(r, (s, w)) := Conn_ db (d.(rSession), d.(rConfig).2) in
      (match r with Ok c => Ok c | Err err => Err (connecting err) end,
       MkRds d.(recorded_) d.(writer) d.(reader) s (d.(rConfig).1, w))
  end.
Definition Writer : rdsDatabase → result config_error Q * rdsDatabase := conn false.
Definition Reader : rdsDatabase → result config_error Q * rdsDatabase := conn true.

(** ** Shutdown *)

Definition closing (err : error) : error := wrapping ("celerity: closing the pool for " +:+ ref_text ref) err.
Definition still_running : error :=
  EString ("celerity: " +:+ ref_text ref +:+ " still had queries running at shutdown").

(** [closePool]; the fuel is the times it looks. *)
Fixpoint closePool (fuel : nat) (db : P) (w : W) : option (option error * W) :=
  match fuel with
  | O => None
  | S fuel =>
      if (0 <? InUse db w)%Z then
        match wait w with
        | (true, w) => match Close_pool db w with
                       | (Some err, w) => Some (Some (closing err), w)
                       | (None, w) => Some (Some still_running, w)
                       end
        | (false, w) => closePool fuel db w
        end
      else match Close_pool db w with
           | (Some err, w) => Some (Some (closing err), w)
           | (None, w) => Some (None, w)
           end
  end.

(** The pools that were opened, the writer's first. *)
Definition opened (d : rdsDatabase) : list P :=
  omap (λ r, match r with Some (Ok db) => Some db | _ => None end) [d.(writer); d.(reader)].

Fixpoint close_all (fuel : nat) (dbs : list P) (w : W) : option (list error * W) :=
  match dbs with
  | [] => Some ([], w)
  | db :: dbs =>
      '(err, w) ← closePool fuel db w;
      '(errs, w) ← close_all fuel dbs w;
      Some (option_list err ++ errs, w)
  end.
Definition joined (errs : list error) : option error :=
  match errs with [] => None | _ => Some (EJoin errs) end.
(** [close]. *)
Definition close (fuel : nat) (d : rdsDatabase) (w : W) : option (option error * W) :=
  '(errs, w) ← close_all fuel (opened d) w; Some (joined errs, w).
End database.

(** [release], of every database built. *)
Section release.
Context {W C P : Type} (ref_of : rdsDatabase (W := W) (C := C) (P := P) → Ref).
Context (InUse : P → W → Z) (Close_pool : P → W → option error * W) (wait : W → bool * W).

Fixpoint release_each (fuel : nat) (built : list (rdsDatabase (W := W) (C := C) (P := P))) (w : W) :
    option (list error * W) :=
  match built with
  | [] => Some ([], w)
  | d :: built =>
      '(err, w) ← close (ref_of d) InUse Close_pool wait fuel d w;
      '(errs, w) ← release_each fuel built w;
      Some (option_list err ++ errs, w)
  end.
Definition release (fuel : nat) (built : list (rdsDatabase (W := W) (C := C) (P := P))) (w : W) :
    option (option error * W) :=
  '(errs, w) ← release_each fuel built w; Some (joined errs, w).
End release.

(** ** Transactions *)

Definition LevelDefault : Z := 0.
Definition LevelReadCommitted : Z := 2.
Definition LevelRepeatableRead : Z := 4.
Definition LevelSerializable : Z := 6.
Record TxOptions : Type := MkTx { Isolation : Z; ReadOnly : bool }.
Definition ResolveTxOptions (opts : list (TxOptions → TxOptions)) : TxOptions :=
  foldl (λ o opt, opt o) (MkTx LevelDefault false) opts.

(** ** A connection string is read back as what was put in it *)

(** [url.Parse], of a Postgres connection string, takes no control byte. *)
Definition control (c : ascii) : bool := (nat_of_ascii c <? 32) || (nat_of_ascii c =? 127).
(** [validUserinfo]. *)
Definition userinfo_byte (c : ascii) : bool :=
  unreserved c ||
  bool_decide (c ∈ ["!"; "$"; "&"; "'"; "("; ")"; "*"; "+"; ","; ";"; "="; ":"; "%"; "@"]%char).
(** [unescape] of a host: what is escaped in it is a percent sign or no ASCII, and what is not
    escaped needs not be. *)
Fixpoint unescape_host (s : string) : option string :=
  match s with
  | "" => Some ""
  | String "%" (String a (String b s)) =>
      hi ← unhex a; lo ← unhex b; t ← unescape_host s;
      if (hi <? 8) && negb (Ascii.eqb a "2" && Ascii.eqb b "5") then None
      else Some (String (ascii_of_nat (16 * hi + lo)) t)
  | String "%" _ => None
  | String c s =>
      if unreserved c || bool_decide (c ∈ in_host) || (128 <=? nat_of_ascii c) then String c <$> unescape_host s
      else None
  end.
(** [parseHost], of a host that is no address in brackets: what follows its last colon is a
    port. *)
Definition read_host (host : string) : option string :=
  if has_prefix host "[" then None
  else if contains host ":" && negb (all_bytes (λ c, is_some (digit c)) (after_last ":" host)) then None
  else unescape_host host.

(** A fragment is cut off; what is left is the user, the password, the address, and the path
    without its slash. *)
Definition read_dsn (text : string) : option (string * string * string * string) :=
  if all_bytes (λ c, negb (control c)) text then
    let text := match cut "#" text with Some (text, _) => text | None => text end in
    rest ← cut_prefix "postgres://" text;
    '(rest, _) ← cut "?" rest;
    '(authority, path) ← cut "/" rest;
    let host := after_last "@" authority in
    userinfo ← cut_suffix ("@" +:+ host) authority;
    if all_bytes userinfo_byte userinfo then
      '(user, password) ← cut ":" userinfo;
      user ← PathUnescape user; password ← PathUnescape password;
      address ← read_host host; path ← PathUnescape path;
      Some (user, password, address, path)
    else None
  else None.

Lemma all_bytes_impl (p q : ascii → bool) s :
  (∀ c, p c = true → q c = true) → all_bytes p s = true → all_bytes q s = true.
Proof. intros Hpq. induction s as [|c s IH]; [done|]. cbn. rewrite !andb_true_iff. intros [??]. auto. Qed.

Lemma all_bytes_escape p keep s :
  (∀ c, all_bytes p (escape_byte keep c) = true) → all_bytes p (escape keep s) = true.
Proof.
  intros H. induction s as [|c s IH]; [done|]. unfold escape in *. cbn [concat_bytes].
  by rewrite all_bytes_append, H.
Qed.

Lemma all_bytes_no_byte p d s : all_bytes p s = true → p d = false → no_byte d s = true.
Proof.
  intros Hs Hd. induction s as [|c s IH]; [done|]. cbn in *. apply andb_true_iff in Hs as [Hc Hs].
  rewrite IH by done. destruct (Ascii.eqb_spec c d) as [->|]; [congruence|done].
Qed.

Lemma PathUnescape_percent c s : PathUnescape (percent c +:+ s) = String c <$> PathUnescape s.
Proof.
  destruct c as [[] [] [] [] [] [] [] []]; vm_compute percent;
    rewrite ?append_cons, ?append_nil_l; cbn [PathUnescape]; vm_compute unhex;
    cbn [mbind option_bind]; by destruct (PathUnescape s).
Qed.

Lemma PathUnescape_plain c s : c ≠ "%"%char → PathUnescape (String c s) = String c <$> PathUnescape s.
Proof. intros Hc. by destruct c as [[] [] [] [] [] [] [] []]. Qed.

Lemma PathUnescape_escape keep s : "%"%char ∉ keep → PathUnescape (escape keep s) = Some s.
Proof.
  intros Hk. induction s as [|c s IH]; [done|]. unfold escape in *. cbn [concat_bytes].
  unfold escape_byte at 1. destruct (unreserved c || bool_decide (c ∈ keep)) eqn:E.
  - rewrite append_cons, append_nil_l, PathUnescape_plain, IH; [done|]. intros ->.
    apply orb_true_iff in E as [E|E]; [by vm_compute in E|]. by apply bool_decide_eq_true in E.
  - by rewrite PathUnescape_percent, IH.
Qed.

(** What a part escapes is not in it. *)
Definition written (keep : list ascii) (c : ascii) : bool := unreserved c || bool_decide (c ∈ "%"%char :: keep).
Lemma escape_written keep s :
  keep ∈ [in_userinfo; in_path] → all_bytes (written keep) (escape keep s) = true.
Proof.
  intros Hk. apply all_bytes_escape. intros c. unfold escape_byte.
  destruct (unreserved c || bool_decide (c ∈ keep)) eqn:E.
  - cbn. rewrite andb_true_r. unfold written. apply orb_true_iff in E as [->|E]; [done|].
    apply orb_true_iff. right. apply bool_decide_eq_true. right. by apply bool_decide_eq_true in E.
  - clear E. repeat (apply elem_of_cons in Hk as [->|Hk]; [destruct c as [[] [] [] [] [] [] [] []]; by vm_compute|]).
    by apply elem_of_nil in Hk.
Qed.

Lemma cut_absent c s : no_byte c s = true → cut (String c "") s = None.
Proof.
  induction s as [|d s IH]; [done|]. cbn. intros [Hd Hs]%andb_true_iff. rewrite IH by done.
  destruct (Ascii.eqb_spec c d) as [->|]; [by rewrite Ascii.eqb_refl in Hd|done].
Qed.

Lemma written_facts :
  (∀ c, written in_userinfo c = true → negb (control c) = true ∧ userinfo_byte c = true) ∧
  (∀ c, written in_path c = true → negb (control c) = true) ∧
  (∀ c, unreserved c || Ascii.eqb c ":" = true → negb (control c) = true).
Proof. split_and!; intros c; destruct c as [[] [] [] [] [] [] [] []]; by vm_compute. Qed.

(** A name of a host, or an IPv4 address: bytes no URL escapes. *)
Definition host_name (host : string) : Prop := all_bytes unreserved host = true.

Lemma escape_unreserved keep s : all_bytes unreserved s = true → escape keep s = s.
Proof.
  induction s as [|c s IH]; [done|]. cbn. intros [Hc Hs]%andb_true_iff. unfold escape in *. cbn [concat_bytes].
  unfold escape_byte at 1. by rewrite Hc, IH.
Qed.

Lemma escape_append keep a b : escape keep (a +:+ b) = escape keep a +:+ escape keep b.
Proof.
  unfold escape. induction a as [|c a IH]; [done|]. rewrite append_cons. cbn [concat_bytes]. by rewrite IH, append_assoc.
Qed.

(** The digits of a port. *)
Lemma digits_prefix_all s : digits_prefix s = s → all_bytes (λ c, is_some (digit c)) s = true.
Proof.
  induction s as [|c s IH]; [done|]. cbn. destruct (is_some (digit c)); [|done]. intros [= Hs]. by rewrite IH.
Qed.
Lemma itoa_all n : (0 ≤ n)%Z → all_bytes (λ c, is_some (digit c)) (itoa n) = true.
Proof. intros Hn. destruct (itoa_digits n Hn) as (? & ? & _ & _ & Hd & _). by apply digits_prefix_all. Qed.
Lemma digit_unreserved c : is_some (digit c) = true → unreserved c = true.
Proof. destruct c as [[] [] [] [] [] [] [] []]; by vm_compute. Qed.

Lemma unescape_host_plain s :
  all_bytes (λ c, unreserved c || Ascii.eqb c ":") s = true → unescape_host s = Some s.
Proof.
  induction s as [|c s IH]; [done|]. cbn [all_bytes]. intros [Hc Hs]%andb_true_iff.
  assert (unescape_host (String c s) = String c <$> unescape_host s) as ->; [|by rewrite IH].
  destruct c as [[] [] [] [] [] [] [] []]; vm_compute in Hc; by try discriminate Hc.
Qed.

(** The address of a host: what a URL holds of it, and what is read of that. *)
Lemma read_address host port :
  host_name host → (0 ≤ port)%Z → let address := join_host_port host (itoa port) in
  escape in_host address = address ∧ read_host address = Some address ∧
  all_bytes (λ c, unreserved c || Ascii.eqb c ":") address = true.
Proof.
  intros Hh Hp. pose proof (itoa_all port Hp) as Hd.
  assert (all_bytes unreserved (itoa port) = true) as Hu by (revert Hd; apply all_bytes_impl, digit_unreserved).
  assert (no_byte ":" host = true) as Hno by by apply (all_bytes_no_byte _ _ _ Hh).
  assert (no_byte ":" (itoa port) = true) as Hno' by by apply (all_bytes_no_byte _ _ _ Hu).
  assert (join_host_port host (itoa port) = host +:+ ":" +:+ itoa port) as ->.
  { unfold join_host_port, contains. by rewrite cut_absent. }
  assert (all_bytes (λ c, unreserved c || Ascii.eqb c ":") (host +:+ ":" +:+ itoa port) = true) as Hall.
  { rewrite !all_bytes_append. cbn. rewrite andb_true_iff. split.
    - revert Hh. apply all_bytes_impl. by intros c ->.
    - revert Hu. apply all_bytes_impl. by intros c ->. }
  cbn zeta. split_and!; [| |done].
  - rewrite !escape_append, (escape_unreserved _ host), (escape_unreserved _ (itoa port)) by done.
    by assert (escape in_host ":" = ":") as -> by by vm_compute.
  - unfold read_host.
    assert (has_prefix (host +:+ ":" +:+ itoa port) "[" = false) as ->.
    { destruct host as [|c host]; [done|]. cbn in Hh. apply andb_true_iff in Hh as [Hc _].
      rewrite append_cons. unfold has_prefix. cbn [cut_prefix]. destruct (Ascii.eqb_spec "[" c) as [<-|]; [by vm_compute in Hc|done]. }
    assert (after_last ":" (host +:+ ":" +:+ itoa port) = itoa port) as ->.
    { unfold after_last. rewrite (append_cons ":" "" (itoa port)), append_nil_l, split_on_app by done. by rewrite split_on_single. }
    rewrite Hd, andb_false_r. by apply unescape_host_plain.
Qed.


Definition orders_db (engine : string) : connection :=
  MkConn "db.internal" "" 5432 "app" "orders" engine AuthPassword "" true "" runtimePool.


(** A byte of ASCII that a URL escapes in a host is refused where it is read. *)
Lemma a_host_of_other_bytes :
  read_dsn (dsn (orders_db EnginePostgres) "db internal" "p") = None.
Proof. by vm_compute. Qed.

Lemma QueryEscape_grows s : len s ≤ len (QueryEscape s).
Proof.
  induction s as [|c s IH]; [done|]. unfold QueryEscape in *. cbn [concat_bytes].
  unfold query_byte at 1. repeat case_match; rewrite !append_cons, append_nil_l; cbn; lia.
Qed.

(** For MySQL the password is escaped as a query's value would be, where the driver takes what
    stands there as the password: another one is sent than was recorded. *)
Lemma a_mysql_password_is_escaped :
  dsn (orders_db EngineMySQL) "db.internal" "p@ss word" =
    "app:p%40ss+word@tcp(db.internal:5432)/orders?tls=true&parseTime=true" ∧
  ∀ password, forallb unreserved (String.list_ascii_of_string password) = false → QueryEscape password ≠ password.
Proof.
  split; [done|]. intros password. induction password as [|c s IH]; [done|]. cbn [String.list_ascii_of_string forallb].
  unfold QueryEscape in *. cbn [concat_bytes]. unfold query_byte at 1. destruct (unreserved c) eqn:Hc.
  - rewrite append_cons, append_nil_l. intros Hs [= Heq]. by apply IH.
  - intros _. destruct (Ascii.eqb_spec c " ") as [->|]; [by rewrite append_cons|].
    pose proof (QueryEscape_grows s) as Hl. unfold QueryEscape in Hl.
    rewrite !append_cons, append_nil_l. intros [= _ Heq]. apply (f_equal len) in Heq. cbn in Heq. lia.
Qed.

(** ** What the pools keep to *)

Section facts.
Context `{FloatText} {W C D P Q : Type} (now : W → Z) (Getenv : W → string → string) (ref : Ref).
Context (GetSecretValue : string → W → result error (option string) * W).
Context (load : W → result error C * W) (traceCalls : C → C) (Region : C → string).
Context (BuildAuthToken : C → string → string → string → W → result error string * W).
Context (Drivers : list string) (driverOf : string → result error D).
Context (instrumentation : option (signingConnector (W := W) (C := C) (D := D) → string → W → result error P * W)).
Context (OpenDB : signingConnector (W := W) (C := C) (D := D) → P) (SetLimits : P → poolSettings → W → W).
Context (Conn_ : P → Session C * W → result error Q * (Session C * W)).

Abbreviation open := (open (D := D) (P := P) now Getenv ref GetSecretValue load traceCalls Region BuildAuthToken Drivers driverOf
  instrumentation OpenDB SetLimits).
Abbreviation conn := (conn now Getenv ref GetSecretValue load traceCalls Region BuildAuthToken Drivers driverOf
  instrumentation OpenDB SetLimits Conn_).

(** What an endpoint's pool is, once it has been asked for. *)
Definition is_open (read : bool) (r : result config_error P) (d : rdsDatabase (W := W) (C := C) (P := P)) : Prop :=
  match d.(recorded_) with
  | Some (Ok _) => pool_of read d = Some r
  | Some (Err err) => r = Err err
  | None => False
  end.

Lemma open_is_open read r d d' : open read d = (r, d') → is_open read r d'.
Proof.
  unfold SqlDatabase.open, connectionSettings, is_open.
  destruct d.(recorded_) as [[c|err]|] eqn:E.
  - destruct (pool_of read d) eqn:Ep; [by intros [= -> <-]; rewrite E|].
    destruct (build _ _ _ _ _) as [r' w]. intros [= <- <-]. cbn. rewrite E. unfold pool_of. by destruct read.
  - intros [= <- <-]. by rewrite E.
  - destruct (readSettings _ _ _ _ _) as [[c|err] cf]; [|by intros [= <- <-]]. cbn.
    destruct (pool_of read _) eqn:Ep; [by intros [= -> <-]|].
    destruct (build _ _ _ _ _) as [r' w]. intros [= <- <-]. cbn. unfold pool_of. by destruct read.
Qed.

Lemma is_open_open read r d : is_open read r d → open read d = (r, d).
Proof.
  unfold SqlDatabase.open, connectionSettings, is_open.
  destruct d.(recorded_) as [[c|err]|]; [intros ->|intros ->|]; done.
Qed.

Lemma is_open_kept read r d read' : is_open read r d → is_open read r (conn read' d).2.
Proof.
  intros Ho. unfold SqlDatabase.conn. destruct (open read' d) as [r' d'] eqn:E.
  assert (is_open read r d') as Ho'.
  { unfold SqlDatabase.open, connectionSettings, is_open in *.
    destruct d.(recorded_) as [[c|err]|] eqn:Er; [|by injection E as <- <-; rewrite Er|done].
    destruct (pool_of read' d) eqn:Ep; [by injection E as <- <-; rewrite Er|].
    destruct (build _ _ _ _ _) as [r0 w]. injection E as <- <-. cbn. rewrite Er.
    unfold pool_of in *. destruct read, read'; cbn in *; congruence. }
  destruct r'; [|done]. destruct (Conn_ _ _) as [? [s w]]. done.
Qed.

(** C32: an endpoint has one pool.  Whatever asking for a connection to an endpoint first came
    to, a pool or a failure to make one, every later call for that endpoint, after whatever
    calls for either, is answered from the same, and neither reads what was recorded nor
    builds anything again. *)
Theorem pools_are_built_once read d r d1 calls :
  open read d = (r, d1) →
  let d2 := foldl (λ d read, (conn read d).2) d1 calls in open read d2 = (r, d2).
Proof.
  intros Hr%open_is_open d2. apply is_open_open. subst d2. revert d1 Hr.
  induction calls as [|read' calls IH]; intros d1 Hr; [done|]. by apply IH, is_open_kept.
Qed.
End facts.

Section shutdown.
Context {W P : Type} (ref : Ref).
Context (InUse : P → W → Z) (Close_pool : P → W → option error * W) (wait : W → bool * W).
Abbreviation closePool := (closePool ref InUse Close_pool wait).

(** The world after so many waits. *)
Fixpoint waits (n : nat) (w : W) : W := match n with O => w | S n => waits n (wait w).2 end.

(** A pool given back without a word had nothing running when it was closed. *)
Lemma closed_when_idle fuel db w w' :
  closePool fuel db w = Some (None, w') →
  ∃ n, (InUse db (waits n w) ≤ 0)%Z ∧ Close_pool db (waits n w) = (None, w').
Proof.
  revert w. induction fuel as [|fuel IH]; intros w; [done|]. cbn [SqlDatabase.closePool].
  destruct (Z.ltb_spec 0 (InUse db w)).
  - destruct (wait w) as [[] w1] eqn:Ew; [by destruct (Close_pool db w1) as [[] ?]|].
    intros (n & Hn)%IH. exists (S n). cbn. by rewrite Ew.
  - destruct (Close_pool db w) as [[err|] w1] eqn:Ec; [done|]. intros [= <-]. by exists 0.
Qed.

(** A shutdown ends: once what was running has finished, or once its context is done. *)
Lemma closing_ends n db w :
  (InUse db (waits n w) ≤ 0)%Z ∨ (wait (waits n w)).1 = true →
  is_Some (closePool (S n) db w).
Proof.
  revert w. induction n as [|n IH]; intros w Hn; cbn [SqlDatabase.closePool].
  - destruct (Z.ltb_spec 0 (InUse db w)).
    + destruct Hn as [Hn|Hn]; [cbn in Hn; lia|]. cbn in Hn. destruct (wait w) as [[] w1]; [|done].
      destruct (Close_pool db w1) as [[] ?]; by eexists.
    + destruct (Close_pool db w) as [[] ?]; by eexists.
  - destruct (0 <? InUse db w)%Z; [|destruct (Close_pool db w) as [[] ?]; by eexists].
    cbn [waits] in Hn. destruct (wait w) as [[] w1]; [destruct (Close_pool db w1) as [[] ?]; by eexists|].
    by apply IH.
Qed.

End shutdown.

(** A database reached with a signed token keeps no password and is not reached in the clear. *)
Lemma a_token_is_not_sent_in_the_clear `{FloatText} {W} now Getenv ref GetSecretValue (c : cfg (W := W)) settings c' :
  readSettings now Getenv ref GetSecretValue c = (Ok settings, c') → settings.(authMode) = AuthIAM →
  settings.(ssl) = true ∧ settings.(cPassword) = "".
Proof.
  unfold readSettings, then_, answer. intros Hs Ha.
  destruct (readRecorded now ref c) as [[r|] c1] eqn:Er; [|done].
  destruct (readPool now Getenv ref c1) as [[pool|] c2]; [|done].
  destruct (readPassword now ref GetSecretValue r.(authMode) c2) as [[password|] c3] eqn:Ep; [|done].
  injection Hs as <- <-. cbn in *. unfold readPassword in Ep. rewrite bool_decide_eq_true_2 in Ep by done.
  injection Ep as <- <-. split; [|done]. revert Er Ha. unfold readRecorded.
  repeat match goal with |- context [let '(_, _) := ?x in _] => destruct x as [[? ?] ?] end.
  case_match; [done|]. intros [= <- _]. cbn. intros ->. rewrite bool_decide_eq_true_2 by done. apply orb_true_r.
Qed.

(** ** A database of a deployment *)

Definition orders_ref : Ref := MkRef KindSQLDatabase "ordersDb".
Definition recorded_db : Service nat :=
  WithLinks (Register New ResourcesNamespace
    (NewNamespace (MapBackend {[ "store" := list_to_map
       [("orders_host", "db.internal"); ("orders_user", "app"); ("orders_password", "pw");
        ("orders_readHost", "replica.internal")] ]}) "store" []))
    {[ "ordersDb" := MkLink KindSQLDatabase "orders" ]}.

(** Pools known by how often one was opened before. *)
#[local] Existing Instance WholeText.

Definition open_orders (read : bool) (d : rdsDatabase (W := nat) (C := ()) (P := nat)) :=
  open (D := ()) (λ _, 0%Z) (λ _ _, "") orders_ref (λ _ w, (Ok None, w)) (λ w, (Ok (), w)) id (λ _, "eu-west-2")
    (λ _ _ _ _ w, (Ok "token", w)) ["pgx"] (λ _, Ok ()) (Some (λ _ _ w, (Ok w, S w))) (λ _, 0) (λ _ _ w, w) read d.
Definition take_orders (read : bool) (d : rdsDatabase (W := nat) (C := ()) (P := nat)) :=
  conn (D := ()) (λ _, 0%Z) (λ _ _, "") orders_ref (λ _ w, (Ok None, w)) (λ w, (Ok (), w)) id (λ _, "eu-west-2")
    (λ _ _ _ _ w, (Ok "token", w)) ["pgx"] (λ _, Ok ()) (Some (λ _ _ w, (Ok w, S w))) (λ _, 0) (λ _ _ w, w)
    (λ db s, (Ok db, s)) read d.
Definition fresh_orders : rdsDatabase (W := nat) (C := ()) (P := nat) := MkRds None None None None (Some recorded_db, 0).

Lemma pools_are_built_once_witness :
  let '(r, d1) := open_orders true fresh_orders in
  r = Ok 0 ∧ (foldl (λ d read, (take_orders read d).2) d1 [false; true]).(writer) = Some (Ok 1) ∧
  (open_orders true (foldl (λ d read, (take_orders read d).2) d1 [false; true])).1 = Ok 0.
Proof.
  destruct (open_orders true fresh_orders) as [r d1] eqn:E.
  pose proof (pools_are_built_once (λ _, 0%Z) (λ _ _, "") orders_ref (λ _ w, (Ok None, w)) (λ w, (Ok (), w)) id
    (λ _, "eu-west-2") (λ _ _ _ _ w, (Ok "token", w)) ["pgx"] (λ _, Ok ()) (Some (λ _ _ w, (Ok w, S w))) (λ _, 0)
    (λ _ _ w, w) (λ db s, (Ok db, s)) true fresh_orders r d1 [false; true] E) as Hagain.
  assert (r = Ok 0 ∧ (foldl (λ d read, (take_orders read d).2) d1 [false; true]).(writer) = Some (Ok 1)) as [-> Hw].
  { vm_compute in E. injection E as <- <-. split; [done|]. by vm_compute. }
  split_and!; [done|exact Hw|]. unfold open_orders, take_orders. cbv zeta in Hagain. by rewrite Hagain.
Defined.
