(* ===== verification/CacheTokens.v ===== *)
(** * The tokens a cache on AWS is reached with

    Models [resources/aws/cache]: what AWS contributes to the cache of [RedisCache], a password
    read from a secret or a token signed with the function's own identity ([cache.go],
    [iam.go]).  Retrieving credentials and presigning a request are parameters. *)

From S2P Require Import Prelude GoStrings Json Errors Bind Encoding Values Store Matching Memory Config Resources RedisSlots RedisCache AwsService SqlDatabase.
From stdpp Require Import options.

(** [elastiCacheTokens]: what a token is for, and the last one signed. *)
Record elastiCacheTokens : Type := MkTokens {
  tHost : string; tUser : string; tRegion : string; tToken : string; tExpires : Z;
}.

Definition elastiCacheTokenLifetime : Z := 15 * 60 * Second.
Definition elastiCacheTokenMargin : Z := 60 * Second.

Section tokens.
Context {W C Cr Req : Type} (now : W → Z).
Context (load : W → result error C * W) (traceCalls : C → C) (Region : C → string).
Context (Retrieve : C → W → result error Cr * W) (NewRequest : string → result error Req).
Context (PresignHTTP : Cr → Req → string → W → result error string * W).

Abbreviation shared := (Session C * W)%type.

Definition signing (host : string) (err : error) : error :=
  wrapping ("celerity: signing a connection token for " +:+ host) err.
Definition no_region (host : string) : error := EString ("celerity: signing a connection token for " +:+ host +:+
  " needs the region it is in, and neither its " +:+ go_quote "_region" +:+
  " nor the ambient AWS configuration gives one").

(** The request that is presigned: the names of a query are in their order. *)
Definition connect_url (t : elastiCacheTokens) : string :=
  "https://" +:+ escape in_host t.(tHost) +:+ "/?" +:+
  query_of [("Action", "connect"); ("User", t.(tUser)); ("X-Amz-Expires", itoa (elastiCacheTokenLifetime / Second))].

(** [sign]. *)
Definition sign (t : elastiCacheTokens) : shared → result error string * shared := λ '(s, w),
  match Session_Config load traceCalls s w with
  | (Err err, s, w) => (Err err, (s, w))
  | (Ok cfg, s, w) =>
      let region := if bool_decide (t.(tRegion) = "") then Region cfg else t.(tRegion) in
      if bool_decide (region = "") then (Err (no_region t.(tHost)), (s, w))
      else match Retrieve cfg w with
           | (Err err, w) => (Err (signing t.(tHost) err), (s, w))
           | (Ok credentials, w) =>
               match NewRequest (connect_url t) with
               | Err err => (Err (signing t.(tHost) err), (s, w))
               | Ok req =>
                   match PresignHTTP credentials req region w with
                   | (Err err, w) => (Err (signing t.(tHost) err), (s, w))
                   | (Ok signed, w) => (Ok (trim_prefix signed "https://"), (s, w))
                   end
               end
           end
  end.

(** [credentials]: the token held, until it is nearly spent. *)
Definition credentials (t : elastiCacheTokens) (s : shared) :
    result error (string * string) * elastiCacheTokens * shared :=
  if negb (bool_decide (t.(tToken) = "")) && (now s.2 <? t.(tExpires))%Z then (Ok (t.(tUser), t.(tToken)), t, s)
  else match sign t s with
       | (Err err, s) => (Err err, t, s)
       | (Ok token, s) =>
           (Ok (t.(tUser), token),
            MkTokens t.(tHost) t.(tUser) t.(tRegion) token
              (now s.2 + (elastiCacheTokenLifetime - elastiCacheTokenMargin)), s)
       end.

(** [SignedPassword]: a token of its own for each cache. *)
Definition SignedPassword_ (host user region : string) : elastiCacheTokens := MkTokens host user region "" 0.

(** ** A token is good when it is handed out *)

(** A token, and when it was signed. *)
Definition signed_at (token : string) (at_ : Z) : Prop :=
  ∃ cr req region w signed, (PresignHTTP cr req region w).1 = Ok signed ∧
    token = trim_prefix signed "https://" ∧ now w = at_.

(** What is held expires before what was signed does. *)
Definition held_good (t : elastiCacheTokens) : Prop :=
  t.(tToken) ≠ "" → ∃ at_, signed_at t.(tToken) at_ ∧ (t.(tExpires) ≤ at_ + elastiCacheTokenLifetime)%Z.

(** C40: no spent token is handed out.  Where signing takes no more than the minute that is left
    for it, a connection is always given the cache's user and a token signed less than its
    lifetime ago; and what is kept for the next one is such a token too. *)
Theorem tokens_are_good_when_handed_out t s :
  (∀ cr req region w, (now (PresignHTTP cr req region w).2 ≤ now w + elastiCacheTokenMargin)%Z) →
  held_good t →
  let '(r, t', s') := credentials t s in
  held_good t' ∧ ∀ user token, r = Ok (user, token) →
    user = t.(tUser) ∧ ∃ at_, signed_at token at_ ∧ (now s'.2 < at_ + elastiCacheTokenLifetime)%Z.
Proof.
  intros Hquick Hgood. unfold credentials.
  destruct (negb (bool_decide (t.(tToken) = "")) && (now s.2 <? t.(tExpires))%Z) eqn:Hheld.
  { apply andb_true_iff in Hheld as [Hne%negb_true_iff%bool_decide_eq_false Hlt%Z.ltb_lt]. split; [done|].
    intros user token [= <- <-]. split; [done|]. destruct (Hgood Hne) as (at_ & Hs & He). exists at_. split; [done|lia]. }
  clear Hheld. destruct s as [s w]. unfold sign.
  destruct (Session_Config load traceCalls s w) as [[[cfg|err] s1] w1]; [|by split].
  cbv zeta. generalize (if bool_decide (t.(tRegion) = "") then Region cfg else t.(tRegion)) as region. intros region.
  case_bool_decide; [by split|].
  destruct (Retrieve cfg w1) as [[cr|err] w2]; [|by split].
  destruct (NewRequest _) as [req|err]; [|by split].
  pose proof (Hquick cr req region w2) as Hq.
  destruct (PresignHTTP cr req region w2) as [[signed|err] w3] eqn:Hp; [|by split]. cbn [fst snd] in *.
  assert (signed_at (trim_prefix signed "https://") (now w2)) as Hs.
  { exists cr, req, region, w2, signed. by rewrite Hp. }
  split.
  - intros _. cbn. exists (now w2). split; [done|]. lia.
  - intros user token [= <- <-]. split; [done|]. exists (now w2). split; [done|].
    unfold elastiCacheTokenLifetime, elastiCacheTokenMargin, Second in *. lia.
Qed.
End tokens.

(** ** Giving back what was opened *)

Section built.
Context {W F : Type}.

(** What [built] holds: each cache, and the name it closes under. *)
Abbreviation cache := (Ref * redisCache (W := W) (F := F))%type.

(** [track]: nothing is ever removed. *)
Definition track (client : cache) (built : list cache) : list cache := built ++ [client].

(** One of [release]'s [client.Close()], in the world it is called in. *)
Definition close_at (client : cache) (w : W) : option error * W :=
  let '(ref, d) := client in
  let '(r, d) := Close ref (MkCache d.(once) (d.(config).1, w)) in
  (match r with Ok _ => None | Err err => Some (EString (config_error_text err)) end, d.(config).2).

(** [release]: every one, whatever an earlier one answered. *)
Definition release (built : list cache) : W → option error * W := Release (close_at <$> built).
End built.

(** A signer that numbers what it signs by the time it is signed at, in half a minute. *)
Definition sign_slowly (_ : ()) (_ : string) (_ : string) (w : Z) : result error string * Z :=
  (Ok ("https://token-" +:+ itoa w), (w + 30 * Second)%Z).
Definition sessions_tokens : elastiCacheTokens := SignedPassword_ "cache.internal" "app" "".
Definition ask_token := credentials id (λ w, (Ok (), w)) id (λ _ : (), "eu-west-2") (λ _ w, (Ok (), w)) Ok sign_slowly.

Lemma tokens_are_good_when_handed_out_witness :
  let '(r, t, s) := ask_token sessions_tokens (None, 0%Z) in
  let '(r', t', _) := ask_token t (s.1, (14 * 60 * Second)%Z) in
  let '(r'', _, _) := ask_token t' (s.1, (15 * 60 * Second)%Z) in
  r = Ok ("app", "token-0") ∧ r' = Ok ("app", "token-0") ∧ r'' = Ok ("app", "token-900000000000") ∧
  held_good id sign_slowly t.
Proof.
  pose proof (tokens_are_good_when_handed_out id (λ w, (Ok (), w)) id (λ _ : (), "eu-west-2") (λ _ w, (Ok (), w)) Ok
    sign_slowly sessions_tokens (None, 0%Z) ltac:(intros; cbn; unfold elastiCacheTokenMargin, Second; lia)
    ltac:(intros []; reflexivity)) as H.
  fold (ask_token sessions_tokens (None, 0%Z)) in H.
  destruct (ask_token sessions_tokens (None, 0%Z)) as [[r t] s] eqn:E.
  destruct H as [Hgood _]. vm_compute in E. injection E as <- <- <-.
  split_and!; [by vm_compute..|exact Hgood].
Defined.
