(* ===== verification/Driving.v ===== *)
(** * Driving an application in a test

    Models [celeritytest/celeritytest.go], [celeritytest/http.go] and [celeritytest/events.go]:
    the harness that dispatches a test's events through an application's own pipelines, and
    what it tells the test.  A test that is failed stops there ([t.Fatalf]); the harness's
    counter of ids and the world go on.  An instant is in milliseconds, and a clock never
    answers the zero time. *)

From S2P Require Import Prelude GoStrings Json Errors Handler Route Layer Registry Bind Wrap App Pipeline Client.
From stdpp Require Import options.

(** ** What a helper comes to *)

(** A helper answers, fails the test with a message, or lets a panic through. *)
Inductive tested (A : Type) : Type :=
  | Went (a : A)
  | Fatal (message : string)
  | Blew (v : panic_value).
Arguments Went {A}. Arguments Fatal {A}. Arguments Blew {A}.

Section driving.
Context {W F P : Type} `{Tracer W}.

Abbreviation App := (App (W := W) (F := F)).

(** The ids counted so far, which a [uint64] holds, and the world. *)
Definition test (A : Type) : Type := N * W → tested A * (N * W).

Definition went {A} (a : A) : test A := λ s, (Went a, s).
Definition fatal {A} (message : string) : test A := λ s, (Fatal ("celeritytest: " +:+ message), s).
Definition nil_pointer {A} : test A :=
  λ s, (Blew (PanicError (EString "runtime error: invalid memory address or nil pointer dereference")), s).
Definition then_ {A B} (m : test A) (f : A → test B) : test B := λ s,
  match m s with
  | (Went a, s) => f a s
  | (Fatal message, s) => (Fatal message, s)
  | (Blew v, s) => (Blew v, s)
  end.
Definition deref {A} (o : option A) : test A := match o with Some a => went a | None => nil_pointer end.

#[local] Notation "x ⇜ m ; k" := (then_ m (λ x, k)) (at level 100, m at level 99, k at level 200, right associativity).

(** ** The harness *)

(** [celeritytest.App]; the counter is in the state of a test. *)
Record Harness : Type := MkHarness {
  app : App;
  resources_ : option P;
  now : W → Z;
  deadline_ : Z;
  traceCtx : gmap string string;
}.

Definition Option_ : Type := Harness → Harness.
Definition WithClock (clock : W → Z) : Option_ := λ a,
  MkHarness a.(app) a.(resources_) clock a.(deadline_) a.(traceCtx).
Definition WithDeadline (d : Z) : Option_ := λ a,
  MkHarness a.(app) a.(resources_) a.(now) d a.(traceCtx).
Definition WithTraceContext_ (tc : gmap string string) : Option_ := λ a,
  MkHarness a.(app) a.(resources_) a.(now) a.(deadline_) tc.

Definition defaultDeadline : Z := 30 * 1000.

(** [New], given [time.Now]. *)
Definition New_ (Now : W → Z) (a : App) (opts : list Option_) : test Harness :=
  let h := foldl (λ h opt, opt h) (MkHarness a None Now defaultDeadline ∅) opts in
  match Err_ a with
  | Some err => fatal ("the application did not finish registering:" +:+ newline +:+ error_text err)
  | None => if Len a.(registry) =? 0 then fatal "the application registered no handlers" else went h
  end.

(** [NewWithResources]. *)
Definition NewWithResources (Now : W → Z) (a : App) (p : P) (opts : list Option_) : test Harness :=
  h ⇜ New_ Now a opts; went (MkHarness h.(app) (Some p) h.(now) h.(deadline_) h.(traceCtx)).

Definition nextID (prefix : string) : test string := λ '(n, w),
  let n := ((n + 1) mod 2 ^ 64)%N in (Went (prefix +:+ "-" +:+ itoa (Z.of_N n)), (n, w)).

(** [event]: the envelope every dispatch shares. *)
Definition event (a : Harness) (reg : Registration W) (id : string) : test Event := λ '(n, w),
  let at_ := a.(now) w in
  (Went (MkEvent id reg.(Tag) reg.(RegKind) (Some at_) (Some (at_ + a.(deadline_))%Z) a.(traceCtx)
    None None None None None), (n, w)).

(** The context a dispatch is made in: [context.WithDeadline], of the background. *)
Definition with_deadline (ev : Event) : Ctx := MkCtx None None None None ev.(Deadline) None None.

(** [dispatch]: what the pipeline answered, and the error it answered with. *)
Definition dispatch (a : Harness) (reg : Registration W) (ev : Event) :
    test (option Result * option error) := λ '(n, w),
  let '(o, w) := Pipeline a.(app) reg (with_deadline ev) ev w in
  match o with
  | Panicked v => (Blew v, (n, w))
  | Returned r (Some err) => (Went (r, Some err), (n, w))
  | Returned None None => fatal (reg.(Name) +:+ " answered with no result and no error") (n, w)
  | Returned (Some r) None => (Went (Some r, None), (n, w))
  end.

(** [resultError]. *)
Definition resultError (r : Result) : option error :=
  match r.(ResultError) with
  | None => None
  | Some e => Some (EString (e.(ErrorType) +:+ ": " +:+ e.(ErrorMessage)))
  end.

(** What the registry holds of a kind, each read through its pointer. *)
Definition of_kind (a : Harness) (kind : Kind) : test (list (Registration W)) :=
  deref (is_ ← OfKind a.(app).(registry) kind; mapM (handler_at a.(app)) is_).

(** What [Registry.ByName] answers, read through its pointer. *)
Definition ResolveReg (a : Harness) (name : string) : option (option (Registration W)) :=
  found ← ByName a.(app).(registry) name;
  match found with None => Some None | Some i => Some <$> handler_at a.(app) i end.

(** ** Requests *)

Definition RequestOption : Type := Request → Request.
Definition badBodyHeader : string := "celeritytest-bad-body".

Definition with_headers (r : Request) (headers : Params) : Request :=
  MkRequest r.(Method) r.(RequestPath) r.(RequestRoute) r.(PathParams) r.(QueryParams) headers
    r.(RequestSourceIP) r.(RequestRequestID) r.(RequestBody).
Definition Body (body : bytes) : RequestOption := λ r,
  MkRequest r.(Method) r.(RequestPath) r.(RequestRoute) r.(PathParams) r.(QueryParams) r.(RequestHeaders)
    r.(RequestSourceIP) r.(RequestRequestID) body.
(** Of what [json.Marshal] answers for the value. *)
Definition JSONBody (encoded : result error bytes) : RequestOption := λ r,
  match encoded with
  | Err err => with_headers (Body "" r) (Params.Add r.(RequestHeaders) badBodyHeader (error_text err))
  | Ok encoded => with_headers (Body encoded r) (Params.Add r.(RequestHeaders) "content-type" "application/json")
  end.
Definition Header (name value : string) : RequestOption := λ r,
  with_headers r (Params.Add r.(RequestHeaders) (to_lower name) value).
Definition Query (name value : string) : RequestOption := λ r,
  MkRequest r.(Method) r.(RequestPath) r.(RequestRoute) r.(PathParams) (Params.Add r.(QueryParams) name value)
    r.(RequestHeaders) r.(RequestSourceIP) r.(RequestRequestID) r.(RequestBody).
Definition SourceIP (ip : string) : RequestOption := λ r,
  MkRequest r.(Method) r.(RequestPath) r.(RequestRoute) r.(PathParams) r.(QueryParams) r.(RequestHeaders)
    ip r.(RequestRequestID) r.(RequestBody).

(** The loop of [routeFor]: the first registration of the method whose route the path is of. *)
Fixpoint find_route (method path : string) (regs : list (Registration W)) : option (Registration W * Params) :=
  match regs with
  | [] => None
  | reg :: regs =>
      if negb (bool_decide (reg.(RegMethod) = method)) then find_route method path regs
      else match matchRoute reg.(RegRoute) path with
           | Some params => Some (reg, params)
           | None => find_route method path regs
           end
  end.

Definition no_route (method path : string) (regs : list (Registration W)) : string :=
  "no handler is registered for " +:+ method +:+ " " +:+ path +:+ "." +:+ newline +:+ "Registered:" +:+
  newline +:+ tab +:+ join ((λ reg, reg.(RegMethod) +:+ " " +:+ reg.(RegRoute)) <$> regs) (newline +:+ tab).

Definition routeFor (a : Harness) (method path : string) : test (Registration W * Params) :=
  regs ⇜ of_kind a KindHTTP;
  match find_route method path regs with
  | Some found => went found
  | None => fatal (no_route method path regs)
  end.

(** [Response]. *)
Record Response_ : Type := MkResponse_ {
  Result_ : option Result;
  HandlerName : string;
  failed : option error;
}.

(** The event of [Do]: the request, once its options are applied and its route is found. *)
Definition requestEvent (a : Harness) (method path : string) (opts : list RequestOption) :
    test (Registration W * Event) :=
  requestID ⇜ nextID "request";
  let request := foldl (λ r opt, opt r)
    (MkRequest (to_upper method) path "" ∅ ∅ ∅ "" requestID "") opts in
  let bad := Params.Get request.(RequestHeaders) badBodyHeader in
  if negb (bool_decide (bad = "")) then fatal ("encoding the request body: " +:+ bad)
  else
    found ⇜ routeFor a request.(Method) path;
    let '(reg, params) := found in
    let request := MkRequest request.(Method) request.(RequestPath) reg.(RegRoute) params
      request.(QueryParams) request.(RequestHeaders) request.(RequestSourceIP)
      request.(RequestRequestID) request.(RequestBody) in
    id ⇜ nextID "event";
    ev ⇜ event a reg id;
    went (reg, MkEvent ev.(EventID) ev.(EventTag) ev.(EventKind) ev.(Timestamp) ev.(Deadline)
                 ev.(EventTraceContext) (Some request) None None None None).

Definition Do (a : Harness) (method path : string) (opts : list RequestOption) : test Response_ :=
  sent ⇜ requestEvent a method path opts;
  answered ⇜ dispatch a sent.1 sent.2;
  went (MkResponse_ answered.1 sent.1.(Name) answered.2).

Definition GET (a : Harness) := Do a "GET".
Definition POST (a : Harness) := Do a "POST".
Definition PUT (a : Harness) := Do a "PUT".
Definition PATCH (a : Harness) := Do a "PATCH".
Definition DELETE (a : Harness) := Do a "DELETE".

(** ** Responses *)

Definition http_of (r : Response_) : option Response := res ← r.(Result_); res.(ResultHTTP).
Definition Status_ (r : Response_) : Z := match http_of r with Some h => h.(Status) | None => 0 end.
Definition Body_ (r : Response_) : bytes := match http_of r with Some h => h.(ResponseBody) | None => "" end.
Definition Header_ (r : Response_) (name : string) : string :=
  match http_of r with Some h => Params.Get h.(ResponseHeaders) (to_lower name) | None => "" end.

(** [failure], which [Error] answers. *)
Definition failure (r : Response_) : option error :=
  match r.(failed) with
  | Some err => Some err
  | None => res ← r.(Result_); resultError res
  end.

Definition AssertStatus (r : Response_) (want : Z) : test Response_ :=
  match failure r with
  | Some err => fatal (r.(HandlerName) +:+ " failed instead of answering " +:+ itoa want +:+ ": " +:+ error_text err)
  | None =>
      if negb (bool_decide (Status_ r = want)) then
        fatal (r.(HandlerName) +:+ " answered " +:+ itoa (Status_ r) +:+ ", wanted " +:+ itoa want +:+ newline +:+
               "body: " +:+ Body_ r)
      else went r
  end.

(** [Decode], of what [json.Unmarshal] makes of a body in a value of the type named. *)
Definition Decode {A} (Unmarshal : bytes → result error A) (type_ : string) (r : Response_) : test A :=
  match failure r with
  | Some err => fatal (r.(HandlerName) +:+ " failed instead of answering: " +:+ error_text err)
  | None =>
      match Unmarshal (Body_ r) with
      | Ok out => went out
      | Err err => fatal ("reading " +:+ r.(HandlerName) +:+ "'s answer as " +:+ type_ +:+ ": " +:+
                          error_text err +:+ newline +:+ "body: " +:+ Body_ r)
      end
  end.

(** ** Events of the other kinds *)

(** [handlerNamed]: the first registration of the name, where it is of the kind. *)
Definition handlerNamed (a : Harness) (name : string) (kind : Kind) : test (Registration W) :=
  found ⇜ deref (ResolveReg a name);
  match List.filter (λ reg, bool_decide (reg.(RegKind) = kind)) (option_list found) with
  | reg :: _ => went reg
  | [] =>
      regs ⇜ of_kind a kind;
      fatal ("no " +:+ kind +:+ " handler is registered as " +:+ go_quote name +:+ "." +:+ newline +:+
             "Registered: " +:+ join (Name <$> regs) ", ")
  end.

Definition webSocketRoute (a : Harness) (route : string) : test (Registration W) :=
  regs ⇜ of_kind a KindWebSocket;
  match List.find (λ reg, bool_decide (reg.(RegRoute) = route)) regs with
  | Some reg => went reg
  | None => fatal ("no WebSocket handler is registered for " +:+ go_quote route +:+ "." +:+ newline +:+
                   "Registered: " +:+ join (RegRoute <$> regs) ", ")
  end.

(** A dispatch that is to succeed, and what the test is failed with where it does not:
    the [err] each of the helpers below looks at first. *)
Definition succeeding (a : Harness) (reg : Registration W) (ev : Event) (message : string → string) : test Result :=
  answered ⇜ dispatch a reg ev;
  match answered with
  | (_, Some err) => fatal (message (error_text err))
  | (None, None) => nil_pointer
  | (Some r, None) => match resultError r with Some err => fatal (message (error_text err)) | None => went r end
  end.

Definition failed_text (name text : string) : string := name +:+ " failed: " +:+ text.

(** The records of a batch, each with an id of its own. *)
Fixpoint consumerRecords (source : string) (bodies : list bytes) : test (list ConsumerRecord) :=
  match bodies with
  | [] => went []
  | body :: bodies =>
      id ⇜ nextID "message";
      records ⇜ consumerRecords source bodies;
      went (MkConsumerRecord id body source "" "" "" :: records)
  end.

(** The event of [Consume]. *)
Definition consumerEvent (a : Harness) (name : string) (bodies : list bytes) : test (Registration W * Event) :=
  reg ⇜ handlerNamed a name KindConsumer;
  records ⇜ consumerRecords reg.(SourceID) bodies;
  id ⇜ nextID "event";
  ev ⇜ event a reg id;
  went (reg, MkEvent ev.(EventID) ev.(EventTag) ev.(EventKind) ev.(Timestamp) ev.(Deadline)
               ev.(EventTraceContext) None None (Some (MkConsumerBatch records reg.(SourceID) "" "")) None None).

Definition Consume (a : Harness) (name : string) (bodies : list bytes) : test BatchResult :=
  sent ⇜ consumerEvent a name bodies;
  r ⇜ succeeding a sent.1 sent.2 (failed_text name);
  went (default (MkBatchResult []) r.(ResultConsumer)).

(** [ConsumeJSON], of what [json.Marshal] answers for each message. *)
Fixpoint encodings (name : string) (messages : list (result error bytes)) : test (list bytes) :=
  match messages with
  | [] => went []
  | Err err :: _ => fatal ("encoding a message for " +:+ name +:+ ": " +:+ error_text err)
  | Ok encoded :: messages => bodies ⇜ encodings name messages; went (encoded :: bodies)
  end.
Definition ConsumeJSON (a : Harness) (name : string) (messages : list (result error bytes)) : test BatchResult :=
  bodies ⇜ encodings name messages; Consume a name bodies.

(** [Schedule]. *)
Definition scheduleEvent (a : Harness) (name : string) (input : list bytes) : test (Registration W * Event) :=
  reg ⇜ handlerNamed a name KindSchedule;
  messageID ⇜ nextID "message";
  let trigger := MkScheduleTrigger reg.(SourceID) messageID "" (default "" (head input)) "" in
  id ⇜ nextID "event";
  ev ⇜ event a reg id;
  went (reg, MkEvent ev.(EventID) ev.(EventTag) ev.(EventKind) ev.(Timestamp) ev.(Deadline)
               ev.(EventTraceContext) None None None (Some trigger) None).

(** A result's acknowledgement, where it says that it did not succeed. *)
Definition unsuccessful (ack : option Ack) : option string :=
  a ← ack; if a.(AckSuccess) then None else Some a.(AckError).

Definition Schedule (a : Harness) (name : string) (input : list bytes) : test () :=
  sent ⇜ scheduleEvent a name input;
  r ⇜ succeeding a sent.1 sent.2 (failed_text name);
  match unsuccessful r.(ResultSchedule) with
  | Some text => fatal (name +:+ " did not succeed: " +:+ text)
  | None => went ()
  end.

(** [Invoke], of what [json.Marshal] answers for the input, if there is one, and of what
    [json.Unmarshal] makes of the output in a value of the type named, if one is wanted. *)
Definition customEvent (a : Harness) (name : string) (input : option (result error bytes)) :
    test (Registration W * Event) :=
  reg ⇜ handlerNamed a name KindCustom;
  encoded ⇜ match input with
             | None => went ""
             | Some (Ok encoded) => went encoded
             | Some (Err err) => fatal ("encoding the input for " +:+ name +:+ ": " +:+ error_text err)
             end;
  id ⇜ nextID "event";
  ev ⇜ event a reg id;
  went (reg, MkEvent ev.(EventID) ev.(EventTag) ev.(EventKind) ev.(Timestamp) ev.(Deadline)
               ev.(EventTraceContext) None None None None (Some (MkCustomInvoke reg.(Name) encoded))).

Definition Invoke {A} (a : Harness) (name : string) (input : option (result error bytes))
    (out : option (string * (bytes → result error A))) : test (option A) :=
  sent ⇜ customEvent a name input;
  r ⇜ succeeding a sent.1 sent.2 (failed_text name);
  match out, r.(ResultCustom) with
  | None, _ => went None
  | Some _, None => fatal (name +:+ " answered with nothing to decode")
  | Some (type_, Unmarshal), Some c =>
      match Unmarshal c.(CustomOutput) with
      | Ok v => went (Some v)
      | Err err => fatal ("reading " +:+ name +:+ "'s answer as " +:+ type_ +:+ ": " +:+ error_text err +:+
                          newline +:+ "output: " +:+ c.(CustomOutput))
      end
  end.

(** ** Messages *)

Definition MessageOption : Type := WebSocketMessage → WebSocketMessage.
Definition From_ (connectionID : string) : MessageOption := λ m,
  MkWebSocketMessage m.(WSRoute) connectionID m.(WSSourceIP) m.(WSRequestID) m.(WSMessage) m.(WSIsBinary) m.(WSMessageID).
Definition Binary : MessageOption := λ m,
  MkWebSocketMessage m.(WSRoute) m.(WSConnectionID) m.(WSSourceIP) m.(WSRequestID) m.(WSMessage) true m.(WSMessageID).

(** [Send]. *)
Definition messageEvent (a : Harness) (route : string) (body : bytes) (opts : list MessageOption) :
    test (Registration W * Event) :=
  reg ⇜ webSocketRoute a route;
  requestID ⇜ nextID "request";
  messageID ⇜ nextID "message";
  let message := foldl (λ m opt, opt m)
    (MkWebSocketMessage route "connection-1" "" requestID body false messageID) opts in
  id ⇜ nextID "event";
  ev ⇜ event a reg id;
  went (reg, MkEvent ev.(EventID) ev.(EventTag) ev.(EventKind) ev.(Timestamp) ev.(Deadline)
               ev.(EventTraceContext) None (Some message) None None None).

Definition Send (a : Harness) (route : string) (body : bytes) (opts : list MessageOption) : test () :=
  sent ⇜ messageEvent a route body opts;
  r ⇜ succeeding a sent.1 sent.2 (λ text, "the handler for " +:+ go_quote route +:+ " failed: " +:+ text);
  match unsuccessful r.(ResultWebSocket) with
  | Some text => fatal ("the handler for " +:+ go_quote route +:+ " did not succeed: " +:+ text)
  | None => went ()
  end.

(** ** A helper is a dispatch *)

(** The helpers that dispatch, by what they answer with. *)
Inductive helper : Type → Type :=
  | HDo (method path : string) (opts : list RequestOption) : helper Response_
  | HConsume (name : string) (bodies : list bytes) : helper BatchResult
  | HSchedule (name : string) (input : list bytes) : helper ()
  | HInvoke {A} (name : string) (input : option (result error bytes))
      (out : option (string * (bytes → result error A))) : helper (option A)
  | HSend (route : string) (body : bytes) (opts : list MessageOption) : helper ().

Definition call_ (a : Harness) {A} (h : helper A) : test A :=
  match h with
  | HDo method path opts => Do a method path opts
  | HConsume name bodies => Consume a name bodies
  | HSchedule name input => Schedule a name input
  | HInvoke name input out => Invoke a name input out
  | HSend route body opts => Send a route body opts
  end.

(** The registration a helper picks and the event it makes for it. *)
Definition built (a : Harness) {A} (h : helper A) : test (Registration W * Event) :=
  match h with
  | HDo method path opts => requestEvent a method path opts
  | HConsume name bodies => consumerEvent a name bodies
  | HSchedule name input => scheduleEvent a name input
  | HInvoke name input _ => customEvent a name input
  | HSend route body opts => messageEvent a route body opts
  end.

Definition kind_of {A} (h : helper A) : Kind :=
  match h with
  | HDo _ _ _ => KindHTTP | HConsume _ _ => KindConsumer | HSchedule _ _ => KindSchedule
  | HInvoke _ _ _ => KindCustom | HSend _ _ _ => KindWebSocket
  end.

(** What a helper answers with, of the result the runtime is given. *)
Definition shown {A} (h : helper A) (id : string) (res : Result) : A → Prop :=
  match h in helper A return A → Prop with
  | HDo _ _ _ => λ v,
      (v.(failed) = None ∧ v.(Result_) = Some res) ∨
      ∃ err, v.(failed) = Some err ∧ res = ErrorResult id (errorFrom (PanicError err))
  | HConsume _ _ => λ v, res.(ResultError) = None ∧ v = default (MkBatchResult []) res.(ResultConsumer)
  | HSchedule _ _ => λ _, res.(ResultError) = None ∧ unsuccessful res.(ResultSchedule) = None
  | HInvoke _ _ out => λ v, res.(ResultError) = None ∧
      match out with
      | None => v = None
      | Some (_, Unmarshal) => ∃ c x, res.(ResultCustom) = Some c ∧ Unmarshal c.(CustomOutput) = Ok x ∧ v = Some x
      end
  | HSend _ _ _ => λ _, res.(ResultError) = None ∧ unsuccessful res.(ResultWebSocket) = None
  end.

(** A helper's answer is the runtime's: it is shown where there is one to show. *)
Definition agrees {A} (h : helper A) (id : string) (r : option Result) (t : tested A) : Prop :=
  match t with
  | Went v => ∃ res, r = Some res ∧ shown h id res v
  | Fatal _ => ∀ res v, r = Some res → ¬ shown h id res v
  | Blew v => r = Some (ErrorResult id (errorFrom v))
  end.

(** The runtime's dispatch of an event, in the context of its stream. *)
Definition told (a : Harness) (ev : Event) (w : W) : option Result * W :=
  resultFor (resolvePipeline a.(app)) (eventContext Background ev) ev w.

(** A context without the sender a dispatch from the stream has in it and a test's has not. *)
Definition without_sender (c : Ctx) : Ctx :=
  MkCtx c.(ctxEvent) c.(ctxIdentity) c.(ctxTrace) c.(ctxLogger) c.(ctxDeadline) c.(ctxSpan) None.

(** What is done before a dispatch leaves the world alone. *)
Definition before {A} (m : test A) : Prop := ∀ n w, ∃ t n', m (n, w) = (t, (n', w)).
Lemma before_went {A} (a : A) : before (went a).
Proof. by intros n w; eexists _, n. Qed.
Lemma before_fatal {A} message : before (fatal (A := A) message).
Proof. by intros n w; eexists _, n. Qed.
Lemma before_deref {A} (o : option A) : before (deref o).
Proof. intros n w. destruct o; by eexists _, n. Qed.
Lemma before_then {A B} (m : test A) (f : A → test B) : before m → (∀ a, before (f a)) → before (then_ m f).
Proof.
  intros Hm Hf n w. unfold then_. destruct (Hm n w) as (t & n' & ->).
  destruct t as [a|message|v]; [apply Hf|by eexists _, n'..].
Qed.
Lemma before_nextID prefix : before (nextID prefix).
Proof. intros n w. by eexists _, _. Qed.
Lemma before_event a reg id : before (event a reg id).
Proof. intros n w. by eexists _, n. Qed.
Lemma before_records source bodies : before (consumerRecords source bodies).
Proof.
  induction bodies as [|body bodies IH]; cbn; [apply before_went|].
  repeat (apply before_then || apply before_nextID || apply IH || apply before_went || intros ?).
Qed.

#[local] Hint Resolve before_went before_fatal before_deref before_then before_nextID before_event before_records : driving.

Lemma before_built a {A} (h : helper A) : before (built a h).
Proof.
  destruct h; cbn [built]; unfold requestEvent, consumerEvent, scheduleEvent, customEvent, messageEvent,
    routeFor, handlerNamed, webSocketRoute, of_kind;
    repeat first [ apply before_then | progress intros | progress auto with driving | case_match | progress cbv zeta ].
Qed.

(** What a step gives where it does not fail the test; it never panics. *)
Definition gives {A} (m : test A) (Q : A → Prop) : Prop :=
  ∀ s, match (m s).1 with Went a => Q a | Fatal _ => True | Blew _ => False end.
Lemma gives_went {A} (a : A) (Q : A → Prop) : Q a → gives (went a) Q.
Proof. by intros ? s. Qed.
Lemma gives_fatal {A} message (Q : A → Prop) : gives (fatal message) Q.
Proof. done. Qed.
Lemma gives_then {A B} (m : test A) (f : A → test B) (R : A → Prop) (Q : B → Prop) :
  gives m R → (∀ a, R a → gives (f a) Q) → gives (then_ m f) Q.
Proof.
  intros Hm Hf s. specialize (Hm s). unfold then_. destruct (m s) as [[a|message|v] s1]; [|done..].
  by apply Hf.
Qed.
Lemma gives_any {A} (m : test A) : gives m (λ _, True) → ∀ {B} (f : A → test B) Q, (∀ a, gives (f a) Q) → gives (then_ m f) Q.
Proof. intros Hm B f Q Hf. by eapply gives_then. Qed.
Lemma gives_nextID prefix : gives (nextID prefix) (λ _, True).
Proof. by intros [n w]. Qed.
Lemma gives_records source bodies : gives (consumerRecords source bodies) (λ _, True).
Proof.
  induction bodies as [|body bodies IH]; [done|]. cbn [consumerRecords].
  apply gives_any; [apply gives_nextID|]. intros id. by apply gives_any.
Qed.

(** A registration that is served, and an event for it. *)
Definition served (a : Harness) (reg : Registration W) : Prop :=
  ∃ i, a.(app).(registry).(byTag) !! reg.(Tag) = Some i ∧ handler_at a.(app) i = Some reg.
Definition picked (a : Harness) (kind : Kind) (reg : Registration W) : Prop := served a reg ∧ reg.(RegKind) = kind.
Definition is_for (a : Harness) (kind : Kind) (sent : Registration W * Event) : Prop :=
  served a sent.1 ∧ sent.2.(EventTag) = sent.1.(Tag) ∧ sent.2.(EventKind) = kind.

Lemma gives_event a reg id (f : Event → test (Registration W * Event)) Q :
  (∀ ev, ev.(EventTag) = reg.(Tag) → ev.(EventKind) = reg.(RegKind) → gives (f ev) Q) →
  gives (then_ (event a reg id) f) Q.
Proof.
  intros Hf. apply (gives_then _ _ (λ ev, ev.(EventTag) = reg.(Tag) ∧ ev.(EventKind) = reg.(RegKind))).
  - by intros [n w].
  - intros ev [??]. by apply Hf.
Qed.

Section registered.
Context (a : Harness) (Hwf : registry_wf a.(app).(registry)).

Lemma listed_served i : i ∈ listed a.(app).(registry) → ∃ reg, handler_at a.(app) i = Some reg ∧ served a reg.
Proof using Hwf.
  intros (t & _ & Hi)%elem_of_listed. destruct (wf_tag _ Hwf _ _ Hi) as (reg & Hr & <-). exists reg. split; [done|]. by exists i.
Qed.

Lemma gives_of_kind kind : gives (of_kind a kind) (Forall (picked a kind)).
Proof using Hwf.
  intros s. unfold of_kind. rewrite OfKind_wf by done. cbn [mbind option_bind].
  assert (∀ l, (∀ i, i ∈ l → i ∈ listed a.(app).(registry)) →
    ∃ regs, mapM (handler_at a.(app)) (List.filter (λ i, match a.(app).(registry).(heap) !! i with
      | Some reg => bool_decide (reg.(RegKind) = kind) | None => false end) l) = Some regs ∧
      Forall (picked a kind) regs) as Hl.
  { induction l as [|i l IH]; intros Hl; [by exists []|]. cbn [List.filter].
    destruct IH as (regs & IH & Hregs); [intros; apply Hl; by right|].
    destruct (listed_served i) as (reg & Hr & Hs); [apply Hl; by left|].
    assert (a.(app).(registry).(heap) !! i = Some reg) as -> by done. case_bool_decide; [|by exists regs].
    cbn [mapM]. rewrite Hr, IH. exists (reg :: regs). split; [done|]. by constructor. }
  destruct (Hl _ (λ i H, H)) as (regs & -> & Hregs). done.
Qed.

Lemma gives_handlerNamed name kind : gives (handlerNamed a name kind) (picked a kind).
Proof using Hwf.
  unfold handlerNamed, ResolveReg. rewrite ByName_wf by done. cbn [mbind option_bind].
  apply (gives_then _ _ (λ found, ∀ reg, found = Some reg → served a reg)).
  - destruct (List.find _ _) as [i|] eqn:Hf; [|by intros s].
    apply find_some in Hf as [Hi%list_elem_of_In _]. destruct (listed_served i Hi) as (reg & Hr & Hs).
    rewrite Hr. intros s. cbn. by intros ? [= <-].
  - intros [reg|] Hfound; cbn -[bool_decide of_kind].
    + case_bool_decide; [apply gives_went; split; [by apply Hfound|done]|].
      eapply gives_then; [apply gives_of_kind|]. intros. apply gives_fatal.
    + eapply gives_then; [apply gives_of_kind|]. intros. apply gives_fatal.
Qed.

Lemma find_route_picked method path kind regs reg params :
  Forall (picked a kind) regs → find_route method path regs = Some (reg, params) → picked a kind reg.
Proof using Hwf.
  induction 1 as [|r regs Hr _ IH]; [done|]. cbn [find_route]. case_bool_decide; [|exact IH].
  cbn [negb]. destruct (matchRoute _ _); [by intros [= <- _]|exact IH].
Qed.

(** The end of every helper's preparation: the envelope, and the payload put in it. *)
Ltac for_the_event :=
  apply gives_event; intros ev Ht Hke; apply gives_went; split_and!; cbn in *; congruence || done.

(** Every helper's event is for a handler of its kind that is served under the event's tag. *)
Lemma built_is_for {A} (h : helper A) : gives (built a h) (is_for a (kind_of h)).
Proof using Hwf.
  destruct h; cbn [built kind_of].
  - unfold requestEvent, routeFor. apply gives_any; [apply gives_nextID|]. intros id. cbv zeta.
    case_bool_decide; [|apply gives_fatal]. cbn [negb].
    eapply gives_then with (R := λ found, picked a KindHTTP found.1).
    + eapply gives_then; [apply gives_of_kind|]. intros regs Hregs.
      destruct (find_route _ _ _) as [[reg params]|] eqn:Hf; [|apply gives_fatal].
      apply gives_went. by eapply find_route_picked.
    + intros [reg params] [Hs Hk]. apply gives_any; [apply gives_nextID|]. intros id'.
      for_the_event.
  - unfold consumerEvent. eapply gives_then; [apply gives_handlerNamed|]. intros reg [Hs Hk].
    apply gives_any; [apply gives_records|]. intros records. apply gives_any; [apply gives_nextID|]. intros id.
    for_the_event.
  - unfold scheduleEvent. eapply gives_then; [apply gives_handlerNamed|]. intros reg [Hs Hk].
    apply gives_any; [apply gives_nextID|]. intros mid. apply gives_any; [apply gives_nextID|]. intros id.
    for_the_event.
  - unfold customEvent. eapply gives_then; [apply gives_handlerNamed|]. intros reg [Hs Hk].
    apply gives_any; [by destruct input as [[]|]|]. intros encoded. apply gives_any; [apply gives_nextID|]. intros id.
    for_the_event.
  - unfold messageEvent, webSocketRoute.
    eapply gives_then with (R := picked a KindWebSocket).
    + eapply gives_then; [apply gives_of_kind|]. intros regs Hregs.
      destruct (List.find _ _) as [reg|] eqn:Hf; [|apply gives_fatal]. apply gives_went.
      apply find_some in Hf as [Hin%list_elem_of_In _]. by eapply Forall_forall in Hregs.
    + intros reg [Hs Hk]. apply gives_any; [apply gives_nextID|]. intros rid.
      apply gives_any; [apply gives_nextID|]. intros mid. apply gives_any; [apply gives_nextID|]. intros id.
      for_the_event.
Qed.

(** What is served makes no use of the sender: it answers and does the same without. *)
Context (Hunsent : ∀ reg, served a reg → ∀ c ev w,
  Pipeline a.(app) reg c ev w = Pipeline a.(app) reg (without_sender c) ev w).

(** The pipeline a helper runs, in the context it runs it in, is the runtime's. *)
Lemma told_spec reg ev w :
  served a reg → ev.(EventTag) = reg.(Tag) →
  told a ev w = let '(o, w) := Pipeline a.(app) reg (with_deadline ev) ev w in
    (match o with
     | Panicked v => Some (ErrorResult ev.(EventID) (errorFrom v))
     | Returned _ (Some err) => Some (ErrorResult ev.(EventID) (errorFrom (PanicError err)))
     | Returned out None => out
     end, w).
Proof using Hunsent.
  intros (i & Hi & Hr) Ht. unfold told, resultFor, resolvePipeline, Get. rewrite Ht, Hi. cbn [mbind option_bind].
  rewrite Hr. cbn [fmap option_fmap option_map].
  rewrite (Hunsent reg) by by exists i.
  assert (Pipeline a.(app) reg (without_sender (eventContext Background ev)) ev w =
          Pipeline a.(app) reg (with_deadline ev) ev w) as ->; [|done].
  unfold Pipeline, contextLayer, eventContext, without_sender, with_deadline. cbn.
  by destruct ev as [? ? ? ? [] tc]; cbn; case_bool_decide.
Qed.

(** A dispatch that is to succeed, and what a helper makes of the result: where that agrees
    with the result, the helper agrees with the runtime. *)
Lemma succeeding_then {A} (h : helper A) reg ev message (rest : Result → test A) n w :
  served a reg → ev.(EventTag) = reg.(Tag) →
  (∀ res v, shown h ev.(EventID) res v → res.(ResultError) = None) →
  (∀ res s, res.(ResultError) = None → ∃ t, rest res s = (t, s) ∧ agrees h ev.(EventID) (Some res) t) →
  let '(t, s) := then_ (succeeding a reg ev message) rest (n, w) in
  s = (n, (told a ev w).2) ∧ agrees h ev.(EventID) (told a ev w).1 t.
Proof using Hwf Hunsent.
  intros Hs Ht Hshown Hrest. rewrite (told_spec reg) by done. unfold succeeding, then_, dispatch.
  assert (∀ res, res.(ResultError) ≠ None → ∀ text, agrees h ev.(EventID) (Some res) (Fatal text)) as Hfail.
  { intros res Hres text res' v [= <-] Hv. by apply Hres, (Hshown _ v). }
  destruct (Pipeline _ _ _ _ _) as [[[res|] [err|]|v] w']; cbn [fst snd fatal went]; try done.
  - split; [done|]. by refine (Hfail _ _ "").
  - unfold resultError. destruct (res.(ResultError)) as [e|] eqn:He; cbn.
    + split; [done|]. refine (Hfail res _ ""). by rewrite He.
    + destruct (Hrest res (n, w') He) as (t & -> & Hagrees). done.
  - split; [done|]. by refine (Hfail _ _ "").
Qed.

(** A result's acknowledgement agrees where it alone is what is shown. *)
Lemma acknowledged (h : helper ()) res ack message s :
  res.(ResultError) = None →
  (∀ id v, shown h id res v ↔ res.(ResultError) = None ∧ unsuccessful ack = None) →
  ∀ id, ∃ t, match unsuccessful ack with Some text => fatal (message text) | None => went () end s = (t, s) ∧
    agrees h id (Some res) t.
Proof using Type.
  intros He Hshown id. destruct (unsuccessful ack) as [text|] eqn:Hu; (eexists; split; [done|]; cbn).
  - intros res' v [= <-] Hv%Hshown. by destruct Hv.
  - exists res. split; [done|]. by apply Hshown.
Qed.

(** What a helper comes to once its event is made. *)
Lemma dispatched_agrees {A} (h : helper A) reg ev s0 n w t s :
  built a h s0 = (Went (reg, ev), (n, w)) → call_ a h s0 = (t, s) →
  served a reg → ev.(EventTag) = reg.(Tag) →
  s.2 = (told a ev w).2 ∧ agrees h ev.(EventID) (told a ev w).1 t.
Proof using Hwf Hunsent.
  intros Hb Hc Hs Ht.
  assert (∀ message (rest : Result → test A), then_ (succeeding a reg ev message) rest (n, w) = (t, s) →
    (∀ res v, shown h ev.(EventID) res v → res.(ResultError) = None) →
    (∀ res s, res.(ResultError) = None → ∃ t, rest res s = (t, s) ∧ agrees h ev.(EventID) (Some res) t) →
    s.2 = (told a ev w).2 ∧ agrees h ev.(EventID) (told a ev w).1 t) as Hfinish.
  { intros message rest Hr Hshown Hrest. pose proof (succeeding_then h reg ev message rest n w Hs Ht Hshown Hrest) as Hst.
    rewrite Hr in Hst. by destruct Hst as [-> ?]. }
  destruct h; cbn [call_ built] in *; [|eapply Hfinish; [unfold Consume, Schedule, Invoke, Send, then_ at 1 in Hc;
    rewrite Hb in Hc; exact Hc|by intros ?? [??]|]..].
  - rewrite (told_spec reg) by done. unfold Do, then_ in Hc. rewrite Hb in Hc. unfold dispatch in Hc.
    cbn [fst snd] in Hc.
    destruct (Pipeline _ _ _ _ _) as [[[res|] [err|]|v] w']; injection Hc as <- <-; cbn; split; try done; eauto 10.
  - intros res s1 He. eexists. split; [done|]. cbn. eauto.
  - intros res s1 He. apply (acknowledged (HSchedule name input) res _ _ s1 He); by cbn.
  - intros res s1 He. cbn. destruct out as [[type_ Unmarshal]|]; [|eexists; split; [done|]; cbn; eauto].
    destruct (ResultCustom res) as [c|] eqn:Hcu; cbn.
    + destruct (Unmarshal c.(CustomOutput)) as [x|err] eqn:Hx; (eexists; split; [done|]; cbn).
      { eexists. split; [done|]. split; [done|]. by exists c, x. }
      intros res' v [= <-] (_ & c' & x' & ? & ? & _). congruence.
    + eexists. split; [done|]. intros res' v [= <-] (_ & c' & x' & ? & _). congruence.
  - intros res s1 He. apply (acknowledged (HSend route body opts) res _ _ s1 He); by cbn.
Qed.

(** C28: a test's dispatch is the runtime's, for an application whose handlers make no use of
    the WebSocket sender, which the runtime's context holds and a test's does not: beside that
    their contexts are alike.  Whatever a helper is asked, either it fails the
    test before anything is run, and the world is as it was; or it makes one event, of its own
    kind and for a handler served under the event's tag, and leaves the world as the runtime's
    dispatch of that event would.  And then the test goes on exactly where the result the
    runtime is given can be shown to it: a response whatever it says, and anything else only
    where the handler succeeded; a panic is let through. *)
Theorem a_test_is_a_dispatch {A} (h : helper A) n w :
  let '(t, s) := call_ a h (n, w) in
  (∃ message, (built a h (n, w)).1 = Fatal message ∧ t = Fatal message ∧ s.2 = w) ∨
  ∃ reg ev, (built a h (n, w)).1 = Went (reg, ev) ∧ is_for a (kind_of h) (reg, ev) ∧
    s.2 = (told a ev w).2 ∧ agrees h ev.(EventID) (told a ev w).1 t.
Proof using Hwf Hunsent.
  pose proof (built_is_for h (n, w)) as Hfor. destruct (before_built a h n w) as (t & n' & Hb).
  destruct (call_ a h (n, w)) as [t' s'] eqn:Hc. rewrite Hb in *. cbn [fst] in *.
  destruct t as [[reg ev]|message|v]; [|left|done].
  - right. exists reg, ev. destruct (Hfor) as (Hs & Ht & _).
    split_and!; [done|apply Hfor..|by eapply (dispatched_agrees h reg)|by eapply (dispatched_agrees h reg)].
  - exists message. destruct h; cbn [call_ built] in *; unfold Do, Consume, Schedule, Invoke, Send, then_ in Hc;
      rewrite Hb in Hc; by injection Hc as <- <-.
Qed.
End registered.
End driving.
Arguments test : clear implicits.

(** ** A harness for an application of two handlers *)

Definition order_answer (id : string) : Response := MkResponse 200 ∅ ("order " +:+ id).
Definition get_order (c : Ctx) (r : Request) (w : nat) : outcome (option Response) * nat :=
  (Returned (Some (order_answer (Params.Get r.(PathParams) "id"))) None, S w).
Definition take_orders (c : Ctx) (b : ConsumerBatch) (w : nat) : outcome (option BatchResult) * nat :=
  (Returned (Some (MkBatchResult ((λ r, MkRecordFailure r.(RecordMessageID) "refused") <$> b.(Records)))) None, S w).

Definition no_float (_ : string) (_ : Z) : result error () := Err (EString "not a number").
Definition no_values (_ : bytes) (v : gval (F := ())) : result error (gval (F := ())) := Ok v.
Definition orders_calls : list (call (W := nat) (F := ())) :=
  [CallRawHTTP "GET" "/orders/{id}" get_order "example.com/orders.Get" [] ("main.go", 10%Z);
   CallRawHTTP "get" "/health" get_order "example.com/orders.Health" [] ("main.go", 11%Z);
   CallConsume "orders" take_orders "example.com/orders.Get" [] ("main.go", 12%Z)].
Definition orders_app : App (W := nat) (F := ()) :=
  default (New [] None) (do_calls no_float no_values (New [] None) orders_calls).
Definition orders_harness : Harness (W := nat) (F := ()) (P := ()) := MkHarness orders_app None Z.of_nat 1000%Z ∅.

Lemma orders_app_wf : registry_wf orders_app.(registry).
Proof.
  destruct (do_calls_spec no_float no_values (New [] None) orders_calls NewRegistry_wf) as (a & Ha & Hwf & _).
  unfold orders_app. by rewrite Ha.
Qed.

#[local] Existing Instance noopTracer.

(** The second handler's tag is the runtime's for the method GET, and no helper reaches it. *)
Example a_lowercase_method_is_not_reached :
  "GET::/health" ∈ Tags orders_app.(registry) ∧
  ∀ method, method ∈ ["GET"; "get"] → ∃ message, (Do orders_harness method "/health" [] (0%N, 0)).1 = Fatal message.
Proof.
  split; [apply elem_of_sort_strings, elem_of_keys; by eexists|].
  intros method Hm. repeat (apply elem_of_cons in Hm as [->|Hm]; [by eexists; vm_compute|]). by apply elem_of_nil in Hm.
Qed.

(** Two handlers of different kinds that are called alike: the second is not to be found. *)
Example a_shared_name_hides_a_handler :
  (Consume orders_harness "Get" [] (0%N, 0)).1 =
    Fatal ("celeritytest: no consumer handler is registered as " +:+ go_quote "Get" +:+ "." +:+ newline +:+ "Registered: Get").
Proof. vm_compute. reflexivity. Qed.

(** Where a handler does ask for its sender, the runtime gives it one and a test none. *)
Lemma a_test_has_no_sender (ev : Event) :
  WebSocketSenderFrom (eventContext Background ev) = Some stream_sender ∧
  WebSocketSenderFrom (with_deadline ev) = None.
Proof. by split. Qed.

Lemma orders_unsent reg : served orders_harness reg → ∀ c ev w,
  Pipeline orders_app reg c ev w = Pipeline orders_app reg (without_sender c) ev w.
Proof.
  intros (i & _ & Hr). unfold handler_at in Hr. cbn [app] in Hr.
  destruct i as [|[|[|i]]]; vm_compute in Hr; [injection Hr as <-..|done]; intros c ev w; by destruct c, ev.
Qed.

Lemma a_test_is_a_dispatch_witness :
  ∃ r reg ev, Do orders_harness "get" "/orders/7" [Header "X-Trace" "1"] (0%N, 5) = (Went r, (2%N, 6)) ∧
    Status_ r = 200%Z ∧ Body_ r = "order 7" ∧ failure r = None ∧
    is_for orders_harness KindHTTP (reg, ev) ∧ (told orders_harness ev 5).2 = 6 ∧
    agrees (HDo "get" "/orders/7" [Header "X-Trace" "1"]) ev.(EventID) (told orders_harness ev 5).1 (Went r).
Proof.
  pose proof (a_test_is_a_dispatch orders_harness orders_app_wf orders_unsent (HDo "get" "/orders/7" [Header "X-Trace" "1"]) 0%N 5) as Hd.
  cbn [call_ built kind_of] in Hd.
  destruct (Do orders_harness "get" "/orders/7" [Header "X-Trace" "1"] (0%N, 5)) as [t s] eqn:E.
  vm_compute in E. injection E as <- <-. destruct Hd as [(message & _ & ? & _)|(reg & ev & _ & Hf & Hw & Ha)]; [done|].
  eexists _, reg, ev. split_and!; [reflexivity..|exact Hf|done|exact Ha].
Defined.
