(* ===== verification/Pushing.v ===== *)
(** * Pushing to connected clients on AWS

    Models [serverless/aws/sender.go]: the sender that [Lambda.LambdaSender] makes, one for
    each endpoint.  The API Gateway client is a parameter.  The messages of one send are
    pushed at the same time: the order their pushes take is a parameter of every definition,
    and what is proved is proved of every order. *)

From S2P Require Import Prelude GoStrings Json Errors Handler.
From stdpp Require Import options.

Lemma omap_id_fmap {A B} (f : A → option B) (l : list A) : omap id (f <$> l) = omap f l.
Proof. induction l as [|x l IH]; [done|]. cbn. rewrite IH. by destruct (f x). Qed.

Section pushing.
Context {W G C : Type}.
(** [awsconfig.LoadDefaultConfig], [apigatewaymanagementapi.NewFromConfig] for an endpoint,
    and [PostToConnection], of a connection and what is sent to it. *)
Context (LoadDefaultConfig : W → result error G * W) (NewFromConfig : G → string → C).
Context (PostToConnection : C → string → bytes → W → option error * W).

(** [sender]: [once] holds what building the client came to. *)
Record sender : Type := MkSender { endpoint : string; once : option (result error C) }.
Definition newSender (endpoint : string) : sender := MkSender endpoint None.

Definition load_failed (err : error) : error :=
  EWrap ("loading AWS configuration to push to a websocket connection: " +:+ error_text err) err.

(** [resolveClient]. *)
Definition resolveClient (s : sender) (w : W) : result error C * sender * W :=
  match s.(once) with
  | Some r => (r, s, w)
  | None =>
      let '(cfg, w) := LoadDefaultConfig w in
      let r := match cfg with Err err => Err (load_failed err) | Ok cfg => Ok (NewFromConfig cfg s.(endpoint)) end in
      (r, MkSender s.(endpoint) (Some r), w)
  end.

Definition post (client : C) (message : OutboundMessage) (w : W) : option error * W :=
  PostToConnection client message.(OutConnectionID) message.(OutMessage) w.

(** One goroutine of [Send]: a failure is written in the slot of its own message. *)
Definition push (client : C) (messages : list OutboundMessage) (i : nat)
    (st : list (option SendFailure) * W) : list (option SendFailure) * W :=
  match messages !! i with
  | None => st
  | Some message =>
      let '(err, w) := post client message st.2 in
      match err with
      | None => (st.1, w)
      | Some err => (<[i := Some (MkSendFailure (Z.of_nat i) message.(OutConnectionID) (error_text err))]> st.1, w)
      end
  end.

(** [sendError]: the failures of a [*SendError], or nil. *)
Definition sendError (failures : list (option SendFailure)) : option (list SendFailure) :=
  match omap id failures with [] => None | collected => Some collected end.

(** What a send answers: nil, an error of its own, or a [*SendError]. *)
Inductive sent : Type := Sent | NotSent (err : error) | SomeFailed (failures : list SendFailure).

(** [Send], where the pushes take the order given. *)
Definition Send (order : list nat) (s : sender) (messages : list OutboundMessage) (w : W) : sent * sender * W :=
  match messages with
  | [] => (Sent, s, w)
  | _ =>
      match resolveClient s w with
      | (Err err, s, w) => (NotSent err, s, w)
      | (Ok client, s, w) =>
          let '(failures, w) := foldl (λ st i, push client messages i st) ((λ _, None) <$> messages, w) order in
          (match sendError failures with None => Sent | Some failures => SomeFailed failures end, s, w)
      end
  end.

(** ** A send reports exactly what failed *)

(** What each push answered, in the order they were made, and the world after them. *)
Fixpoint answers (client : C) (messages : list OutboundMessage) (order : list nat) (w : W) :
    list (nat * option error) * W :=
  match order with
  | [] => ([], w)
  | i :: order =>
      match messages !! i with
      | None => answers client messages order w
      | Some message =>
          let '(err, w) := post client message w in
          let '(rest, w) := answers client messages order w in ((i, err) :: rest, w)
      end
  end.

Definition failure_of (messages : list OutboundMessage) (i : nat) (err : error) : option SendFailure :=
  (λ m, MkSendFailure (Z.of_nat i) m.(OutConnectionID) (error_text err)) <$> messages !! i.

(** What is to be reported of the [i]th message. *)
Definition reported (messages : list OutboundMessage) (answered : list (nat * option error)) (i : nat) :
    option SendFailure :=
  err ← mjoin ((list_to_map answered : gmap nat (option error)) !! i); failure_of messages i err.

Lemma pushes_spec client messages order slots w :
  NoDup order → (∀ i, i ∈ order → is_Some (messages !! i) ∧ slots !! i = Some None) →
  let '(slots', w') := foldl (λ st i, push client messages i st) (slots, w) order in
  let '(answered, w'') := answers client messages order w in
  w' = w'' ∧ answered.*1 = order ∧
  ∀ j, slots' !! j = if decide (j ∈ order) then Some (reported messages answered j) else slots !! j.
Proof using Type.
  revert slots w. induction order as [|i order IH]; intros slots w Hnd Hok; cbn [foldl answers].
  { split_and!; [done..|]. intros j. by rewrite decide_False by apply not_elem_of_nil. }
  apply NoDup_cons in Hnd as [Hi Hnd]. destruct (Hok i) as [[m Hm] Hsi]; [by left|].
  unfold push at 2. cbn [fst snd]. rewrite Hm.
  destruct (post client m w) as [err w1] eqn:Hp.
  set (slots1 := match err with None => slots | Some e => <[i := failure_of messages i e]> slots end).
  assert ((match err with None => (slots, w1)
     | Some e => (<[i := Some (MkSendFailure (Z.of_nat i) m.(OutConnectionID) (error_text e))]> slots, w1) end)
     = (slots1, w1)) as ->.
  { unfold slots1, failure_of. rewrite Hm. by destruct err. }
  assert (∀ j, j ≠ i → slots1 !! j = slots !! j) as Hother.
  { intros j Hj. unfold slots1. destruct err; [by apply list_lookup_insert_ne|done]. }
  specialize (IH slots1 w1 Hnd).
  destruct (foldl _ (slots1, w1) order) as [slots' w'], (answers client messages order w1) as [answered w''].
  destruct IH as (-> & Hnames & Hslots).
  { intros j Hj. destruct (Hok j) as [??]; [by right|]. rewrite Hother; [done|]. by intros ->. }
  split_and!; [done|by cbn; rewrite Hnames|]. intros j. rewrite Hslots. unfold reported.
  destruct (decide (j = i)) as [->|Hji].
  - rewrite decide_False, decide_True by (done || by left). cbn [list_to_map foldr uncurry].
    rewrite lookup_insert_eq. unfold slots1. destruct err as [e|]; [|done]. cbn.
    rewrite list_lookup_insert_eq; [done|]. by eapply lookup_lt_Some.
  - cbn [list_to_map foldr uncurry]. rewrite lookup_insert_ne by done. rewrite Hother by done.
    destruct (decide (j ∈ order)); [by rewrite decide_True by (by right)|].
    rewrite decide_False; [done|]. by intros [?|?]%elem_of_cons.
Qed.

(** A send is accounted for.  In whatever order the pushes of a send are made, every
    message is pushed once; nothing is reported where none failed, and otherwise exactly the
    messages whose push failed, in the order of the messages, under their indexes and
    connections, and with what each was answered. *)
Theorem sends_are_accounted order s messages w client s' w1 :
  messages ≠ [] → order ≡ₚ seq 0 (length messages) → resolveClient s w = (Ok client, s', w1) →
  let '(answered, w2) := answers client messages order w1 in
  answered.*1 = order ∧
  Send order s messages w =
    (match omap (reported messages answered) (seq 0 (length messages)) with
     | [] => Sent | failures => SomeFailed failures end, s', w2).
Proof using Type.
  intros Hne Horder Hr. unfold Send. destruct messages as [|m0 messages0]; [done|]. set (messages := m0 :: messages0) in *.
  rewrite Hr. pose proof (pushes_spec client messages order ((λ _, None) <$> messages) w1) as Hp.
  destruct (foldl _ _ order) as [slots w'], (answers client messages order w1) as [answered w2].
  destruct Hp as (-> & Hnames & Hslots).
  { rewrite Horder. apply NoDup_seq. }
  { intros i Hi. rewrite Horder, elem_of_seq in Hi. destruct (lookup_lt_is_Some_2 messages i) as [m Hm]; [lia|].
    split; [done|]. by rewrite list_lookup_fmap, Hm. }
  split; [done|]. unfold sendError.
  assert (slots = reported messages answered <$> seq 0 (length messages)) as ->; [|by rewrite omap_id_fmap; destruct (omap _ _)].
  apply list_eq. intros j. rewrite Hslots, !list_lookup_fmap.
  destruct (decide (j < length messages)) as [Hj|Hj].
  - rewrite decide_True, lookup_seq_lt by (done || by rewrite Horder, elem_of_seq; lia). done.
  - rewrite decide_False by (rewrite Horder, elem_of_seq; lia). rewrite lookup_seq_ge by lia. cbn.
    by rewrite lookup_ge_None_2 by lia.
Qed.

(** What building the client first came to is what every later send is answered with: a
    configuration that could not be loaded once is never loaded again. *)
Lemma a_client_is_built_once s w r s1 w1 w2 :
  resolveClient s w = (r, s1, w1) → resolveClient s1 w2 = (r, s1, w2).
Proof using Type.
  unfold resolveClient. destruct s.(once) as [r0|] eqn:Ho; [intros [= <- <- <-]; by rewrite Ho|].
  destruct (LoadDefaultConfig w) as [[cfg|err] w']; by intros [= <- <- <-].
Qed.
End pushing.

(** Three clients, of which the second has gone: whatever the order, it alone is reported. *)
Definition gone_post (_ : ()) (connection : string) (_ : bytes) (w : nat) : option error * nat :=
  (if bool_decide (connection = "b") then Some (EString "410 Gone") else None, S w).
Definition three_messages : list OutboundMessage :=
  (λ c, MkOutboundMessage c "hello" [] "" "" false) <$> ["a"; "b"; "c"].

Lemma sends_are_accounted_witness :
  Send (λ w : nat, (Ok (), w)) (λ _ _, ()) gone_post [2; 0; 1] (newSender "https://example") three_messages 0 =
    (SomeFailed [MkSendFailure 1 "b" "410 Gone"], MkSender "https://example" (Some (Ok ())), 3).
Proof.
  destruct (answers gone_post () three_messages [2; 0; 1] 0) as [answered w2] eqn:E.
  pose proof (sends_are_accounted (λ w : nat, (Ok (), w)) (λ _ _, ()) gone_post [2; 0; 1] (newSender "https://example")
    three_messages 0 () (MkSender "https://example" (Some (Ok ()))) 0 ltac:(done) ltac:(by apply (Permutation_app_comm [2] [0; 1])) eq_refl) as H.
  rewrite E in H. destruct H as [_ ->]. vm_compute in E. by injection E as <- <-.
Defined.
