(* ===== verification/Playground.v ===== *)
(** * Validation by struct tags

    Models [validation/playground/playground.go]: the adapter that puts a struct-tag validation
    library behind an application's validator ([Wrap.validateInput]).  The library is a
    parameter: a validator of it, the rules registered with it, and what it answers for a
    struct. *)

From S2P Require Import Prelude GoStrings Json Errors Handler Status Bind Wrap.
From stdpp Require Import options.

(** What of [validator.FieldError] is read: the rule, where it failed, the rule's parameter
    and the kind of the value. *)
Inductive value_kind : Type := OfString | OfSlice | OfArray | OfMap | OfOther.
Record FieldError : Type := MkFieldError {
  fe_Tag : string; fe_Namespace : string; fe_Param : string; fe_Kind : value_kind;
}.

(** [isMeasuredByLength], [minMessage] and [maxMessage]. *)
Definition isMeasuredByLength (fe : FieldError) : bool :=
  match fe.(fe_Kind) with OfString | OfSlice | OfArray | OfMap => true | OfOther => false end.
Definition minMessage (fe : FieldError) (param : string) : string :=
  if isMeasuredByLength fe then "must be at least " +:+ param +:+ " characters long" else "must be at least " +:+ param.
Definition maxMessage (fe : FieldError) (param : string) : string :=
  if isMeasuredByLength fe then "must be at most " +:+ param +:+ " characters long" else "must be at most " +:+ param.

(** [strings.Fields], of ASCII space. *)
Definition Fields (s : string) : list string :=
  List.filter (λ f, negb (bool_decide (f = ""))) (split_on " " (str_map (λ c, if space_byte c then " "%char else c) s)).

(** The package's [messageFor]. *)
Definition messageFor (fe : FieldError) : string :=
  let param := fe.(fe_Param) in
  let tag := fe.(fe_Tag) in
  if bool_decide (tag ∈ ["required"; "required_if"; "required_unless"; "required_with"]) then "is required"
  else if bool_decide (tag = "email") then "must be a valid email address"
  else if bool_decide (tag ∈ ["url"; "uri"]) then "must be a valid URL"
  else if bool_decide (tag ∈ ["uuid"; "uuid4"]) then "must be a valid UUID"
  else if bool_decide (tag = "gt") then "must be greater than " +:+ param
  else if bool_decide (tag ∈ ["gte"; "min"]) then minMessage fe param
  else if bool_decide (tag = "lt") then "must be less than " +:+ param
  else if bool_decide (tag ∈ ["lte"; "max"]) then maxMessage fe param
  else if bool_decide (tag = "len") then "must be exactly " +:+ param +:+ " characters long"
  else if bool_decide (tag = "eq") then "must be " +:+ param
  else if bool_decide (tag = "ne") then "must not be " +:+ param
  else if bool_decide (tag = "oneof") then "must be one of: " +:+ join (Fields param) ", "
  else if bool_decide (tag = "alpha") then "must contain only letters"
  else if bool_decide (tag = "alphanum") then "must contain only letters and numbers"
  else if bool_decide (tag = "numeric") then "must be numeric"
  else if negb (bool_decide (param = "")) then "failed the " +:+ tag +:+ " rule (" +:+ param +:+ ")"
  else "failed the " +:+ tag +:+ " rule".

(** [pathOf]. *)
Definition pathOf (fe : FieldError) : list string :=
  let namespace := match cut "." fe.(fe_Namespace) with Some (_, rest) => rest | None => fe.(fe_Namespace) end in
  if bool_decide (namespace = "") then [] else split_on "." namespace.

(** The function [New] has the library name a field by. *)
Definition fieldName (f : field) : string :=
  let name := default "" (head (split_on "," (default "" (f.(FieldTags) !! "json")))) in
  if bool_decide (name = "-") then "" else if bool_decide (name = "") then f.(FieldName) else name.

Section playground.
(** The library: [*validator.Validate], what a rule is, and its methods.  What it answers a
    struct with may be an [InvalidValidationError], and may carry [ValidationErrors]. *)
Context {L Func : Type} {F : Type} (newLibrary : L).
Context (RegisterValidation : string → Func → L → L) (RegisterTagNameFunc : (field → string) → L → L).
Context (Struct_ : L → gval (F := F) → option error).
Context (as_invalid : error → bool) (as_fields : error → option (list FieldError)).

Record Validator : Type := MkValidator {
  validate : option L;
  messages : gmap string (FieldError → string);
  pending : list (L → L);
}.

Definition Option_ : Type := Validator → Validator.

Definition withMessage (a : Validator) (tag : string) (message : FieldError → string) : Validator :=
  MkValidator a.(validate) (<[tag := message]> a.(messages)) a.(pending).
Definition WithValidate (v : L) : Option_ := λ a, MkValidator (Some v) a.(messages) a.(pending).
Definition WithRule (tag : string) (fn : Func) (message : string) : Option_ := λ a,
  withMessage (MkValidator a.(validate) a.(messages) (a.(pending) ++ [RegisterValidation tag fn])) tag (λ _, message).
Definition WithMessage (tag message : string) : Option_ := λ a, withMessage a tag (λ _, message).
Definition WithMessageFunc (tag : string) (message : FieldError → string) : Option_ := λ a, withMessage a tag message.

(** [New]; the validator it makes always has a library's. *)
Definition New_ (opts : list Option_) : Validator :=
  let a := foldl (λ a opt, opt a) (MkValidator None ∅ []) opts in
  let v := foldl (λ v register, register v) (default newLibrary a.(validate)) a.(pending) in
  MkValidator (Some (RegisterTagNameFunc fieldName v)) a.(messages) a.(pending).

(** [Validator.messageFor] and [issuesFrom]. *)
Definition message_for (a : Validator) (fe : FieldError) : string :=
  match a.(messages) !! fe.(fe_Tag) with Some message => message fe | None => messageFor fe end.
Definition issuesFrom (a : Validator) (fieldErrors : list FieldError) : list ValidationIssue :=
  (λ fe, MkIssue fe.(fe_Tag) (Some (pathOf fe)) (message_for a fe)) <$> fieldErrors.

(** [reflect.Indirect(reflect.ValueOf(input)).Kind() == reflect.Struct]. *)
Definition is_struct (input : gval (F := F)) : bool :=
  match input with Struct _ | Pointer (Struct _) => true | _ => false end.

(** [Validate], of an input that is not a nil interface. *)
Definition Validate (a : Validator) (input : gval (F := F)) : option error :=
  if negb (is_struct input) then None
  else
    v ← a.(validate);
    err ← Struct_ v input;
    if as_invalid err then Some err
    else match as_fields err with
         | None => Some err
         | Some fieldErrors =>
             Some (EValidation "the request is not valid" (Some (issuesFrom a fieldErrors)) (Some err))
         end.

(** ** What a caller is told *)

(** The rules an option says what to tell of. *)
Inductive option_ : Type :=
  | OValidate (v : L) | ORule (tag : string) (fn : Func) (message : string)
  | OMessage (tag message : string) | OMessageFunc (tag : string) (message : FieldError → string).
Definition apply_ (o : option_) : Option_ :=
  match o with
  | OValidate v => WithValidate v | ORule tag fn message => WithRule tag fn message
  | OMessage tag message => WithMessage tag message | OMessageFunc tag message => WithMessageFunc tag message
  end.
Definition said (o : option_) (tag : string) : option (FieldError → string) :=
  match o with
  | OValidate _ => None
  | ORule t _ message | OMessage t message => if decide (t = tag) then Some (λ _, message) else None
  | OMessageFunc t message => if decide (t = tag) then Some message else None
  end.
Definition last_said (opts : list option_) (tag : string) : option (FieldError → string) :=
  foldl (λ m o, match said o tag with Some m' => Some m' | None => m end) None opts.

Lemma messages_last opts a tag :
  (foldl (λ a opt, opt a) a (apply_ <$> opts)).(messages) !! tag =
  foldl (λ m o, match said o tag with Some m' => Some m' | None => m end) (a.(messages) !! tag) opts.
Proof using Type.
  revert a. induction opts as [|o opts IH]; intros a; [done|]. cbn [fmap list_fmap foldl]. rewrite IH. f_equal.
  destruct o; cbn; [done|..]; by rewrite lookup_insert; destruct (decide (_ = _)).
Qed.

(** The path is the library's, less the name of the Go struct it starts with. *)
Lemma pathOf_joined fe type_ rest :
  no_byte "." type_ = true → fe.(fe_Namespace) = type_ +:+ "." +:+ rest → rest ≠ "" →
  join (pathOf fe) "." = rest.
Proof using Type.
  intros Hn Hns Hr. unfold pathOf. rewrite Hns, cut_app by done. rewrite bool_decide_eq_false_2 by done.
  apply join_split.
Qed.

(** Every rule an input breaks is one issue.  Where the library answers a struct with the
    rules its fields broke, the handler's check fails with an issue for each, in the library's
    order: the rule's name, the path without the Go struct's name, and the message of the last
    option that gave one for the rule, or the adapter's own.  Where the library is satisfied,
    or the input is no struct, it passes. *)
Theorem broken_rules_are_issues opts own input :
  let a := New_ (apply_ <$> opts) in
  let checked := run_check (validationFor (Some (Validate a)) false None own) input in
  (∀ f, own = Some f → f input = None) →
  (∀ err fieldErrors v, is_struct input = true → a.(validate) = Some v → Struct_ v input = Some err →
     as_invalid err = false → as_fields err = Some fieldErrors →
     checked = Some (EValidation "the request is not valid"
       (Some ((λ fe, MkIssue fe.(fe_Tag) (Some (pathOf fe))
                ((default messageFor (last_said opts fe.(fe_Tag))) fe)) <$> fieldErrors)) (Some err))) ∧
  ((is_struct input = false ∨ ∀ v, a.(validate) = Some v → Struct_ v input = None) → checked = None).
Proof using Type.
  intros a checked Hown. assert (checked = asValidationError <$> Validate a input) as ->.
  { unfold checked. rewrite validationFor_failed. unfold failed_check, run_check. destruct own as [f|]; [|done]. cbn.
    by rewrite (Hown f). }
  split.
  - intros err fieldErrors v Hst Hv Hs Hi Hf. unfold Validate. rewrite Hst. cbn [negb]. rewrite Hv.
    cbn [mbind option_bind]. rewrite Hs. cbn [mbind option_bind]. rewrite Hi, Hf. cbn. do 4 f_equal.
    unfold issuesFrom, message_for. apply list_fmap_ext. intros _ fe _. f_equal.
    unfold a, New_, last_said. cbn [messages]. rewrite messages_last. cbn. rewrite lookup_empty.
    by destruct (foldl _ None opts).
  - unfold Validate. intros [Hs|Hs]; [by rewrite Hs|]. destruct (is_struct input); [|done]. cbn [negb].
    destruct (validate a) as [v|]; [|done]. cbn. by rewrite (Hs v).
Qed.
End playground.

(** ** A library that requires text *)

Definition blame (fe : FieldError) : error := EHandler fe.(fe_Namespace) fe.(fe_Tag) fe.(fe_Param).
Definition blamed (e : error) : option FieldError :=
  match e with EHandler namespace tag param => Some (MkFieldError tag namespace param OfString) | _ => None end.
Definition text_required (name : field → string) (input : gval (F := ())) : option error :=
  match input with
  | Struct fields =>
      match omap (λ '(f, v), match v with
                  | VString "" => Some (blame (MkFieldError "required" ("CreateOrder." +:+ name f) "" OfString))
                  | _ => None end) fields with
      | [] => None
      | errs => Some (EJoin errs)
      end
  | _ => None
  end.
Definition text_fields (e : error) : option (list FieldError) :=
  match e with EJoin errs => Some (omap blamed errs) | _ => None end.

Definition customer_field : field := MkField "CustomerID" {[ "json" := "customerId,omitempty" ]} KString true.
Definition required_options : list (option_ (L := field → string) (Func := ())) :=
  [OMessage "required" "is needed"; ORule "required" () "must be given"].

Lemma broken_rules_are_issues_witness :
  run_check (validationFor (Some (Validate text_required (λ _, false) text_fields
      (New_ FieldName (λ f _, f) (apply_ (λ _ _ v, v) <$> required_options)))) false None None)
    (Struct [(customer_field, VString "")]) =
  Some (EValidation "the request is not valid" (Some [MkIssue "required" (Some ["customerId"]) "must be given"])
    (Some (EJoin [EHandler "CreateOrder.customerId" "required" ""]))).
Proof.
  rewrite (proj1 (broken_rules_are_issues FieldName (λ _ _ v, v) (λ f _, f) text_required (λ _, false) text_fields
    required_options None (Struct [(customer_field, VString "")]) ltac:(done))
    (EJoin [EHandler "CreateOrder.customerId" "required" ""])
    [MkFieldError "required" "CreateOrder.customerId" "" OfString] fieldName eq_refl eq_refl
    ltac:(vm_compute; reflexivity) eq_refl eq_refl).
  reflexivity.
Defined.

(** What a rule of length says of what is not text, and of a number. *)
Example measured_in_characters :
  messageFor (MkFieldError "min" "Order.items" "1" OfSlice) = "must be at least 1 characters long" ∧
  messageFor (MkFieldError "len" "Order.total" "5" OfOther) = "must be exactly 5 characters long".
Proof. done. Qed.

(** A name with a point in it is two segments of a path, and the name [-] is none. *)
Example names_a_caller_sent :
  pathOf (MkFieldError "required" "Order.ship.to" "" OfString) = ["ship"; "to"] ∧
  fieldName (MkField "Dash" {[ "json" := "-," ]} KString true) = "".
Proof. done. Qed.
