(* ===== verification/Logging.v ===== *)
(** * Logging

    Models [telemetry/logging.go] and [telemetry/flush.go]: the handler a development session's
    records are written by, the choice between it and slog's JSON handler, and the flusher.
    What slog's JSON handler makes of the same record is modelled beside it, since the one is
    to carry the keys of the other.  An instant is given as the text of its time. *)

From S2P Require Import Prelude GoStrings Json Errors Layer.
From stdpp Require Import options.

(** ** Attributes *)

(** [slog.Value]: a value, a group, or a value that resolves to another when it is asked to,
    and its text when it is not.  A value has the text [Value.String] gives it and the text
    slog's JSON handler encodes it as, which are two: a duration is ["3s"] and [3000000000]. *)
Inductive lvalue : Type :=
  | Leaf (text encoded : string)
  | Group (attrs : list (string * lvalue))
  | Valuer (text : string) (resolved : lvalue).

Abbreviation lattr := (string * lvalue)%type.
(** An attribute of a line: its full name, and its value's text. *)
Abbreviation row := (string * string)%type.

Lemma lvalue_ind' (P : lvalue → Prop) :
  (∀ text encoded, P (Leaf text encoded)) → (∀ attrs, Forall (λ a, P a.2) attrs → P (Group attrs)) →
  (∀ text v, P v → P (Valuer text v)) → ∀ v, P v.
Proof.
  intros HT HG HV. fix IH 1. intros [text encoded|attrs|text v]; [apply HT|apply HG|apply HV, IH].
  induction attrs as [|[k v] attrs IHa]; constructor; [apply IH|exact IHa].
Qed.

(** [qualify]. *)
Definition qualify (groups : list string) (key : string) : string :=
  match groups with [] => key | _ => join groups "." +:+ "." +:+ key end.

(** [flattened]: one row for each attribute that is no group. *)
Fixpoint flat_value (groups : list string) (key : string) (v : lvalue) : list row :=
  match v with
  | Leaf text _ | Valuer text _ => [(qualify groups key, text)]
  | Group attrs => flat_map (λ '(k, v), flat_value (groups ++ [key]) k v) attrs
  end.
Definition flattened (groups : list string) (attrs : list lattr) : list row :=
  flat_map (λ '(k, v), flat_value groups k v) attrs.

(** ** Levels and formats *)

Definition LogLevelEnvVar : string := "CELERITY_LOG_LEVEL".
Definition LogFormatEnvVar : string := "CELERITY_LOG_FORMAT".
Definition FormatJSON : string := "json".
Definition FormatHuman : string := "human".
Definition FormatAuto : string := "auto".

(** [slog.Level]. *)
Definition LevelDebug : Z := -4.
Definition LevelInfo : Z := 0.
Definition LevelWarn : Z := 4.
Definition LevelError : Z := 8.

Definition levelFromEnv (env : string → string) : Z :=
  let level := to_lower (env LogLevelEnvVar) in
  if bool_decide (level = "debug") then LevelDebug
  else if bool_decide (level ∈ ["warn"; "warning"]) then LevelWarn
  else if bool_decide (level = "error") then LevelError
  else LevelInfo.

Definition humanReadable (env : string → string) (platform : string) : bool :=
  let format := to_lower (env LogFormatEnvVar) in
  if bool_decide (format = FormatHuman) then true
  else if bool_decide (format = FormatJSON) then false
  else bool_decide (platform = "" ∨ platform = "local").

Definition levelLabel (level : Z) : string :=
  if (level <? LevelInfo)%Z then "DEBUG" else if (level <? LevelWarn)%Z then "INFO"
  else if (level <? LevelError)%Z then "WARN" else "ERROR".

(** [formatValue]. *)
Definition needs_quoting (c : ascii) : bool :=
  bool_decide (c ∈ [" "%char; ascii_of_nat 9; dquote; "="%char]).
Fixpoint contains_any (p : ascii → bool) (s : string) : bool :=
  match s with "" => false | String c s => p c || contains_any p s end.
Definition formatValue (text : string) : string :=
  if bool_decide (text = "") || contains_any needs_quoting text then go_quote text else text.

(** [fmt]'s [%-5s]. *)
Definition pad5 (s : string) : string := s +:+ String.substring 0 (5 - len s) "     ".

(** ** The handler *)

(** [humanHandler]: the level it is enabled from, and what was bound. *)
Record humanHandler : Type := MkHuman { level : Z; groups : list string; attrs : list row }.
Record log_record : Type := MkLogRecord { Time : string; Level : Z; Message : string; Attrs : list lattr }.

(** [NewHandler]: the human handler, or slog's JSON one at the same level. *)
Definition NewHandler (env : string → string) (platform : string) : humanHandler + Z :=
  if humanReadable env platform then inl (MkHuman (levelFromEnv env) [] []) else inr (levelFromEnv env).

Definition Enabled (h : humanHandler) (l : Z) : bool := (h.(level) <=? l)%Z.

Definition WithAttrs (h : humanHandler) (a : list lattr) : humanHandler :=
  MkHuman h.(level) h.(groups) (h.(attrs) ++ flattened h.(groups) a).
Definition WithGroup (h : humanHandler) (name : string) : humanHandler :=
  if bool_decide (name = "") then h else MkHuman h.(level) (h.(groups) ++ [name]) h.(attrs).

Section writing.
(** [sort.Slice] by key: rows of one key may be left in any order. *)
Context (sort_rows : list row → list row).

Definition is_trace (r : row) : bool := bool_decide (r.1 = TraceIDKey ∨ r.1 = SpanIDKey).

(** [ordered]: the trace first, then the rest by key. *)
Definition ordered (rows : list row) : list row :=
  List.filter (λ r, bool_decide (r.1 = TraceIDKey)) rows ++
  List.filter (λ r, bool_decide (r.1 = SpanIDKey)) rows ++
  sort_rows (List.filter (λ r, negb (is_trace r)) rows).

Definition header_line (r : log_record) : string :=
  r.(Time) +:+ " " +:+ pad5 (levelLabel r.(Level)) +:+ " " +:+ r.(Message) +:+ newline.
Definition row_line (r : row) : string := "    " +:+ r.1 +:+ ": " +:+ formatValue r.2 +:+ newline.

(** The rows of a record, and [Handle]: the text it writes. *)
Definition rows_of (h : humanHandler) (r : log_record) : list row :=
  ordered (h.(attrs) ++ flattened h.(groups) r.(Attrs)).
Definition Handle (h : humanHandler) (r : log_record) : string :=
  header_line r +:+ join (row_line <$> rows_of h r) "".

(** ** The JSON of the same record *)

(** What a handler is derived by. *)
Inductive derivation : Type := DAttrs (a : list lattr) | DGroup (name : string).
Definition derive (h : humanHandler) (d : derivation) : humanHandler :=
  match d with DAttrs a => WithAttrs h a | DGroup name => WithGroup h name end.

(** The object slog's JSON handler writes: everything after a group is opened is inside it. *)
Fixpoint json_doc (ds : list derivation) (r : list lattr) : list lattr :=
  match ds with
  | [] => r
  | DAttrs a :: ds => a ++ json_doc ds r
  | DGroup name :: ds => if bool_decide (name = "") then json_doc ds r else [(name, Group (json_doc ds r))]
  end.

(** The keys of an object and the text encoded under each: a value is resolved, and a group
    without a name is part of what it is in. *)
Fixpoint json_leaves (key : string) (v : lvalue) : list (list string * string) :=
  match v with
  | Leaf _ encoded => [([key], encoded)]
  | Valuer _ v => json_leaves key v
  | Group attrs =>
      let inside := flat_map (λ '(k, v), json_leaves k v) attrs in
      if bool_decide (key = "") then inside else (λ '(path, text), (key :: path, text)) <$> inside
  end.
Definition leaves (attrs : list lattr) : list (list string * string) := flat_map (λ '(k, v), json_leaves k v) attrs.

(** The values themselves, each where it is. *)
Record placed : Type := MkPlaced { path : list string; text_of : string; encoding_of : string }.
Definition inside_of (key : string) (p : placed) : placed := MkPlaced (key :: p.(path)) p.(text_of) p.(encoding_of).
Fixpoint placed_in (key : string) (v : lvalue) : list placed :=
  match v with
  | Leaf text encoded => [MkPlaced [key] text encoded]
  | Valuer _ v => placed_in key v
  | Group attrs =>
      let inside := flat_map (λ '(k, v), placed_in k v) attrs in
      if bool_decide (key = "") then inside else inside_of key <$> inside
  end.
Definition values (attrs : list lattr) : list placed := flat_map (λ '(k, v), placed_in k v) attrs.

(** What the JSON has of a value, and what a row has. *)
Definition encoded (p : placed) : list string * string := (p.(path), p.(encoding_of)).
Definition named (groups : list string) (p : placed) : row := (join (groups ++ p.(path)) ".", p.(text_of)).
Definition dotted (p : placed) : row := (join p.(path) ".", p.(text_of)).

(** A value without one that resolves and without a group that has no name; and an attribute
    with no name is nothing to slog where its value is nothing too, and is left out. *)
Fixpoint plain (key : string) (v : lvalue) : Prop :=
  match v with
  | Leaf _ _ => key ≠ ""
  | Valuer _ _ => False
  | Group attrs => key ≠ "" ∧ (fix all attrs := match attrs with [] => True | (k, v) :: attrs => plain k v ∧ all attrs end) attrs
  end.
Definition plain_attrs (attrs : list lattr) : Prop := Forall (λ a, plain a.1 a.2) attrs.
Definition plain_derivation (d : derivation) : Prop := match d with DAttrs a => plain_attrs a | DGroup _ => True end.

Lemma json_leaves_encoded v key : json_leaves key v = encoded <$> placed_in key v.
Proof using Type.
  clear sort_rows. revert key. induction v as [text enc|attrs IH|text v IH] using lvalue_ind'; intros key; [done| |apply IH].
  cbn [json_leaves placed_in].
  assert (flat_map (λ '(k, v), json_leaves k v) attrs = encoded <$> flat_map (λ '(k, v), placed_in k v) attrs) as ->.
  { induction IH as [|[k v] attrs Hv _ IHa]; [done|]. cbn [flat_map]. simpl in Hv. by rewrite fmap_app, IHa, (Hv k). }
  case_bool_decide; [done|]. rewrite <- !list_fmap_compose. by apply list_fmap_ext.
Qed.

Lemma leaves_encoded a : leaves a = encoded <$> values a.
Proof using Type.
  clear sort_rows. unfold leaves, values. induction a as [|[k v] a IH]; [done|]. cbn [flat_map].
  by rewrite fmap_app, IH, json_leaves_encoded.
Qed.

Lemma qualify_join groups key : qualify groups key = join (groups ++ [key]) ".".
Proof using Type.
  unfold qualify. destruct groups as [|g gs]; [done|]. revert g. induction gs as [|g' gs IH]; intros g; [done|].
  change (join ((g :: g' :: gs) ++ [key]) ".") with (g +:+ "." +:+ join ((g' :: gs) ++ [key]) ".").
  rewrite <- IH. change (join (g :: g' :: gs) ".") with (g +:+ "." +:+ join (g' :: gs) ".").
  by rewrite !append_assoc.
Qed.

Lemma named_inside groups key p : named groups (inside_of key p) = named (groups ++ [key]) p.
Proof using Type. unfold named. cbn. by rewrite <- (assoc_L (++)). Qed.

Lemma flat_value_placed v groups key : plain key v → flat_value groups key v = named groups <$> placed_in key v.
Proof using Type.
  revert groups key. induction v as [text enc|attrs IH|text v IH] using lvalue_ind'; intros groups key; [|intros [Hkey Hall]|done].
  { intros _. cbn. by rewrite qualify_join. }
  cbn [flat_value placed_in]. rewrite bool_decide_eq_false_2 by done. rewrite <- list_fmap_compose.
  revert Hall. induction IH as [|[k v] attrs Hv _ IHa]; [done|]. intros [Hp Hall]. cbn [flat_map].
  rewrite fmap_app, (Hv _ _ Hp), (IHa Hall). f_equal. apply list_fmap_ext. intros ? ? ?. cbn.
  by rewrite named_inside.
Qed.

Lemma flattened_values groups a : plain_attrs a → flattened groups a = named groups <$> values a.
Proof using Type.
  induction 1 as [|[k v] a Hv _ IH]; [done|]. unfold flattened, values in *. cbn [flat_map].
  by rewrite fmap_app, IH, flat_value_placed.
Qed.

(** What a derived handler has bound, and what it adds of a record, is the JSON's. *)
Lemma derived_values ds h r :
  Forall plain_derivation ds → plain_attrs r →
  let h' := foldl derive h ds in
  h'.(attrs) ++ flattened h'.(groups) r = h.(attrs) ++ (named h.(groups) <$> values (json_doc ds r)).
Proof using Type.
  intros Hds Hr. revert h. induction Hds as [|d ds Hd _ IH]; intros h; cbn [foldl json_doc].
  { by rewrite flattened_values. }
  cbv zeta in *. rewrite IH. destruct d as [a|name]; cbn [derive].
  - unfold values. rewrite flat_map_app, fmap_app. cbn. rewrite flattened_values by done. by rewrite <- (assoc_L (++)).
  - unfold WithGroup. case_bool_decide; [done|]. cbn [attrs groups]. f_equal. unfold values at 2. cbn [flat_map placed_in].
    rewrite bool_decide_eq_false_2, app_nil_r, <- list_fmap_compose by done. fold (values (json_doc ds r)).
    apply list_fmap_ext. intros ? ? ?. cbn. by rewrite named_inside.
Qed.

Lemma filter_split {A} (p : A → bool) (l : list A) :
  List.filter p l ++ List.filter (λ x, negb (p x)) l ≡ₚ l.
Proof using Type.
  clear sort_rows. induction l as [|x l IH]; [done|]. cbn. destruct (p x); cbn; [by rewrite IH|].
  by rewrite <- Permutation_middle, IH.
Qed.

Section sorted.
Context (sort_perm : ∀ rows, sort_rows rows ≡ₚ rows).
Context (sort_sorted : ∀ rows, StronglySorted (λ a b : row, String.le a.1 b.1) (sort_rows rows)).

Lemma ordered_perm rows : ordered rows ≡ₚ rows.
Proof using sort_perm.
  unfold ordered. rewrite sort_perm.
  rewrite <- (filter_split (λ r, bool_decide (r.1 = TraceIDKey)) rows) at 4. f_equiv.
  rewrite <- (filter_split (λ r, bool_decide (r.1 = SpanIDKey)) (List.filter (λ r, negb (bool_decide (r.1 = TraceIDKey))) rows)). apply reflexive_eq. f_equal.
  - induction rows as [|r rows IH]; [done|]. cbn. destruct (bool_decide_reflect (r.1 = TraceIDKey)) as [Ht|]; cbn.
    + rewrite bool_decide_eq_false_2, IH; [done|]. by rewrite Ht.
    + by rewrite IH.
  - induction rows as [|r rows IH]; [done|]. cbn. unfold is_trace at 1.
    destruct (bool_decide_reflect (r.1 = TraceIDKey)), (bool_decide_reflect (r.1 = SpanIDKey));
      rewrite ?(bool_decide_eq_true_2 (_ ∨ _)), ?(bool_decide_eq_false_2 (_ ∨ _)) by tauto; cbn; rewrite ?bool_decide_eq_true_2, ?bool_decide_eq_false_2 by done; cbn; by rewrite IH.
Qed.

(** C29: a record carries the keys its JSON does.  However a handler was derived, by attributes
    bound and groups opened in any order, the object slog's JSON handler writes of a record
    (time, level and message apart) holds each of its values, as JSON encodes it, at the path
    of the groups the value is in, and the rows the handler writes are those values, none
    missing and none added: each under that path, dotted, and as [Value.String] prints it.
    The trace's id is first, then the span's, then the rest by key, as the comment inside
    [ordered] has it.  This is for attributes with names whose values are not ones that resolve
    to others, and for groups with names: what the JSON resolves or inlines, the rows do
    neither with ([not_as_its_json]); and for a handler that one goroutine writes by at a time
    ([a_row_is_named_by_anothers_group]). *)
Theorem a_record_reads_as_its_json level ds r :
  Forall plain_derivation ds → plain_attrs r.(Attrs) →
  let rows := rows_of (foldl derive (MkHuman level [] []) ds) r in
  let doc := json_doc ds r.(Attrs) in
  leaves doc = encoded <$> values doc ∧ rows ≡ₚ (dotted <$> values doc) ∧
  ∃ traces spans rest, rows = traces ++ spans ++ rest ∧
    Forall (λ a : row, a.1 = TraceIDKey) traces ∧ Forall (λ a : row, a.1 = SpanIDKey) spans ∧
    Forall (λ a : row, a.1 ≠ TraceIDKey ∧ a.1 ≠ SpanIDKey) rest ∧ StronglySorted (λ a b : row, String.le a.1 b.1) rest.
Proof using sort_perm sort_sorted.
  intros Hds Hr rows doc. split_and!.
  - apply leaves_encoded.
  - unfold rows, rows_of. rewrite ordered_perm, derived_values by done. done.
  - unfold rows, rows_of, ordered. eexists _, _, _. split; [reflexivity|]. split_and!.
    + apply Forall_forall. intros a [_ Ha]%list_elem_of_In%filter_In. by apply bool_decide_eq_true in Ha.
    + apply Forall_forall. intros a [_ Ha]%list_elem_of_In%filter_In. by apply bool_decide_eq_true in Ha.
    + rewrite sort_perm. apply Forall_forall. intros a [_ Ha]%list_elem_of_In%filter_In.
      apply negb_true_iff, bool_decide_eq_false in Ha. tauto.
    + apply sort_sorted.
Qed.
End sorted.
End writing.

(** ** Flushing *)

Section flush.
Context {W : Type}.
(** [SetFlusher] and [Flush]: what is installed, which may be nothing. *)
Abbreviation Flusher := (W → option error * W).
Definition SetFlusher (_ : option Flusher) (f : option Flusher) : option Flusher := f.
Definition Flush (installed : option Flusher) (w : W) : option error * W :=
  match installed with None => (None, w) | Some f => f w end.
End flush.

(** ** Lines *)

(** A record of names, values and a message without a line break is as many lines as it has
    rows, and one. *)
Lemma one_line_each sort_rows h r :
  no_byte (ascii_of_nat 10) (r.(Time) +:+ r.(Message)) = true →
  Forall (λ a : row, no_byte (ascii_of_nat 10) (a.1 +:+ formatValue a.2) = true) (rows_of sort_rows h r) →
  split_on (ascii_of_nat 10) (Handle sort_rows h r) =
    (r.(Time) +:+ " " +:+ pad5 (levelLabel r.(Level)) +:+ " " +:+ r.(Message)) ::
    ((λ a : row, "    " +:+ a.1 +:+ ": " +:+ formatValue a.2) <$> rows_of sort_rows h r) ++ [""].
Proof.
  rewrite no_byte_append, andb_true_iff. intros [Ht Hm] Hrows. unfold Handle, header_line.
  assert (no_byte (ascii_of_nat 10) (pad5 (levelLabel r.(Level))) = true) as Hl.
  { unfold levelLabel. by repeat case_match. }
  assert ((r.(Time) +:+ " " +:+ pad5 (levelLabel r.(Level)) +:+ " " +:+ r.(Message) +:+ newline) +:+ join (row_line <$> rows_of sort_rows h r) "" =
    (r.(Time) +:+ " " +:+ pad5 (levelLabel r.(Level)) +:+ " " +:+ r.(Message)) +:+
    String (ascii_of_nat 10) (join (row_line <$> rows_of sort_rows h r) "")) as -> by by rewrite !append_assoc.
  rewrite split_on_app by (rewrite !no_byte_append, Ht, Hl, Hm; done). f_equal.
  induction Hrows as [|a rows Ha _ IH]; [done|]. rewrite !fmap_cons. rewrite no_byte_append, andb_true_iff in Ha.
  destruct Ha as [Ha1 Ha2].
  assert (join (row_line a :: (row_line <$> rows)) "" =
    ("    " +:+ a.1 +:+ ": " +:+ formatValue a.2) +:+ String (ascii_of_nat 10) (join (row_line <$> rows) "")) as ->.
  { unfold row_line at 1. destruct rows; cbn [fmap list_fmap]; [|rewrite join_cons]; rewrite !append_assoc; done. }
  rewrite split_on_app by (rewrite !no_byte_append, Ha1, Ha2; done). cbn [app]. by rewrite IH.
Qed.

(** A value with a line break and no space is written as it is: what follows it reads as
    another row. *)
Example a_value_can_forge_a_row :
  formatValue ("ok" +:+ newline +:+ "user:root") = "ok" +:+ newline +:+ "user:root".
Proof. reflexivity. Qed.

(** What the JSON resolves and what it inlines, the rows do neither with. *)
Example not_as_its_json :
  flattened [] [("user", Valuer "{secret}" (Leaf "REDACTED" (go_quote "REDACTED")))] = [("user", "{secret}")] ∧
  leaves [("user", Valuer "{secret}" (Leaf "REDACTED" (go_quote "REDACTED")))] = [(["user"], go_quote "REDACTED")] ∧
  flattened [] [("", Group [("id", Leaf "7" "7")])] = [(".id", "7")] ∧
  leaves [("", Group [("id", Leaf "7" "7")])] = [(["id"], "7")].
Proof. done. Qed.

(** ** Two goroutines and one backing array

    [append(groups, attr.Key)] writes in the array [h.groups] is a slice of where that has room,
    and a handler is used by many goroutines at once. *)

(** Going into a group, and naming a key in it: the [n] groups the handler has are the first of
    the array. *)
Definition enter (n : nat) (key : string) (backing : list string) : list string := <[n := key]> backing.
Definition name_inside (n : nat) (key : string) (backing : list string) : string := qualify (take (S n) backing) key.

(** Between one goroutine's going into its group and its naming a key there, another goes into
    its own. *)
Example a_row_is_named_by_anothers_group :
  let backing := enter 3 "response" (enter 3 "request" ["app"; "http"; "v1"; ""]) in
  name_inside 3 "id" backing = "app.http.v1.response.id".
Proof. reflexivity. Qed.

(** ** A record of a dispatch *)

Definition by_key : list row → list row :=
  merge_sort (λ a b : row, String.le a.1 b.1).
#[local] Instance by_key_total : Total (λ a b : row, String.le a.1 b.1).
Proof. intros [a ?] [b ?]. apply (total String.le). Qed.
#[local] Instance by_key_trans : Transitive (λ a b : row, String.le a.1 b.1).
Proof. intros [a ?] [b ?] [c ?]. apply (transitivity (R := String.le)). Qed.

Definition order_log : log_record :=
  MkLogRecord "10:00:00.000" LevelWarn "slow" [("took", Leaf "3s" "3000000000"); (SpanIDKey, Leaf "s1" (go_quote "s1"))].
Definition order_bound : list derivation := [DAttrs [(TraceIDKey, Leaf "t1" (go_quote "t1"))]; DGroup "order"; DAttrs [("at", Group [("id", Leaf "7" "7")])]].

Lemma a_record_reads_as_its_json_witness :
  leaves (json_doc order_bound order_log.(Attrs)) =
    [(["trace_id"], go_quote "t1"); (["order"; "at"; "id"], "7"); (["order"; "took"], "3000000000"); (["order"; "span_id"], go_quote "s1")] ∧
  rows_of by_key (foldl derive (MkHuman 0 [] []) order_bound) order_log ≡ₚ
    [("trace_id", "t1"); ("order.at.id", "7"); ("order.took", "3s"); ("order.span_id", "s1")].
Proof.
  destruct (a_record_reads_as_its_json by_key (λ rows, merge_sort_Permutation _ rows)
    (λ rows, StronglySorted_merge_sort _ rows) 0 order_bound order_log) as (Hl & Hp & _).
  - repeat constructor; cbn; done.
  - repeat constructor; cbn; done.
  - split; [exact Hl|exact Hp].
Defined.
