(* ===== verification/Extraction.v ===== *)
(** * Extracting an application's handlers

    Models [cmd/celerity-go/extract.go] around what [References] and [Reaching] work out: the
    application is built and run to say what it serves, its source is read for what each
    handler reaches, and the two are put together.  Building, running, reading packages and
    encoding are parameters. *)

From S2P Require Import Prelude GoStrings Json Errors GoSyntax Manifest References.
From stdpp Require Import options.

(** ** Reading the source *)

Section loading.
Context {W P R : Type}.
(** [packages.Load], and [packages.Visit]: what each package and those it imports could not be
    read for; and what [References] works out of packages that were. *)
Context (Load : string → W → result error P * W) (visit : P → list (list string)).
Context (of_packages : P → list string → result error R).

Definition not_loaded (err : error) : error :=
  EWrap ("loading the application's packages: " +:+ error_text err) err.

Definition loadErrors (pkgs : P) : option error :=
  match mjoin (visit pkgs) with
  | [] => None
  | failures => Some (EString ("reading the application's source to resolve what each handler reaches:" +:+
      newline +:+ tab +:+ join failures (newline +:+ tab)))
  end.

(** [resolveReferences], around [References.resolveReferences]. *)
Definition load_and_resolve (dir : string) (handlers : list string) (w : W) : result error R * W :=
  match Load dir w with
  | (Err err, w) => (Err (not_loaded err), w)
  | (Ok pkgs, w) =>
      (match loadErrors pkgs with Some err => Err err | None => of_packages pkgs handlers end, w)
  end.

Lemma loadErrors_none pkgs : loadErrors pkgs = None → Forall (λ failures, failures = []) (visit pkgs).
Proof using Type.
  unfold loadErrors. destruct (mjoin (visit pkgs)) eqn:E; [|done]. intros _.
  revert E. induction (visit pkgs) as [|f l IH]; cbn; [done|]. intros [-> E]%app_eq_nil. constructor; auto.
Qed.

(** A package that could not be read is an error, wherever it is imported: it is not taken for
    one in which a handler reaches nothing. *)
Lemma unread_is_an_error dir handlers w r w' :
  load_and_resolve dir handlers w = (Ok r, w') →
  ∃ pkgs, Load dir w = (Ok pkgs, w') ∧ Forall (λ failures, failures = []) (visit pkgs) ∧
    of_packages pkgs handlers = Ok r.
Proof using Type.
  unfold load_and_resolve. destruct (Load dir w) as [[pkgs|] w1]; [|done].
  destruct (loadErrors pkgs) eqn:E; [done|]. intros [= <- <-]. exists pkgs. split_and!; [done|by apply loadErrors_none|done].
Qed.
End loading.

(** ** Extracting *)

Section extract.
Context {W : Type}.
(** [os.MkdirTemp] and [os.RemoveAll]; [go build], of a package into a file; running what was
    built, and what it wrote; the manifest in that; and the walk of the package's source. *)
Context (MkdirTemp : W → result error string * W) (RemoveAll : string → W → W).
Context (go_build : string → string → W → option error * W).
Context (run_built : string → W → result error bytes * W).
Context (Unmarshal : bytes → result error Manifest).
Context (resolveReferences : string → list string → W → result error (gmap string (list string)) * W).
(** [json.MarshalIndent] and [os.WriteFile]. *)
Context (MarshalIndent : Manifest → result error bytes) (WriteFile : string → bytes → W → option error * W).

Definition ExtractEnvVar : string := "CELERITY_EXTRACT_MANIFEST".

Definition wrapped (before : string) (err : error) (after : string) : error :=
  EWrap (before +:+ ": " +:+ error_text err +:+ after) err.

(** [build]: the binary, and the directory its cleanup removes. *)
Definition build (pkg : string) (w : W) : result error (string * string) * W :=
  match MkdirTemp w with
  | (Err err, w) => (Err (wrapped "making somewhere to build" err ""), w)
  | (Ok dir, w) =>
      let path := dir +:+ "/app" in
      match go_build pkg path w with
      | (Some err, w) =>
          (Err (wrapped ("building " +:+ pkg) err ("." +:+ newline +:+
             "Extraction builds the application and runs it, so it has to compile first")), RemoveAll dir w)
      | (None, w) => (Ok (path, dir), w)
      end
  end.

Definition other_version (version : string) : error := EString ("the application reported a " +:+ version +:+
  " manifest, and this tool writes " +:+ Version +:+ ": the SDK it was built against and this tool are different versions").

(** [report]. *)
Definition report (path : string) (w : W) : result error Manifest * W :=
  match run_built path w with
  | (Err err, w) =>
      (Err (wrapped "running the application to read its handlers" err ("." +:+ newline +:+ "It is run with " +:+
         ExtractEnvVar +:+ " set, which celerity.Run answers by writing the manifest and exiting")), w)
  | (Ok out, w) =>
      match Unmarshal out with
      | Err err => (Err (wrapped "reading what the application reported" err ("." +:+ newline +:+ "It wrote:" +:+ newline +:+ out)), w)
      | Ok m => (if bool_decide (m.(ManifestVersion) = Version) then Ok m else Err (other_version m.(ManifestVersion)), w)
      end
  end.

(** What [Extract] does of a binary, before its cleanup. *)
Definition described (pkg path : string) (w : W) : result error Manifest * W :=
  match report path w with
  | (Err err, w) => (Err err, w)
  | (Ok m, w) =>
      match resolveReferences pkg (handlerPaths m) w with
      | (Err err, w) => (Err err, w)
      | (Ok reached, w) => (Ok (merge reached m), w)
      end
  end.

Definition Extract (pkg : string) (w : W) : result error Manifest * W :=
  match build pkg w with
  | (Err err, w) => (Err err, w)
  | (Ok (path, dir), w) => let '(r, w) := described pkg path w in (r, RemoveAll dir w)
  end.

(** [runExtract], of flags that parsed, and what it says. *)
Definition runExtract (pkg out : string) (w : W) : result error string * W :=
  match Extract pkg w with
  | (Err err, w) => (Err err, w)
  | (Ok m, w) =>
      match MarshalIndent m with
      | Err err => (Err (wrapped "writing the manifest" err ""), w)
      | Ok encoded =>
          match WriteFile out (encoded +:+ newline) w with
          | (Some err, w) => (Err (wrapped ("writing " +:+ out) err ""), w)
          | (None, w) => (Ok ("wrote " +:+ out +:+ ": " +:+ itoa (Z.of_nat (length m.(FunctionHandlers))) +:+
                             " handlers, 0 guards"), w)
          end
      end
  end.

(** Where a directory was made, removing it is the last thing that is done, whatever failed;
    and nothing is left to remove where none was made. *)
Lemma what_was_built_is_removed pkg w :
  match MkdirTemp w with
  | (Ok dir, _) => ∃ w', (Extract pkg w).2 = RemoveAll dir w'
  | (Err _, w1) => is_Some (match (Extract pkg w).1 with Err e => Some e | Ok _ => None end) ∧ (Extract pkg w).2 = w1
  end.
Proof using Type.
  unfold Extract, build. destruct (MkdirTemp w) as [[dir|err] w1]; [|by eauto].
  destruct (go_build pkg _ w1) as [[err|] w2]; [by eexists|]. destruct (described pkg _ w2) as [r w3]. by eexists.
Qed.

(** What is extracted is what the application said of itself, handler for handler, with what
    its source was found to reach beside what it declared, and no path of a function left. *)
Lemma extracted_is_what_it_serves pkg w m :
  (Extract pkg w).1 = Ok m →
  ∃ said reached w1 w2, (resolveReferences pkg (handlerPaths said) w1) = (Ok reached, w2) ∧
    said.(ManifestVersion) = Version ∧ m = merge reached said ∧
    ResourceName <$> m.(FunctionHandlers) = ResourceName <$> said.(FunctionHandlers) ∧
    Forall (λ h, h.(HandlerFuncPath) = "") m.(FunctionHandlers).
Proof using Type.
  unfold Extract. destruct (build pkg w) as [[[path dir]|] w0]; [|done]. unfold described, report.
  destruct (run_built path w0) as [[out|] w1]; [|done]. destruct (Unmarshal out) as [said|]; [|done].
  case_bool_decide as Hv; [|done].
  destruct (resolveReferences pkg (handlerPaths said) w1) as [[reached|] w2] eqn:Hr; [|done]. intros [= <-].
  exists said, reached, w1, w2. split_and!; [done..| |].
  - cbn. rewrite <- list_fmap_compose. by apply list_fmap_ext.
  - cbn. by apply Forall_fmap, Forall_true.
Qed.
End extract.
