(* ===== verification/Command.v ===== *)
(** * The command

    Models [cmd/celerity-go/main.go] around what [Generate] and [References] work out: which
    command is run, what generating changes in the tree, and in what order.  The tree is what
    the files hold; which writes fail and what they leave, what a directory lists, tidying a
    module and loading packages are parameters. *)

From S2P Require Import Prelude GoStrings Json Errors GoSyntax References Generate Extraction.
From stdpp Require Import options.

(** The flags of [generate], as [flag.FlagSet] gives them. *)
Record generate_flags : Type := MkGenerateFlags {
  target : string; pkg : string; local : bool; engines : string; tracing : string;
  testTags : string; tests : bool; kinds : string;
}.

Section command.
(** [constraint.Parse]; [os.ReadDir], with the clause of each file that has one; [filepath.Abs],
    as its segments, innermost first, and whether [os.Stat] finds a file; and [go mod tidy], of a
    module's root. *)
Context (parse_constraint : string → option error).
Context (ReadDir : gmap string string → string → result error (list (string * bool * option string))).
Context (Abs : string → result error (list string)) (Stat : gmap string string → string → bool).
Context (run_tidy : string → gmap string string → option error * gmap string string).
(** [packages.Load] of a module's packages and their tests, of a directory and with flags: what
    loaded, and [packages.Visit], what each package could not be read for; and what type
    checking says of the objects. *)
Context (objects : obj → object).
Abbreviation loaded := (list read_package * list (list string))%type.
Context (Load : string → list string → gmap string string → result error loaded).
(** The writes that fail, and how much of the file such a write leaves: [os.WriteFile] empties
    a file before it fills it. *)
Context (breaks : string → option (error * option nat)).

(** What files hold, and what was written to the standard streams. *)
Record tree : Type := MkTree { files : gmap string string; said_ : list string }.
Definition say (line : string) (t : tree) : tree := MkTree t.(files) (t.(said_) ++ [line]).

(** [os.WriteFile], and the error it is wrapped in.  A file that could not be opened is as it
    was. *)
Definition write_file (path contents : string) (t : tree) : option error * tree :=
  match breaks path with
  | Some (err, remains) =>
      (Some (EWrap ("writing " +:+ path +:+ ": " +:+ error_text err) err),
       match remains with
       | None => t
       | Some n => MkTree (<[path := String.substring 0 n contents]> t.(files)) t.(said_)
       end)
  | None => (None, MkTree (<[path := contents]> t.(files)) t.(said_))
  end.

(** [filepath.Join], of a directory as it is given and a file. *)
Definition path_join (dir name : string) : string := if bool_decide (dir = ".") then name else dir +:+ "/" +:+ name.

(** [packageNameOf], of what the tree holds. *)
Definition package_of (t : tree) (dir : string) : result error string :=
  match ReadDir t.(files) dir with
  | Err err => Err (EWrap ("reading " +:+ dir +:+ ": " +:+ error_text err) err)
  | Ok entries => packageNameOf dir entries
  end.

(** [tidy]. *)
Definition tidy (root : string) (t : tree) : option error * tree :=
  let '(err, files) := run_tidy root t.(files) in
  (match err with
   | None => None
   | Some err => Some (EWrap ("go mod tidy in " +:+ root +:+ ": " +:+ error_text err +:+ "." +:+ newline +:+
       "The generated file imports modules the application does not require yet, and they have to " +:+
       "resolve before the test packages can be read") err)
   end, MkTree files t.(said_)).

(** [ModuleRoot]. *)
Definition path_of (segments : list string) : string := "/" +:+ join (rev segments) "/".
Definition no_module (dir : string) : error :=
  EString ("no go.mod at or above " +:+ dir +:+ ", so there is no module to scan").
Definition module_root (t : tree) (dir : string) : result error string :=
  let! absolute := Abs dir in
  match ModuleRoot (λ d, Stat t.(files) (path_of ("go.mod" :: d))) absolute with
  | Some root => Ok (path_of root)
  | None => Err (no_module dir)
  end.

(** [LivePackages]: a package that cannot be read is an error. *)
Definition live_packages (root : string) (tags : list string) (t : tree) : result error (list LivePackage) :=
  match Load root (buildTags tags) t.(files) with
  | Err err => Err (not_loaded err)
  | Ok pkgs =>
      match loadErrors snd pkgs with
      | Some err => Err err
      | None => Ok (LivePackages objects pkgs.1)
      end
  end.

(** The loop of [GenerateTestPackageFiles]: what is written is not taken back. *)
Fixpoint write_each (target : string) (tagged : GenerateOptions) (found : list LivePackage) (t : tree) :
    result error (list string) * tree :=
  match found with
  | [] => (Ok [], t)
  | live :: found =>
      match GeneratePlatformFile parse_constraint live.(LiveName) target tagged with
      | Err err => (Err err, t)
      | Ok contents =>
          match write_file (Path live) contents t with
          | (Some err, t) => (Err err, t)
          | (None, t) =>
              let '(written, t) := write_each target tagged found t in
              (match written with Ok written => Ok (Path live :: written) | Err err => Err err end, t)
          end
      end
  end.

Definition tagged_with (tags : list string) (opts : GenerateOptions) : GenerateOptions :=
  MkGenerateOptions tags opts.(Local_) opts.(SQLEngines) opts.(Resources) opts.(TelemetryName).

Definition GenerateTestPackageFiles (root target : string) (tags : list string) (opts : GenerateOptions) (t : tree) :
    result error (list string) * tree :=
  match live_packages root tags t with
  | Err err => (Err err, t)
  | Ok found => write_each target (tagged_with tags opts) found t
  end.

Definition no_target : error := EString "no deploy target: pass --target or set CELERITY_DEPLOY_TARGET".
Definition wrote (path : string) : string := "celerity-go: wrote " +:+ path.
Definition options_from (f : generate_flags) : GenerateOptions :=
  MkGenerateOptions [] f.(local) (splitList f.(engines)) (splitList f.(kinds)) f.(tracing).

(** What [runGenerate] works out before it writes anything: the file, and what it holds. *)
Definition worked_out (f : generate_flags) (t : tree) : result error (string * string) :=
  if bool_decide (f.(target) = "") then Err no_target
  else
    let! packageName := package_of t f.(pkg) in
    let! _ := if f.(tests) then buildConstraint parse_constraint (splitList f.(testTags)) else Ok "" in
    let! contents := GeneratePlatformFile parse_constraint packageName f.(target) (options_from f) in
    Ok (path_join f.(pkg) GeneratedFileName, contents).

(** [runGenerate], of flags that parsed. *)
Definition runGenerate (f : generate_flags) (t : tree) : option error * tree :=
  match worked_out f t with
  | Err err => (Some err, t)
  | Ok (path, contents) =>
      match write_file path contents t with
      | (Some err, t) => (Some err, t)
      | (None, t) =>
          let t := say (wrote path +:+ " for the " +:+ go_quote f.(target) +:+ " deploy target") t in
          if negb f.(tests) then (None, t)
          else match module_root t f.(pkg) with
               | Err err => (Some err, t)
               | Ok root =>
                   match tidy root t with
                   | (Some err, t) => (Some err, t)
                   | (None, t) =>
                       match GenerateTestPackageFiles root f.(target) (splitList f.(testTags)) (options_from f) t with
                       | (Err err, t) => (Some err, t)
                       | (Ok written, t) =>
                           let t := if bool_decide (written = [])
                             then say "celerity-go: no test package calls celeritytest.Live, so none needed the providers" t else t in
                           (None, foldl (λ t path, say (wrote path) t) t written)
                       end
                   end
               end
      end
  end.

(** ** Commands *)

(** What a command answers, and whether the usage was printed first. *)
Definition unknown_command (name : string) : error := EString ("unknown command " +:+ go_quote name).
Definition run (generate extract : list string → tree → option error * tree) (usage version : string)
    (args : list string) (t : tree) : option error * tree :=
  match args with
  | [] => (Some (EString "no command given"), say usage t)
  | name :: args =>
      if bool_decide (name = "generate") then generate args t
      else if bool_decide (name = "extract") then extract args t
      else if bool_decide (name ∈ ["-h"; "--help"; "help"]) then (None, say usage t)
      else if bool_decide (name ∈ ["version"; "--version"]) then (None, say version t)
      else (Some (unknown_command name), say usage t)
  end.

(** ** What generating leaves behind *)

(** What is imported, whatever package the file is of and whatever it is behind. *)
Definition linking (target : string) (opts : GenerateOptions) : result error string :=
  let! p := PlatformFor target in
  let! imports := platformImports p opts in
  let! drivers := sqlDriverImports opts.(SQLEngines) in
  Ok (writeImports imports (Compact (sort_strings drivers))).

Lemma GeneratePlatformFile_links name tgt opts contents :
  GeneratePlatformFile parse_constraint name tgt opts = Ok contents →
  ∃ constrained links, buildConstraint parse_constraint opts.(BuildTags) = Ok constrained ∧
    linking tgt opts = Ok links ∧ contents = writeHeader name tgt constrained opts.(Local_) +:+ links.
Proof using Type.
  unfold GeneratePlatformFile, linking. destruct (PlatformFor tgt) as [p|]; [|done]. cbn.
  destruct (platformImports p opts) as [imports|]; [|done]. cbn. destruct (sqlDriverImports _) as [drivers|]; [|done]. cbn.
  destruct (buildConstraint _ _) as [constrained|]; [|done]. cbn. intros [= <-]. eauto.
Qed.

Lemma linking_tagged tgt tags opts : linking tgt (tagged_with tags opts) = linking tgt opts.
Proof using Type. done. Qed.

(** The platform file: of the package its directory has, behind nothing. *)
Definition platform_file (f : generate_flags) (links : string) (t : tree) (path contents : string) : Prop :=
  path = path_join f.(pkg) GeneratedFileName ∧
  ∃ name, package_of t f.(pkg) = Ok name ∧ contents = writeHeader name f.(target) "" f.(local) +:+ links.

Lemma worked_out_links f t path contents :
  worked_out f t = Ok (path, contents) →
  ∃ links, linking f.(target) (options_from f) = Ok links ∧ platform_file f links t path contents.
Proof using Type.
  unfold worked_out. case_bool_decide; [done|]. destruct (package_of t _) as [name|] eqn:Hn; [|done]. cbn.
  destruct (if f.(tests) then _ else _); [|done]. cbn. destruct (GeneratePlatformFile _ _ _ _) as [c|] eqn:Hg; [|done].
  intros [= <- <-]. apply GeneratePlatformFile_links in Hg as (? & links & [= <-] & Hl & ->). cbn.
  exists links. split; [done|]. split; [done|]. by exists name.
Qed.

(** A tree where a live package's file holds what the blueprint asks for, of that package and
    behind the tags. *)
Definition holds_links (tgt : string) (tagged : GenerateOptions) (links : string) (t : tree) (live : LivePackage) : Prop :=
  ∃ constrained, buildConstraint parse_constraint tagged.(BuildTags) = Ok constrained ∧
    t.(files) !! Path live = Some (writeHeader live.(LiveName) tgt constrained tagged.(Local_) +:+ links).

Lemma write_each_spec tgt tagged links found t written t' :
  NoDup (Path <$> found) → linking tgt tagged = Ok links →
  write_each tgt tagged found t = (Ok written, t') →
  written = Path <$> found ∧ Forall (holds_links tgt tagged links t') found ∧
  ∀ p, p ∉ written → t'.(files) !! p = t.(files) !! p.
Proof using Type.
  intros Hnd Hl. revert t written t'. induction found as [|live found IH]; intros t written t'; cbn [write_each].
  { intros [= <- <-]. by split_and!. }
  apply NoDup_cons in Hnd as [Hlive Hnd].
  destruct (GeneratePlatformFile _ _ _ _) as [contents|] eqn:Hg; [|done]. unfold write_file at 1.
  destruct (breaks _) as [[? ?]|]; [done|]. cbn [fst snd].
  destruct (write_each _ _ found _) as [[written'|] t''] eqn:Hw; [|done]. intros [= <- <-].
  apply IH in Hw as (-> & Hall & Hsame); [|done]. cbn [files] in Hsame.
  apply GeneratePlatformFile_links in Hg as (constrained & links' & Hc & Hl' & ->).
  rewrite Hl in Hl'. injection Hl' as <-. split_and!; [done| |].
  - constructor; [|done]. exists constrained. split; [done|]. rewrite Hsame by done. by rewrite lookup_insert_eq.
  - intros p [Hp Hps]%not_elem_of_cons. rewrite Hsame by done. by rewrite lookup_insert_ne.
Qed.

(** What the loop wrote where it succeeds, of the packages that loaded. *)
Lemma test_files_spec root tgt tags opts links t written t' :
  (∀ fs root flags pkgs, Load root flags fs = Ok pkgs → one_package_each objects pkgs.1) →
  linking tgt opts = Ok links →
  GenerateTestPackageFiles root tgt tags opts t = (Ok written, t') →
  ∃ pkgs, Load root (buildTags tags) t.(files) = Ok pkgs ∧ loadErrors snd pkgs = None ∧
    written = Path <$> LivePackages objects pkgs.1 ∧
    Forall (holds_links tgt (tagged_with tags opts) links t') (LivePackages objects pkgs.1) ∧
    ∀ p, p ∉ written → t'.(files) !! p = t.(files) !! p.
Proof using Type.
  intros Hone Hl. unfold GenerateTestPackageFiles, live_packages.
  destruct (Load _ _ _) as [pkgs|] eqn:Hpkgs; [|done]. destruct (loadErrors snd pkgs) eqn:He; [done|].
  intros Hw. eapply write_each_spec in Hw as (Hw1 & Hw2 & Hw3); [|by eapply live_paths, Hone|by rewrite linking_tagged].
  by exists pkgs.
Qed.

Lemma said_files line t : (say line t).(files) = t.(files).
Proof using Type. done. Qed.
Lemma all_said_files paths t : (foldl (λ t path, say (wrote path) t) t paths).(files) = t.(files).
Proof using Type. revert t. induction paths as [|p ps IH]; intros t; [done|]. cbn. by rewrite IH. Qed.

(** [go mod tidy] writes what a module requires, and the platform file is neither that nor a
    test package's. *)
Definition requirements (p : string) : Prop := has_suffix p "go.mod" = true ∨ has_suffix p "go.sum" = true.

Lemma path_join_ends dir name : ∃ before, path_join dir name = before +:+ name.
Proof using Type.
  unfold path_join. case_bool_decide; [by exists ""|]. exists (dir +:+ "/"). by rewrite append_assoc.
Qed.

Lemma platform_file_apart dir live :
  ¬ requirements (path_join dir GeneratedFileName) ∧ path_join dir GeneratedFileName ≠ Path live.
Proof using Type.
  destruct (path_join_ends dir GeneratedFileName) as [before ->]. split.
  - unfold requirements, has_suffix, cut_suffix. rewrite str_rev_append. intros [H|H]; by vm_compute in H.
  - intros H. apply (f_equal str_rev) in H. unfold Path, FileName in H. rewrite !str_rev_append in H.
    by destruct (has_suffix (LiveName live) _); vm_compute in H.
Qed.

(** C30: generating changes nothing until it knows what to write, and leaves one set of imports
    everywhere.  What it refuses beforehand (no target, a directory without a package, tags
    that cannot be a constraint, or a target, kind, engine or telemetry it does not know)
    changes no file.  Otherwise the platform file is written first, of the package its
    directory has and with the imports the target and the options come to; where that write
    fails no other file is changed, and without test packages it is all that changes.  Where
    the command succeeds with test packages, the module was tidied after that and its packages
    loaded after that, all of them read; then each package that calls [Live] holds a file of
    its own package, behind its tags, with those very imports, the platform file is still the
    one written, and no other file was touched.

    [go mod tidy] writes [go.mod] and [go.sum], and Go has one package, and one of external
    tests, in a directory.  An engine that names a driver is taken with whatever path it
    names, the empty one too ([Generate.what_is_taken_as_it_is]). *)
Theorem generating_writes_one_set_of_imports f t r t' :
  (∀ fs root flags pkgs, Load root flags fs = Ok pkgs → one_package_each objects pkgs.1) →
  (∀ root fs err fs' p, run_tidy root fs = (err, fs') → ¬ requirements p → fs' !! p = fs !! p) →
  runGenerate f t = (r, t') →
  (∀ err, worked_out f t = Err err → r = Some err ∧ t' = t) ∧
  ∀ path contents, worked_out f t = Ok (path, contents) → ∃ links,
    linking f.(target) (options_from f) = Ok links ∧ platform_file f links t path contents ∧
    (∀ broken, breaks path = Some broken → is_Some r ∧ ∀ p, p ≠ path → t'.(files) !! p = t.(files) !! p) ∧
    (breaks path = None → f.(tests) = false → r = None ∧ t'.(files) = <[path := contents]> t.(files)) ∧
    (r = None → f.(tests) = true → ∃ root fs pkgs,
       run_tidy root (<[path := contents]> t.(files)) = (None, fs) ∧
       Load root (buildTags (splitList f.(testTags))) fs = Ok pkgs ∧ Forall (λ failures, failures = []) pkgs.2 ∧
       let live := LivePackages objects pkgs.1 in
       Forall (holds_links f.(target) (tagged_with (splitList f.(testTags)) (options_from f)) links t') live ∧
       t'.(files) !! path = Some contents ∧
       ∀ p, p ∉ Path <$> live → t'.(files) !! p = fs !! p).
Proof using Type.
  intros Hone Htidies. unfold runGenerate. destruct (worked_out f t) as [[path contents]|err] eqn:Hw.
  2:{ intros [= <- <-]. split; [by intros ? [= <-]|done]. }
  intros Hr. split; [done|]. intros ? ? [= <- <-].
  apply worked_out_links in Hw as (links & Hl & Hp). exists links. split; [done|]. split; [done|].
  unfold write_file in Hr. destruct (breaks path) as [[err remains]|] eqn:Hbreaks.
  { injection Hr as <- <-. split_and!; [|done|done]. intros broken _. split; [done|].
    intros p Hne. destruct remains; [|done]. cbn. by rewrite lookup_insert_ne. }
  split; [done|]. destruct (tests f) eqn:Hf; cbn [negb] in Hr; [|by injection Hr as <- <-].
  split; [done|]. intros -> _. destruct (module_root _ _) as [root|]; [|done].
  unfold tidy in Hr. rewrite said_files in Hr. cbn [files] in Hr.
  destruct (run_tidy root _) as [[e|] fs] eqn:Ht; [done|].
  destruct (GenerateTestPackageFiles _ _ _ _ _) as [[written|] t1] eqn:Hwrote; [|done]. injection Hr as Hr.
  apply (test_files_spec _ _ _ _ _ _ _ _ Hone Hl) in Hwrote as (pkgs & Hload & Hread & -> & Hall & Hsame). cbn [files] in *.
  assert (t'.(files) = t1.(files)) as Hfiles by (subst t'; rewrite all_said_files; by case_bool_decide).
  exists root, fs, pkgs. split; [done|]. split; [done|]. split; [by apply loadErrors_none|].
  split; [|split; [|by intros p Hnp; rewrite Hfiles, Hsame]].
  - eapply Forall_impl; [exact Hall|]. intros live (c & ? & ?). exists c. by rewrite Hfiles.
  - destruct Hp as [-> _]. rewrite Hfiles, Hsame.
    + rewrite (Htidies _ _ _ _ _ Ht) by by apply (platform_file_apart _ (MkLivePackage "" "")).
      by rewrite lookup_insert_eq.
    + rewrite list_elem_of_fmap. intros (live & Hlive & _). by apply (platform_file_apart f.(pkg) live).
Qed.

End command.

(** A module of one application and one package of tests that reach live resources. *)
Definition orders_flags : generate_flags :=
  MkGenerateFlags "aws-serverless" "." false "" "" "integration" true "bucket".
Definition orders_tree : tree := MkTree {[ "main.go" := "package main" ]} [].
Definition orders_dir (_ : gmap string string) (_ : string) : result error (list (string * bool * option string)) :=
  Ok [("main.go", false, Some "main")].
(** [celeritytest.Live], and a package whose one file calls it. *)
Definition live_object (_ : obj) : object := MkObject liveFunc (Some celeritytestPath) true true [] false None false.
Definition orders_read : list read_package * list (list string) :=
  ([MkRead "orders_test" true [(CallExpr "" (Selector (Ident None None) (Some 0)) [] None, Some "/orders")]], [[]]).
Definition generate_orders : option error * tree :=
  runGenerate (λ _, None) orders_dir (λ _, Ok []) (λ _ _, true) (λ _ fs, (None, fs)) live_object
    (λ _ _ _, Ok orders_read) (λ _, None) orders_flags orders_tree.

Lemma generating_writes_one_set_of_imports_witness :
  generate_orders.1 = None ∧
  ∃ header links, generate_orders.2.(files) !! "celerity_platform_gen.go" = Some (header +:+ links) ∧
    ∃ header', generate_orders.2.(files) !! "/orders/celerity_live_gen_test.go" = Some (header' +:+ links).
Proof.
  destruct generate_orders as [r t'] eqn:E. unfold generate_orders in E.
  apply generating_writes_one_set_of_imports in E as E'; [| |by intros ????? [= _ <-]].
  2:{ intros ???? [= <-] p q dir ->%list_elem_of_singleton ->%list_elem_of_singleton. done. }
  destruct E' as [_ E']. destruct (worked_out (λ _, None) orders_dir orders_flags orders_tree) as [[path contents]|] eqn:Hw;
    [|by vm_compute in Hw].
  assert (r = None) as -> by (vm_compute in E; by injection E).
  destruct (E' _ _ eq_refl) as (links & _ & (-> & name & _ & Hc) & _ & _ & Htests).
  destruct (Htests eq_refl eq_refl) as (root & fs & pkgs & _ & Hl & _ & Hall & Hpath & _).
  injection Hl as <-. split; [done|]. eexists _, links. cbn [snd]. split.
  - rewrite Hc in Hpath. exact Hpath.
  - change (LivePackages live_object orders_read.1) with [MkLivePackage "orders_test" "/orders"] in Hall.
    apply Forall_cons in Hall as [(c & _ & Hf) _]. eexists. exact Hf.
Defined.
