(* ===== verification/SqlConn.v ===== *)
(** * Connections, transactions and statements

    Models the adapters of [resources/aws/sqldb/sqldatabase.go] that put [database/sql]'s own
    types behind the interfaces of [resources/sqldb/sqldb.go]: each call is passed on, and what
    a handler is given is an interface.  [database/sql] is a parameter. *)

From S2P Require Import Prelude GoStrings Errors SqlDatabase.
From stdpp Require Import options.

(** A value of an interface type: nil, or a pointer, which may itself be nil. *)
Abbreviation interface A := (option (option A)).
Definition nil_interface {A} : interface A := None.
Definition boxed {A} (pointer : option A) : interface A := Some pointer.

Section adapters.
Context {W : Type}.
(** The types of [database/sql] behind their pointers, an argument of a query, and a result,
    which [database/sql] answers as an interface of its own. *)
Context {Conn_ Tx_ Stmt_ Rows_ Row_ Result_ Arg : Type}.

(** What a call answers: a value, an error or nil, and the world. *)
Abbreviation answered A := (A * option error * W)%type.

(** The calls of [database/sql] that are passed on, of a connection or a transaction. *)
Class Queries (C : Type) : Type := {
  sql_ExecContext : C → string → list Arg → W → answered (option Result_);
  sql_QueryContext : C → string → list Arg → W → answered (option Rows_);
  sql_QueryRowContext : C → string → list Arg → W → Row_ * W;
  sql_PrepareContext : C → string → W → answered (option Stmt_);
}.
Context `{conn_queries : !Queries Conn_} `{tx_queries : !Queries Tx_}.
Context (sql_BeginTx : Conn_ → TxOptions → W → answered (option Tx_)).
Context (stmt_Exec : Stmt_ → list Arg → W → answered (option Result_)).
Context (stmt_Query : Stmt_ → list Arg → W → answered (option Rows_)).
Context (stmt_QueryRow : Stmt_ → list Arg → W → Row_ * W).

(** [sqlConn], [sqlTx] and [sqlStmt]: what is embedded in each. *)
Record adapter (C : Type) : Type := MkAdapter { embedded : C }.
Arguments MkAdapter {C}. Arguments embedded {C}.
Definition sqlConn : Type := adapter Conn_.
Definition sqlTx : Type := adapter Tx_.
Definition sqlStmt : Type := adapter (option Stmt_).

(** A nil interface stays nil in another interface; a nil pointer does not. *)
Definition ExecContext {C} `{!Queries C} (c : adapter C) (query : string) (args : list Arg) (w : W) : answered (option Result_) :=
  sql_ExecContext c.(embedded) query args w.
Definition QueryContext {C} `{!Queries C} (c : adapter C) (query : string) (args : list Arg) (w : W) : answered (interface Rows_) :=
  let '(rows, err, w) := sql_QueryContext c.(embedded) query args w in (boxed rows, err, w).
Definition QueryRowContext {C} `{!Queries C} (c : adapter C) (query : string) (args : list Arg) (w : W) : interface Row_ * W :=
  let '(row, w) := sql_QueryRowContext c.(embedded) query args w in (boxed (Some row), w).
Definition PrepareContext {C} `{!Queries C} (c : adapter C) (query : string) (w : W) : answered (interface sqlStmt) :=
  match sql_PrepareContext c.(embedded) query w with
  | (_, Some err, w) => (nil_interface, Some err, w)
  | (stmt, None, w) => (boxed (Some (MkAdapter stmt)), None, w)
  end.

Definition BeginTx (c : sqlConn) (opts : list (TxOptions → TxOptions)) (w : W) : answered (interface (adapter (option Tx_))) :=
  match sql_BeginTx c.(embedded) (ResolveTxOptions opts) w with
  | (_, Some err, w) => (nil_interface, Some err, w)
  | (tx, None, w) => (boxed (Some (MkAdapter tx)), None, w)
  end.

(** [sqlStmt]'s methods, of a statement that is not nil. *)
Definition StmtExecContext (s : adapter Stmt_) (args : list Arg) (w : W) : answered (option Result_) := stmt_Exec s.(embedded) args w.
Definition StmtQueryContext (s : adapter Stmt_) (args : list Arg) (w : W) : answered (interface Rows_) :=
  let '(rows, err, w) := stmt_Query s.(embedded) args w in (boxed rows, err, w).
Definition StmtQueryRowContext (s : adapter Stmt_) (args : list Arg) (w : W) : interface Row_ * W :=
  let '(row, w) := stmt_QueryRow s.(embedded) args w in (boxed (Some row), w).

(** [rows != nil]. *)
Definition not_nil {A} (i : interface A) : bool := is_some i.

(** Preparing and beginning answer nil exactly where they answer an error. *)
Lemma nil_with_an_error {C} `{!Queries C} (c : adapter C) (d : sqlConn) query opts w :
  (let '(stmt, err, _) := PrepareContext c query w in not_nil stmt = negb (is_some err)) ∧
  (let '(tx, err, _) := BeginTx d opts w in not_nil tx = negb (is_some err)).
Proof using Type.
  unfold PrepareContext, BeginTx. split.
  - by destruct (sql_PrepareContext _ _ _) as [[stmt [err|]] w'].
  - by destruct (sql_BeginTx _ _ _) as [[tx [err|]] w'].
Qed.

(** Querying does not: rows are never nil, and where [database/sql] answered an error with a
    nil pointer, as it does, what a handler finds not to be nil is that pointer. *)
Lemma a_failed_query_has_rows {C} `{!Queries C} (c : adapter C) query args w err w' :
  sql_QueryContext c.(embedded) query args w = (None, Some err, w') →
  QueryContext c query args w = (Some None, Some err, w') ∧ not_nil (QueryContext c query args w).1.1 = true.
Proof using Type. intros Hq. unfold QueryContext. by rewrite Hq. Qed.
End adapters.
