(* ===== verification/Running.v ===== *)
(** * Running an application

    Models [RunContext] of [celerity/run.go]: how an application is run, and what is given back
    when it stops.  Serving the stream ([Client], [Loop], [Serve]), a platform's own event loop
    ([Serverless]) and writing to the standard output are parameters here. *)

From S2P Require Import Prelude GoStrings Json Errors Handler Route Layer Registry Bind Wrap App Pipeline Serverless Logging.
From stdpp Require Import options.

Definition Second_ : Z := 1000.
Definition flushTimeout : Z := 2 * Second_.
Definition releaseTimeout : Z := 5 * Second_.

Section running.
Context {V W F : Type} `{Tracer W} (now : W → Z).

Abbreviation App := (App (W := W) (F := F)).
Abbreviation step := (Ctx → W → option error * W).

(** What [RunContext] hands over to, and what it gives back with; [env] is the environment. *)
Record processes : Type := MkProcesses {
  env : string → string;
  given : option (Adapter V W);
  registered : list (Adapter V W);
  write_manifest : App → W → option error * W;
  serve_platform : Adapter V W → Resolver W → step;
  serve_runtime : App → step;
  flusher : option step;
  release_ : step;
}.

(** [context.WithTimeout(context.WithoutCancel(parent), d)]: what the parent carries, and
    neither its deadline nor its being cancelled. *)
Definition detached (parent : Ctx) (timeout : Z) (w : W) : Ctx :=
  MkCtx parent.(ctxEvent) parent.(ctxIdentity) parent.(ctxTrace) parent.(ctxLogger)
    (Some (now w + timeout)%Z) parent.(ctxSpan) parent.(ctxSender).

Definition flushTelemetry (p : processes) : step := λ parent w,
  Flush ((λ f, f (detached parent flushTimeout w)) <$> p.(flusher)) w.
Definition releaseResources (p : processes) : step := λ parent w,
  p.(release_) (detached parent releaseTimeout w) w.

(** [errors.Join]. *)
Definition join_errors (errs : list (option error)) : option error :=
  match omap id errs with [] => None | errs => Some (EJoin errs) end.

Definition no_handlers : error := EString "no handlers registered".
Definition not_registered (err : error) : error :=
  EWrap ("registration failed:" +:+ newline +:+ error_text err) err.

Definition detected (p : processes) : bool := is_some (Detected p.(registered)).

(** [RunContext]. *)
Definition RunContext (p : processes) (a : App) : step := λ c w,
  match Err_ a with
  | Some err => (Some (not_registered err), w)
  | None =>
      if Len a.(registry) =? 0 then (Some no_handlers, w)
      else match DetectMode p.(env) (detected p) with
           | ModeExtract => p.(write_manifest) a w
           | ModeServerless =>
               match choose_adapter p.(given) p.(registered) with
               | Err err => (Some err, w)
               | Ok adapter => p.(serve_platform) adapter (app_resolver a) c w
               end
           | ModeRuntime =>
               let '(served, w) := p.(serve_runtime) a c w in
               let '(flushed, w) := flushTelemetry p c w in
               let '(released, w) := releaseResources p c w in
               (join_errors [served; flushed; released], w)
           end
  end.

(** An application that did not finish registering, or has no handlers, touches nothing. *)
Lemma unregistered_touches_nothing p a c w :
  is_Some (Err_ a) ∨ Len a.(registry) = 0 → is_Some (RunContext p a c w).1 ∧ (RunContext p a c w).2 = w.
Proof using Type.
  unfold RunContext. destruct (Err_ a) as [err|]; [by eauto|]. intros [[]|Hn]; [done|]. rewrite Hn. cbn. eauto.
Qed.

(** A process that served the stream always flushes and then releases, whatever serving came
    to and whatever the deadline of what it was serving under: each is given its own time, and
    the process fails exactly where one of the three did. *)
Lemma what_was_served_is_given_back p a c w served w1 flushed w2 released w3 :
  Err_ a = None → Len a.(registry) ≠ 0 → DetectMode p.(env) (detected p) = ModeRuntime →
  p.(serve_runtime) a c w = (served, w1) →
  match p.(flusher) with Some f => f (detached c flushTimeout w1) w1 | None => (None, w1) end = (flushed, w2) →
  p.(release_) (detached c releaseTimeout w2) w2 = (released, w3) →
  RunContext p a c w = (join_errors [served; flushed; released], w3) ∧
  ((RunContext p a c w).1 = None ↔ served = None ∧ flushed = None ∧ released = None) ∧
  (detached c flushTimeout w1).(ctxDeadline) = Some (now w1 + 2000)%Z ∧
  (detached c releaseTimeout w2).(ctxDeadline) = Some (now w2 + 5000)%Z.
Proof using Type.
  intros He Hn Hm Hs Hf Hr. assert (RunContext p a c w = (join_errors [served; flushed; released], w3)) as Hrun.
  { unfold RunContext. rewrite He. destruct (Nat.eqb_spec (Len a.(registry)) 0); [done|]. rewrite Hm, Hs.
    unfold flushTelemetry, releaseResources, Flush. destruct p.(flusher); cbn [fmap option_fmap option_map] in *;
      [by rewrite Hf, Hr|injection Hf as <- <-; by rewrite Hr]. }
  split; [done|]. rewrite Hrun. split; [|done]. cbn. unfold join_errors.
  destruct served, flushed, released; cbn; naive_solver.
Qed.

(** A platform's process gives nothing back: what it holds is for its next invocation. *)
Lemma a_platform_keeps_what_is_open p a c w adapter :
  Err_ a = None → Len a.(registry) ≠ 0 → DetectMode p.(env) (detected p) = ModeServerless →
  choose_adapter p.(given) p.(registered) = Ok adapter →
  RunContext p a c w = p.(serve_platform) adapter (app_resolver a) c w.
Proof using Type.
  intros He Hn Hm Ha. unfold RunContext. rewrite He. destruct (Nat.eqb_spec (Len a.(registry)) 0); [done|]. by rewrite Hm, Ha.
Qed.
End running.
