(* ===== verification/AwsProvider.v ===== *)
(** * The provider of a deployment on AWS

    Models [resources/aws/provider.go], what the packages of each kind register with
    [resources/aws/internal/service/registry.go], and the clients of [datastore/client.go] and
    [bucket/client.go].  A handle is of a type of its kind; making an SDK client of a
    configuration is a parameter, as in [AwsService]. *)

From S2P Require Import Prelude GoStrings Json Errors Config Resources AwsService.
From stdpp Require Import options.

(** ** A slot for each kind *)

Inductive kind : Type := OfBucket | OfQueue | OfTopic | OfCache | OfDatastore | OfDatabase.
#[export] Instance kind_eq_dec : EqDecision kind.
Proof. solve_decision. Defined.

(** The kind as a reference names it, and the package that serves it. *)
Definition kind_text (k : kind) : string :=
  match k with
  | OfBucket => KindBucket | OfQueue => KindQueue | OfTopic => KindTopic | OfCache => KindCache
  | OfDatastore => KindDatastore | OfDatabase => KindSQLDatabase
  end.
Definition package_of (k : kind) : string :=
  match k with
  | OfBucket => "bucket" | OfQueue => "queue" | OfTopic => "topic" | OfCache => "cache"
  | OfDatastore => "datastore" | OfDatabase => "sqldb"
  end.

Definition ProviderName : string := "aws".
(** [Detect], on the platform of the environment. *)
Definition Detect (env : string → string) : bool := bool_decide (CurrentPlatform env = PlatformAWS).

Section provider.
(** What a handle of each kind is, and a session. *)
Context {S : Type} {handle : kind → Type}.

Definition Builder (k : kind) : Type := Ref → result error (handle k).
(** The registered factories: [RegisterBucket] and the others set one slot. *)
Definition factories : Type := ∀ k, option (S → Builder k).
Definition no_factory : factories := λ _, None.
Definition register (fs : factories) (k : kind) (f : S → Builder k) : factories := λ k',
  match decide (k = k') with
  | left e => match e in _ = k' return option (S → Builder k') with eq_refl => Some f end
  | right _ => fs k'
  end.

(** [Provider]: the builder of each kind, found once. *)
Record Provider : Type := MkProvider { session : S; held : ∀ k, option (result error (Builder k)) }.
Definition New (s : S) : Provider := MkProvider s (λ _, None).

Definition set_held (p : Provider) (k : kind) (h : option (result error (Builder k))) : Provider :=
  MkProvider p.(session) (λ k',
    match decide (k = k') with
    | left e => match e in _ = k' return option (result error (Builder k')) with eq_refl => h end
    | right _ => p.(held) k'
    end).

(** [Bucket], [Queue], [Topic], [Cache], [Datastore] and [SQLDatabase]. *)
Definition take (fs : factories) (k : kind) (ref : Ref) (p : Provider) : result error (handle k) * Provider :=
  let '(r, h) := provider_build (p.(held) k) (fs k) p.(session) (kind_text k) (package_of k) ref in
  (r, set_held p k h).

Lemma held_set p k h : (set_held p k h).(held) k = h.
Proof using Type. cbn. destruct (decide (k = k)) as [e|]; [|done]. by rewrite (proof_irrel e eq_refl). Qed.
Lemma held_other p k k' h : k ≠ k' → (set_held p k h).(held) k' = p.(held) k'.
Proof using Type. intros Hk. cbn. by destruct (decide (k = k')). Qed.
Lemma registered fs k f : register fs k f k = Some f.
Proof using Type. unfold register. destruct (decide (k = k)) as [e|]; [|done]. by rewrite (proof_irrel e eq_refl). Qed.

(** A kind has one builder for the life of a provider: what the first handle of a kind was made
    with, a builder or the import that is missing, every later one is made with, whatever
    handles of other kinds are taken between, and the factory is not called again. *)
Lemma a_kind_has_one_builder fs k ref p calls :
  let p1 := (take fs k ref p).2 in
  let p2 := foldl (λ p '(k', ref'), (take fs k' ref' p).2) p1 calls in
  ∃ b, p1.(held) k = Some b ∧ p2.(held) k = Some b ∧
    ∀ ref', (take fs k ref' p2).1 = match b with Ok builder => builder ref' | Err err => Err err end.
Proof using Type.
  intros p1 p2.
  assert (∃ b, p1.(held) k = Some b) as [b Hb].
  { unfold p1, take, provider_build, Lazy_Get. destruct (held p k) as [b|]; cbn [snd]; rewrite held_set; by eexists. }
  assert (∀ k' ref' p, p.(held) k = Some b → (take fs k' ref' p).2.(held) k = Some b) as Hkept.
  { intros k' ref' q Hq. unfold take, provider_build, Lazy_Get. destruct (decide (k' = k)) as [->|Hne].
    - rewrite Hq. cbn [snd]. by rewrite held_set.
    - destruct (held q k'); cbn [snd]; by rewrite held_other. }
  assert (p2.(held) k = Some b) as Hb2.
  { unfold p2. clear p2. revert Hb. generalize p1. induction calls as [|[k' ref'] calls IH]; intros q Hq; [done|].
    cbn [foldl]. apply IH, Hkept, Hq. }
  exists b. split_and!; [done..|]. intros ref'. unfold take, provider_build, Lazy_Get. by rewrite Hb2.
Qed.
End provider.

(** ** Clients of a service *)

Section clients.
Context {W C T : Type} (now : W → Z) (load : W → result error C * W) (traceCalls : C → C).
Context (Region : C → string) (with_region : string → C → C).

(** [stores], as [newStores] makes it: the session its handles share, and no client yet. *)
Definition newStores (session : Session C) (settings : cfg (W := W)) : aws W C T := MkAws session ∅ settings.

(** [stores.dynamo]: the stand-in of a test, or the client of the region. *)
Definition dynamo (api : option T) (NewFromConfig : C → T) (region : string) : call (W := W) (C := C) T :=
  client load traceCalls Region with_region api NewFromConfig region.

(** S3 is addressed by paths where an endpoint was configured. *)
Definition S3EndpointEnvVar : string := "AWS_ENDPOINT_URL_S3".
Context (BaseEndpoint : C → option string) (env : string → string).
Definition pathStyleForEmulators (cfg : C) : bool :=
  is_some (BaseEndpoint cfg) || negb (bool_decide (env S3EndpointEnvVar = "")).

(** [buckets.s3] and [buckets.s3Presign], of what makes a client with the style of its paths. *)
Definition s3 (api : option T) (NewFromConfig : C → bool → T) (region : string) : call (W := W) (C := C) T :=
  client load traceCalls Region with_region api (λ cfg, NewFromConfig cfg (pathStyleForEmulators cfg)) region.
End clients.

(** A provider whose build links the package of queues alone. *)
Definition only_queues : factories (S := string) (handle := λ _, string) :=
  register no_factory OfQueue (λ s ref, Ok (s +:+ " queue " +:+ ref.(RefName))).

Example what_is_not_linked_is_named :
  let '(orders, p) := take only_queues OfQueue (MkRef KindQueue "orders") (New "session") in
  orders = Ok "session queue orders" ∧
  (take only_queues OfDatastore (MkRef KindDatastore "users") p).1 =
    Err (EString ("celerity: this build reaches a datastore resource and does not link the package that serves one: import _ " +:+
      go_quote "github.com/newstack-cloud/celerity-go-sdk/resources/aws/datastore" +:+ ", which celerity-go generate writes from the blueprint")).
Proof. by vm_compute. Qed.
