(* ===== verification/Dialling.v ===== *)
(** * Dialling the runtime

    Models [internal/ipc/grpc.go]: the stream is opened, again and again while the runtime is
    not there yet, frames are converted each way, and it is closed in order.  gRPC, the clock and the context are parameters; where
    a stream leads is [Client.Target]'s. *)

From S2P Require Import Prelude GoStrings Json Errors Bind Frames Client.
From stdpp Require Import options.

Definition Millisecond : Z := 1000 * 1000.
Definition first_backoff : Z := 25 * Millisecond.
Definition longest : Z := 1000 * Millisecond.

Section dialling.
Context {W Conn Stream : Type} (now : W → Z).
(** [grpc.NewClient], of a target and of the path of a socket where it is one; [EventStream];
    what the context was ended with, if it was; and [select] between a wait and the context:
    whether the context was first. *)
Context (NewClient : string → option string → W → result error Conn * W).
Context (EventStream : Conn → W → result error Stream * W) (ctx_err : W → option error).
Context (wait : Z → W → bool * W).
Context (CloseSend : Stream → W → option error * W) (CloseConn : Conn → W → option error * W).

Definition not_opened (err : error) : error :=
  EWrap ("opening the handler event stream: " +:+ error_text err) err.
(** [ctx.Err()], once the context is done. *)
Definition ended (w : W) : error := default (EString "context canceled") (ctx_err w).

(** The loop of [openStream]. *)
Fixpoint open_stream (fuel : nat) (conn : Conn) (deadline backoff : Z) (w : W) : option (result error Stream * W) :=
  match fuel with
  | O => None
  | S fuel =>
      match EventStream conn w with
      | (Ok stream, w) => Some (Ok stream, w)
      | (Err err, w) =>
          match ctx_err w with
          | Some e => Some (Err e, w)
          | None =>
              if (deadline <? now w)%Z then Some (Err (not_opened err), w)
              else let '(done, w) := wait backoff w in
                   if done then Some (Err (ended w), w)
                   else open_stream fuel conn deadline (if (backoff <? longest)%Z then backoff * 2 else backoff)%Z w
          end
      end
  end.

Definition openStream (fuel : nat) (conn : Conn) (retryFor : Z) (w : W) : option (result error Stream * W) :=
  open_stream fuel conn (now w + retryFor)%Z first_backoff w.

(** [dialerFor]: the path of a unix socket; any other target is gRPC's to dial. *)
Definition dialerFor (target : string) : option string := cut_prefix "unix://" target.

Definition not_connected (target : string) (err : error) : error :=
  EWrap ("connecting to the runtime at " +:+ target +:+ ": " +:+ error_text err) err.

(** [Dial]: a connection whose stream cannot be opened is closed. *)
Definition Dial (fuel : nat) (config : DialConfig) (w : W) : option (result error (Conn * Stream) * W) :=
  match Target config with
  | Err err => Some (Err err, w)
  | Ok target =>
      match NewClient target (dialerFor target) w with
      | (Err err, w) => Some (Err (not_connected target err), w)
      | (Ok conn, w) =>
          '(r, w) ← openStream fuel conn config.(RetryFor) w;
          match r with
          | Err err => let '(_, w) := CloseConn conn w in Some (Err err, w)
          | Ok stream => Some (Ok (conn, stream), w)
          end
      end
  end.

(** [Close]: the sending side first, and the connection whatever that came to. *)
Definition Close (conn : Conn) (stream : Stream) (w : W) : option error * W :=
  match CloseSend stream w with
  | (Some err, w) => let '(_, w) := CloseConn conn w in (Some err, w)
  | (None, w) => CloseConn conn w
  end.

(** The stream's own [Send] and [Recv]. *)
Context (StreamSend : Stream → Pb.HandlerMessage → W → option error * W).
Context (StreamRecv : Stream → W → result error Pb.RuntimeMessage * W).

(** [Send] and [Recv]: a conversion each way.  No answer is the nil dereference of converting a
    result without an outcome, before which nothing is sent. *)
Definition Send (stream : Stream) (frame : ToRuntime) (w : W) : option (option error * W) :=
  msg ← toHandlerMessage frame;
  Some match msg with
       | None => (Some (EString "celerity: refusing to send an empty frame"), w)
       | Some msg => StreamSend stream msg w
       end.

Definition Recv (stream : Stream) (w : W) : result error FromRuntime * W :=
  match StreamRecv stream w with
  | (Err err, w) => (Err err, w)
  | (Ok msg, w) => (Ok (fromRuntimeMessage msg), w)
  end.

(** Only a frame with nothing in it is refused, and only a result of nothing panics: every
    other frame is sent, as the message it converts to. *)
Lemma Send_sends stream frame w :
  match frame with
  | FEmpty => Send stream frame w = Some (Some (EString "celerity: refusing to send an empty frame"), w)
  | FResult None _ => Send stream frame w = None
  | _ => ∃ msg, toHandlerMessage frame = Some (Some msg) ∧ Send stream frame w = Some (StreamSend stream msg w)
  end.
Proof using Type. destruct frame as [|[r|]| | | |]; cbn; eauto. Qed.

(** A connection is closed however its stream was, and what is answered is the first failure. *)
Lemma Close_closes conn stream w :
  let '(e1, w1) := CloseSend stream w in let '(e2, w2) := CloseConn conn w1 in
  Close conn stream w = (match e1 with Some _ => e1 | None => e2 end, w2).
Proof using Type.
  unfold Close. destruct (CloseSend stream w) as [[e1|] w1]; by destruct (CloseConn conn w1).
Qed.

(** ** Dialling ends *)

Section ends.
(** The clock does not go back, and a wait that is not cut short takes its time. *)
Context (asked : ∀ conn w, (now w ≤ now (EventStream conn w).2)%Z).
Context (waited : ∀ d w, (wait d w).1 = false → (now w + d ≤ now (wait d w).2)%Z).

(** The attempts that are enough: one for each of the shortest waits there is time for, and two. *)
Definition attempts (left : Z) : nat := S (S (Z.to_nat (left / first_backoff))).

Lemma open_stream_ends conn deadline backoff w fuel :
  (first_backoff ≤ backoff)%Z → (Z.to_nat (deadline - now w + first_backoff) < fuel * Z.to_nat first_backoff)%nat →
  is_Some (open_stream fuel conn deadline backoff w).
Proof using asked waited.
  assert (0 < first_backoff)%Z as Hpos by done.
  revert backoff w. induction fuel as [|fuel IH]; intros backoff w Hb Hf; [lia|]. cbn [open_stream].
  pose proof (asked conn w) as Hw. destruct (EventStream conn w) as [[stream|err] w1]; [by eexists|]. cbn in Hw.
  destruct (ctx_err w1); [by eexists|]. destruct (Z.ltb_spec deadline (now w1)); [by eexists|].
  pose proof (waited backoff w1) as Hwait. destruct (wait backoff w1) as [done w2]. cbn in Hwait.
  destruct done; [by eexists|]. specialize (Hwait eq_refl). apply IH.
  - destruct (Z.ltb_spec backoff longest); lia.
  - lia.
Qed.

(** Giving up on a runtime that is not there takes all the time there is for it. *)
Lemma open_stream_persists conn deadline backoff w fuel err w' :
  (∀ w, ctx_err w = None) → (∀ d w, (wait d w).1 = false) →
  open_stream fuel conn deadline backoff w = Some (Err err, w') → (deadline < now w')%Z.
Proof using Type.
  intros Hctx Hw. revert backoff w. induction fuel as [|fuel IH]; intros backoff w; [done|]. cbn [open_stream].
  destruct (EventStream conn w) as [[stream|e] w1]; [done|]. rewrite Hctx.
  destruct (Z.ltb_spec deadline (now w1)); [by intros [= _ <-]|].
  specialize (Hw backoff w1). destruct (wait backoff w1) as [done w2]. cbn in Hw. subst done. apply IH.
Qed.

(** C38: dialling ends.  Whatever the runtime and the connection do, dialling comes to an
    answer within one attempt for each of the shortest waits there is time for, and two more;
    and where the context is not ended, it is given up only after all of that time. *)
Theorem dialling_ends config w :
  (0 ≤ config.(RetryFor))%Z →
  ∃ r w', Dial (attempts config.(RetryFor)) config w = Some (r, w') ∧
    ((∀ w, ctx_err w = None) → (∀ d w, (wait d w).1 = false) → (∀ conn w, now w ≤ now (CloseConn conn w).2)%Z →
     ∀ target conn w1 err, Target config = Ok target → NewClient target (dialerFor target) w = (Ok conn, w1) →
       r = Err err → (now w1 + config.(RetryFor) < now w')%Z).
Proof using asked waited.
  intros Hretry. unfold Dial. destruct (Target config) as [target|]; [|by eexists _, w; split].
  destruct (NewClient target _ w) as [[conn|] w1] eqn:Hn.
  2:{ eexists _, w1. split; [done|]. intros ???? ??? [= <-]. by rewrite Hn. }
  destruct (open_stream_ends conn (now w1 + config.(RetryFor))%Z first_backoff w1 (attempts config.(RetryFor)))
    as [[r w2] Hr]; [lia| |].
  { unfold attempts. assert (0 < first_backoff)%Z as Hpos by done.
    pose proof (Z.div_mod config.(RetryFor) first_backoff ltac:(lia)) as Hd.
    pose proof (Z.mod_pos_bound config.(RetryFor) first_backoff Hpos).
    pose proof (Z.div_pos config.(RetryFor) first_backoff Hretry Hpos). nia. }
  unfold openStream. rewrite Hr. cbn [mbind option_bind].
  destruct r as [stream|err]; [by eexists _, w2|]. destruct (CloseConn conn w2) as [e w3] eqn:Hc.
  eexists _, w3. split; [done|]. intros Hctx Hw Hclose ? ? ? ? [= <-]. rewrite Hn. intros [= <- <-] _.
  apply open_stream_persists in Hr; [|done..]. specialize (Hclose conn w2). rewrite Hc in Hclose. cbn in Hclose. lia.
Qed.
End ends.
End dialling.

(** A runtime that is there after a second, asked by a clock in nanoseconds. *)
Definition late_runtime (_ : ()) (w : Z) : result error () * Z :=
  (if (longest <=? w)%Z then Ok () else Err (EString "connection refused"), w).
Definition dial_late := Dial (Conn := ()) (Stream := ()) id (λ _ _ w, (Ok (), w)) late_runtime (λ _, None)
  (λ d w, (false, (w + d)%Z)) (λ _ w, (None, w)).
Definition late_config : DialConfig := MkDialConfig "/run/celerity.sock" false 0 (30 * 1000 * Millisecond)%Z.

Lemma dialling_ends_witness :
  (∃ r w', dial_late (attempts late_config.(RetryFor)) late_config 0%Z = Some (r, w')) ∧
  dial_late 8 late_config 0%Z = Some (Ok ((), ()), (1575 * Millisecond)%Z).
Proof.
  split; [|vm_compute; reflexivity].
  destruct (dialling_ends (Conn := ()) (Stream := ()) id (λ _ _ w, (Ok (), w)) late_runtime (λ _, None)
    (λ d w, (false, (w + d)%Z)) (λ _ w, (None, w)) ltac:(done) ltac:(done)
    late_config 0%Z ltac:(done)) as (r & w' & H & _).
  exists r, w'. exact H.
Defined.
