(* ===== verification/Otel.v ===== *)
(** * Tracing with OpenTelemetry

    Models which tracer a process traces with ([telemetry/tracer.go] and [NewTracer] of
    [celeritytest/tracer.go]) and the one of [telemetry/otel]: what the environment asks for
    ([env.go]), what importing the package installs ([setup.go]), and spans on whatever
    provider there is ([otel.go]).  OpenTelemetry itself is a parameter. *)

From S2P Require Import Prelude GoStrings Json Errors Layer Config Logging.
From stdpp Require Import options.

(** ** The tracer of a process *)

Section seam.
Context {W : Type}.

(** [installed], [SetTracer] and [CurrentTracer]: nil is none. *)
Definition SetTracer (_ : option (Tracer W)) (t : option (Tracer W)) : option (Tracer W) := t.
Definition CurrentTracer (installed : option (Tracer W)) : Tracer W := default noopTracer installed.

(** [TracedCall]: an operation that answers nothing but a failure. *)
Definition TracedCall `{Tracer W} (c : Ctx) (name : string) (attrs : list Attr)
    (fn : Ctx → Span → W → outcome () * W) (w : W) : outcome () * W := Traced c name attrs fn w.

(** [NewTracer]: the tracer a test records with, where no other test is recording; and what
    its clean-up leaves, which is no tracer, whatever was installed before it. *)
Definition NewTracer (is_recorder : Tracer W → bool) (recorder : Tracer W) (installed : option (Tracer W)) :
    result string (option (Tracer W)) :=
  if is_recorder (CurrentTracer installed) then
    Err ("celeritytest: a recording tracer is already installed. " +:+
      "The tracer seam is process-wide, so two recording at once collect " +:+
      "each other's spans, a test calling NewTracer cannot call t.Parallel, " +:+
      "and cannot be nested inside another that called NewTracer")
  else Ok (SetTracer installed (Some recorder)).
Definition cleaned_up (installed : option (Tracer W)) : option (Tracer W) := SetTracer installed None.
End seam.

(** ** What the environment asks for *)

Definition EnabledEnvVar : string := "CELERITY_TELEMETRY_ENABLED".
Definition EndpointEnvVar : string := "OTEL_EXPORTER_OTLP_ENDPOINT".
Definition CelerityEndpointEnvVar : string := "CELERITY_TRACE_OTLP_COLLECTOR_ENDPOINT".
Definition ServiceNameEnvVar : string := "OTEL_SERVICE_NAME".
Definition ServiceVersionEnvVar : string := "OTEL_SERVICE_VERSION".
Definition platformEnvVar : string := "CELERITY_PLATFORM".
Definition DefaultEndpoint : string := "http://otelcollector:4317".
Definition DefaultServiceName : string := "celerity-app".
Definition DefaultServiceVersion : string := "0.0.0".

Record Settings : Type := MkSettings {
  SettingsEnabled : bool;
  SettingsEndpoint : string;
  ServiceName : string;
  ServiceVersion : string;
  AWS : bool;
}.

Fixpoint firstSet (env : string → string) (fallback : string) (names : list string) : string :=
  match names with
  | [] => fallback
  | name :: names =>
      let value := TrimSpace (env name) in
      if bool_decide (value = "") then firstSet env fallback names else value
  end.

(** [strings.EqualFold] with a word in lower case. *)
Definition ReadSettings (env : string → string) : Settings :=
  MkSettings (bool_decide (to_lower (env EnabledEnvVar) = "true"))
    (firstSet env DefaultEndpoint [EndpointEnvVar; CelerityEndpointEnvVar])
    (firstSet env DefaultServiceName [ServiceNameEnvVar])
    (firstSet env DefaultServiceVersion [ServiceVersionEnvVar])
    (has_prefix (to_lower (env platformEnvVar)) "aws").

(** *** Attributes *)

(** [attribute.KeyValue], of the values the seam's constructors give. *)
Inductive keyValue : Type :=
  | KString (key value : string)
  | KInt64 (key : string) (value : Z)
  | KBool (key : string) (value : bool).

Definition convert (attrs : list Attr) : list keyValue :=
  (λ a, match a.2 with
        | AString value => KString a.1 value
        | AInt value => KInt64 a.1 value
        | ABool value => KBool a.1 value
        end) <$> attrs.

(** What carries a trace from one process to the next. *)
Inductive propagator : Type := PTraceContext | PBaggage | PXRay.
Definition propagatorFor (settings : Settings) : list propagator :=
  [PTraceContext; PBaggage] ++ (if settings.(AWS) then [PXRay] else []).

(** The name spans are instrumented under. *)
Definition scope_ : string := "github.com/newstack-cloud/celerity-go-sdk".

Definition endpointError (endpoint : string) (err : error) : error :=
  EWrap ("celerity: exporting traces to " +:+ go_quote endpoint +:+ ": " +:+ error_text err +:+ "." +:+ newline +:+
    "Set " +:+ EndpointEnvVar +:+ " or " +:+ CelerityEndpointEnvVar +:+ " to a collector that can be " +:+
    "reached, or unset " +:+ EnabledEnvVar +:+ " to stop exporting") err.
Definition not_described (err : error) : error :=
  EWrap ("celerity: describing the service in its traces: " +:+ error_text err) err.
Definition not_flushed (err : error) : error :=
  EWrap ("celerity: handing over the traces held: " +:+ error_text err) err.

(** ** What importing the package installs *)

Section setup.
Context {W Exporter Resource Provider OSpan : Type}.
(** [url.Parse], for its error; [otlptracegrpc.New]; [resource.Merge] with the default, of a
    name and a version; [NewTracerProvider] of an exporter, a resource and whether ids are
    X-Ray's; and [ForceFlush]. *)
Context (parse_url : string → option error) (new_exporter : string → W → result error Exporter * W).
Context (described : string → string → result error Resource).
Context (new_provider : Exporter → Resource → bool → W → Provider * W).
Context (ForceFlush : Provider → W → option error * W).

(** What is global to a process: OpenTelemetry's provider and propagators, and the tracer and
    the flusher of [telemetry]. *)
Record globals : Type := MkGlobals {
  provider : option Provider;
  propagators : option (list propagator);
  otel_tracer : bool;
  flusher : option (W → option error * W);
}.

Definition providerFor (settings : Settings) (w : W) : result error Provider * W :=
  let endpoint := settings.(SettingsEndpoint) in
  match parse_url endpoint with
  | Some err => (Err (endpointError endpoint err), w)
  | None =>
      match new_exporter endpoint w with
      | (Err err, w) => (Err (endpointError endpoint err), w)
      | (Ok exporter, w) =>
          match described settings.(ServiceName) settings.(ServiceVersion) with
          | Err err => (Err (not_described err), w)
          | Ok resource => let '(p, w) := new_provider exporter resource settings.(AWS) w in (Ok p, w)
          end
      end
  end.

Definition flusherFor (p : Provider) (w : W) : option error * W :=
  let '(err, w) := ForceFlush p w in (not_flushed <$> err, w).

(** [Configure]: whether anything was installed. *)
Definition Configure (env : string → string) (g : globals) (w : W) : result error bool * globals * W :=
  let settings := ReadSettings env in
  if negb settings.(SettingsEnabled) then (Ok false, g, w)
  else match providerFor settings w with
       | (Err err, w) => (Err err, g, w)
       | (Ok p, w) =>
           (Ok true, MkGlobals (Some p) (Some (propagatorFor settings)) g.(otel_tracer)
                       (SetFlusher g.(flusher) (Some (flusherFor p))), w)
       end.

(** [init]: the tracer is installed, and what went wrong is written to the standard error. *)
Definition init (env : string → string) (g : globals) (w : W) : option string * globals * W :=
  let g := MkGlobals g.(provider) g.(propagators) true g.(flusher) in
  match Configure env g w with
  | (Err err, g, w) => (Some (error_text err +:+ newline), g, w)
  | (Ok _, g, w) => (None, g, w)
  end.

(** *** Spans *)

(** [otel.Tracer(scope).Start], on the provider there is when it is called; and a span's own
    methods: its status can be set to an error, and its context is that of a span that is
    recorded, or none. *)
Context (start : option Provider → string → Ctx → string → list keyValue → W → (Ctx * OSpan) * W).
Context (set_attributes : OSpan → list keyValue → W → W) (record_error : OSpan → error → W → W).
Context (set_status : OSpan → string → W → W) (end_span : OSpan → W → W).
Context (span_context : OSpan → option (string * string)).

(** [New]: the tracer, over the process and the world. *)
Definition New : Tracer (globals * W) := {|
  Span := OSpan;
  Start c name attrs w :=
    let '(started, w') := start w.1.(provider) scope_ c name (convert attrs) w.2 in (started, (w.1, w'));
  SetAttributes span attrs w := (w.1, set_attributes span (convert attrs) w.2);
  RecordError span err w := (w.1, set_status span (error_text err) (record_error span err w.2));
  End_ span w := (w.1, end_span span w.2);
  SpanOf span := match span_context span with Some (t, s) => MkSpanContext t s | None => MkSpanContext "" "" end;
|}.

(** What OpenTelemetry puts in a context is under a key of its own. *)
Lemma New_laws :
  (∀ p c name attrs w c' s w', start p scope_ c name attrs w = ((c', s), w') →
    c'.(ctxEvent) = c.(ctxEvent) ∧ c'.(ctxIdentity) = c.(ctxIdentity) ∧
    c'.(ctxTrace) = c.(ctxTrace) ∧ c'.(ctxLogger) = c.(ctxLogger) ∧
    c'.(ctxDeadline) = c.(ctxDeadline) ∧ c'.(ctxSender) = c.(ctxSender)) → @TracerLaws _ New.
Proof using Type.
  intros start_keeps. split. intros c name attrs [g w] c' s w'. cbn.
  destruct (start _ _ _ _ _ _) as [[c0 s0] w0] eqn:E. intros [= <- <- <-]. by eapply start_keeps.
Qed.

(** A span of a failed call has the error's event and its status, and one of any other has
    neither; either way it is ended, last. *)
Lemma a_failed_call_is_marked {A} c name attrs (fn : Ctx → OSpan → globals * W → outcome A * (globals * W)) g w :
  let '((c', span), w1) := start g.(provider) scope_ c name (convert attrs) w in
  let '(o, (g', w2)) := fn c' span (g, w1) in
  @Traced _ A New c name attrs fn (g, w) =
    (o, (g', end_span span
               match o with Returned _ (Some err) => set_status span (error_text err) (record_error span err w2)
                          | _ => w2 end)).
Proof using Type.
  unfold Traced. cbn. destruct (start _ _ _ _ _ _) as [[c' span] w1].
  destruct (fn c' span (g, w1)) as [[a [err|]|v] [g' w2]]; reflexivity.
Qed.

(** ** What is installed goes together *)

Lemma providerFor_fails settings w err w' :
  providerFor settings w = (Err err, w') →
  (∃ cause, err = endpointError settings.(SettingsEndpoint) cause) ∨ (∃ cause, err = not_described cause).
Proof using Type.
  unfold providerFor. destruct (parse_url _); [intros [= <- _]; eauto|].
  destruct (new_exporter _ _) as [[exporter|] w1]; [|intros [= <- _]; eauto].
  destruct (described _ _); [|intros [= <- _]; eauto]. by destruct (new_provider _ _ _ _).
Qed.

(** Importing the package installs its tracer whatever happens, and the rest together or not
    at all: where the environment asks for exporting and a provider can be made of it, that
    provider, propagators with X-Ray's among them exactly where its ids are X-Ray's, and a
    flusher that hands over what that provider holds; where it cannot, or is not asked for,
    what was installed is as it was, and only what failed is written. *)
Lemma installed_together env g w :
  let settings := ReadSettings env in
  let '(said, g', w') := init env g w in
  g'.(otel_tracer) = true ∧
  if negb settings.(SettingsEnabled) then said = None ∧ w' = w ∧ g' = MkGlobals g.(provider) g.(propagators) true g.(flusher)
  else (∃ err, said = Some (error_text err +:+ newline) ∧ providerFor settings w = (Err err, w') ∧
          g' = MkGlobals g.(provider) g.(propagators) true g.(flusher)) ∨
       (∃ p exporter resource w1 w2, said = None ∧
          new_exporter settings.(SettingsEndpoint) w = (Ok exporter, w1) ∧
          new_provider exporter resource settings.(AWS) w1 = (p, w2) ∧ w' = w2 ∧ g'.(provider) = Some p ∧
          (∃ l, g'.(propagators) = Some l ∧ PTraceContext ∈ l ∧ (PXRay ∈ l ↔ settings.(AWS) = true)) ∧
          ∀ w3, Flush g'.(flusher) w3 = flusherFor p w3).
Proof using Type.
  cbn zeta. unfold init, Configure. set (settings := ReadSettings env).
  destruct settings.(SettingsEnabled); cbn [negb]; [|done].
  destruct (providerFor settings w) as [[p|err] w'] eqn:E; (split; [done|]); [right|left; by exists err].
  unfold providerFor in E. destruct (parse_url _); [done|].
  destruct (new_exporter _ _) as [[exporter|] w1]; [|done]. destruct (described _ _) as [resource|]; [|done].
  destruct (new_provider exporter resource settings.(AWS) w1) as [p' w2] eqn:Hp. injection E as -> ->.
  exists p, exporter, resource, w1, w'. split_and!; [done..| |done].
  eexists. split; [done|]. unfold propagatorFor. destruct settings.(AWS); set_solver.
Qed.

(** A provider an application installs of its own, after this one, is what spans are started
    on: it is looked up by each. *)
Lemma a_later_provider_wins env g w p c name attrs :
  let '(_, g', w') := init env g w in
  let g'' := MkGlobals (Some p) g'.(propagators) g'.(otel_tracer) g'.(flusher) in
  (@Start _ New c name attrs (g'', w')).1 = (start (Some p) scope_ c name (convert attrs) w').1.
Proof using Type.
  destruct (init env g w) as [[said g'] w']. cbn. by destruct (start _ _ _ _ _ _).
Qed.
End setup.

(** ** What a deployment configures *)

(** The first variable that says anything is what is used, trimmed; the default only where
    none does. *)
Lemma firstSet_spec env fallback names :
  match List.find (λ name, negb (bool_decide (TrimSpace (env name) = ""))) names with
  | Some name => firstSet env fallback names = TrimSpace (env name)
  | None => firstSet env fallback names = fallback
  end.
Proof.
  induction names as [|name names IH]; cbn; [done|]. by case_bool_decide.
Qed.

(** Where core runs on AWS, a trace begun here has an id X-Ray takes; the converse fails, as
    any platform whose name begins with it counts. *)
Lemma aws_is_aws env : CurrentPlatform env = PlatformAWS → AWS (ReadSettings env) = true.
Proof.
  unfold CurrentPlatform. cbn [ReadSettings AWS]. change platformEnvVar with PlatformEnvVar.
  case_bool_decide; [|done]. by intros ->.
Qed.

Lemma not_only_aws : let env _ := "aws-outposts" in
  CurrentPlatform env ≠ PlatformAWS ∧ AWS (ReadSettings env) = true.
Proof. by vm_compute. Qed.
