(* ===== verification/AwsTracing.v ===== *)
(** * A span per attempt of an AWS call

    Models the middleware of [resources/aws/internal/service/tracing.go], and proves what a
    call that is retried leaves in a recorder: the AWS SDK's own retrying is a parameter, and
    so is everything under the middleware. *)

From S2P Require Import Prelude GoStrings Json Errors Status Handler Values Store Config Resources Batch Bucket RedisCache S3 Contracts Layer Traced Recording.
From stdpp Require Import options.

Definition spanName (service operation : string) : string :=
  if bool_decide (service = "") then "AWS.Unknown"
  else if bool_decide (operation = "") then service
  else service +:+ "." +:+ operation.

Definition callAttrs (service operation : string) : list Attr :=
  [String_ "rpc.system" "aws-api"; String_ "rpc.service" service; String_ "rpc.method" operation].

Definition statusText (code : Z) : string :=
  let text := StatusText code in if bool_decide (text = "") then itoa code else text.

Section tracing.
Context {Input Output Metadata : Type}.
(** What the AWS SDK keeps in a context and in what it answered: the service and operation a
    call is of, the request's id, and the status of a response that is HTTP's. *)
Context (GetServiceID GetOperationName : Ctx → string).
Context (GetRequestIDMetadata : Metadata → option string) (status_code : Output → option Z).

Definition outcomeAttrs (metadata : Metadata) (out : Output) : list Attr :=
  match GetRequestIDMetadata metadata with Some id => [String_ "aws.request_id" id] | None => [] end ++
  match status_code out with
  | Some code => [Int_ "http.response.status_code" code; String_ "http.response.status" (statusText code)]
  | None => []
  end.

(** What a handler of the stack's deserialize step answers. *)
Abbreviation handler W := (Ctx → Input → W → outcome (Output * Metadata) * W).

(** [HandleDeserialize]. *)
Definition HandleDeserialize {W} `{Tracer W} (next : handler W) : handler W := λ c input w,
  let service := GetServiceID c in let operation := GetOperationName c in
  Traced c (spanName service operation) (callAttrs service operation) (λ c span w,
    match next c input w with
    | (Returned (out, md) err, w) => (Returned (out, md) err, SetAttributes span (outcomeAttrs md out) w)
    | (Panicked v, w) => (Panicked v, w)
    end) w.

(** ** Attempts *)

(** The retrying above the middleware: an attempt, and where [again] says so of what it came
    to, waiting included, one more, of as many as there may be.  The last answer is the call's. *)
Fixpoint attempts {W A} (most : nat) (again : A → W → option W) (attempt : W → A * W) (w : W) : list A * W :=
  let '(a, w) := attempt w in
  match most with
  | O => ([a], w)
  | S most =>
      match again a w with
      | None => ([a], w)
      | Some w => let '(l, w) := attempts most again attempt w in (a :: l, w)
      end
  end.

(** What a world is beside a recorder. *)
Definition beside_recorder {W} (next : handler W) : handler (Recorder * W) := λ c input w,
  let '(o, w') := next c input w.2 in (o, (w.1, w')).
Definition again_beside {W A} (again : A → W → option W) : A → Recorder * W → option (Recorder * W) :=
  λ a w, pair w.1 <$> again a w.2.

(** A recorder once an attempt has been made. *)
Definition attempt_attrs (o : outcome (Output * Metadata)) : list Attr :=
  match o with Returned (out, md) _ => outcomeAttrs md out | Panicked _ => [] end.
Definition attempt_span (c : Ctx) (r : Recorder) (o : outcome (Output * Metadata)) : RecordedSpan :=
  let service := GetServiceID c in let operation := GetOperationName c in
  closed (open_span c (spanName service operation) (callAttrs service operation) r) (attempt_attrs o) (outcome_error o).
Definition attempted (c : Ctx) (r : Recorder) (o : outcome (Output * Metadata)) : Recorder :=
  started r (attempt_span c r o).

Lemma alter_last {A} (f : A → A) (l : list A) a : alter f (length l) (l ++ [a]) = l ++ [f a].
Proof. rewrite alter_app_r_alt by lia. by rewrite Nat.sub_diag. Qed.

Section retried.
Context {W : Type} (next : handler W).
(** What is under the middleware has no use for the span above it. *)
Context (blind : ∀ c s input w, next (within c s) input w = next c input w).

Lemma one_attempt c input r w :
  let '(o, w') := next c input w in
  HandleDeserialize (beside_recorder next) c input (r, w) = (o, (attempted c r o, w')).
Proof using blind.
  unfold HandleDeserialize, Traced, beside_recorder. cbn [Start recording fst snd]. rewrite blind.
  destruct (next c input w) as [[[out md] [err|]|v] w']; cbn [SetAttributes RecordError End_ recording];
    rewrite ?at_span_twice; unfold at_span, started; cbn; rewrite alter_last; do 3 f_equal.
Qed.

Lemma every_attempt most again c input r w :
  let '(os, w') := attempts most again (next c input) w in
  attempts most (again_beside again) (HandleDeserialize (beside_recorder next) c input) (r, w) =
    (os, (foldl (attempted c) r os, w')).
Proof using blind.
  revert r w. induction most as [|most IH]; intros r w; cbn [attempts]; pose proof (one_attempt c input r w) as H1;
    destruct (next c input w) as [o w']; rewrite H1; [done|].
  unfold again_beside at 1. cbn. destruct (again o w') as [w2|]; [|done]. cbn.
  specialize (IH (attempted c r o) w2). destruct (attempts most again (next c input) w2) as [os w3].
  by rewrite IH.
Qed.

Lemma attempted_spans c r os :
  ∃ spans, (foldl (attempted c) r os).(heap) = r.(heap) ++ spans ∧
    (foldl (attempted c) r os).(recorded) = r.(recorded) ++ seq (length r.(heap)) (length os) ∧
    Forall2 (λ s o, s.(spName) = spanName (GetServiceID c) (GetOperationName c) ∧ s.(spEnded) = true ∧
      s.(spParent) = match c.(ctxSpan) with Some (parent, _) => parent | None => "" end ∧
      s.(spAttrs) = callAttrs (GetServiceID c) (GetOperationName c) ++ attempt_attrs o ∧
      s.(spErr) = outcome_error o) spans os.
Proof using Type.
  revert r. induction os as [|o os IH]; intros r; cbn.
  - exists []. by rewrite !app_nil_r.
  - destruct (IH (attempted c r o)) as (spans & Hh & Hr & Hs). exists (attempt_span c r o :: spans).
    rewrite Hh, Hr. cbn. rewrite length_app, <- !app_assoc. cbn. rewrite Nat.add_1_r.
    split_and!; [done..|]. by constructor.
Qed.

(** C21: a span per attempt.  However a call to AWS is retried, tracing it changes nothing of
    what any attempt answers, of which are made and of what they do; and it leaves one span
    for each, in order, all under the span of the operation that asked: ended, with the call's
    name, what that attempt's response said, and its own error where it failed. *)
Theorem a_span_per_attempt most again c input r w :
  let '(os, w') := attempts most again (next c input) w in
  let '(os', (r', w'')) :=
    attempts most (again_beside again) (HandleDeserialize (beside_recorder next) c input) (r, w) in
  os' = os ∧ w'' = w' ∧
  ∃ spans, r'.(heap) = r.(heap) ++ spans ∧ r'.(recorded) = r.(recorded) ++ seq (length r.(heap)) (length os) ∧
    Forall2 (λ s o, s.(spName) = spanName (GetServiceID c) (GetOperationName c) ∧ s.(spEnded) = true ∧
      s.(spParent) = match c.(ctxSpan) with Some (parent, _) => parent | None => "" end ∧
      s.(spAttrs) = callAttrs (GetServiceID c) (GetOperationName c) ++ attempt_attrs o ∧
      s.(spErr) = outcome_error o) spans os.
Proof using blind.
  pose proof (every_attempt most again c input r w) as H.
  destruct (attempts most again (next c input) w) as [os w']. rewrite H.
  split_and!; [done..|]. apply attempted_spans.
Qed.
End retried.
End tracing.

(** A table that throttles a call twice, and answers the third. *)
Definition throttled : Ctx → () → nat → outcome (Z * string) * nat := λ _ _ n,
  (if n <? 2 then Returned (429%Z, "r-" +:+ itoa (Z.of_nat n)) (Some (EString "throttled")) else Returned (200%Z, "r-2") None, S n).
Definition retry_errors (o : outcome (Z * string)) (n : nat) : option nat :=
  match o with Returned _ (Some _) => Some n | _ => None end.

Lemma a_span_per_attempt_witness :
  let c := WithSpan Background ("celerity.datastore.get", "trace-1") in
  let '(_, (r, _)) := attempts 3 (again_beside retry_errors)
    (HandleDeserialize (λ _, "DynamoDB") (λ _, "GetItem") Some Some (beside_recorder throttled) c ()) (no_spans, 0) in
  length r.(heap) = 3 ∧
  (λ s, (s.(spName), last s.(spAttrs), is_some s.(spErr))) <$> r.(heap) =
    [("DynamoDB.GetItem", Some (String_ "http.response.status" "Too Many Requests"), true);
     ("DynamoDB.GetItem", Some (String_ "http.response.status" "Too Many Requests"), true);
     ("DynamoDB.GetItem", Some (String_ "http.response.status" "OK"), false)].
Proof.
  intros c.
  pose proof (a_span_per_attempt (λ _, "DynamoDB") (λ _, "GetItem") Some Some throttled (λ _ _ _ _, eq_refl)
    3 retry_errors c () no_spans 0) as H.
  revert H. vm_compute. intros (_ & _ & spans & Hh & _ & Hs). split; [|reflexivity].
  apply Forall2_length in Hs. rewrite <- Hh in Hs. exact Hs.
Defined.
