(* ===== verification/DevSession.v ===== *)
(** * The handles of a development session

    Models what a session's backends register ([resources/local/internal/backend/registry.go])
    and its provider ([resources/local/local.go]), and composes it with the other parts a
    handle comes through: the registry and the taking of a handle ([Resources]), the provider
    of a deployment on AWS ([AwsProvider]) and delegation ([LocalSession]). *)

From S2P Require Import Prelude GoStrings Json Errors Config AwsProvider LocalSession Resources.
From stdpp Require Import options.

(** [local.Name] and [Provider.Detect]. *)
Definition LocalName : string := "local".
Definition LocalDetect (env : string → string) : bool := bool_decide (CurrentPlatform env = PlatformLocal).

Section session.
(** A client of any kind. *)
Context {W C : Type}.
Abbreviation Provider := (Provider (W := W) (C := C)).
Abbreviation Builder := (Ref → result error C).

(** What the backends linked have registered. *)
Record backends : Type := MkBackends {
  queues : option Builder;
  topics : option Builder;
  releasers : list (W → option error * W);
}.

Definition RegisterQueue (b : backends) (f : Builder) : backends := MkBackends (Some f) b.(topics) b.(releasers).
Definition RegisterTopic (b : backends) (f : Builder) : backends := MkBackends b.(queues) (Some f) b.(releasers).
Definition RegisterReleaser (b : backends) (release : W → option error * W) : backends :=
  MkBackends b.(queues) b.(topics) (b.(releasers) ++ [release]).

Definition or_missing (kind : string) (f : option Builder) : result error Builder :=
  match f with None => Err (missing_backend kind) | Some f => Ok f end.
Definition Queues (b : backends) : result error Builder := or_missing KindQueue b.(queues).
Definition Topics (b : backends) : result error Builder := or_missing KindTopic b.(topics).

(** [Release]: every releaser is called, and what failed is joined. *)
Fixpoint release_all (rs : list (W → option error * W)) (w : W) : list error * W :=
  match rs with
  | [] => ([], w)
  | release :: rs =>
      let '(err, w) := release w in
      let '(errs, w) := release_all rs w in
      (option_list err ++ errs, w)
  end.
Definition ReleaseBackends (b : backends) (w : W) : option error * W :=
  let '(errs, w) := release_all b.(releasers) w in
  (match errs with [] => None | errs => Some (EJoin errs) end, w).

(** [fallback]: the provider a test stands in, or another one linked. *)
Definition fallback (stood_in : option Provider) (linked : list Provider) : option Provider :=
  match stood_in with Some p => Some p | None => FallbackProvider linked LocalName end.

(** [Queue] and [Topic]; [Bucket], [Cache], [Datastore] and [SQLDatabase]. *)
Definition local_build (b : backends) (stood_in : option Provider) (linked : list Provider) : Builder := λ ref,
  if bool_decide (ref.(RefKind) = KindQueue) then serve_local b.(queues) KindQueue ref
  else if bool_decide (ref.(RefKind) = KindTopic) then serve_local b.(topics) KindTopic ref
  else delegate None (provider_build <$> fallback stood_in linked) ref.

(** [Provider]: itself one of the providers linked, the others of which it falls back on. *)
Definition local_provider (env : string → string) (b : backends) (stood_in : option Provider)
    (linked : list Provider) : Provider :=
  MkProvider LocalName (Some (λ _, LocalDetect env)) (Some (ReleaseBackends b)) (local_build b stood_in linked).

(** ** What the parts come to *)

Lemma serve_local_spec (f : option Builder) kind ref :
  serve_local f kind ref = match or_missing kind f with Ok build => build ref | Err err => Err err end.
Proof using Type. by destruct f. Qed.

(** Falling back never comes to the session's own provider, so that what it is made of does
    not matter to it. *)
Lemma fallback_ignores (local : Provider) before after :
  local.(provider_name) = LocalName →
  FallbackProvider (before ++ local :: after) LocalName = FallbackProvider (before ++ after) LocalName.
Proof using Type.
  intros Hl. unfold FallbackProvider. induction before as [|p before IH]; cbn.
  - destruct (decide (provider_name local ≠ LocalName)); [done|]. by destruct (list_find _ after) as [[]|].
  - destruct (decide (provider_name p ≠ LocalName)); [done|].
    destruct (list_find _ (before ++ local :: after)) as [[]|], (list_find _ (before ++ after)) as [[]|]; cbn in *; congruence.
Qed.

Lemma release_all_spec rs w :
  (release_all rs w).2 = foldl (λ w release, (release w).2) w rs ∧
  ((release_all rs w).1 = [] → ∀ i release, rs !! i = Some release →
     (release (foldl (λ w release, (release w).2) w (firstn i rs))).1 = None).
Proof using Type.
  revert w. induction rs as [|release rs IH]; intros w; cbn; [done|].
  destruct (release w) as [err w1] eqn:E. specialize (IH w1). destruct (release_all rs w1) as [errs w2]. cbn in *.
  split; [apply IH|]. intros [Herr Herrs]%app_eq_nil [|i] r Hr; cbn in *.
  - injection Hr as <-. rewrite E. by destruct err.
  - rewrite E. by apply IH.
Qed.

(** Closing the provider reaches every backend, and says nothing only where none failed. *)
Lemma closing_reaches_every_backend b w :
  (ReleaseBackends b w).2 = foldl (λ w release, (release w).2) w b.(releasers) ∧
  ((ReleaseBackends b w).1 = None → ∀ i release, b.(releasers) !! i = Some release →
     (release (foldl (λ w release, (release w).2) w (firstn i b.(releasers)))).1 = None).
Proof using Type.
  unfold ReleaseBackends. pose proof (release_all_spec b.(releasers) w) as [Hw He].
  destruct (release_all _ w) as [[|err errs] w']; cbn in *; (split; [done|]); [|done]. intros _. by apply He.
Qed.

(** ** A session and a deployment *)

(** What a session's build links: the session's provider and the platform's. *)
Section linked.
Context (env : string → string) (b : backends) (platform : Provider).
Context (named : platform.(provider_name) = ProviderName).
Context (detecting : platform.(provider_detect) = Some (λ _, Detect env)).

Definition session_provider : Provider := local_provider env b None [platform].

(** What was built, or the error it is reported with. *)
Definition taken (h : Host (W := W) (C := C)) (traced : Ref → C → C) (ref : Ref) (built : result error C) :
    option C * Host :=
  let h := RecordResourceRef h ref.(RefKind) ref.(RefName) in
  match built with
  | Ok client => (Some (traced ref client), h)
  | Err err => (None, ResourceError h (inr (EWrap ("building " +:+ ref_text ref +:+ ": " +:+ error_text err) err)))
  end.

Lemma resolve_taken ps h w kind name traced p :
  providerFor ps h w = Some p →
  resolve ps h w kind name traced =
    taken h traced (MkRef kind (resolved_name name)) (p.(provider_build) (MkRef kind (resolved_name name))).
Proof using Type.
  intros Hp. unfold resolve.
  change (providerFor ps (RecordResourceRef h kind (resolved_name name)) w) with (providerFor ps h w).
  rewrite Hp. reflexivity.
Qed.

(** Which of the two is found does not depend on the order they were linked in. *)
Lemma detected_either_way ps w :
  ps ≡ₚ [session_provider; platform] →
  DetectedProvider ps w =
    if bool_decide (CurrentPlatform env = PlatformLocal) then Some session_provider
    else if bool_decide (CurrentPlatform env = PlatformAWS) then Some platform else None.
Proof using detecting.
  intros Hps%symmetry. apply Permutation_length_2_inv in Hps as [-> | ->]; unfold DetectedProvider; cbn;
    unfold detects; rewrite detecting; cbn; unfold LocalDetect, Detect.
  - case_bool_decide; cbn; [done|]. by case_bool_decide.
  - assert (CurrentPlatform env = PlatformAWS → CurrentPlatform env ≠ PlatformLocal) as Hne by (by intros ->).
    repeat (case_bool_decide; cbn; try done). all: tauto.
Qed.

(** What the session's provider falls back on is the platform's, though it is among what is
    linked itself. *)
Lemma falls_back_on_the_platform ps :
  ps ≡ₚ [session_provider; platform] →
  FallbackProvider ps LocalName = Some platform ∧ local_build b None ps = local_build b None [platform].
Proof using named.
  intros Hps%symmetry.
  assert (FallbackProvider ps LocalName = Some platform ∧ FallbackProvider [platform] LocalName = Some platform)
    as [H1 H2].
  { apply Permutation_length_2_inv in Hps as [-> | ->]; unfold FallbackProvider; cbn; by rewrite named. }
  split; [done|]. unfold local_build, fallback. by rewrite H1, H2.
Qed.

(** What a session makes of a reference: a queue or a topic of the backend linked for it, or
    the import that is missing; of any other kind what the platform's provider does. *)
Definition session_built (ref : Ref) : result error C :=
  let served (f : result error Builder) := match f with Ok build => build ref | Err err => Err err end in
  if bool_decide (ref.(RefKind) = KindQueue) then served (Queues b)
  else if bool_decide (ref.(RefKind) = KindTopic) then served (Topics b)
  else platform.(provider_build) ref.

Lemma session_builds ref : session_provider.(provider_build) ref = session_built ref.
Proof using named.
  cbn. unfold local_build, session_built, Queues, Topics. rewrite !serve_local_spec.
  do 2 (case_bool_decide; [done|]). unfold fallback, FallbackProvider. cbn. by rewrite named.
Qed.

(** C18: the same application, developed and deployed.  In a build that links a session's
    provider and the platform's, in either order, every handle an application takes is
    recorded, traced for its reference, and served: in a development session a queue and a
    topic by the session's backend and every other kind by the platform's provider; deployed
    on the platform every kind by the platform's provider alone.  What cannot be made is
    reported once with what stood in its way, and on neither platform nothing is guessed: the
    handle is reported as having no provider, naming the two that are linked. *)
Theorem developed_and_deployed ps h w kind name traced :
  ps ≡ₚ [session_provider; platform] → h.(ResourceProvider) = None → h.(Extracting) = false →
  let ref := MkRef kind (resolved_name name) in
  resolve ps h w kind name traced =
    if bool_decide (CurrentPlatform env = PlatformLocal) then taken h traced ref (session_built ref)
    else if bool_decide (CurrentPlatform env = PlatformAWS) then taken h traced ref (platform.(provider_build) ref)
    else (None, ResourceError (RecordResourceRef h kind (resolved_name name))
                  (inl (MkMissing kind (resolved_name name) [ProviderName; LocalName]))).
Proof using named detecting.
  intros Hps Hh He ref. pose proof (detected_either_way ps w Hps) as Hd.
  assert (providerFor ps h w = DetectedProvider ps w) as Hp by (unfold providerFor; by rewrite Hh).
  rewrite Hd in Hp. repeat case_bool_decide.
  - rewrite (resolve_taken _ _ _ _ _ _ _ Hp), session_builds. done.
  - by rewrite (resolve_taken _ _ _ _ _ _ _ Hp).
  - unfold resolve.
    change (providerFor ps (RecordResourceRef h kind (resolved_name name)) w) with (providerFor ps h w).
    rewrite Hp. cbn. rewrite He. do 4 f_equal.
    symmetry in Hps. apply Permutation_length_2_inv in Hps as [-> | ->]; unfold RegisteredProviders; cbn;
      rewrite named; reflexivity.
Qed.
End linked.
End session.

(** An application whose session runs Redis for its queues and links nothing for a topic, and
    which reaches a platform's store. *)
Definition a_platform : Provider (W := ()) (C := string) :=
  MkProvider ProviderName (Some (λ _, Detect (λ _, "Local"))) None (λ ref, Ok ("aws " +:+ ref_text ref)).
Definition redis_queues : backends (W := ()) (C := string) :=
  RegisterQueue (MkBackends None None []) (λ ref, Ok ("redis " +:+ ref_text ref)).
Definition no_handles : Host (W := ()) (C := string) := MkHost None false [] [].

Lemma developed_and_deployed_witness :
  let ps := [a_platform; session_provider (λ _, "Local") redis_queues a_platform] in
  let take_ h kind := resolve ps h () kind ["orders"] (λ _ c, "traced " +:+ c) in
  let '(queue, h) := take_ no_handles KindQueue in
  let '(store, h) := take_ h KindDatastore in
  let '(topic, h) := take_ h KindTopic in
  queue = Some ("traced redis " +:+ ref_text (MkRef KindQueue "orders")) ∧
  store = Some ("traced aws " +:+ ref_text (MkRef KindDatastore "orders")) ∧ topic = None ∧
  length h.(resource_errors) = 1.
Proof.
  intros ps take_.
  assert (∀ h kind, h.(ResourceProvider) = None → h.(Extracting) = false → take_ h kind =
    taken h (λ _ c, "traced " +:+ c) (MkRef kind "orders")
      (session_built redis_queues a_platform (MkRef kind "orders"))) as H.
  { intros h kind Hp He. unfold take_.
    rewrite (developed_and_deployed (λ _, "Local") redis_queues a_platform eq_refl eq_refl ps h () kind ["orders"] _
      (Permutation_swap _ _ []) Hp He). reflexivity. }
  clearbody take_. rewrite H by reflexivity. lazy. rewrite H by reflexivity. lazy.
  rewrite H by reflexivity. lazy. split_and!; reflexivity.
Defined.
