(* ===== verification/Handles.v ===== *)
(** * Handles of every kind

    Models [Bucket], [Queue], [Topic], [Cache], [Datastore] and [SQLDatabase] of
    [resources/handles.go]: a handle is taken as [Resources] says, and what the provider built
    is wrapped by the tracing of its kind ([Traced]).  What a provider builds is of the kind it
    is asked for, as its methods' types say in Go. *)

From S2P Require Import Prelude GoStrings Json Errors Handler Values Store Config Resources Batch Bucket RedisCache Contracts Layer Traced.
From stdpp Require Import options.

Section handles.
Context {W R S T F Q V C D : Type} `{Tracer W}.

(** What a provider builds. *)
Inductive built : Type :=
  | ABucket (c : client W (bucket_op R S))
  | AQueue (c : client W queue_op)
  | ATopic (c : client W topic_op)
  | ACache (c : client W (cache_op F Q V C)) (scan : Ctx → W → Seq W * W)
  | ADatastore (c : client W (datastore_op T))
  | ADatabase (c : client W (sql_op D)).

Definition kind_of (b : built) : string :=
  match b with
  | ABucket _ => KindBucket | AQueue _ => KindQueue | ATopic _ => KindTopic | ACache _ _ => KindCache
  | ADatastore _ => KindDatastore | ADatabase _ => KindSQLDatabase
  end.

(** [tracedBucket] and the others, over what was built. *)
Definition wrap (ref : Ref) (b : built) : built :=
  match b with
  | ABucket c => ABucket (traced ref c)
  | AQueue c => AQueue (traced ref c)
  | ATopic c => ATopic (traced ref c)
  | ACache c scan => ACache (traced ref c) (traced_scan ref scan)
  | ADatastore c => ADatastore (traced ref c)
  | ADatabase c => ADatabase (traced ref c)
  end.

Abbreviation Provider := (Provider (W := W) (C := built)).
Abbreviation Host := (Host (W := W) (C := built)).

Definition handle {X} (kind : string) (as_ : built → option X) (ps : list Provider) (h : Host) (w : W)
    (name : list string) : option X * Host :=
  let '(b, h) := resolve ps h w kind name wrap in (b ≫= as_, h).

Definition as_bucket (b : built) : option (client W (bucket_op R S)) := match b with ABucket c => Some c | _ => None end.
Definition as_queue (b : built) : option (client W queue_op) := match b with AQueue c => Some c | _ => None end.
Definition as_topic (b : built) : option (client W topic_op) := match b with ATopic c => Some c | _ => None end.
Definition as_cache (b : built) : option (client W (cache_op F Q V C) * (Ctx → W → Seq W * W)) :=
  match b with ACache c scan => Some (c, scan) | _ => None end.
Definition as_datastore (b : built) : option (client W (datastore_op T)) := match b with ADatastore c => Some c | _ => None end.
Definition as_database (b : built) : option (client W (sql_op D)) := match b with ADatabase c => Some c | _ => None end.

Definition Bucket := handle KindBucket as_bucket.
Definition Queue := handle KindQueue as_queue.
Definition Topic := handle KindTopic as_topic.
Definition Cache := handle KindCache as_cache.
Definition Datastore := handle KindDatastore as_datastore.
Definition SQLDatabase := handle KindSQLDatabase as_database.

(** ** A handle is traced, or there is none *)

(** A provider's methods answer what their types say. *)
Definition typed (p : Provider) : Prop := ∀ ref b, p.(provider_build) ref = Ok b → kind_of b = ref.(RefKind).

(** What a kind's methods answer is that kind's, and stays so when it is wrapped. *)
Class AsKind {X} (kind : string) (as_ : built → option X) : Prop :=
  as_kind : ∀ b, kind_of b = kind → is_Some (as_ b).

#[export] Instance as_bucket_kind : AsKind KindBucket as_bucket.
Proof. by intros []. Qed.
#[export] Instance as_queue_kind : AsKind KindQueue as_queue.
Proof. by intros []. Qed.
#[export] Instance as_topic_kind : AsKind KindTopic as_topic.
Proof. by intros []. Qed.
#[export] Instance as_cache_kind : AsKind KindCache as_cache.
Proof. by intros []. Qed.
#[export] Instance as_datastore_kind : AsKind KindDatastore as_datastore.
Proof. by intros []. Qed.
#[export] Instance as_database_kind : AsKind KindSQLDatabase as_database.
Proof. by intros []. Qed.

Lemma wrap_kind ref b : kind_of (wrap ref b) = kind_of b.
Proof. by destruct b. Qed.

(** Whatever kind is asked for, a handle is what the provider built of that kind, traced for
    the reference it was asked for; and where there is none it was reported why, but where an
    application that only describes itself has no provider. *)
Lemma a_handle_is_traced {X} kind (as_ : built → option X) `{!AsKind kind as_} ps h w name :
  (∀ p, providerFor ps h w = Some p → typed p) →
  let '(x, h') := handle kind as_ ps h w name in
  let ref := MkRef kind (resolved_name name) in
  h'.(recorded_refs) = h.(recorded_refs) ++ [(kind, resolved_name name)] ∧
  match x with
  | Some x => h'.(resource_errors) = h.(resource_errors) ∧
      ∃ p b, providerFor ps h w = Some p ∧ p.(provider_build) ref = Ok b ∧ kind_of b = kind ∧ as_ (wrap ref b) = Some x
  | None => (∃ e, h'.(resource_errors) = h.(resource_errors) ++ [e]) ∨
      h'.(resource_errors) = h.(resource_errors) ∧ h.(Extracting) = true ∧ providerFor ps h w = None
  end.
Proof.
  intros Ht. unfold handle. pose proof (handle_or_error ps h w kind name wrap) as He.
  destruct (resolve ps h w kind name wrap) as [[b|] h']; cbn [mbind option_bind].
  - destruct He as (Hr & _ & Herr & p & b0 & Hp & Hb & ->). specialize (Ht p Hp _ _ Hb) as Hk. cbn in Hk.
    destruct (as_kind (wrap (MkRef kind (resolved_name name)) b0)) as [x Hx]; [by rewrite wrap_kind|].
    rewrite Hx. split; [done|]. split; [done|]. eauto 10.
  - by destruct He as (Hr & _ & Herr).
Qed.

(** A queue, for one, is the tracing client of the queue the provider built. *)
Lemma a_queue_is_traced ps h w name q h' :
  Queue ps h w name = (Some q, h') →
  ∃ p inner, providerFor ps h w = Some p ∧
    p.(provider_build) (MkRef KindQueue (resolved_name name)) = Ok (AQueue inner) ∧
    q = traced (MkRef KindQueue (resolved_name name)) inner.
Proof.
  unfold Queue, handle. pose proof (handle_or_error ps h w KindQueue name wrap) as He.
  destruct (resolve ps h w KindQueue name wrap) as [[b|] h0]; cbn [mbind option_bind]; [|done].
  destruct He as (_ & _ & _ & p & b0 & Hp & Hb & ->). intros [= Hq _]. destruct b0 as [|inner| | | |]; try done.
  injection Hq as <-. eauto.
Qed.
End handles.
